(* ===== verification/_CoqProject ===== *)
-Q . S2P
Prelude.v
Pack.v
PackDerive.v
MacroDerive.v
MacroDeriveTheory.v
PackTests.v
BitField.v
Frame.v
FrameTheory.v
Async.v
Executor.v
PendingTable.v
PendingTableTheory.v
CombinedPendingTable.v
CombinedPendingTableTheory.v
Pib.v
Services.v
DeviceQueue.v
DeviceQueueTheory.v
BiMap.v
DataService.v
DataServiceTheory.v
RadioRaw.v
RadioRawTheory.v
Radio.v
RadioTheory.v
RadioLink.v
RadioLinkTheory.v
RadioLinkDrains.v
Management.v
ManagementTheory.v
MacService.v
MacServiceTheory.v
MacActions.v
MacDelivery.v
RadioChannel.v
Main.v
Program.v
ProgramTheory.v
ProgramSettles.v
ProgramJoins.v
Cipher.v
Aes.v
CbcMac.v
MmoHash.v
CcmStar.v
CcmStarTheory.v
ParseSerialize.v
Security.v
SecurityTheory.v
Nwk.v
Aps.v
OldFrame.v
OldFrameTheory.v
MruSet.v
MruSetTheory.v
Bytes.v
SerialProtocol.v
SerialProtocolTheory.v
RawService.v
RawServiceTheory.v
BridgeService.v
BridgeServiceTheory.v
OldDeviceQueue.v
OldDeviceQueueTheory.v
DelayQueue.v
CacheMap.v
OldQueue.v
OldQueueTheory.v
OldQueueEffects.v
OldMacService.v
OldMacServiceTheory.v
OldMacServiceRun.v
OldMacServiceGuarantees.v
