(* ===== verification/Prelude.v ===== *)
(** * Verification of the Zigbee Rust playground

    The repository holds a Zigbee coordinator that talks to an 802.15.4 radio over a
    serial port. The current program is [src/src/] with its macros in
    [src/pack_derive/]; [src/old_src/] is the first version, of which the security and
    frame formats of Zigbee have no successor yet. Paths below are relative to [src/].

    ** The parts and the files that model them

    Each file models one source file or a group of them; a file [XTheory.v] holds the
    theorems of [X.v] where they are long. A [Module] carries the names of its component.

    The current program, from the bytes up:
    - [Prelude.v] (this file): Rust's [Result] and panics ([exec]), machine integers,
      slices, lists; [Async.v]: [Poll], wakers, unique keys and the polling context
      ([src/unique_key.rs], [src/waker_store.rs]); [Executor.v] (Exec): the tasks spawned and not yet
      ended ([src/async_std_executor.rs]).
    - [Pack.v], [PackDerive.v]: the packing traits with their targets, and what the derived
      code does ([src/pack/]); [MacroDerive.v] (Macro) and its theory: the macros that generate
      that code ([pack_derive/src/]). [PackLaws] is the contract that
      every implementation owes its clients. [PackTests.v] evaluates the crate's own tests.
    - [BitField.v], [Frame.v], [FrameTheory.v]: the MAC frames
      ([src/ieee802154/frame.rs]).
    - [RadioRaw.v], [Radio.v] and their theories: framing of messages on the serial port, the
      typed requests and responses, and the two tasks that match answers to requests
      ([src/radio/]); [RadioLink.v] (Link), [RadioLinkTheory.v], [RadioLinkDrains.v]: the service at
      one end of the serial port and a radio at the other.
    - [PendingTable.v] (PT), [CombinedPendingTable.v] (CPT): the host's copies of the
      radio's pending tables ([src/ieee802154/mac/pendingtable.rs],
      [combinedpendingtable.rs]).
    - [Pib.v], [Services.v]: the attributes, and the MCPS and MLME primitives
      ([src/ieee802154/pib.rs], [services/]).
    - [DeviceQueue.v] (DQ), [BiMap.v], [DataService.v] (DS): the queue of each device, and the
      data service that owns the queues, the clients' handles and the pending tables
      ([mac/devicequeue.rs], [mac/data.rs]).
    - [Management.v] (MGMT): MLME requests, association and beacons, and the mirroring of
      the PIB in the radio ([mac/management.rs]).
    - [MacService.v] (MAC): startup and the event loop that composes the parts above
      ([mac/service.rs]), with [MacActions.v] on the work it has left and [MacDelivery.v] on the way
      of one frame through it; [RadioChannel.v] (Chan): the MAC and the two tasks of the radio's
      service on the channels without room of [start_radio], where each waits for the other;
      [Main.v] (App): the application on top ([src/main.rs]).
    - [Program.v] (Program): the program, that is the main loop and the MAC with the channels between
      them, polled in any order ([main] and [mainloop] of [src/main.rs], [start] and [process] of
      [mac/service.rs]); [ProgramTheory.v], [ProgramSettles.v], [ProgramJoins.v]: its requests, how it
      comes to rest, and how a device joins it.

    The first version ([old_src/]):
    - [Cipher.v], [Aes.v]: the interface of block ciphers and key streams, and AES-128 as its
      instance; [CbcMac.v] (CBC), [MmoHash.v] (MMO), [CcmStar.v] (CCM), [Security.v] (Sec):
      [zigbee/security/].
    - [ParseSerialize.v]: the interface of the serialization traits, whose module is not in the
      repository; [Nwk.v], [Aps.v]: [zigbee/nwk/], [zigbee/aps/]; [OldFrame.v]:
      [ieee802154/mac/frame.rs].
    - [MruSet.v] (Mru): [mru_set.rs], [ieee802154/mac/mru_address_set.rs].
    - [Bytes.v]: the interface of byte buffers; [SerialProtocol.v] (Serial), [RawService.v]
      (OldRaw), [BridgeService.v] (Bridge): [radio_bridge/].
    - [OldDeviceQueue.v] (ODQ), [DelayQueue.v] (DelayQ), [OldQueue.v], [OldQueueEffects.v]: the queues of the old
      MAC and their timers ([ieee802154/mac/device_queue.rs], [queue.rs], [delayqueue.rs],
      [saved_waker.rs]); [CacheMap.v] (Cache): [cachemap.rs].
    - [OldMacService.v] (OldService): the service that composes the queues, the sets and the
      bridge, and the application's answers to its events ([ieee802154/mac/service.rs],
      [main.rs]); [OldMacServiceTheory.v] is about its calls and its start,
      [OldMacServiceRun.v] holds the invariant of a running service and how each operation
      keeps it, and [OldMacServiceGuarantees.v] the theorems.

    A struct is a [Record] of the same fields, an enum an [Inductive] with the same
    constructors, and a function or method a definition of the same name (with the type's
    name before it where two would clash). Methods on [&mut self] take the state last and
    return the new one. A panic is [Err Panic]; the theorems say where it can happen.

    ** What the theorems show

    - Round trips: packing and unpacking of frames, derived enums, raw messages, network
      frames, secured payloads; [codec_delivers] for the old serial protocol, with the one
      way of cutting its bytes that panics; [frame_unpack_sound] for what is accepted.
    - Refinement: the pending table is a bounded LRU set; the most-recently-used set is a
      recency list with a table of its newest elements.
    - Equivalence with references: CBC-MAC, the Matyas-Meyer-Oseas hash and CCM* are the
      formulas of their specifications, whatever the pieces of the input; decryption accepts
      exactly what encryption makes, but for messages too long without an integrity code
      ([ccm_accepts_exactly], [secured_accepts_exactly]); the code the
      derive macros generate does what the packing of the declaration is ([generated_code_correct]).
    - Invariants over every interleaving of the host's operations with an environment that
      refuses what it likes: an idle radio has the host's pending tables and the PIB's
      parameters; queues conserve their frames; requests reach the radio and their answers
      the requester through the bytes of the serial port ([radio_link_contract]); the pending
      bits are those of the indirect frames. In the first version: calls are answered by their own answers ([calls_answered]), frames are
      reported once, in order, and truthfully ([old_queue_reports], [old_queues_deliver]),
      and every expiring entry has one timer ([cache_map_step]) and no wake-up of the task that
      lets them expire is lost ([cache_wakes_its_task]).
    - Liveness and termination, with explicit numbers of steps: tables and parameters settle,
      queues drain ([radio_link_drains] for the serial port), every request is confirmed once its
      timers have run out, [poll_action] ends.
    - Composition: [mac_client_contract] and [mac_never_panics_but] hold of every step of the
      composed MAC in any environment: what it does for its clients, and all the ways in which it
      can panic or wait for ever; [data_request_served] that a sleeping device that asks is sent its
      frame, unless a channel on the way is closed or blocked. Of the
      program, whatever the order its tasks are polled in: [coordinator_runs] that its requests are
      granted and it is and stays the coordinator, [program_settles] that it comes to rest, and
      [device_admitted] that a device is let in, both with a silent radio whose service takes the
      requests it is sent. Whether it does is what [request_taken_or_deadlock] of [RadioChannel.v]
      decides: it can, in every state but one kind, in which the MAC, the request task and the
      response task wait for each other for ever; [deadlock_reached]: there is a way there. In the
      first version [old_service_invariants] and [old_service_never_panics_but] hold of every
      state of the service, [old_service_associates] of its addresses, and
      [old_sleeping_device_joins] follows a device from its request to the response it fetches.
    - Errors: the streams, parsers and requests that fail, and how.

    ** Bounds and fuel

    Loops that the code ends by itself are structural or carry fuel; each theorem names a
    bound that is enough (the number of bytes buffered for the raw stream, of actions for
    [poll_action], of blocks for the MACs, [poll_bound] for a
    poll of the old service, [program_work] for the program). Machine integers are kept in [Z]
    with their width where they are read or written; the arithmetic that can overflow is checked.

    ** Parameters

    Third-party code is an interface with laws and an instance that satisfies them: bit
    fields ([BitField.v]), the two-way map ([BiMap.v]), ciphers ([Cipher.v]), the parsers and
    writers of [nom] and [cookie_factory] ([RadioRaw.v]), the parsers of [syn] ([MacroDerive.v]), the old serialization traits
    ([ParseSerialize.v]), byte buffers ([Bytes.v]), the delay queue of [tokio]
    ([DelayQueue.v]) and the keyed hash of [hmac] ([Security.v]). What comes from outside
    (wakers, fresh keys, expired timers, the order of hash maps, random ids, the bytes of the
    port, the radio's answers) is an argument, and the theorems quantify over it.

    ** Not modelled

    The serial port and printing of the two [main.rs], and the task spawning of the old one: effects
    of libraries only. The generics and [where] clauses of the
    macros. [mac/radio_backed_param.rs] belongs to no
    module and does not parse. Of the first version [ackmap.rs] is an
    unimplemented stub. *)

From Stdlib Require Import ZArith Lia String.
From stdpp Require Export base numbers strings sets fin_maps gmap list.

#[local] Open Scope Z_scope.

(** ** Rust's [Result] *)

Inductive result (E A : Type) : Type :=
| Ok (a : A)
| Err (e : E).
Arguments Ok {E A} a.
Arguments Err {E A} e.

#[export] Instance result_ret E : MRet (result E) := fun A a => Ok a.
#[export] Instance result_bind E : MBind (result E) := fun A B f m =>
  match m with Ok a => f a | Err e => Err e end.
#[export] Instance result_fmap E : FMap (result E) := fun A B f m =>
  match m with Ok a => Ok (f a) | Err e => Err e end.

#[export] Instance result_eq_dec {E A} `{EqDecision E, EqDecision A} :
  EqDecision (result E A).
Proof. solve_decision. Defined.

Definition map_err {E F A} (f : E -> F) (m : result E A) : result F A :=
  match m with Ok a => Ok a | Err e => Err (f e) end.

Definition is_ok {E A} (m : result E A) : bool :=
  match m with Ok _ => true | Err _ => false end.

Lemma result_bind_Ok {E A B} (m : result E A) (f : A -> result E B) b :
  m ≫= f = Ok b <-> exists a, m = Ok a /\ f a = Ok b.
Proof.
  destruct m as [a|e]; cbn; split; [eauto|by intros (? & [= ->] & ?)|done|].
  by intros (? & ? & _).
Qed.

(** Decompose every hypothesis [m ≫= f = Ok b]. *)
Ltac bind_inv :=
  repeat match goal with
  | H : _ ≫= _ = Ok _ |- _ =>
      apply result_bind_Ok in H; destruct H as (? & ? & H)
  | x : _ * _ |- _ => destruct x
  | H : Ok _ = Ok _ |- _ => injection H as H; subst
  | H : Err _ = Ok _ |- _ => discriminate H
  | H : mret _ = Ok _ |- _ => injection H as H; subst
  end.

(** ** Panics and fuel

    A call that may panic ([unwrap], an index out of range, [assert!]) or that is
    a loop given fuel returns an [exec]; the theorems show when neither happens. *)
Inductive failure := Panic | OutOfFuel.
#[export] Instance failure_eq_dec : EqDecision failure.
Proof. solve_decision. Defined.
Abbreviation exec A := (result failure A).

(** [Option::unwrap] and indexing. *)
Definition unwrap {A} (o : option A) : exec A :=
  match o with Some a => Ok a | None => Err Panic end.

Lemma unwrap_Ok {A} (o : option A) a : unwrap o = Ok a <-> o = Some a.
Proof. destruct o; cbn; split; congruence. Qed.

(** [assert!] *)
Definition rust_assert (b : bool) : exec unit := if b then Ok tt else Err Panic.

(** A slice [s[a..b]] of a list, which panics out of range. *)
Definition slice_range {A} (a b : nat) (s : list A) : exec (list A) :=
  if decide (a <= b <= length s)%nat then Ok (take (b - a) (drop a s)) else Err Panic.
Lemma slice_range_Ok {A} a b (s : list A) :
  (a <= b <= length s)%nat -> slice_range a b s = Ok (take (b - a) (drop a s)).
Proof. intros. unfold slice_range. by rewrite decide_True. Qed.

(** [s[i] = x], which panics out of range. *)
Definition set_index {A} (i : nat) (x : A) (s : list A) : exec (list A) :=
  if decide (i < length s)%nat then Ok (<[i := x]> s) else Err Panic.

(** The loop [for i in 0..src.len() { dst[i + offset] = src[i] }]. *)
Fixpoint copy_into {A} (offset : nat) (src dst : list A) : exec (list A) :=
  match src with
  | [] => Ok dst
  | x :: src => dst ← set_index offset x dst; copy_into (S offset) src dst
  end.
Lemma copy_into_Ok {A} offset (src dst : list A) :
  (offset + length src <= length dst)%nat ->
  copy_into offset src dst = Ok (take offset dst ++ src ++ drop (offset + length src) dst).
Proof.
  revert offset dst. induction src as [|x src IH]; intros offset dst Hl; cbn in *.
  { by rewrite Nat.add_0_r, take_drop. }
  unfold set_index. rewrite decide_True by lia. cbn.
  rewrite IH by (rewrite length_insert; lia). f_equal.
  rewrite drop_insert_lt by lia. rewrite (take_S_r _ _ x) by (apply list_lookup_insert_eq; lia).
  rewrite take_insert_ge by done. rewrite <- (assoc_L (++)). cbn. do 4 f_equal. lia.
Qed.

(** Closes [rest `suffix_of` xs ++ ys ++ .. ++ rest]. *)
Ltac solve_suffix := repeat apply suffix_app_r; reflexivity.

(** ** Machine integers *)

(** [x] is a value of an unsigned integer type of [w] bits. *)
Definition in_width (w x : Z) : Prop := 0 <= x < 2 ^ w.
#[export] Instance in_width_dec w x : Decision (in_width w x).
Proof. unfold in_width. apply _. Defined.

Abbreviation bytes_ok := (Forall (in_width 8)).

(** [uN::to_le_bytes] and [uN::from_le_bytes] on [n] bytes, and the
    big-endian variants. *)
Fixpoint to_le_bytes (n : nat) (x : Z) : list Z :=
  match n with
  | O => []
  | S n => x mod 256 :: to_le_bytes n (x / 256)
  end.

Fixpoint from_le_bytes (bs : list Z) : Z :=
  match bs with
  | [] => 0
  | b :: bs => b + 256 * from_le_bytes bs
  end.

Definition to_be_bytes (n : nat) (x : Z) : list Z := reverse (to_le_bytes n x).
Definition from_be_bytes (bs : list Z) : Z := from_le_bytes (reverse bs).

Lemma length_to_le_bytes n x : length (to_le_bytes n x) = n.
Proof. revert x. induction n; intros; cbn; [done|by rewrite IHn]. Qed.

Lemma length_to_be_bytes n x : length (to_be_bytes n x) = n.
Proof. unfold to_be_bytes. by rewrite length_reverse, length_to_le_bytes. Qed.

Lemma pow_256_S n : 2 ^ (8 * Z.of_nat (S n)) = 256 * 2 ^ (8 * Z.of_nat n).
Proof.
  replace (8 * Z.of_nat (S n)) with (8 + 8 * Z.of_nat n) by lia.
  rewrite Z.pow_add_r by lia. done.
Qed.

Lemma from_to_le_bytes n x :
  in_width (8 * Z.of_nat n) x -> from_le_bytes (to_le_bytes n x) = x.
Proof.
  unfold in_width. revert x. induction n as [|n IH]; intros x Hx.
  - cbn in *. lia.
  - rewrite pow_256_S in Hx. cbn [to_le_bytes from_le_bytes].
    rewrite IH.
    + pose proof (Z.div_mod x 256). lia.
    + split; [apply Z.div_pos; lia|]. apply Z.div_lt_upper_bound; lia.
Qed.

Lemma to_le_bytes_ok n x : bytes_ok (to_le_bytes n x).
Proof.
  revert x. induction n; intros; cbn; constructor; auto.
  unfold in_width. apply Z.mod_pos_bound. lia.
Qed.

Lemma from_le_bytes_range bs :
  bytes_ok bs -> in_width (8 * Z.of_nat (length bs)) (from_le_bytes bs).
Proof.
  unfold in_width. induction 1 as [|b bs Hb _ IH]; [cbn; lia|].
  cbn [from_le_bytes length]. rewrite pow_256_S. change (2 ^ 8) with 256 in Hb. lia.
Qed.

Lemma to_from_le_bytes bs :
  bytes_ok bs -> to_le_bytes (length bs) (from_le_bytes bs) = bs.
Proof.
  induction 1 as [|b bs Hb _ IH]; [done|]. cbn [from_le_bytes length to_le_bytes].
  unfold in_width in Hb. change (2 ^ 8) with 256 in Hb.
  f_equal.
  - rewrite Z.mul_comm, Z.mod_add by lia. apply Z.mod_small; lia.
  - rewrite Z.mul_comm, Z.div_add by lia. rewrite Z.div_small by lia.
    by rewrite Z.add_0_l.
Qed.

Lemma from_to_be_bytes n x :
  in_width (8 * Z.of_nat n) x -> from_be_bytes (to_be_bytes n x) = x.
Proof.
  intros. unfold from_be_bytes, to_be_bytes. rewrite reverse_involutive.
  by apply from_to_le_bytes.
Qed.

Lemma to_be_bytes_ok n x : bytes_ok (to_be_bytes n x).
Proof. unfold to_be_bytes. apply Forall_reverse, to_le_bytes_ok. Qed.

Lemma from_be_bytes_range bs :
  bytes_ok bs -> in_width (8 * Z.of_nat (length bs)) (from_be_bytes bs).
Proof.
  intros. unfold from_be_bytes. rewrite <- (length_reverse bs).
  apply from_le_bytes_range. by apply Forall_reverse.
Qed.

Lemma to_from_be_bytes bs :
  bytes_ok bs -> to_be_bytes (length bs) (from_be_bytes bs) = bs.
Proof.
  intros H. unfold from_be_bytes, to_be_bytes.
  rewrite <- (length_reverse bs), to_from_le_bytes by by apply Forall_reverse.
  apply reverse_involutive.
Qed.

Lemma testbit_above w x i : in_width w x -> w <= i -> Z.testbit x i = false.
Proof.
  unfold in_width. intros Hx Hi. destruct (decide (w < 0)) as [Hn|].
  { rewrite (Z.pow_neg_r 2 w Hn) in Hx. lia. }
  rewrite <- (Z.mod_small x (2 ^ w)) by done. apply Z.mod_pow2_bits_high. lia.
Qed.

(** A [usize] has 64 bits. Sums, products and shifts panic when they overflow. *)
Definition usize (x : Z) : exec Z := if decide (0 <= x < 2 ^ 64) then Ok x else Err Panic.
Definition usize_shr (x k : Z) : exec Z :=
  if decide (0 <= k < 64) then Ok (Z.shiftr x k) else Err Panic.
Lemma usize_Ok x : 0 <= x < 2 ^ 64 -> usize x = Ok x.
Proof. intros. unfold usize. by rewrite decide_True. Qed.
Lemma usize_shr_Ok x k : 0 <= k < 64 -> usize_shr x k = Ok (x / 2 ^ k).
Proof. intros. unfold usize_shr. rewrite decide_True by done. by rewrite Z.shiftr_div_pow2 by lia. Qed.

Lemma land_255 x : Z.land x 255 = x mod 256.
Proof. change 255 with (Z.ones 8). by rewrite Z.land_ones. Qed.

(** The two's complement reading of an unsigned value of [w] bits. *)
Definition sign_extend (w x : Z) : Z := if decide (x < 2 ^ (w - 1)) then x else x - 2 ^ w.

Lemma sign_extend_mod w x :
  0 < w -> - 2 ^ (w - 1) <= x < 2 ^ (w - 1) -> sign_extend w (x mod 2 ^ w) = x.
Proof.
  intros Hw Hx. unfold sign_extend.
  assert (2 ^ w = 2 * 2 ^ (w - 1)) as E.
  { replace w with (1 + (w - 1)) at 1 by lia. by rewrite Z.pow_add_r by lia. }
  assert (0 < 2 ^ (w - 1)) by (apply Z.pow_pos_nonneg; lia).
  destruct (decide (0 <= x)) as [Hp|Hn].
  - rewrite Z.mod_small by lia. case_decide; lia.
  - assert (x mod 2 ^ w = x + 2 ^ w) as ->.
    { replace x with ((x + 2 ^ w) + (-1) * 2 ^ w) at 1 by lia.
      rewrite Z.mod_add by lia. apply Z.mod_small. lia. }
    case_decide; lia.
Qed.

(** [b as uN] for a boolean. *)
Definition bool_to_Z (b : bool) : Z := if b then 1 else 0.

Lemma bool_to_Z_neqb b : negb (bool_to_Z b =? 0) = b.
Proof. by destruct b. Qed.

(** ** The hint databases of the development

    [rust] resolves the well-formedness side conditions that the components'
    invariants produce; [widths] rewrites the integer codecs. *)
Create HintDb rust discriminated.
Create Rewrite HintDb widths.
#[export] Hint Resolve to_le_bytes_ok to_be_bytes_ok Forall_nil_2 Forall_cons_2 Forall_app_2 : rust.
#[export] Hint Rewrite length_to_le_bytes length_to_be_bytes : widths.
#[export] Hint Rewrite from_to_le_bytes from_to_be_bytes using (unfold in_width in *; cbn in *; lia) : widths.
