(* ===== verification/Pack.v ===== *)
(** * Packing and unpacking ([src/src/pack/])

    The [Pack], [PackTagged] and [ExtEnum] traits, the two pack targets
    ([VecPackTarget], [SlicePackTarget]) and the provided implementations
    (integers, booleans, tuples, options).  [PackLaws] is the contract a
    [Pack] implementation owes its clients; every provided implementation
    discharges it. *)

From Stdlib Require Import ZArith Lia String.
From S2P Require Import Prelude.

#[local] Open Scope Z_scope.

(** ** Errors *)

Inductive UnpackError :=
| NotEnoughData
| InvalidEnumTag
| Unsupported (m : option string)
| Unimplemented (m : option string).

Inductive PackError (E : Type) :=
| NotAllowed (m : option string)
| TargetError (e : E).
Arguments NotAllowed {E} m.
Arguments TargetError {E} e.

Inductive ExtEnumError := InvalidTag.

#[export] Instance UnpackError_eq_dec : EqDecision UnpackError.
Proof. solve_decision. Defined.
#[export] Instance PackError_eq_dec {E} `{EqDecision E} : EqDecision (PackError E).
Proof. solve_decision. Defined.

(** [impl From<ExtEnumError> for UnpackError], the conversion the [?] operator applies. *)
Definition UnpackError_from (e : ExtEnumError) : UnpackError :=
  match e with InvalidTag => InvalidEnumTag end.

(** ** Traits *)

Class PackTarget (T E : Type) := append : T -> list Z -> result E T.
#[export] Hint Mode PackTarget + - : typeclass_instances.

Abbreviation unpacked A := (result UnpackError (A * list Z)).

Class Pack (A : Type) := {
  unpack : list Z -> unpacked A;
  pack {T E : Type} {_ : PackTarget T E} : A -> T -> result (PackError E) T;
}.

Class PackTagged (Tag A : Type) := {
  get_tag : A -> Tag;
  unpack_data : Tag -> list Z -> unpacked A;
  pack_data {T E : Type} {_ : PackTarget T E} : A -> T -> result (PackError E) T;
}.
#[export] Hint Mode PackTagged - + : typeclass_instances.

Class ExtEnum (Tag A : Type) := {
  into_tag : A -> Tag;
  try_from_tag : Tag -> result ExtEnumError A;
}.
#[export] Hint Mode ExtEnum - + : typeclass_instances.

(** [target.append(..).map_err(PackError::TargetError)] *)
Definition append_bytes {T E} `{PackTarget T E} (t : T) (bs : list Z) : result (PackError E) T :=
  map_err TargetError (append t bs).

(** ** Targets *)

Record VecPackTarget := Vec { vec : list Z }.
Inductive VecPackError :=.

Definition vec_append (t : VecPackTarget) (data : list Z) : result VecPackError VecPackTarget :=
  Ok (Vec (vec t ++ data)).
#[export] Instance VecPackTarget_target : PackTarget VecPackTarget VecPackError := vec_append.
Definition vec_new : VecPackTarget := Vec [].

Record SlicePackTarget := Slice { slice : list Z; offset : nat }.
Inductive SlicePackError := NotEnoughSpace.

Definition slice_append (t : SlicePackTarget) (data : list Z) :
    result SlicePackError SlicePackTarget :=
  if decide (length (slice t) < offset t + length data)%nat then Err NotEnoughSpace
  else Ok (Slice (take (offset t) (slice t) ++ data
                    ++ drop (offset t + length data) (slice t))
                 (offset t + length data)).
#[export] Instance SlicePackTarget_target : PackTarget SlicePackTarget SlicePackError :=
  slice_append.
Definition slice_new (buf : list Z) : SlicePackTarget := Slice buf 0.
(** [impl Into<usize> for SlicePackTarget] *)
Definition slice_into_usize (t : SlicePackTarget) : nat := offset t.

(** What a target promises: appending is a monoid action of byte strings. *)
Class PackTargetLaws (T E : Type) `{PackTarget T E} := {
  target_ok : T -> Prop;
  append_ok t bs t' : target_ok t -> append t bs = Ok t' -> target_ok t';
  append_nil t : target_ok t -> append t [] = Ok t;
  append_app t xs ys :
    target_ok t -> append t (xs ++ ys) = (append t xs ≫= fun t' => append t' ys);
}.

Lemma vec_append_nil t : vec_append t [] = Ok t.
Proof. destruct t. unfold vec_append; cbn. by rewrite app_nil_r. Qed.
Lemma vec_append_app t xs ys :
  vec_append t (xs ++ ys) = (vec_append t xs ≫= fun t' => vec_append t' ys).
Proof. unfold vec_append; cbn. by rewrite (assoc_L (++)). Qed.

#[export] Instance VecPackTarget_laws : PackTargetLaws VecPackTarget VecPackError := {|
  target_ok := fun _ => True;
  append_ok := fun _ _ _ _ _ => I;
  append_nil := fun t _ => vec_append_nil t;
  append_app := fun t xs ys _ => vec_append_app t xs ys;
|}.

Definition slice_ok (t : SlicePackTarget) : Prop := (offset t <= length (slice t))%nat.

Lemma slice_append_Ok t bs t' :
  slice_append t bs = Ok t' <->
  (offset t + length bs <= length (slice t))%nat /\
  t' = Slice (take (offset t) (slice t) ++ bs ++ drop (offset t + length bs) (slice t))
             (offset t + length bs).
Proof.
  unfold slice_append. case_decide; split.
  - done.
  - intros [? _]. lia.
  - intros [= <-]. split; [lia|done].
  - by intros [_ ->].
Qed.

Lemma slice_append_length t bs t' :
  slice_append t bs = Ok t' -> length (slice t') = length (slice t).
Proof.
  intros [Hle ->]%slice_append_Ok. cbn.
  rewrite !length_app, length_take, length_drop. lia.
Qed.

Lemma slice_append_app t xs ys :
  slice_append t (xs ++ ys) = (slice_append t xs ≫= fun t' => slice_append t' ys).
Proof.
  destruct (slice_append t xs) as [t'|[]] eqn:E; cbn.
  - pose proof (slice_append_length _ _ _ E) as Hlen.
    apply slice_append_Ok in E as [Hle ->]. cbn in Hlen.
    unfold slice_append. rewrite length_app. cbn [offset slice]. rewrite Hlen.
    case_decide; case_decide; [done|lia|lia|]. f_equal.
    assert (length (take (offset t) (slice t) ++ xs) = offset t + length xs)%nat as Hpre.
    { rewrite length_app, length_take. lia. }
    f_equal; [|lia].
    rewrite (assoc_L (++) (take _ _) xs), take_app_length' by done.
    rewrite drop_app_add' by done. rewrite drop_drop, <- !(assoc_L (++)).
    do 4 f_equal. lia.
  - unfold slice_append in *. rewrite length_app. case_decide; [|done].
    by rewrite decide_True by lia.
Qed.

Lemma slice_append_ok t bs t' : slice_ok t -> slice_append t bs = Ok t' -> slice_ok t'.
Proof.
  intros _ E. unfold slice_ok. rewrite (slice_append_length _ _ _ E).
  apply slice_append_Ok in E as [? ->]. cbn. lia.
Qed.
Lemma slice_append_nil t : slice_ok t -> slice_append t [] = Ok t.
Proof.
  destruct t as [s o]. intros Hok. unfold slice_ok in Hok; cbn in Hok.
  apply slice_append_Ok; cbn. split; [lia|].
  by rewrite Nat.add_0_r, take_drop.
Qed.

#[export] Instance SlicePackTarget_laws : PackTargetLaws SlicePackTarget SlicePackError := {|
  target_ok := slice_ok;
  append_ok := slice_append_ok;
  append_nil := slice_append_nil;
  append_app := fun t xs ys _ => slice_append_app t xs ys;
|}.

Lemma slice_new_ok buf : slice_ok (slice_new buf).
Proof. unfold slice_ok, slice_new. cbn. lia. Qed.
#[export] Hint Resolve slice_new_ok : rust.

(** ** Provided implementations *)

(** [default_impl!] for an unsigned type of [n] bytes, on the bare value. *)
Definition unpack_uint (n : nat) (data : list Z) : unpacked Z :=
  if decide (length data < n)%nat then Err NotEnoughData
  else Ok (from_le_bytes (take n data), drop n data).
Definition pack_uint (n : nat) {T E} `{PackTarget T E} (x : Z) (t : T) : result (PackError E) T :=
  append_bytes t (to_le_bytes n x).

(** [default_impl!] for a signed type of [n] bytes: two's complement. *)
Definition unpack_sint (n : nat) (data : list Z) : unpacked Z :=
  if decide (length data < n)%nat then Err NotEnoughData
  else Ok (sign_extend (8 * Z.of_nat n) (from_le_bytes (take n data)), drop n data).
Definition pack_sint (n : nat) {T E} `{PackTarget T E} (x : Z) (t : T) : result (PackError E) T :=
  append_bytes t (to_le_bytes n (x mod 2 ^ (8 * Z.of_nat n))).

(** The unsigned and signed types of [n] bytes, as types of their own so that
    the trait dispatch finds their width. *)
Record uint (n : nat) := Uint { uint_val : Z }.
Arguments Uint {n} uint_val.
Arguments uint_val {n} u.
Record sint (n : nat) := Sint { sint_val : Z }.
Arguments Sint {n} sint_val.
Arguments sint_val {n} s.
Abbreviation u8 := (uint 1).
Abbreviation u16 := (uint 2).
Abbreviation u32 := (uint 4).
Abbreviation u64 := (uint 8).

Definition map_unpacked {A B} (f : A -> B) (m : unpacked A) : unpacked B :=
  '(a, data) ← m; Ok (f a, data).

#[export] Instance uint_Pack n : Pack (uint n) := {|
  unpack data := map_unpacked Uint (unpack_uint n data);
  pack T E _ x t := pack_uint n (uint_val x) t;
|}.
#[export] Instance sint_Pack n : Pack (sint n) := {|
  unpack data := map_unpacked Sint (unpack_sint n data);
  pack T E _ x t := pack_sint n (sint_val x) t;
|}.

Definition unpack_bool (data : list Z) : unpacked bool :=
  '(x, data) ← unpack_uint 1 data; Ok (bool_decide (x > 0), data).
Definition pack_bool {T E} `{PackTarget T E} (b : bool) (t : T) : result (PackError E) T :=
  pack_uint 1 (bool_to_Z b) t.
#[export] Instance bool_Pack : Pack bool := {|
  unpack := unpack_bool;
  pack T E _ := pack_bool;
|}.

(** [impl_for_tuples]: the components in order.  A Rust tuple [(a, b, c)] is the
    left-nested pair [((a, b), c)]. *)
Definition unpack_unit (data : list Z) : unpacked unit := Ok ((), data).
Definition pack_unit {T E} `{PackTarget T E} (_ : unit) (t : T) : result (PackError E) T := Ok t.
#[export] Instance unit_Pack : Pack unit := {|
  unpack := unpack_unit;
  pack T E _ := pack_unit;
|}.

Definition unpack_pair {A B} `{Pack A, Pack B} (data : list Z) : unpacked (A * B) :=
  '(a, data) ← unpack data;
  '(b, data) ← unpack data;
  Ok ((a, b), data).
Definition pack_pair {A B} `{Pack A, Pack B} {T E} `{PackTarget T E}
    (p : A * B) (t : T) : result (PackError E) T :=
  t ← pack (fst p) t; t ← pack (snd p) t; Ok t.
#[export] Instance pair_Pack {A B} `{Pack A, Pack B} : Pack (A * B) := {|
  unpack := unpack_pair;
  pack T E _ := pack_pair;
|}.

(** [impl PackTagged for Option<T>]: the tag is whether there is a value. *)
Definition option_get_tag {A} (o : option A) : bool := bool_decide (is_Some o).
Definition option_unpack_data {A} `{Pack A} (tag : bool) (data : list Z) : unpacked (option A) :=
  if tag then '(inner, data) ← unpack data; Ok (Some inner, data) else Ok (None, data).
Definition option_pack_data {A} `{Pack A} {T E} `{PackTarget T E} (o : option A) (t : T) :
    result (PackError E) T :=
  match o with Some inner => pack inner t | None => Ok t end.
#[export] Instance option_PackTagged {A} `{Pack A} : PackTagged bool (option A) := {|
  get_tag := option_get_tag;
  unpack_data := option_unpack_data;
  pack_data T E _ := option_pack_data;
|}.

(** ** The contract of a [Pack] implementation

    [value_ok a] is the range of the values its reader produces, [pack_wf a]
    delimits the values its writer can carry, [encoding a] is the byte string
    that stands for [a], and [pack_tail a rest] says which bytes
    may follow it: any for a self-delimiting encoding, none for a value whose
    reader takes the rest of the buffer. *)
Class PackLaws (A : Type) `{Pack A} := {
  value_ok : A -> Prop;
  pack_wf : A -> Prop;
  encoding : A -> list Z;
  pack_tail : A -> list Z -> Prop;
  encoding_ok a : pack_wf a -> bytes_ok (encoding a);
  pack_spec {T E} `{PackTargetLaws T E} (a : A) (t : T) :
    pack_wf a -> target_ok t -> pack a t = append_bytes t (encoding a);
  unpack_encoding (a : A) (rest : list Z) :
    pack_wf a -> pack_tail a rest -> unpack (encoding a ++ rest) = Ok (a, rest);
  unpack_sound (data : list Z) (a : A) (rest : list Z) :
    bytes_ok data -> unpack data = Ok (a, rest) ->
    value_ok a /\ rest `suffix_of` data;
}.

Lemma append_bytes_app {T E} `{PackTargetLaws T E} (t : T) xs ys :
  target_ok t ->
  append_bytes t (xs ++ ys) = (append_bytes t xs ≫= fun t' => append_bytes t' ys).
Proof.
  intros Hok. unfold append_bytes. rewrite append_app by done.
  by destruct (append t xs).
Qed.

Lemma append_bytes_nil {T E} `{PackTargetLaws T E} (t : T) :
  target_ok t -> append_bytes t [] = Ok t.
Proof. intros. unfold append_bytes. by rewrite append_nil. Qed.

Lemma append_bytes_ok {T E} `{PackTargetLaws T E} (t t' : T) bs :
  target_ok t -> append_bytes t bs = Ok t' -> target_ok t'.
Proof.
  unfold append_bytes. intros Hok. destruct (append t bs) as [t1|] eqn:E'; [|done].
  intros [= ->]. by eapply append_ok.
Qed.

(** Two packing steps in sequence append the concatenation. *)
Lemma append_bytes_bind {T E} `{PackTargetLaws T E} (t : T) xs ys
    (k : T -> result (PackError E) T) :
  target_ok t -> (forall t', target_ok t' -> k t' = append_bytes t' ys) ->
  (append_bytes t xs ≫= k) = append_bytes t (xs ++ ys).
Proof.
  intros Hok Hk. rewrite append_bytes_app by done.
  destruct (append_bytes t xs) as [t'|] eqn:E'; cbn; [|done].
  apply Hk. by eapply append_bytes_ok.
Qed.

Lemma append_bytes_ret {T E} `{PackTarget T E} (m : result (PackError E) T) :
  (t ← m; Ok t) = m.
Proof. by destruct m. Qed.

(** A lawful packer packs into a [Vec] without failing, and into a slice exactly
    when its encoding fits. *)
Lemma pack_vec {A} `{PackLaws A} (a : A) acc :
  pack_wf a -> pack a (Vec acc) = Ok (Vec (acc ++ encoding a)).
Proof. intros. by rewrite pack_spec. Qed.

Lemma uint_bytes n (data : list Z) :
  bytes_ok data -> (n <= length data)%nat ->
  in_width (8 * Z.of_nat n) (from_le_bytes (take n data)).
Proof.
  intros Hd Hn. pose proof (from_le_bytes_range (take n data)) as Hr.
  rewrite length_take, Nat.min_l in Hr by done. apply Hr. by apply Forall_take.
Qed.

Lemma unpack_uint_app n x rest :
  in_width (8 * Z.of_nat n) x -> unpack_uint n (to_le_bytes n x ++ rest) = Ok (x, rest).
Proof.
  intros Hx. unfold unpack_uint. rewrite length_app, length_to_le_bytes.
  rewrite decide_False by lia.
  by rewrite take_app_length', drop_app_length', from_to_le_bytes
    by (done || by rewrite length_to_le_bytes).
Qed.

(** What a successful integer read consumed: the value's own encoding. *)
Lemma unpack_uint_inv n data x rest :
  bytes_ok data -> unpack_uint n data = Ok (x, rest) ->
  in_width (8 * Z.of_nat n) x /\ data = to_le_bytes n x ++ rest.
Proof.
  intros Hd. unfold unpack_uint. case_decide; [done|]. intros [= <- <-].
  split; [apply uint_bytes; [done|lia]|].
  replace n with (length (take n data)) at 1 by (rewrite length_take; lia).
  rewrite to_from_le_bytes by by apply Forall_take. by rewrite take_drop.
Qed.

Lemma bytes_ok_app_r (xs ys : list Z) : bytes_ok (xs ++ ys) -> bytes_ok ys.
Proof. by intros [_ ?]%Forall_app. Qed.
#[export] Hint Resolve bytes_ok_app_r : rust.

(** ** The provided implementations satisfy the contract *)

Lemma pack_uint_spec n {T E} `{PackTargetLaws T E} x (t : T) :
  pack_uint n x t = append_bytes t (to_le_bytes n x).
Proof. done. Qed.

#[export] Instance uint_laws n : PackLaws (uint n).
Proof.
  refine {| value_ok x := in_width (8 * Z.of_nat n) (uint_val x);
            pack_wf x := in_width (8 * Z.of_nat n) (uint_val x);
            encoding x := to_le_bytes n (uint_val x); pack_tail _ _ := True |}.
  - auto with rust.
  - done.
  - intros [x] rest Hx _. cbn. by rewrite unpack_uint_app.
  - intros data [x] rest Hd Hu. cbn in Hu. unfold map_unpacked in Hu. bind_inv.
    match goal with U : unpack_uint _ _ = _ |- _ =>
      apply unpack_uint_inv in U as [? ->]; [|done] end. split; [done|solve_suffix].
Defined.

Definition sint_ok (n : nat) (x : Z) : Prop :=
  let w := 8 * Z.of_nat (S n) in - 2 ^ (w - 1) <= x < 2 ^ (w - 1).

#[export] Instance sint_laws n : PackLaws (sint (S n)).
Proof.
  refine {| value_ok x := sint_ok n (sint_val x); pack_wf x := sint_ok n (sint_val x);
            encoding x := to_le_bytes (S n) (sint_val x mod 2 ^ (8 * Z.of_nat (S n)));
            pack_tail _ _ := True |}.
  - auto with rust.
  - done.
  - intros [x] rest Hx _. unfold sint_ok in Hx. cbn zeta in Hx. cbn [sint_val] in *.
    cbn [unpack sint_Pack]. unfold unpack_sint.
    rewrite length_app, length_to_le_bytes, decide_False by lia.
    rewrite take_app_length', drop_app_length' by by rewrite length_to_le_bytes.
    rewrite from_to_le_bytes by (apply Z.mod_pos_bound, Z.pow_pos_nonneg; lia).
    rewrite sign_extend_mod by (done || lia). done.
  - intros data [x] rest Hd. cbn [unpack sint_Pack]. unfold unpack_sint.
    case_decide as Hl; [done|]. intros [= Hx <-]. cbn [sint_val]. split.
    + unfold sint_ok. pose proof (uint_bytes (S n) data Hd ltac:(lia)) as Hr. unfold in_width in Hr.
      set (w := 8 * Z.of_nat (S n)) in *. cbn zeta. subst x. unfold sign_extend.
      assert (2 ^ w = 2 * 2 ^ (w - 1)).
      { replace w with (1 + (w - 1)) at 1 by lia. by rewrite Z.pow_add_r by lia. }
      case_decide; lia.
    + apply suffix_drop.
Defined.

#[export] Instance bool_laws : PackLaws bool.
Proof.
  refine {| value_ok _ := True; pack_wf _ := True; encoding b := to_le_bytes 1 (bool_to_Z b);
            pack_tail _ _ := True |}.
  - auto with rust.
  - done.
  - by intros [] rest _ _.
  - intros data b rest Hd Hu. cbn in Hu. unfold unpack_bool in Hu. bind_inv.
    match goal with U : unpack_uint _ _ = _ |- _ =>
      apply unpack_uint_inv in U as [? ->]; [|done] end. split; [done|solve_suffix].
Defined.

#[export] Instance unit_laws : PackLaws unit.
Proof.
  refine {| value_ok _ := True; pack_wf _ := True; encoding _ := []; pack_tail _ _ := True |}.
  - auto with rust.
  - intros. by rewrite append_bytes_nil.
  - by intros [] rest _ _.
  - intros data [] rest _ [= ->]. split; [done|]. reflexivity.
Defined.

#[export] Instance pair_laws {A B} `{PackLaws A, PackLaws B} : PackLaws (A * B).
Proof.
  refine {| value_ok p := value_ok (fst p) /\ value_ok (snd p);
            pack_wf p := pack_wf (fst p) /\ pack_wf (snd p);
            encoding p := encoding (fst p) ++ encoding (snd p);
            pack_tail p rest := pack_tail (fst p) (encoding (snd p) ++ rest)
                                /\ pack_tail (snd p) rest |}.
  - intros p []. apply Forall_app_2; by apply encoding_ok.
  - intros T E ?? [a b] t [Ha Hb] Ht. cbn in *. unfold pack_pair; cbn.
    rewrite (pack_spec a) by done. apply append_bytes_bind; [done|].
    intros t' Ht'. rewrite append_bytes_ret. by apply pack_spec.
  - intros [a b] rest [Ha Hb] [Hta Htb]. cbn in *. unfold unpack_pair.
    rewrite <- (assoc_L (++)), (unpack_encoding a) by done. cbn.
    by rewrite (unpack_encoding b) by done.
  - intros data [a b] rest Hd Hu. cbn in Hu. unfold unpack_pair in Hu. bind_inv.
    match goal with U : unpack data = _ |- _ =>
      destruct (unpack_sound _ _ _ Hd U) as [? [c1 ->]] end.
    match goal with U : unpack ?d = _ |- _ =>
      destruct (unpack_sound d _ _ ltac:(eauto with rust) U) as [? [c2 ->]] end.
    split; [done|solve_suffix].
Defined.

(** *** Slices *)

(** Packing into a fresh slice succeeds exactly when the encoding fits; it then
    writes the encoding at the front, leaves the rest of the buffer alone and
    reports the number of bytes written.  Otherwise it is [NotEnoughSpace]. *)
Lemma pack_slice {A} `{PackLaws A} (a : A) buf :
  pack_wf a ->
  pack a (slice_new buf) =
    if decide (length (encoding a) <= length buf)%nat
    then Ok (Slice (encoding a ++ drop (length (encoding a)) buf) (length (encoding a)))
    else Err (TargetError NotEnoughSpace).
Proof.
  intros. rewrite pack_spec by (done || apply slice_new_ok).
  unfold append_bytes, append, SlicePackTarget_target, slice_append. cbn.
  case_decide; case_decide; done || lia.
Qed.

(** ** The contract of a [PackTagged] implementation

    As [PackLaws], for a value whose tag travels separately. *)
Class PackTaggedLaws (Tag A : Type) `{PackTagged Tag A} := {
  tagged_ok : A -> Prop;
  tagged_wf : A -> Prop;
  tagged_encoding : A -> list Z;
  tagged_tail : A -> list Z -> Prop;
  tagged_encoding_ok a : tagged_wf a -> bytes_ok (tagged_encoding a);
  tagged_spec {T E} `{PackTargetLaws T E} (a : A) (t : T) :
    tagged_wf a -> target_ok t -> pack_data a t = append_bytes t (tagged_encoding a);
  unpack_tagged_encoding (a : A) (rest : list Z) :
    tagged_wf a -> tagged_tail a rest ->
    unpack_data (get_tag a) (tagged_encoding a ++ rest) = Ok (a, rest);
  unpack_tagged_sound (tag : Tag) (data : list Z) (a : A) (rest : list Z) :
    bytes_ok data -> unpack_data tag data = Ok (a, rest) ->
    tagged_ok a /\ get_tag a = tag /\ rest `suffix_of` data;
}.

#[export] Instance uint_eq_dec n : EqDecision (uint n).
Proof. solve_decision. Defined.

#[export] Instance option_laws {A} `{PackLaws A} : PackTaggedLaws bool (option A).
Proof.
  refine {| tagged_ok o := from_option value_ok True o;
            tagged_wf o := from_option pack_wf True o;
            tagged_encoding o := from_option encoding [] o;
            tagged_tail o rest := from_option (fun a => pack_tail a rest) True o |}.
  - intros [a|] ?; cbn in *; [by apply encoding_ok|constructor].
  - intros T E ?? [a|] t ??; cbn in *; [by apply pack_spec|by rewrite append_bytes_nil].
  - intros [a|] rest ??; cbn in *; [by rewrite unpack_encoding|done].
  - intros [] data o rest Hd Hu; cbn in Hu; bind_inv.
    + match goal with U : unpack _ = _ |- _ =>
        destruct (unpack_sound _ _ _ Hd U) as [? ?] end. done.
    + split; [done|]. split; [done|]. reflexivity.
Defined.
