(* ===== verification/PackDerive.v ===== *)
(** * The derive macros ([src/pack_derive/])

    [#[derive(Pack)]], [#[derive(PackTagged)]] and [#[derive(ExtEnum)]] generate
    the trait implementations of the protocol's structs and enums.  A variant of
    an enum is described by what the macro reads of it: its tag, its fields, the
    construct expression and the deconstruct pattern ([construct.rs],
    [deconstruct.rs]).  The generated [match] is the first arm that applies, so
    [derive_*] walk the variants in order.  [derive_tagged_laws] and
    [derive_enum_laws] show that the generated code round-trips whenever the tags
    are distinct. *)

From Stdlib Require Import ZArith Lia.
From S2P Require Import Prelude Pack.

#[local] Open Scope Z_scope.

(** ** Structs *)

(** [construct_from_fields] / [deconstruct_from_fields]: a struct is its tuple of
    fields under a constructor. *)
Record fields_of (A : Type) := FieldsOf {
  f_fields : Type;
  f_pack : Pack f_fields;
  f_construct : f_fields -> A;
  f_deconstruct : A -> f_fields;
}.
Arguments FieldsOf {A} f_fields {f_pack} f_construct f_deconstruct.
Arguments f_fields {A} f.
Arguments f_pack {A} f.
Arguments f_construct {A} f.
Arguments f_deconstruct {A} f.

(** [impl_pack_for_struct] *)
Definition derive_struct_unpack {A} (s : fields_of A) (data : list Z) : unpacked A :=
  '(fs, data) ← @unpack _ (f_pack s) data; Ok (f_construct s fs, data).
Definition derive_struct_pack {A} (s : fields_of A) {T E} `{PackTarget T E} (a : A) (t : T) :
    result (PackError E) T :=
  @pack _ (f_pack s) T E _ (f_deconstruct s a) t.
Definition derive_struct {A} (s : fields_of A) : Pack A := {|
  unpack := derive_struct_unpack s;
  pack T E _ := derive_struct_pack s;
|}.

#[local] Existing Instance f_pack.

Section struct_laws.
Context {A : Type} (s : fields_of A) (L : @PackLaws (f_fields s) (f_pack s)).
Context (construct_deconstruct : forall a, f_construct s (f_deconstruct s a) = a).
Context (deconstruct_construct : forall fs, f_deconstruct s (f_construct s fs) = fs).

Definition derive_struct_laws : @PackLaws A (derive_struct s).
Proof using All.
  refine (@Build_PackLaws A (derive_struct s)
    (fun a => value_ok (f_deconstruct s a)) (fun a => pack_wf (f_deconstruct s a)) (fun a => encoding (f_deconstruct s a))
    (fun a rest => pack_tail (f_deconstruct s a) rest) _ _ _ _).
  - intros a. apply encoding_ok.
  - intros T E ?? a t ??. by apply (pack_spec (f_deconstruct s a)).
  - intros a rest ??. cbn. unfold derive_struct_unpack.
    rewrite unpack_encoding by done. cbn. by rewrite construct_deconstruct.
  - intros data a rest Hd Hu. cbn in Hu. unfold derive_struct_unpack in Hu.
    apply result_bind_Ok in Hu as ([fs r] & U & [= <- <-]).
    rewrite deconstruct_construct. by apply unpack_sound.
Defined.
End struct_laws.

(** ** Enums *)

Record variant (Tag A : Type) := Variant {
  v_tag : Tag;                            (* get_tag_expr / get_tag_pat *)
  v_fields : Type;
  v_pack : Pack v_fields;
  v_construct : v_fields -> A;            (* construct_from_enum_variant *)
  v_deconstruct : A -> option v_fields;   (* deconstruct_from_enum_variant *)
}.
Arguments Variant {Tag A} v_tag v_fields {v_pack} v_construct v_deconstruct.
Arguments v_tag {Tag A} v.
Arguments v_fields {Tag A} v.
Arguments v_pack {Tag A} v.
Arguments v_construct {Tag A} v.
Arguments v_deconstruct {Tag A} v.

#[local] Existing Instance v_pack.

Section enum.
Context {Tag A : Type} `{EqDecision Tag}.
Implicit Types vs : list (variant Tag A).

(** [match self { .. }] is exhaustive in Rust: [tag0] is never reached when the
    variants cover the type. *)
Fixpoint derive_get_tag (tag0 : Tag) vs (a : A) : Tag :=
  match vs with
  | [] => tag0
  | v :: vs => match v_deconstruct v a with
               | Some _ => v_tag v
               | None => derive_get_tag tag0 vs a
               end
  end.

(** [match tag { #tag => .., _ => Err(InvalidEnumTag) }] *)
Fixpoint derive_unpack_data vs (tag : Tag) (data : list Z) : unpacked A :=
  match vs with
  | [] => Err InvalidEnumTag
  | v :: vs => if decide (tag = v_tag v)
               then '(fs, data) ← @unpack _ (v_pack v) data; Ok (v_construct v fs, data)
               else derive_unpack_data vs tag data
  end.

Fixpoint derive_pack_data vs {T E} `{PackTarget T E} (a : A) (t : T) :
    result (PackError E) T :=
  match vs with
  | [] => Ok t
  | v :: vs => match v_deconstruct v a with
               | Some fs => @pack _ (v_pack v) T E _ fs t
               | None => derive_pack_data vs a t
               end
  end.

(** [impl_pack_tagged_for_enum] *)
Definition derive_tagged (tag0 : Tag) vs : PackTagged Tag A := {|
  get_tag := derive_get_tag tag0 vs;
  unpack_data := derive_unpack_data vs;
  pack_data T E _ := derive_pack_data vs;
|}.

(** [impl_pack_for_enum]: the tag travels in front of the fields. *)
Definition derive_enum_unpack `{Pack Tag} vs (data : list Z) : unpacked A :=
  '(tag, data) ← unpack data; derive_unpack_data vs tag data.
Definition derive_enum_pack `{Pack Tag} (tag0 : Tag) vs {T E} `{PackTarget T E} (a : A) (t : T) :
    result (PackError E) T :=
  t ← pack (derive_get_tag tag0 vs a) t; derive_pack_data vs a t.
Definition derive_enum `{Pack Tag} (tag0 : Tag) vs : Pack A := {|
  unpack := derive_enum_unpack vs;
  pack T E _ := derive_enum_pack tag0 vs;
|}.
End enum.

(** ** Lawful enums

    A lawful variant: its fields satisfy the packing contract, and the construct
    expression and the deconstruct pattern are inverse to each other. *)
Record lawful_variant (Tag A : Type) := LawfulVariant {
  lv_variant : variant Tag A;
  lv_laws : @PackLaws (v_fields lv_variant) (v_pack lv_variant);
  lv_deconstruct_construct fs :
    v_deconstruct lv_variant (v_construct lv_variant fs) = Some fs;
  lv_construct_deconstruct a fs :
    v_deconstruct lv_variant a = Some fs -> v_construct lv_variant fs = a;
}.
Arguments LawfulVariant {Tag A} lv_variant lv_laws _ _.
Arguments lv_variant {Tag A} l.
Arguments lv_laws {Tag A} l.
Arguments lv_deconstruct_construct {Tag A} l.
Arguments lv_construct_deconstruct {Tag A} l.

Section enum_laws.
Context {Tag A : Type} `{EqDecision Tag} (tag0 : Tag).
Implicit Types lvs : list (lawful_variant Tag A).
#[local] Existing Instance lv_laws.

(** What the variant of [a] says of its fields. *)
Fixpoint on_variant {X} (sel : forall lv : lawful_variant Tag A, v_fields (lv_variant lv) -> X)
    (d : X) lvs (a : A) : X :=
  match lvs with
  | [] => d
  | lv :: lvs => match v_deconstruct (lv_variant lv) a with
                 | Some fs => sel lv fs
                 | None => on_variant sel d lvs a
                 end
  end.
Definition derive_ok : list (lawful_variant Tag A) -> A -> Prop :=
  on_variant (fun _ fs => value_ok fs) False.
Definition derive_wf : list (lawful_variant Tag A) -> A -> Prop :=
  on_variant (fun _ fs => pack_wf fs) False.
Definition derive_encoding : list (lawful_variant Tag A) -> A -> list Z :=
  on_variant (fun _ fs => encoding fs) [].
Definition derive_tail lvs (a : A) (rest : list Z) : Prop :=
  on_variant (fun _ fs => pack_tail fs rest) False lvs a.

Lemma derive_get_tag_in lvs a :
  derive_wf lvs a ->
  derive_get_tag tag0 (lv_variant <$> lvs) a ∈ (v_tag ∘ lv_variant <$> lvs).
Proof.
  induction lvs as [|lv lvs IH]; cbn; [done|]. intros Hwf.
  destruct (v_deconstruct (lv_variant lv) a); [by left|right; by apply IH].
Qed.

Lemma derive_encoding_ok lvs a : derive_wf lvs a -> bytes_ok (derive_encoding lvs a).
Proof.
  induction lvs as [|lv lvs IH]; cbn; [done|]. intros Hwf.
  destruct (v_deconstruct (lv_variant lv) a); [by apply encoding_ok|by apply IH].
Qed.

Lemma derive_pack_data_spec lvs {T E} `{PackTargetLaws T E} a (t : T) :
  derive_wf lvs a -> target_ok t ->
  derive_pack_data (lv_variant <$> lvs) a t = append_bytes t (derive_encoding lvs a).
Proof.
  intros Hwf Ht. induction lvs as [|lv lvs IH]; cbn in *; [done|].
  destruct (v_deconstruct (lv_variant lv) a); [by apply pack_spec|by apply IH].
Qed.

Lemma derive_unpack_encoding lvs a rest :
  NoDup (v_tag ∘ lv_variant <$> lvs) -> derive_wf lvs a -> derive_tail lvs a rest ->
  derive_unpack_data (lv_variant <$> lvs) (derive_get_tag tag0 (lv_variant <$> lvs) a)
    (derive_encoding lvs a ++ rest) = Ok (a, rest).
Proof.
  intros Hnd Hwf Htl. induction lvs as [|lv lvs IH]; cbn in *; [done|].
  apply NoDup_cons in Hnd as [Hnew Hnd].
  destruct (v_deconstruct (lv_variant lv) a) as [fs|] eqn:Hd.
  - rewrite decide_True by done. rewrite unpack_encoding by done. cbn.
    by rewrite (lv_construct_deconstruct lv a fs Hd).
  - rewrite decide_False; [by apply IH|]. intros Heq. apply Hnew.
    change (v_tag (lv_variant lv)) with ((v_tag ∘ lv_variant) lv) in Heq.
    cbn in Heq. rewrite <- Heq. by apply derive_get_tag_in.
Qed.

Lemma derive_unpack_unknown lvs tag data :
  tag ∉ (v_tag ∘ lv_variant <$> lvs) ->
  derive_unpack_data (lv_variant <$> lvs) tag data = Err InvalidEnumTag.
Proof.
  induction lvs as [|lv lvs IH]; cbn; [done|].
  intros [Hne Hnin]%not_elem_of_cons. rewrite decide_False by done. by apply IH.
Qed.

(** The patterns of distinct variants are disjoint in a Rust enum. *)
Definition variants_disjoint lvs : Prop :=
  forall i j lv lv' fs, lvs !! i = Some lv -> lvs !! j = Some lv' -> i <> j ->
    v_deconstruct (lv_variant lv') (v_construct (lv_variant lv) fs) = None.

Lemma variants_disjoint_cons lv lvs :
  variants_disjoint (lv :: lvs) ->
  variants_disjoint lvs /\
  (forall lv' fs, lv' ∈ lvs ->
     v_deconstruct (lv_variant lv) (v_construct (lv_variant lv') fs) = None).
Proof.
  intros Hdj. split.
  - intros i j lv1 lv2 fs H1 H2 Hne. apply (Hdj (S i) (S j) lv1 lv2 fs); auto with lia.
  - intros lv' fs [i Hi]%list_elem_of_lookup. by apply (Hdj (S i) 0%nat lv' lv fs).
Qed.

Lemma derive_unpack_data_variant lvs tag data a rest :
  derive_unpack_data (lv_variant <$> lvs) tag data = Ok (a, rest) ->
  exists lv fs, lv ∈ lvs /\ a = v_construct (lv_variant lv) fs.
Proof.
  induction lvs as [|lv lvs IH]; cbn; [done|]. case_decide as Hc.
  - intros Hu. bind_inv. do 2 eexists. split; [by left|done].
  - intros Hu. destruct (IH Hu) as (lv' & fs & ? & ?). exists lv', fs.
    split; [by right|done].
Qed.

Lemma derive_unpack_sound lvs tag data a rest :
  variants_disjoint lvs -> bytes_ok data ->
  derive_unpack_data (lv_variant <$> lvs) tag data = Ok (a, rest) ->
  derive_ok lvs a /\ derive_get_tag tag0 (lv_variant <$> lvs) a = tag /\
  rest `suffix_of` data.
Proof.
  intros Hdj Hb. induction lvs as [|lv lvs IH]; cbn; [done|].
  apply variants_disjoint_cons in Hdj as [Hdj Hhd]. case_decide as Hc.
  - intros Hu. apply result_bind_Ok in Hu as ([fs r] & U & [= <- <-]).
    rewrite lv_deconstruct_construct. apply unpack_sound in U as [? ?]; done.
  - intros Hu. destruct (derive_unpack_data_variant _ _ _ _ _ Hu) as (lv' & fs & Hin & ->).
    rewrite Hhd by done. by apply IH.
Qed.

Context (lvs : list (lawful_variant Tag A)).
Context (tags_distinct : NoDup (v_tag ∘ lv_variant <$> lvs)).
Context (patterns_disjoint : variants_disjoint lvs).

Definition derive_tagged_laws :
  @PackTaggedLaws Tag A (derive_tagged tag0 (lv_variant <$> lvs)).
Proof using All.
  refine (@Build_PackTaggedLaws Tag A (derive_tagged tag0 (lv_variant <$> lvs))
    (derive_ok lvs) (derive_wf lvs) (derive_encoding lvs) (derive_tail lvs) _ _ _ _).
  - apply derive_encoding_ok.
  - intros T E ?? a t ??. by apply (derive_pack_data_spec lvs a t).
  - intros. by apply derive_unpack_encoding.
  - intros. by apply derive_unpack_sound.
Defined.

(** With the tag in front. *)
Definition derive_enum_laws `{PackLaws Tag}
    (tags_wf : Forall (fun lv => pack_wf (v_tag (lv_variant lv))) lvs)
    (tags_delimited : forall (tag : Tag) rest, pack_tail tag rest) :
  @PackLaws A (derive_enum tag0 (lv_variant <$> lvs)).
Proof using All.
  assert (forall a, derive_wf lvs a ->
            pack_wf (derive_get_tag tag0 (lv_variant <$> lvs) a)) as Htag.
  { intros a Ha. pose proof (derive_get_tag_in lvs a Ha) as Hin.
    apply list_elem_of_fmap in Hin as (lv & -> & Hin). cbn.
    by eapply (proj1 (Forall_forall _ _)) in Hin; [|exact tags_wf]. }
  refine (@Build_PackLaws A (derive_enum tag0 (lv_variant <$> lvs))
    (derive_ok lvs) (derive_wf lvs)
    (fun a => encoding (derive_get_tag tag0 (lv_variant <$> lvs) a) ++ derive_encoding lvs a)
    (derive_tail lvs) _ _ _ _).
  - intros a Ha. apply Forall_app_2; [by apply encoding_ok, Htag|by apply derive_encoding_ok].
  - intros T E ?? a t Ha Ht. cbn. unfold derive_enum_pack. rewrite pack_spec by auto.
    apply append_bytes_bind; [done|]. intros t' ?. by apply (derive_pack_data_spec lvs a t').
  - intros a rest Ha Htl. cbn. unfold derive_enum_unpack. rewrite <- (assoc_L (++)).
    rewrite unpack_encoding by auto. cbn. by apply derive_unpack_encoding.
  - intros data a rest Hb Hu. cbn in Hu. unfold derive_enum_unpack in Hu.
    apply result_bind_Ok in Hu as ([tag r] & U & Hu).
    destruct (unpack_sound _ _ _ Hb U) as [? [c1 ->]].
    apply derive_unpack_sound in Hu as (? & _ & [c2 ->]); [|done|eauto with rust].
    split; [done|solve_suffix].
Defined.
End enum_laws.

(** [impl_ext_enum_for_enum]: data-less variants with their tags. *)
Section ext_enum.
Context {Tag A : Type} `{EqDecision Tag, EqDecision A}.

Fixpoint derive_into_tag (tag0 : Tag) (vs : list (Tag * A)) (a : A) : Tag :=
  match vs with
  | [] => tag0
  | (tag, c) :: vs => if decide (a = c) then tag else derive_into_tag tag0 vs a
  end.
Fixpoint derive_try_from_tag (vs : list (Tag * A)) (tag : Tag) : result ExtEnumError A :=
  match vs with
  | [] => Err InvalidTag
  | (tag', c) :: vs => if decide (tag = tag') then Ok c else derive_try_from_tag vs tag
  end.
Definition derive_ext_enum (tag0 : Tag) (vs : list (Tag * A)) : ExtEnum Tag A := {|
  into_tag := derive_into_tag tag0 vs;
  try_from_tag := derive_try_from_tag vs;
|}.

Lemma try_from_into_tag tag0 vs a :
  NoDup (fst <$> vs) -> a ∈ (snd <$> vs) ->
  derive_try_from_tag vs (derive_into_tag tag0 vs a) = Ok a.
Proof.
  induction vs as [|[tag c] vs IH]; cbn; intros Hnd Hin; [by apply not_elem_of_nil in Hin|].
  apply NoDup_cons in Hnd as [Hnew Hnd].
  destruct (decide (a = c)) as [->|Hne]; [by rewrite decide_True|].
  apply elem_of_cons in Hin as [?|Hin]; [done|].
  rewrite decide_False; [by apply IH|]. intros Heq. apply Hnew. rewrite <- Heq.
  clear IH Hnd Hnew Heq. induction vs as [|[tag' c'] vs IH]; cbn in *.
  { by apply not_elem_of_nil in Hin. }
  apply elem_of_cons. destruct (decide (a = c')); [by left|right].
  apply elem_of_cons in Hin as [?|?]; [done|by apply IH].
Qed.

Lemma try_from_tag_Ok vs tag a :
  derive_try_from_tag vs tag = Ok a -> (tag, a) ∈ vs.
Proof.
  induction vs as [|[tag' c] vs IH]; cbn; [done|].
  case_decide; [intros [= ->]; subst; by left|]. intros. right. by apply IH.
Qed.
End ext_enum.

(** ** The properties of the derived code *)

(** For any enum whose tags are distinct, the code [#[derive(Pack)]] generates
    packs a value as its tag followed by its fields and unpacks it again to the
    same value with nothing left over; a tag no variant has is refused as
    [InvalidEnumTag]. *)
Theorem derived_enum_roundtrip {Tag A : Type} `{EqDecision Tag} `{PackLaws Tag} (tag0 : Tag)
    (lvs : list (lawful_variant Tag A)) (a : A) :
  NoDup (v_tag ∘ lv_variant <$> lvs) ->
  Forall (fun lv => pack_wf (v_tag (lv_variant lv))) lvs ->
  (forall (tag : Tag) rest, pack_tail tag rest) ->
  derive_wf lvs a -> derive_tail lvs a [] ->
  let vs := lv_variant <$> lvs in
  derive_enum_pack tag0 vs a vec_new =
    Ok (Vec (encoding (derive_get_tag tag0 vs a) ++ derive_encoding lvs a)) /\
  derive_enum_unpack vs (encoding (derive_get_tag tag0 vs a) ++ derive_encoding lvs a)
    = Ok (a, []) /\
  (forall tag rest, pack_wf tag -> tag ∉ (v_tag ∘ lv_variant <$> lvs) ->
     derive_enum_unpack vs (encoding tag ++ rest) = Err InvalidEnumTag).
Proof.
  intros Hnd Htags Hdel Hwf Htl. cbn zeta.
  assert (pack_wf (derive_get_tag tag0 (lv_variant <$> lvs) a)) as Htag.
  { pose proof (derive_get_tag_in tag0 lvs a Hwf) as (lv & -> & Hin)%list_elem_of_fmap.
    exact (proj1 (Forall_forall _ _) Htags lv Hin). }
  split; [|split].
  - unfold derive_enum_pack. rewrite pack_spec by done.
    rewrite (append_bytes_bind vec_new _ (derive_encoding lvs a)); [done|done|].
    intros t Ht. by apply (derive_pack_data_spec lvs a t).
  - unfold derive_enum_unpack. rewrite unpack_encoding by done. cbn.
    rewrite <- (app_nil_r (derive_encoding lvs a)). by apply derive_unpack_encoding.
  - intros tag rest Hw Hin. unfold derive_enum_unpack. rewrite unpack_encoding by done. cbn.
    by apply derive_unpack_unknown.
Qed.

(** The data enum of the repository's own test ([src/src/pack/tests.rs]). *)
Inductive TestEnum := TestA (a : u8) | TestB (a : u16) (b : u32).
Definition TestA_lawful : lawful_variant u16 TestEnum.
Proof.
  refine (LawfulVariant
    (Variant (Uint 12) u8 TestA (fun t => match t with TestA a => Some a | _ => None end))
    (uint_laws 1) _ _); [reflexivity|intros [] ?; cbn; congruence].
Defined.
Definition TestB_lawful : lawful_variant u16 TestEnum.
Proof.
  refine (LawfulVariant
    (Variant (Uint 34) (u16 * u32) (fun p => TestB (fst p) (snd p))
       (fun t => match t with TestB a b => Some (a, b) | _ => None end))
    pair_laws _ _); [by intros []|by intros [|] []; cbn; congruence].
Defined.

Lemma derived_enum_roundtrip_witness :
  let lvs := [TestA_lawful; TestB_lawful] in
  let vs : list (variant u16 TestEnum) := lv_variant <$> lvs in
  derive_enum_pack (Uint 0) vs (TestB (Uint 10) (Uint 20)) vec_new
    = Ok (Vec [34; 0; 10; 0; 20; 0; 0; 0]) /\
  derive_enum_unpack vs [34; 0; 10; 0; 20; 0; 0; 0] = Ok (TestB (Uint 10) (Uint 20), []) /\
  (forall tag rest, pack_wf tag -> tag ∉ (v_tag ∘ lv_variant <$> lvs) ->
     derive_enum_unpack vs (encoding tag ++ rest) = Err InvalidEnumTag).
Proof.
  refine (derived_enum_roundtrip (Uint 0) [TestA_lawful; TestB_lawful]
            (TestB (Uint 10) (Uint 20)) _ _ _ _ _);
    [by apply (bool_decide_unpack _)|by repeat constructor|done|by repeat split|by repeat split].
Defined.
