(* ===== verification/MacroDerive.v ===== *)
(** * The derive macros as code generators ([src/pack_derive/])

    [PackDerive.v] says what the derived code does; this file models how the macros make it:
    they read a declaration (attributes, variants, fields), draw names for the fields, and put
    together [match] arms of [let] lines, patterns and constructors. The generated code is run
    by an interpreter of those lines with its variables in an environment, in which a name that
    is not bound makes it stuck.

    The crate [syn] is an interface: its parsers of types, expressions and patterns are
    parameters. Generics and [where] clauses say nothing about what the code does and are left
    out.

    [MacroDeriveTheory.v] shows that the code is well-scoped and does what [PackDerive.v] says. *)

From Stdlib Require Import ZArith Lia.
From stdpp Require Import pretty.
From S2P Require Import Prelude Pack PackDerive.

#[local] Open Scope string_scope.

Module Macro.

(** ** What [syn] reads *)

Class Syn := {
  tokens : Type;
  ty : Type;
  expr : Type;
  pat : Type;
  parse_type : tokens -> option ty;
  parse_expr : tokens -> option expr;
  parse_pat : tokens -> option pat;
  expr_tokens : expr -> tokens;
  #[global] ty_eq_dec :: EqDecision ty;
}.

Section generator.
Context `{!Syn}.

Record Path := MkPath { leading_colon : bool; segments : list string }.
Record Attribute := MkAttribute { attr_path : Path; attr_args : tokens }.
Inductive Fields := Named (fs : list (string * ty)) | Unnamed (ts : list ty) | Unit.
Record EnumVariant := MkVariant {
  variant_ident : string;
  variant_attrs : list Attribute;
  variant_fields : Fields;
  discriminant : option expr;
}.
Inductive Data := DataStruct (fields : Fields) | DataEnum (variants : list EnumVariant) | DataUnion.
Record DeriveInput := MkInput { ident : string; attrs : list Attribute; data : Data }.

Inductive SynError := AttributeNotFound (name : string) | ParseError.

(** ** Reading attributes *)

Definition gen_temporary_names (num : nat) : string := "tmp" +:+ pretty (N.of_nat num).
Definition gen_ignored_names (num : nat) : string := "_ignore" +:+ pretty (N.of_nat num).
(** [namegen.take(n).collect()] *)
Definition take_names (namegen : nat -> string) (n : nat) : list string := namegen <$> seq 0 n.

Definition match_path (path : Path) (name : string) : bool :=
  match leading_colon path, segments path with
  | false, [segment] => bool_decide (segment = name)
  | _, _ => false
  end.

Definition parse_args {T} (parse : tokens -> option T) (ts : tokens) : result SynError T :=
  match parse ts with Some x => Ok x | None => Err ParseError end.

Definition find_simple_attribute {T} (parse : tokens -> option T) (attrs : list Attribute) (name : string) :
    result SynError T :=
  match find (fun attr => match_path (attr_path attr) name) attrs with
  | Some found => parse_args parse (attr_args found)
  | None => Err (AttributeNotFound name)
  end.

Definition get_tag_type (attributes : list Attribute) : result SynError ty :=
  find_simple_attribute parse_type attributes "tag_type".
Definition get_tag_expr (v : EnumVariant) : result SynError expr :=
  match discriminant v with
  | Some discr => parse_args parse_expr (expr_tokens discr)
  | None => find_simple_attribute parse_expr (variant_attrs v) "tag"
  end.
Definition get_tag_pat (v : EnumVariant) : result SynError pat :=
  match discriminant v with
  | Some discr => parse_args parse_pat (expr_tokens discr)
  | None => find_simple_attribute parse_pat (variant_attrs v) "tag"
  end.

(** [Result::unwrap] *)
Definition unwrap_syn {T} (r : result SynError T) : exec T :=
  match r with Ok x => Ok x | Err _ => Err Panic end.

(** ** The generated code *)

(** A constructor with a variable for each field, as an expression and as a pattern:
    [Path { field: name, .. }], [Path(name, ..)] or [Path]. *)
Record ConPath := MkCon { con_type : string; con_variant : option string }.
Inductive ConShape := ShapeNamed (fs : list (string * string)) | ShapeUnnamed (xs : list string) | ShapeUnit.
Record ConTerm := MkTerm { term_path : ConPath; term_shape : ConShape }.

(** [#tag => { let (name, data) = Type::unpack(data)?; .. Ok((constructor, data)) }] *)
Record UnpackArm := MkUnpackArm { ua_tag : pat; ua_lets : list (string * ty); ua_result : ConTerm }.
(** [constructor => { let tag: Type = #tag; let target = tag.pack(target)?; .. Ok(target) }],
    without the tag in [pack_data] *)
Record PackArm := MkPackArm { pa_pat : ConTerm; pa_tag : option expr; pa_names : list string }.
(** [constructor => { let tag: Type = #tag; tag }] *)
Record TagArm := MkTagArm { ta_pat : ConTerm; ta_tag : expr }.
(** [#tag => Ok(constructor)] *)
Record FromTagArm := MkFromTagArm { fa_tag : pat; fa_result : ConTerm }.

Inductive ImplPack :=
| ImplStruct (lets : list (string * ty)) (res : ConTerm) (pattern : ConTerm) (names : list string)
| ImplEnum (tag_type : ty) (unpack_arms : list UnpackArm) (pack_arms : list PackArm).
Record ImplPackTagged := MkTagged {
  tagged_type : ty;
  tag_arms : list TagArm;
  tagged_unpack_arms : list UnpackArm;
  tagged_pack_arms : list PackArm;
}.
Record ImplExtEnum := MkExtEnum {
  ext_type : ty;
  into_tag_arms : list TagArm;
  from_tag_arms : list FromTagArm;
}.

(** ** [construct.rs] and [deconstruct.rs] *)

Definition construct_from_named_fields (path : ConPath) (fs : list (string * ty)) (namegen : nat -> string) :
    ConTerm * list ty * list string :=
  let struct_names := fs.*1 in
  let new_names := take_names namegen (length fs) in
  let types := fs.*2 in
  (MkTerm path (ShapeNamed (zip struct_names new_names)), types, new_names).
Definition construct_from_unnamed_fields (path : ConPath) (ts : list ty) (namegen : nat -> string) :
    ConTerm * list ty * list string :=
  let new_names := take_names namegen (length ts) in
  (MkTerm path (ShapeUnnamed new_names), ts, new_names).
Definition construct_from_fields (path : ConPath) (fields : Fields) (namegen : nat -> string) :
    ConTerm * list ty * list string :=
  match fields with
  | Named f => construct_from_named_fields path f namegen
  | Unnamed f => construct_from_unnamed_fields path f namegen
  | Unit => (MkTerm path ShapeUnit, [], [])
  end.
Definition construct_from_enum_variant (enum_name : string) (v : EnumVariant) (namegen : nat -> string) :
    ConTerm * list ty * list string :=
  construct_from_fields (MkCon enum_name (Some (variant_ident v))) (variant_fields v) namegen.

Definition deconstruct_from_named_fields (path : ConPath) (fs : list (string * ty)) (namegen : nat -> string) :
    ConTerm * list string :=
  let struct_names := fs.*1 in
  let new_names := take_names namegen (length fs) in
  (MkTerm path (ShapeNamed (zip struct_names new_names)), new_names).
Definition deconstruct_from_unnamed_fields (path : ConPath) (ts : list ty) (namegen : nat -> string) :
    ConTerm * list string :=
  let new_names := take_names namegen (length ts) in
  (MkTerm path (ShapeUnnamed new_names), new_names).
Definition deconstruct_from_fields (path : ConPath) (fields : Fields) (namegen : nat -> string) :
    ConTerm * list string :=
  match fields with
  | Named f => deconstruct_from_named_fields path f namegen
  | Unnamed f => deconstruct_from_unnamed_fields path f namegen
  | Unit => (MkTerm path ShapeUnit, [])
  end.
Definition deconstruct_from_enum_variant (enum_name : string) (v : EnumVariant) (namegen : nat -> string) :
    ConTerm * list string :=
  deconstruct_from_fields (MkCon enum_name (Some (variant_ident v))) (variant_fields v) namegen.

(** ** [lib.rs] *)

Definition impl_pack_for_struct (name : string) (fields : Fields) : ImplPack :=
  let '(construct_expr, construct_types, construct_names) :=
    construct_from_fields (MkCon name None) fields gen_temporary_names in
  let '(deconstruct_pat, deconstruct_names) :=
    deconstruct_from_fields (MkCon name None) fields gen_temporary_names in
  ImplStruct (zip construct_names construct_types) construct_expr deconstruct_pat deconstruct_names.

(** The arms, variant by variant; [with_tag] for those of [impl_pack_for_enum]. *)
Definition pack_arm (with_tag : bool) (name : string) (v : EnumVariant) : exec PackArm :=
  tag ← (if with_tag then Some <$> unwrap_syn (get_tag_expr v) else Ok None);
  let '(deconstruct_pat, names) := deconstruct_from_enum_variant name v gen_temporary_names in
  Ok (MkPackArm deconstruct_pat tag names).
Definition unpack_arm (name : string) (v : EnumVariant) : exec UnpackArm :=
  tag ← unwrap_syn (get_tag_pat v);
  let '(construct_expr, construct_types, construct_names) :=
    construct_from_enum_variant name v gen_temporary_names in
  Ok (MkUnpackArm tag (zip construct_names construct_types) construct_expr).
Definition tag_arm (name : string) (v : EnumVariant) : exec TagArm :=
  tag ← unwrap_syn (get_tag_expr v);
  let '(deconstruct_pat, _) := deconstruct_from_enum_variant name v gen_ignored_names in
  Ok (MkTagArm deconstruct_pat tag).
Definition from_tag_arm (name : string) (v : EnumVariant) : exec FromTagArm :=
  tag ← unwrap_syn (get_tag_pat v);
  let '(construct_expr, construct_types, _) := construct_from_enum_variant name v gen_ignored_names in
  match construct_types with
  | [] => Ok (MkFromTagArm tag construct_expr)
  | _ => Err Panic
  end.

Definition impl_pack_for_enum (name : string) (attributes : list Attribute) (variants : list EnumVariant) :
    exec ImplPack :=
  tag_type ← unwrap_syn (get_tag_type attributes);
  pack_arms ← mapM (pack_arm true name) variants;
  unpack_arms ← mapM (unpack_arm name) variants;
  Ok (ImplEnum tag_type unpack_arms pack_arms).
Definition impl_pack_tagged_for_enum (name : string) (attributes : list Attribute) (variants : list EnumVariant) :
    exec ImplPackTagged :=
  tag_type ← unwrap_syn (get_tag_type attributes);
  tag_arms ← mapM (tag_arm name) variants;
  pack_arms ← mapM (pack_arm false name) variants;
  unpack_arms ← mapM (unpack_arm name) variants;
  Ok (MkTagged tag_type tag_arms unpack_arms pack_arms).
Definition impl_ext_enum_for_enum (name : string) (attributes : list Attribute) (variants : list EnumVariant) :
    exec ImplExtEnum :=
  tag_type ← unwrap_syn (get_tag_type attributes);
  into_tag_arms ← mapM (tag_arm name) variants;
  from_tag_arms ← mapM (from_tag_arm name) variants;
  Ok (MkExtEnum tag_type into_tag_arms from_tag_arms).

Definition impl_pack (ast : DeriveInput) : exec ImplPack :=
  match data ast with
  | DataStruct fields => Ok (impl_pack_for_struct (ident ast) fields)
  | DataEnum variants => impl_pack_for_enum (ident ast) (attrs ast) variants
  | DataUnion => Err Panic
  end.
Definition impl_pack_tagged (ast : DeriveInput) : exec ImplPackTagged :=
  match data ast with
  | DataEnum variants => impl_pack_tagged_for_enum (ident ast) (attrs ast) variants
  | _ => Err Panic
  end.
Definition impl_ext_enum (ast : DeriveInput) : exec ImplExtEnum :=
  match data ast with
  | DataEnum variants => impl_ext_enum_for_enum (ident ast) (attrs ast) variants
  | _ => Err Panic
  end.
End generator.

#[global] Instance ConPath_eq_dec : EqDecision ConPath.
Proof. solve_decision. Defined.

End Macro.
