(* ===== verification/MacroDeriveTheory.v ===== *)
(** * What the derive macros generate is what [PackDerive.v] says

    An interpreter of the generated code, the reading of a declaration as the variants of
    [PackDerive.v], and the proof that the two agree for every declaration the macros accept. *)

From Stdlib Require Import ZArith Lia.
From stdpp Require Import pretty.
From S2P Require Import Prelude Pack PackDerive MacroDerive.

#[local] Open Scope string_scope.

Import Macro.

(** ** The interpreter *)

Section interpreter.
Context `{!Syn} {V : Type} `{EqDecision V}.
(** The packing of each type, over a type [V] of all values; what a tag's expression is, and
    which values a pattern takes; [v0] is some value. *)
Context (v0 : V) (ty_pack : ty -> Pack V) (eval_expr : expr -> V) (match_pat : pat -> V -> bool).

(** A value with its type: which [unpack] or [pack] is called is decided by it. *)
Abbreviation typed := (ty * V)%type.

Inductive ConArgs := ArgsNamed (xs : list (string * typed)) | ArgsUnnamed (xs : list typed) | ArgsUnit.
Record Adt := MkAdt { adt_path : ConPath; adt_args : ConArgs }.

(** A variable is a value or what is threaded through the lines: [data] or [target]. *)
Inductive binding (S : Type) := BVal (x : typed) | BState (s : S).
#[local] Arguments BVal {S} x.
#[local] Arguments BState {S} s.
Definition get_value {S} (env : gmap string (binding S)) (x : string) : option typed :=
  match env !! x with Some (BVal v) => Some v | _ => None end.
Definition get_state {S} (env : gmap string (binding S)) (x : string) : option S :=
  match env !! x with Some (BState s) => Some s | _ => None end.

(** A constructor as an expression and as a pattern: [None] if a variable is not bound, and if
    the pattern does not match. *)
Definition eval_con {S} (c : ConTerm) (env : gmap string (binding S)) : option Adt :=
  MkAdt (term_path c) <$>
  match term_shape c with
  | ShapeNamed fs => ArgsNamed <$> mapM (fun fx : string * string => pair (fst fx) <$> get_value env (snd fx)) fs
  | ShapeUnnamed xs => ArgsUnnamed <$> mapM (get_value env) xs
  | ShapeUnit => Some ArgsUnit
  end.
Definition match_con (c : ConTerm) (a : Adt) : option (list (string * typed)) :=
  if decide (term_path c = adt_path a) then
    match term_shape c, adt_args a with
    | ShapeNamed fs, ArgsNamed args =>
        mapM (fun fx : string * string => pair (snd fx) <$> (list_to_map args : gmap string typed) !! fst fx) fs
    | ShapeUnnamed xs, ArgsUnnamed args => if decide (length xs = length args) then Some (zip xs args) else None
    | ShapeUnit, ArgsUnit => Some []
    | _, _ => None
    end
  else None.

(** [let (name, data) = Type::unpack(data)?;], line by line; [None] is stuck. *)
Fixpoint run_lets (lets : list (string * ty)) (env : gmap string (binding (list Z))) :
    option (result UnpackError (gmap string (binding (list Z)))) :=
  match lets with
  | [] => Some (Ok env)
  | (x, t) :: lets =>
      bytes ← get_state env "data";
      match @unpack _ (ty_pack t) bytes with
      | Ok (v, rest) => run_lets lets (<["data" := BState rest]> (<[x := BVal (t, v)]> env))
      | Err e => Some (Err e)
      end
  end.
(** The lines and the [Ok((constructor, data))] after them *)
Definition run_unpack (lets : list (string * ty)) (res : ConTerm) (env : gmap string (binding (list Z))) :
    option (unpacked Adt) :=
  r ← run_lets lets env;
  match r with
  | Err e => Some (Err e)
  | Ok env => a ← eval_con res env; rest ← get_state env "data"; Some (Ok (a, rest))
  end.

(** [match tag { #tag => .., _ => Err(InvalidEnumTag) }] *)
Fixpoint run_unpack_arms (arms : list UnpackArm) (tag : V) (env : gmap string (binding (list Z))) :
    option (unpacked Adt) :=
  match arms with
  | [] => Some (Err InvalidEnumTag)
  | arm :: arms =>
      if match_pat (ua_tag arm) tag then run_unpack (ua_lets arm) (ua_result arm) env
      else run_unpack_arms arms tag env
  end.

(** [let target = name.pack(target)?;] *)
Fixpoint run_packs {T E} `{PackTarget T E} (names : list string) (env : gmap string (binding T)) :
    option (result (PackError E) T) :=
  match names with
  | [] => Ok <$> get_state env "target"
  | x :: names =>
      tv ← get_value env x; target ← get_state env "target";
      match @pack _ (ty_pack (fst tv)) T E _ (snd tv) target with
      | Ok target => run_packs names (<["target" := BState target]> env)
      | Err e => Some (Err e)
      end
  end.
Definition pattern_env {S} (bs : list (string * typed)) (env : gmap string (binding S)) : gmap string (binding S) :=
  foldl (fun env b => <[fst b := BVal (snd b)]> env) env bs.
(** The [match self { .. }], which is stuck when no arm applies *)
Fixpoint run_pack_arms {T E} `{PackTarget T E} (tag_type : ty) (arms : list PackArm) (a : Adt)
    (env : gmap string (binding T)) : option (result (PackError E) T) :=
  match arms with
  | [] => None
  | arm :: arms =>
      match match_con (pa_pat arm) a with
      | None => run_pack_arms tag_type arms a env
      | Some bs =>
          let env := pattern_env bs env in
          match pa_tag arm with
          | None => run_packs (pa_names arm) env
          | Some tag =>
              (* the tag is bound, and packed as the first of the names *)
              run_packs ("tag" :: pa_names arm) (<["tag" := BVal (tag_type, eval_expr tag)]> env)
          end
      end
  end.
Fixpoint run_tag_arms (arms : list TagArm) (a : Adt) : option V :=
  match arms with
  | [] => None
  | arm :: arms => match match_con (ta_pat arm) a with
                   | Some _ => Some (eval_expr (ta_tag arm))
                   | None => run_tag_arms arms a
                   end
  end.
Fixpoint run_from_tag_arms (arms : list FromTagArm) (tag : V) : option (result ExtEnumError Adt) :=
  match arms with
  | [] => Some (Err InvalidTag)
  | arm :: arms =>
      if match_pat (fa_tag arm) tag then Ok <$> eval_con (S := unit) (fa_result arm) ∅
      else run_from_tag_arms arms tag
  end.

(** The functions of the generated [impl]s *)
Definition unpack_env (bytes : list Z) : gmap string (binding (list Z)) := {["data" := BState bytes]}.
Definition pack_env {T} (target : T) : gmap string (binding T) := {["target" := BState target]}.

Definition generated_unpack (i : ImplPack) (bytes : list Z) : option (unpacked Adt) :=
  match i with
  | ImplStruct lets res _ _ => run_unpack lets res (unpack_env bytes)
  | ImplEnum tag_type arms _ =>
      match @unpack _ (ty_pack tag_type) bytes with
      | Ok (tag, rest) =>
          run_unpack_arms arms tag (<["data" := BState rest]> (<["tag" := BVal (tag_type, tag)]> (unpack_env bytes)))
      | Err e => Some (Err e)
      end
  end.
Definition generated_pack {T E} `{PackTarget T E} (i : ImplPack) (a : Adt) (target : T) :
    option (result (PackError E) T) :=
  match i with
  | ImplStruct _ _ pattern names =>
      bs ← match_con pattern a; run_packs names (pattern_env bs (pack_env target))
  | ImplEnum tag_type _ arms => run_pack_arms tag_type arms a (pack_env target)
  end.

(** ** A declaration, as [PackDerive.v] has it *)

(** The values of the fields of a variant, packed one after the other *)
Fixpoint tuple (ts : list ty) : Type :=
  match ts with [] => unit | _ :: ts => (V * tuple ts)%type end.
Fixpoint tuple_pack (ts : list ty) : Pack (tuple ts) :=
  match ts with
  | [] => unit_Pack
  | t :: ts => @pair_Pack _ _ (ty_pack t) (tuple_pack ts)
  end.
Fixpoint tuple_list (ts : list ty) : tuple ts -> list typed :=
  match ts with
  | [] => fun _ => []
  | t :: ts => fun vs => (t, fst vs) :: tuple_list ts (snd vs)
  end.
Fixpoint list_tuple (ts : list ty) (l : list typed) : option (tuple ts) :=
  match ts, l with
  | [], [] => Some tt
  | t :: ts, (t', v) :: l => if decide (t' = t) then pair v <$> list_tuple ts l else None
  | _, _ => None
  end.

Fixpoint tuple_default (ts : list ty) : tuple ts :=
  match ts with [] => tt | _ :: ts => (v0, tuple_default ts) end.

Definition field_types (f : Fields) : list ty :=
  match f with Named fs => fs.*2 | Unnamed ts => ts | Unit => [] end.
Definition field_names (f : Fields) : list string :=
  match f with Named fs => fs.*1 | _ => [] end.
Definition args_of (f : Fields) : tuple (field_types f) -> ConArgs :=
  match f with
  | Named fs => fun vs => ArgsNamed (zip fs.*1 (tuple_list fs.*2 vs))
  | Unnamed ts => fun vs => ArgsUnnamed (tuple_list ts vs)
  | Unit => fun _ => ArgsUnit
  end.
Definition of_args (f : Fields) (args : ConArgs) : option (tuple (field_types f)) :=
  match f, args with
  | Named fs, ArgsNamed l => if decide (l.*1 = fs.*1) then list_tuple fs.*2 l.*2 else None
  | Unnamed ts, ArgsUnnamed l => list_tuple ts l
  | Unit, ArgsUnit => Some tt
  | _, _ => None
  end.

Definition adt_of (path : ConPath) (f : Fields) (vs : tuple (field_types f)) : Adt := MkAdt path (args_of f vs).
Definition of_adt (path : ConPath) (f : Fields) (a : Adt) : option (tuple (field_types f)) :=
  if decide (adt_path a = path) then of_args f (adt_args a) else None.

Definition struct_fields (name : string) (f : Fields) : fields_of Adt :=
  @FieldsOf Adt (tuple (field_types f)) (tuple_pack (field_types f)) (adt_of (MkCon name None) f)
    (fun a => match of_adt (MkCon name None) f a with Some vs => vs | None => tuple_default (field_types f) end).
Definition variant_of (name : string) (v : EnumVariant) (tag : V) : variant V Adt :=
  let path := MkCon name (Some (variant_ident v)) in
  @Variant V Adt tag (tuple (field_types (variant_fields v))) (tuple_pack (field_types (variant_fields v)))
    (adt_of path (variant_fields v)) (of_adt path (variant_fields v)).

(** ** Names *)

Lemma temporary_names_inj i j : gen_temporary_names i = gen_temporary_names j -> i = j.
Proof.
  unfold gen_temporary_names. intros E. apply (inj (String.append "tmp")) in E. apply (inj pretty) in E. lia.
Qed.
Lemma take_names_NoDup n : NoDup (take_names gen_temporary_names n).
Proof. unfold take_names. apply NoDup_fmap_2_strong; [|apply NoDup_seq]. intros ????. apply temporary_names_inj. Qed.
Lemma length_take_names g n : length (take_names g n) = n.
Proof. unfold take_names. by rewrite length_fmap, length_seq. Qed.
Lemma take_names_fresh x n : (forall i, gen_temporary_names i <> x) -> x ∉ take_names gen_temporary_names n.
Proof. intros Hx (i & Hi & _)%list_elem_of_fmap. by eapply Hx. Qed.
Lemma temporary_not_data i : gen_temporary_names i <> "data".
Proof. done. Qed.
Lemma temporary_not_target i : gen_temporary_names i <> "target".
Proof. done. Qed.
Lemma temporary_not_tag i : gen_temporary_names i <> "tag".
Proof. done. Qed.

(** ** Reading *)

Lemma mapM_get {S} (env : gmap string (binding S)) xs l :
  mapM (get_value env) xs = Some l <-> Forall2 (fun x v => get_value env x = Some v) xs l.
Proof. apply mapM_Some. Qed.

Lemma length_tuple_list ts vs : length (tuple_list ts vs) = length ts.
Proof. revert vs. induction ts as [|t ts IH]; intros vs; [done|]. cbn. by rewrite IH. Qed.

(** The lines of a variant read its fields one after the other, each into its variable. *)
Lemma run_lets_tuple ts names env bytes :
  NoDup names -> "data" ∉ names -> length names = length ts -> get_state env "data" = Some bytes ->
  match @unpack _ (tuple_pack ts) bytes with
  | Ok (vs, rest) => exists env', run_lets (zip names ts) env = Some (Ok env') /\
      get_state env' "data" = Some rest /\ Forall2 (fun x v => get_value env' x = Some v) names (tuple_list ts vs) /\
      (forall x, x ∉ names -> x <> "data" -> env' !! x = env !! x)
  | Err e => run_lets (zip names ts) env = Some (Err e)
  end.
Proof.
  revert names env bytes. induction ts as [|t ts IH]; intros names env bytes Hnd Hdata Hlen Henv.
  { destruct names; [|done]. exists env. by split_and!. }
  destruct names as [|x names]; [done|]. apply NoDup_cons in Hnd as [Hx Hnd].
  apply not_elem_of_cons in Hdata as [Hxd Hdata]. injection Hlen as Hlen.
  cbn [zip zip_with run_lets tuple_pack unpack pair_Pack]. rewrite Henv. cbn [mbind option_bind].
  unfold unpack_pair. destruct (@unpack _ (ty_pack t) bytes) as [[v rest]|e] eqn:Ev; cbn [mbind result_bind]; [|done].
  specialize (IH names (<["data" := BState rest]> (<[x := BVal (t, v)]> env)) rest Hnd Hdata Hlen).
  assert (get_state (<["data" := BState rest]> (<[x := BVal (t, v)]> env)) "data" = Some rest) as Hs
    by (unfold get_state; by rewrite lookup_insert).
  specialize (IH Hs). destruct (@unpack _ (tuple_pack ts) rest) as [[vs rest']|e]; cbn [mbind result_bind]; [|done].
  destruct IH as (env' & Er & Hd & Hf & Hsame). exists env'. split_and!; [done|done| |].
  - cbn [tuple_list]. constructor; [|done]. unfold get_value. rewrite Hsame by done.
    rewrite lookup_insert_ne by done. by rewrite lookup_insert_eq.
  - intros y [Hyx Hy]%not_elem_of_cons Hyd. rewrite Hsame by done.
    rewrite lookup_insert_ne by congruence. by rewrite lookup_insert_ne by congruence.
Qed.

Lemma mapM_pair_names {S} (env : gmap string (binding S)) fs xs l :
  length fs = length xs -> Forall2 (fun x v => get_value env x = Some v) xs l ->
  mapM (fun fx : string * string => pair (fst fx) <$> get_value env (snd fx)) (zip fs xs) = Some (zip fs l).
Proof.
  intros Hlen Hf. revert fs Hlen. induction Hf as [|x v xs l Hx _ IH]; intros [|f fs] Hlen; try done.
  injection Hlen as Hlen. cbn. rewrite Hx. cbn. by rewrite (IH fs Hlen).
Qed.

(** A whole arm: the fields are read and the constructor is put together. *)
Lemma run_unpack_fields path f env bytes :
  get_state env "data" = Some bytes ->
  let '(res, types, names) := construct_from_fields path f gen_temporary_names in
  run_unpack (zip names types) res env =
  Some ('(vs, rest) ← @unpack _ (tuple_pack (field_types f)) bytes; Ok (adt_of path f vs, rest)).
Proof.
  intros Henv.
  assert (forall n, NoDup (take_names gen_temporary_names n) /\ "data" ∉ take_names gen_temporary_names n) as Hn
    by (intros n; split; [apply take_names_NoDup|apply take_names_fresh, temporary_not_data]).
  destruct f as [fs|ts|]; cbn [construct_from_fields construct_from_named_fields construct_from_unnamed_fields];
    unfold run_unpack.
  - pose proof (run_lets_tuple fs.*2 (take_names gen_temporary_names (length fs)) env bytes) as Hr.
    cbn [field_types]. destruct (Hn (length fs)) as [Hnd Hd].
    specialize (Hr Hnd Hd ltac:(by rewrite length_take_names, length_fmap) Henv).
    destruct (@unpack _ (tuple_pack fs.*2) bytes) as [[vs rest]|e]; cbn [mbind result_bind]; [|by rewrite Hr].
    destruct Hr as (env' & -> & Hrest & Hf & _). cbn [mbind option_bind].
    unfold eval_con. cbn [term_shape term_path].
    rewrite (mapM_pair_names env' fs.*1 _ _ ltac:(by rewrite length_take_names, length_fmap) Hf).
    cbn [fmap option_fmap option_map mbind option_bind]. by rewrite Hrest.
  - pose proof (run_lets_tuple ts (take_names gen_temporary_names (length ts)) env bytes) as Hr.
    cbn [field_types]. destruct (Hn (length ts)) as [Hnd Hd].
    specialize (Hr Hnd Hd ltac:(by rewrite length_take_names) Henv).
    destruct (@unpack _ (tuple_pack ts) bytes) as [[vs rest]|e]; cbn [mbind result_bind]; [|by rewrite Hr].
    destruct Hr as (env' & -> & Hrest & Hf & _). cbn [mbind option_bind].
    unfold eval_con. cbn [term_shape term_path]. apply mapM_get in Hf. rewrite Hf.
    cbn [fmap option_fmap option_map mbind option_bind]. by rewrite Hrest.
  - cbn. by rewrite Henv.
Qed.

(** ** Matching and packing *)

Lemma mapM_fields (m : gmap string typed) fs xs l :
  length fs = length xs -> Forall2 (fun f v => m !! f = Some v) fs l ->
  mapM (fun fx : string * string => pair (snd fx) <$> m !! fst fx) (zip fs xs) = Some (zip xs l).
Proof.
  intros Hlen Hf. revert xs Hlen. induction Hf as [|f v fs l Hx _ IH]; intros [|x xs] Hlen; try done.
  injection Hlen as Hlen. cbn. rewrite Hx. cbn. by rewrite (IH xs Hlen).
Qed.

Lemma named_lookup (fs : list string) (l : list typed) :
  NoDup fs -> length fs = length l ->
  Forall2 (fun f v => (list_to_map (zip fs l) : gmap string typed) !! f = Some v) fs l.
Proof.
  intros Hnd Hlen. apply Forall2_same_length_lookup_2; [done|]. intros i f v Hf Hv.
  apply elem_of_list_to_map_1; [by rewrite fst_zip by lia|].
  apply list_elem_of_lookup. exists i. apply lookup_zip_with_Some. eauto.
Qed.

Lemma match_con_other path f g a :
  adt_path a <> path -> match_con (fst (deconstruct_from_fields path f g)) a = None.
Proof. intros Hp. unfold match_con. destruct f; cbn; by rewrite decide_False. Qed.

Lemma match_con_own path f g vs :
  NoDup (field_names f) ->
  match_con (fst (deconstruct_from_fields path f g)) (adt_of path f vs) =
  Some (zip (snd (deconstruct_from_fields path f g)) (tuple_list (field_types f) vs)).
Proof.
  intros Hnd. unfold match_con. destruct f as [fs|ts|]; cbn [deconstruct_from_fields deconstruct_from_named_fields
    deconstruct_from_unnamed_fields fst snd term_path term_shape adt_of adt_path adt_args args_of field_types].
  - rewrite decide_True by done. apply mapM_fields; [by rewrite length_take_names, length_fmap|].
    apply named_lookup; [done|]. by rewrite length_tuple_list, !length_fmap.
  - rewrite !decide_True; [done| |done]. by rewrite length_take_names, length_tuple_list.
  - by rewrite decide_True.
Qed.

Lemma pattern_env_other {S} bs (env : gmap string (binding S)) x : x ∉ bs.*1 -> pattern_env bs env !! x = env !! x.
Proof.
  revert env. induction bs as [|[y v] bs IH]; intros env Hx; [done|]. apply not_elem_of_cons in Hx as [Hxy Hx].
  change (pattern_env bs (<[y := BVal v]> env) !! x = env !! x). rewrite IH by done. by apply lookup_insert_ne.
Qed.
Lemma pattern_env_own {S} xs l (env : gmap string (binding S)) :
  NoDup xs -> length xs = length l ->
  Forall2 (fun x v => get_value (pattern_env (zip xs l) env) x = Some v) xs l.
Proof.
  revert l env. induction xs as [|x xs IH]; intros [|v l] env Hnd Hlen; try done.
  apply NoDup_cons in Hnd as [Hx Hnd]. injection Hlen as Hlen. constructor; [|by apply IH].
  change (pattern_env (zip (x :: xs) (v :: l)) env) with (pattern_env (zip xs l) (<[x := BVal v]> env)).
  unfold get_value. rewrite pattern_env_other; [by rewrite lookup_insert_eq|].
  by rewrite fst_zip by lia.
Qed.

Lemma run_packs_tuple {T E} `{PackTarget T E} ts vs names (env : gmap string (binding T)) target :
  "target" ∉ names -> Forall2 (fun x v => get_value env x = Some v) names (tuple_list ts vs) ->
  get_state env "target" = Some target ->
  run_packs names env = Some (@pack _ (tuple_pack ts) T E _ vs target).
Proof.
  revert names env target. induction ts as [|t ts IH]; intros names env target Ht Hf Henv.
  { inversion Hf; subst. cbn. by rewrite Henv. }
  destruct vs as [v vs]. cbn [tuple_list fst snd] in Hf.
  apply Forall2_cons_inv_r in Hf as (x & names' & Hx & Hf' & ->). apply not_elem_of_cons in Ht as [Hxt Ht].
  cbn [run_packs]. rewrite Hx, Henv. cbn [mbind option_bind fst snd tuple_pack pack pair_Pack]. unfold pack_pair.
  cbn [fst snd]. destruct (@pack _ (ty_pack t) T E _ v target) as [target'|e]; cbn [mbind result_bind]; [|done].
  rewrite (IH vs names' _ target' Ht).
  - by destruct (@pack _ (tuple_pack ts) T E _ vs target').
  - eapply Forall2_impl; [exact Hf'|]. cbn. intros y w Hy. unfold get_value in *.
    destruct (decide (y = "target")) as [->|]; [|by rewrite lookup_insert_ne].
    unfold get_state in Henv. by destruct (env !! "target") as [[|]|].
  - unfold get_state. by rewrite lookup_insert_eq.
Qed.

Lemma deconstruct_names path f g : snd (deconstruct_from_fields path f g) = take_names g (length (field_types f)).
Proof. destruct f as [fs|ts|]; cbn; by rewrite ?length_fmap. Qed.

(** A whole arm: the fields that the pattern binds are packed in order. *)
Definition arm_env {S} (path : ConPath) (f : Fields) (vs : tuple (field_types f)) (env : gmap string (binding S)) :
    gmap string (binding S) :=
  pattern_env (zip (snd (deconstruct_from_fields path f gen_temporary_names)) (tuple_list (field_types f) vs)) env.

Lemma arm_env_other {S} path f vs (env : gmap string (binding S)) x :
  (forall i, gen_temporary_names i <> x) -> arm_env path f vs env !! x = env !! x.
Proof.
  intros Hx. unfold arm_env. rewrite deconstruct_names, pattern_env_other; [done|].
  rewrite fst_zip by (rewrite length_take_names, length_tuple_list; lia). by apply take_names_fresh.
Qed.

Lemma run_packs_fields {T E} `{PackTarget T E} path f vs (env env' : gmap string (binding T)) target :
  (forall x, x ∈ snd (deconstruct_from_fields path f gen_temporary_names) -> env' !! x = arm_env path f vs env !! x) ->
  get_state env' "target" = Some target ->
  run_packs (snd (deconstruct_from_fields path f gen_temporary_names)) env' =
  Some (@pack _ (tuple_pack (field_types f)) T E _ vs target).
Proof.
  intros Hsame Ht. unfold arm_env in Hsame. rewrite deconstruct_names in *. apply run_packs_tuple; [|..|done].
  - apply take_names_fresh, temporary_not_target.
  - pose proof (pattern_env_own (take_names gen_temporary_names (length (field_types f)))
      (tuple_list (field_types f) vs) env (take_names_NoDup _)) as Hf.
    rewrite length_take_names, length_tuple_list in Hf. specialize (Hf eq_refl).
    apply Forall2_same_length_lookup_2; [by rewrite length_take_names, length_tuple_list|]. intros i x v Hx Hv.
    unfold get_value. rewrite Hsame by (apply list_elem_of_lookup; eauto).
    exact (Forall2_lookup_lr _ _ _ _ _ _ Hf Hx Hv).
Qed.

(** ** Structs *)

Lemma list_tuple_list ts vs : list_tuple ts (tuple_list ts vs) = Some vs.
Proof.
  induction ts as [|t ts IH]; [by destruct vs|]. destruct vs as [v vs]. cbn. rewrite decide_True by done.
  by rewrite IH.
Qed.
Lemma tuple_list_tuple ts l vs : list_tuple ts l = Some vs -> tuple_list ts vs = l.
Proof.
  revert l vs. induction ts as [|t ts IH]; intros [|[t' v] l] vs; cbn; try done.
  case_decide as Ht; [|done]. destruct (list_tuple ts l) as [vs'|] eqn:E; [|done]. intros [= <-]. cbn.
  by rewrite (IH l vs' E), Ht.
Qed.

Lemma of_adt_of path f vs : of_adt path f (adt_of path f vs) = Some vs.
Proof.
  unfold of_adt. cbn [adt_path adt_of]. rewrite decide_True by done. unfold adt_of. cbn [adt_args].
  destruct f as [fs|ts|]; cbn [of_args args_of field_types].
  - assert (length fs.*1 = length (tuple_list fs.*2 vs)) as Hlen by by rewrite length_tuple_list, !length_fmap.
    rewrite decide_True by by rewrite fst_zip by lia. rewrite snd_zip by lia. apply list_tuple_list.
  - apply list_tuple_list.
  - by destruct vs.
Qed.
Lemma adt_of_of path f a vs : of_adt path f a = Some vs -> adt_of path f vs = a.
Proof.
  unfold of_adt. case_decide as Hp; [|done]. destruct a as [p args]. cbn in Hp |- *. subst p. unfold adt_of.
  intros Hv. f_equal. destruct f as [fs|ts|], args as [l|l|]; cbn [of_args args_of field_types] in *; try done.
  - case_decide as Hn; [|done]. change (ArgsNamed (zip fs.*1 (tuple_list fs.*2 vs)) = ArgsNamed l).
    rewrite (tuple_list_tuple _ _ _ Hv), <- Hn. by rewrite zip_fst_snd.
  - change (ArgsUnnamed (tuple_list ts vs) = ArgsUnnamed l). by rewrite (tuple_list_tuple _ _ _ Hv).
Qed.

(** ** Enums *)

Definition generated_unpack_data (i : ImplPackTagged) (tag : V) (bytes : list Z) : option (unpacked Adt) :=
  run_unpack_arms (tagged_unpack_arms i) tag (<["tag" := BVal (tagged_type i, tag)]> (unpack_env bytes)).
Definition generated_pack_data {T E} `{PackTarget T E} (i : ImplPackTagged) (a : Adt) (target : T) :
    option (result (PackError E) T) :=
  run_pack_arms (tagged_type i) (tagged_pack_arms i) a (pack_env target).

(** The tag of a variant, and the variants as [PackDerive.v] has them *)
Definition tag_value (v : EnumVariant) : V :=
  match get_tag_expr v with Ok e => eval_expr e | Err _ => v0 end.
Definition variants_of (name : string) (vs : list EnumVariant) : list (variant V Adt) :=
  (fun v => variant_of name v (tag_value v)) <$> vs.

(** What Rust makes sure of: the variants of an enum and the fields of a variant have names of
    their own; and the values of the enum. *)
Definition well_declared (vs : list EnumVariant) : Prop :=
  NoDup (variant_ident <$> vs) /\ Forall (fun v => NoDup (field_names (variant_fields v))) vs.
Definition value_of_enum (name : string) (vs : list EnumVariant) (a : Adt) : Prop :=
  exists v fs, v ∈ vs /\ a = adt_of (MkCon name (Some (variant_ident v))) (variant_fields v) fs.

(** A tag is a constant: read as a pattern it takes the value it has as an expression. *)
Definition tags_constant : Prop :=
  forall ts e p, parse_expr ts = Some e -> parse_pat ts = Some p ->
    forall x, match_pat p x = bool_decide (x = eval_expr e).

Lemma mapM_Ok {A B F} (f : A -> result F B) l k : mapM f l = Ok k -> Forall2 (fun x y => f x = Ok y) l k.
Proof.
  revert k. induction l as [|x l IH]; cbn; intros k E; [injection E as <-; constructor|].
  destruct (f x) as [y|] eqn:Ex; cbn in E; [|done]. destruct (mapM f l) as [ys|] eqn:El; cbn in E; [|done].
  injection E as <-. constructor; [done|]. by apply IH.
Qed.

Lemma unwrap_syn_Ok {X} (r : result SynError X) x : unwrap_syn r = Ok x -> r = Ok x.
Proof. destruct r; cbn; congruence. Qed.

Lemma parse_args_Ok {X} (parse : tokens -> option X) ts x : parse_args parse ts = Ok x -> parse ts = Some x.
Proof. unfold parse_args. destruct (parse ts); congruence. Qed.

(** The expression and the pattern of a variant's tag come from the same tokens. *)
Lemma tag_pattern v e p :
  tags_constant -> get_tag_expr v = Ok e -> get_tag_pat v = Ok p ->
  forall x, match_pat p x = bool_decide (x = tag_value v).
Proof.
  intros Hc He Hp x. unfold tag_value. rewrite He. unfold get_tag_expr, get_tag_pat, find_simple_attribute in *.
  destruct (discriminant v) as [d|]; [|destruct (find _ _); [|done]];
    apply parse_args_Ok in He, Hp; by eapply Hc.
Qed.

Lemma run_unpack_arms_derived name vs arms tag env bytes :
  tags_constant -> Forall (fun v => is_ok (get_tag_expr v)) vs ->
  Forall2 (fun v arm => unpack_arm name v = Ok arm) vs arms -> get_state env "data" = Some bytes ->
  run_unpack_arms arms tag env = Some (derive_unpack_data (variants_of name vs) tag bytes).
Proof.
  intros Hc Hok Hf Henv. induction Hf as [|v arm vs arms Ha _ IH]; [done|].
  apply Forall_cons in Hok as [Hv Hok]. cbn [run_unpack_arms variants_of fmap list_fmap derive_unpack_data].
  unfold unpack_arm in Ha. destruct (unwrap_syn (get_tag_pat v)) as [p|] eqn:Ep; [|done].
  apply unwrap_syn_Ok in Ep. destruct (get_tag_expr v) as [e|] eqn:Ee; [|done].
  pose proof (run_unpack_fields (MkCon name (Some (variant_ident v))) (variant_fields v) env bytes Henv) as Hr.
  cbn [mbind result_bind] in Ha. unfold construct_from_enum_variant in Ha.
  destruct (construct_from_fields _ _ _) as [[res types] names]. injection Ha as <-.
  cbn [ua_tag ua_lets ua_result variant_of v_tag v_pack v_construct].
  rewrite (tag_pattern v e p Hc Ee Ep), bool_decide_decide.
  destruct (decide (tag = tag_value v)); [|by apply IH]. rewrite Hr. done.
Qed.

Lemma of_adt_other path path' f f' vs : path <> path' -> of_adt path' f' (adt_of path f vs) = None.
Proof. intros Hp. unfold of_adt. cbn [adt_path adt_of]. by rewrite decide_False. Qed.

(** What an arm of [match self] makes of a value: it applies to those of its own variant. *)
Lemma variant_names_inj vs v w :
  well_declared vs -> v ∈ vs -> w ∈ vs -> variant_ident v = variant_ident w -> v = w.
Proof.
  intros [Hnd _] [i Hi]%list_elem_of_lookup [j Hj]%list_elem_of_lookup E.
  assert (i = j) as ->; [|congruence].
  eapply (NoDup_lookup _ i j (variant_ident v) Hnd); rewrite list_lookup_fmap; [by rewrite Hi|rewrite Hj; cbn; by rewrite E].
Qed.

Lemma well_declared_cons v vs : well_declared (v :: vs) ->
  well_declared vs /\ NoDup (field_names (variant_fields v)) /\ variant_ident v ∉ (variant_ident <$> vs).
Proof. intros [[? ?]%NoDup_cons [? ?]%Forall_cons]. by split_and!. Qed.

(** A value of a later variant is not matched by the first arm. *)
Lemma value_of_cons name v vs a : well_declared (v :: vs) -> value_of_enum name (v :: vs) a ->
  (exists fs, a = adt_of (MkCon name (Some (variant_ident v))) (variant_fields v) fs) \/
  (value_of_enum name vs a /\ forall path, path = MkCon name (Some (variant_ident v)) ->
     adt_path a <> path /\ forall f, of_adt path f a = None).
Proof.
  intros (_ & _ & Hv)%well_declared_cons (w & fs & [->|Hw]%elem_of_cons & ->); [eauto|right].
  split; [by exists w, fs|]. intros path ->.
  assert (MkCon name (Some (variant_ident w)) <> MkCon name (Some (variant_ident v))) as Hne.
  { intros [= E]. apply Hv. rewrite <- E. by apply list_elem_of_fmap_2. }
  split; [exact Hne|]. intros f. by apply of_adt_other.
Qed.

Lemma run_pack_arms_derived {T E} `{PackTarget T E} with_tag tag_type name vs arms a target :
  well_declared vs -> Forall2 (fun v arm => pack_arm with_tag name v = Ok arm) vs arms ->
  Forall (fun v => is_ok (get_tag_expr v)) vs -> value_of_enum name vs a ->
  run_pack_arms tag_type arms a (pack_env target) =
  Some (target ← (if with_tag then @pack _ (ty_pack tag_type) T E _ (derive_get_tag v0 (variants_of name vs) a) target
                  else Ok target);
        derive_pack_data (variants_of name vs) a target).
Proof.
  intros Hd Hf Hok Hv. induction Hf as [|v arm vs arms Ha _ IH]; [by destruct Hv as (v & fs & ?%elem_of_nil & _)|].
  pose proof (well_declared_cons _ _ Hd) as (Hd' & Hnames & _). apply Forall_cons in Hok as [Hvok Hok].
  unfold pack_arm, deconstruct_from_enum_variant in Ha. destruct (get_tag_expr v) as [e|] eqn:Ee; [|done].
  pose proof (match_con_other (MkCon name (Some (variant_ident v))) (variant_fields v) gen_temporary_names a) as Hother.
  pose proof (match_con_own (MkCon name (Some (variant_ident v))) (variant_fields v) gen_temporary_names) as Hown.
  pose proof (run_packs_fields (MkCon name (Some (variant_ident v))) (variant_fields v) (T := T)) as Hrun.
  pose proof (fun fs => arm_env_other (MkCon name (Some (variant_ident v))) (variant_fields v) fs (pack_env target)
    "target" temporary_not_target) as Htarget. unfold arm_env in Hrun, Htarget.
  assert ("tag" ∉ snd (deconstruct_from_fields (MkCon name (Some (variant_ident v))) (variant_fields v) gen_temporary_names))
    as Hntag by (rewrite deconstruct_names; apply take_names_fresh, temporary_not_tag).
  assert ("target" ∉ snd (deconstruct_from_fields (MkCon name (Some (variant_ident v))) (variant_fields v) gen_temporary_names))
    as Hntarget by (rewrite deconstruct_names; apply take_names_fresh, temporary_not_target).
  destruct (deconstruct_from_fields _ _ _) as [c names]. cbn [fst snd] in *.
  assert (arm = MkPackArm c (if with_tag then Some e else None) names) as ->
    by (destruct with_tag; cbn in Ha; by injection Ha as <-).
  destruct (value_of_cons name v vs a Hd Hv) as [[fs ->]|[Hv' Hne]]; cbn [run_pack_arms pa_pat pa_tag pa_names].
  2: { destruct (Hne _ eq_refl) as [Hp Ho]. rewrite (Hother Hp), (IH Hd' Hok Hv').
       cbn [variants_of fmap list_fmap derive_get_tag derive_pack_data variant_of v_deconstruct]. by rewrite Ho. }
  rewrite (Hown fs Hnames). cbn [variants_of fmap list_fmap derive_get_tag derive_pack_data variant_of v_deconstruct
    v_tag v_pack]. rewrite of_adt_of. unfold tag_value. rewrite Ee. specialize (Htarget fs).
  destruct with_tag; [|apply (Hrun fs (pack_env target)); [done|]; unfold get_state; by rewrite Htarget].
  cbn [run_packs]. set (env := pattern_env _ _) in *.
  assert (get_value (<["tag" := BVal (tag_type, eval_expr e)]> env) "tag" = Some (tag_type, eval_expr e)) as ->
    by (unfold get_value; by rewrite lookup_insert_eq).
  assert (get_state (<["tag" := BVal (tag_type, eval_expr e)]> env) "target" = Some target) as ->
    by (unfold get_state; rewrite lookup_insert_ne by done; by rewrite Htarget).
  cbn [mbind option_bind fst snd].
  destruct (@pack _ (ty_pack tag_type) T E _ (eval_expr e) target) as [target'|err]; cbn [mbind result_bind]; [|done].
  apply (Hrun fs (pack_env target)); [|unfold get_state; by rewrite lookup_insert_eq].
  intros x Hx. rewrite lookup_insert_ne by (by intros <-). by rewrite lookup_insert_ne by (by intros <-).
Qed.

(** [get_tag] and [into_tag]: the first arm that applies gives the tag. *)
Lemma run_tag_arms_derived name vs arms a :
  well_declared vs -> Forall2 (fun v arm => tag_arm name v = Ok arm) vs arms -> value_of_enum name vs a ->
  run_tag_arms arms a = Some (derive_get_tag v0 (variants_of name vs) a).
Proof.
  intros Hd Hf Hv. induction Hf as [|v arm vs arms Ha _ IH]; [by destruct Hv as (v & fs & ?%elem_of_nil & _)|].
  pose proof (well_declared_cons _ _ Hd) as (Hd' & Hnames & _).
  unfold tag_arm, deconstruct_from_enum_variant in Ha. destruct (get_tag_expr v) as [e|] eqn:Ee; [|done].
  pose proof (match_con_other (MkCon name (Some (variant_ident v))) (variant_fields v) gen_ignored_names a) as Hother.
  pose proof (match_con_own (MkCon name (Some (variant_ident v))) (variant_fields v) gen_ignored_names) as Hown.
  destruct (deconstruct_from_fields _ _ _) as [c names]. cbn in Ha. injection Ha as <-. cbn [fst snd] in *.
  cbn [run_tag_arms ta_pat ta_tag variants_of fmap list_fmap derive_get_tag variant_of v_deconstruct v_tag].
  destruct (value_of_cons name v vs a Hd Hv) as [[fs ->]|[Hv' Hne]].
  - rewrite (Hown fs Hnames), of_adt_of. unfold tag_value. by rewrite Ee.
  - destruct (Hne _ eq_refl) as [Hp Ho]. rewrite (Hother Hp), Ho. by apply IH.
Qed.

(** *** Enums without data *)

#[local] Instance Adt_eq_dec : EqDecision Adt.
Proof.
  assert (EqDecision ConArgs) by solve_decision. solve_decision.
Defined.

Definition unit_value (name : string) (v : EnumVariant) : Adt :=
  MkAdt (MkCon name (Some (variant_ident v)))
    match variant_fields v with Named _ => ArgsNamed [] | Unnamed _ => ArgsUnnamed [] | Unit => ArgsUnit end.
Definition ext_variants_of (name : string) (vs : list EnumVariant) : list (V * Adt) :=
  (fun v => (tag_value v, unit_value name v)) <$> vs.

Lemma from_tag_arm_types name v arm : from_tag_arm name v = Ok arm -> field_types (variant_fields v) = [].
Proof.
  unfold from_tag_arm, construct_from_enum_variant.
  destruct (unwrap_syn (get_tag_pat v)) as [p|]; [|done]. cbn [mbind result_bind].
  destruct (variant_fields v) as [[|f fs]|[|t ts]|]; done.
Qed.

Lemma unit_value_of name v :
  field_types (variant_fields v) = [] ->
  exists fs, unit_value name v = adt_of (MkCon name (Some (variant_ident v))) (variant_fields v) fs.
Proof.
  unfold unit_value, adt_of. destruct (variant_fields v) as [[|f fs]|[|t ts]|]; try done; by exists tt.
Qed.

Lemma run_from_tag_arms_derived name vs arms tag :
  tags_constant -> Forall (fun v => is_ok (get_tag_expr v)) vs ->
  Forall2 (fun v arm => from_tag_arm name v = Ok arm) vs arms ->
  run_from_tag_arms arms tag = Some (derive_try_from_tag (ext_variants_of name vs) tag).
Proof.
  intros Hc Hok Hf. induction Hf as [|v arm vs arms Ha _ IH]; [done|]. apply Forall_cons in Hok as [Hv Hok].
  pose proof (from_tag_arm_types _ _ _ Ha) as Ht. unfold from_tag_arm, construct_from_enum_variant in Ha.
  destruct (unwrap_syn (get_tag_pat v)) as [p|] eqn:Ep; [|done]. apply unwrap_syn_Ok in Ep.
  destruct (get_tag_expr v) as [e|] eqn:Ee; [|done].
  pose proof (tag_pattern v e p Hc Ee Ep tag) as Hm. rewrite bool_decide_decide in Hm.
  cbn [run_from_tag_arms ext_variants_of fmap list_fmap derive_try_from_tag]. unfold unit_value.
  destruct (variant_fields v) as [[|f fs]|[|t ts]|]; try done; cbn in Ha; injection Ha as <-; cbn [fa_tag fa_result];
    rewrite Hm; destruct (decide (tag = tag_value v)); (done || by apply IH).
Qed.

Lemma derive_into_tag_unit name vs a :
  well_declared vs -> Forall (fun v => field_types (variant_fields v) = []) vs -> value_of_enum name vs a ->
  derive_get_tag v0 (variants_of name vs) a = derive_into_tag v0 (ext_variants_of name vs) a.
Proof.
  intros Hd Ht Hv. induction vs as [|v vs IH]; [done|].
  pose proof (well_declared_cons _ _ Hd) as (Hd' & _). apply Forall_cons in Ht as [Hvt Ht].
  cbn [variants_of ext_variants_of fmap list_fmap derive_get_tag derive_into_tag variant_of v_deconstruct v_tag].
  destruct (unit_value_of name v Hvt) as [fs Eu].
  destruct (value_of_cons name v vs a Hd Hv) as [[fs' ->]|[Hv' Hne]].
  - rewrite of_adt_of, decide_True; [done|]. rewrite Eu. f_equal.
    clear -Hvt. destruct (variant_fields v) as [[|f l]|[|t ts]|]; try done; by destruct fs, fs'.
  - destruct (Hne _ eq_refl) as [Hp Ho]. rewrite Ho, decide_False; [by apply IH|]. intros ->. by apply Hp.
Qed.

(** ** The macros *)

Lemma mapM_total {A B F} (f : A -> result F B) l : is_ok (mapM f l) <-> Forall (fun x => is_ok (f x)) l.
Proof.
  induction l as [|x l IH]; [by split|]. rewrite Forall_cons, <- IH. cbn.
  destruct (f x) as [y|]; cbn; [|by split; [|intros []]]. destruct (mapM f l); cbn; tauto.
Qed.

Lemma pack_arm_ok b name v : is_ok (pack_arm b name v) <-> (b = true -> is_ok (get_tag_expr v)).
Proof.
  unfold pack_arm, deconstruct_from_enum_variant.
  destruct (deconstruct_from_fields _ _ _). destruct b, (get_tag_expr v); cbn; naive_solver.
Qed.
Lemma unpack_arm_ok name v : is_ok (unpack_arm name v) <-> is_ok (get_tag_pat v).
Proof.
  unfold unpack_arm, construct_from_enum_variant.
  destruct (construct_from_fields _ _ _) as [[? ?] ?]. by destruct (get_tag_pat v).
Qed.
Lemma tag_arm_ok name v : is_ok (tag_arm name v) <-> is_ok (get_tag_expr v).
Proof.
  unfold tag_arm, deconstruct_from_enum_variant.
  destruct (deconstruct_from_fields _ _ _). by destruct (get_tag_expr v).
Qed.
Lemma from_tag_arm_ok name v :
  is_ok (from_tag_arm name v) <-> is_ok (get_tag_pat v) /\ field_types (variant_fields v) = [].
Proof.
  split.
  - intros Hok. destruct (from_tag_arm name v) as [arm|] eqn:E; [|done]. split; [|by eapply from_tag_arm_types].
    unfold from_tag_arm in E. by destruct (get_tag_pat v).
  - intros [Hp Ht]. unfold from_tag_arm, construct_from_enum_variant. destruct (get_tag_pat v); [|done].
    by destruct (variant_fields v) as [[|f fs]|[|t ts]|].
Qed.

(** The macros take a declaration exactly if the type of the tags and each variant's tag can be
    read; [ExtEnum], if no variant has data as well. Unions, and for the other two structs, are
    refused; refusing is a panic, which makes the build fail. *)
Theorem macros_accept name attrs variants :
  let ok := is_ok (get_tag_type attrs) /\
    Forall (fun v => is_ok (get_tag_expr v) /\ is_ok (get_tag_pat v)) variants in
  let d := MkInput name attrs (DataEnum variants) in
  (is_ok (impl_pack d) <-> ok) /\ (is_ok (impl_pack_tagged d) <-> ok) /\
  (is_ok (impl_ext_enum d) <-> ok /\ Forall (fun v => field_types (variant_fields v) = []) variants) /\
  (forall f, is_ok (impl_pack (MkInput name attrs (DataStruct f)))).
Proof.
  intros ok d. unfold d, ok. cbn [impl_pack impl_pack_tagged impl_ext_enum data ident Macro.attrs].
  unfold impl_pack_for_enum, impl_pack_tagged_for_enum, impl_ext_enum_for_enum.
  pose proof (mapM_total (pack_arm true name) variants) as H1. pose proof (mapM_total (pack_arm false name) variants) as H2.
  pose proof (mapM_total (unpack_arm name) variants) as H3. pose proof (mapM_total (tag_arm name) variants) as H4.
  pose proof (mapM_total (from_tag_arm name) variants) as H5.
  setoid_rewrite pack_arm_ok in H1. setoid_rewrite pack_arm_ok in H2. setoid_rewrite unpack_arm_ok in H3.
  setoid_rewrite tag_arm_ok in H4. setoid_rewrite from_tag_arm_ok in H5.
  rewrite !Forall_and in *.
  assert (Forall (fun v => false = true -> is_ok (get_tag_expr v)) variants) as Hf by (by apply Forall_forall).
  assert (Forall (fun v => true = true -> is_ok (get_tag_expr v)) variants <->
    Forall (fun v => is_ok (get_tag_expr v)) variants) as Ht by (split; intros HF; (eapply Forall_impl; [exact HF|]); cbn; auto).
  destruct (get_tag_type attrs), (mapM (pack_arm true name) variants), (mapM (pack_arm false name) variants),
    (mapM (unpack_arm name) variants), (mapM (tag_arm name) variants), (mapM (from_tag_arm name) variants); cbn in *; tauto.
Qed.

Lemma tags_readable name variants arms :
  Forall2 (fun v arm => tag_arm name v = Ok arm) variants arms -> Forall (fun v => is_ok (get_tag_expr v)) variants.
Proof.
  intros Hf. induction Hf as [|v arm vs arms Ha _ IH]; constructor; [|done]. apply (tag_arm_ok name). by rewrite Ha.
Qed.
Lemma packed_tags_readable name variants arms :
  Forall2 (fun v arm => pack_arm true name v = Ok arm) variants arms -> Forall (fun v => is_ok (get_tag_expr v)) variants.
Proof.
  intros Hf. induction Hf as [|v arm vs arms Ha _ IH]; constructor; [|done]. apply (pack_arm_ok true name); [by rewrite Ha|done].
Qed.

Lemma generated_enum name attributes variants i :
  tags_constant -> well_declared variants -> impl_pack (MkInput name attributes (DataEnum variants)) = Ok i ->
  exists tag_type, get_tag_type attributes = Ok tag_type /\
  (forall bytes, generated_unpack i bytes =
     Some (@derive_enum_unpack V Adt _ (ty_pack tag_type) (variants_of name variants) bytes)) /\
  (forall T E (P : PackTarget T E) a (target : T), value_of_enum name variants a ->
     generated_pack i a target =
     Some (@derive_enum_pack V Adt (ty_pack tag_type) v0 (variants_of name variants) T E P a target)).
Proof.
  intros Hc Hd Hi. cbn [impl_pack data ident Macro.attrs] in Hi. unfold impl_pack_for_enum in Hi.
  destruct (unwrap_syn (get_tag_type attributes)) as [tt|] eqn:Et; [|done]. cbn [mbind result_bind] in Hi.
  destruct (mapM (pack_arm true name) variants) as [ps|] eqn:Ep; [|done]. cbn [mbind result_bind] in Hi.
  destruct (mapM (unpack_arm name) variants) as [us|] eqn:Eu; [|done]. injection Hi as <-.
  apply mapM_Ok in Ep, Eu. apply unwrap_syn_Ok in Et. exists tt. split; [done|].
  pose proof (packed_tags_readable _ _ _ Ep) as Hok. split.
  - intros bytes. cbn [generated_unpack]. unfold derive_enum_unpack.
    destruct (@unpack _ (ty_pack tt) bytes) as [[tag rest]|e]; cbn [mbind result_bind]; [|done].
    by apply run_unpack_arms_derived.
  - intros T E P a target Hv. cbn [generated_pack]. by rewrite (run_pack_arms_derived true tt name variants ps a target).
Qed.

Lemma generated_struct name attributes fields i :
  NoDup (field_names fields) -> impl_pack (MkInput name attributes (DataStruct fields)) = Ok i ->
  (forall bytes, generated_unpack i bytes = Some (derive_struct_unpack (struct_fields name fields) bytes)) /\
  (forall T E (P : PackTarget T E) fs (target : T),
     generated_pack i (adt_of (MkCon name None) fields fs) target =
     Some (derive_struct_pack (struct_fields name fields) (adt_of (MkCon name None) fields fs) target)).
Proof.
  intros Hn Hi. cbn [impl_pack data ident] in Hi. injection Hi as <-. unfold impl_pack_for_struct.
  pose proof (run_unpack_fields (MkCon name None) fields) as Hu.
  pose proof (match_con_own (MkCon name None) fields gen_temporary_names) as Hm.
  pose proof (fun T E (P : PackTarget T E) => run_packs_fields (MkCon name None) fields (T := T)) as Hp.
  pose proof (fun (T : Type) fs (t : T) => arm_env_other (MkCon name None) fields fs (pack_env t)
    "target" temporary_not_target) as Htarget. unfold arm_env in Hp, Htarget.
  destruct (construct_from_fields _ _ _) as [[res types] names]. destruct (deconstruct_from_fields _ _ _) as [c xs].
  cbn [fst snd] in *. split.
  - intros bytes. cbn [generated_unpack]. by rewrite (Hu _ bytes).
  - intros T E P fs target. cbn [generated_pack]. rewrite (Hm fs Hn). cbn [mbind option_bind].
    rewrite (Hp T E P fs (pack_env target) _ target); [|done|unfold get_state; by rewrite Htarget].
    unfold derive_struct_pack. cbn [struct_fields f_pack f_deconstruct]. by rewrite of_adt_of.
Qed.

Lemma generated_tagged name attributes variants i :
  tags_constant -> well_declared variants -> impl_pack_tagged (MkInput name attributes (DataEnum variants)) = Ok i ->
  (forall tag bytes, generated_unpack_data i tag bytes =
     Some (derive_unpack_data (variants_of name variants) tag bytes)) /\
  (forall a, value_of_enum name variants a ->
     run_tag_arms (tag_arms i) a = Some (derive_get_tag v0 (variants_of name variants) a) /\
     forall T E (P : PackTarget T E) (target : T),
     generated_pack_data i a target = Some (derive_pack_data (variants_of name variants) a target)).
Proof.
  intros Hc Hd Hi. cbn [impl_pack_tagged data ident Macro.attrs] in Hi. unfold impl_pack_tagged_for_enum in Hi.
  destruct (unwrap_syn (get_tag_type attributes)) as [tt|]; [|done]. cbn [mbind result_bind] in Hi.
  destruct (mapM (tag_arm name) variants) as [ts|] eqn:Et; [|done]. cbn [mbind result_bind] in Hi.
  destruct (mapM (pack_arm false name) variants) as [ps|] eqn:Ep; [|done]. cbn [mbind result_bind] in Hi.
  destruct (mapM (unpack_arm name) variants) as [us|] eqn:Eu; [|done]. injection Hi as <-.
  apply mapM_Ok in Et, Ep, Eu. pose proof (tags_readable _ _ _ Et) as Hok. split.
  - intros tag bytes. by apply run_unpack_arms_derived.
  - intros a Hv. split; [by apply run_tag_arms_derived|]. intros T E P target. unfold generated_pack_data.
    by rewrite (run_pack_arms_derived false tt name variants ps a target).
Qed.

Lemma generated_ext name attributes variants i :
  tags_constant -> well_declared variants -> impl_ext_enum (MkInput name attributes (DataEnum variants)) = Ok i ->
  (forall tag, run_from_tag_arms (from_tag_arms i) tag =
     Some (derive_try_from_tag (ext_variants_of name variants) tag)) /\
  (forall a, value_of_enum name variants a ->
     run_tag_arms (into_tag_arms i) a = Some (derive_into_tag v0 (ext_variants_of name variants) a)).
Proof.
  intros Hc Hd Hi. cbn [impl_ext_enum data ident Macro.attrs] in Hi. unfold impl_ext_enum_for_enum in Hi.
  destruct (unwrap_syn (get_tag_type attributes)) as [tt|]; [|done]. cbn [mbind result_bind] in Hi.
  destruct (mapM (tag_arm name) variants) as [ts|] eqn:Et; [|done]. cbn [mbind result_bind] in Hi.
  destruct (mapM (from_tag_arm name) variants) as [fs|] eqn:Ef; [|done]. injection Hi as <-.
  apply mapM_Ok in Et, Ef. split; [intros tag; by apply run_from_tag_arms_derived; [|eapply tags_readable|]|].
  intros a Hv. cbn [into_tag_arms]. rewrite (run_tag_arms_derived name variants ts a Hd Et Hv).
  rewrite derive_into_tag_unit; [done|done| |done].
  clear -Ef. induction Ef as [|v arm vs arms Ha _ IH]; constructor; [by eapply from_tag_arm_types|done].
Qed.

(** C29: The code the macros generate, run line by line, is the derived code of [PackDerive.v]:
    for every declaration they accept, the generated [unpack] and [pack] of a struct and of an
    enum, the [get_tag], [unpack_data] and [pack_data] of a tagged enum and the [into_tag] and
    [try_from_tag] of an enum without data never get stuck on a variable that is not bound or
    shadowed, and compute what the declaration's fields and tags say. *)
Theorem generated_code_correct name attributes variants fields :
  tags_constant -> well_declared variants -> NoDup (field_names fields) ->
  (forall i, impl_pack (MkInput name attributes (DataEnum variants)) = Ok i ->
    exists tag_type, get_tag_type attributes = Ok tag_type /\
    (forall bytes, generated_unpack i bytes =
       Some (@derive_enum_unpack V Adt _ (ty_pack tag_type) (variants_of name variants) bytes)) /\
    (forall T E (P : PackTarget T E) a (target : T), value_of_enum name variants a ->
       generated_pack i a target =
       Some (@derive_enum_pack V Adt (ty_pack tag_type) v0 (variants_of name variants) T E P a target))) /\
  (forall i, impl_pack (MkInput name attributes (DataStruct fields)) = Ok i ->
    (forall bytes, generated_unpack i bytes = Some (derive_struct_unpack (struct_fields name fields) bytes)) /\
    (forall T E (P : PackTarget T E) fs (target : T),
       generated_pack i (adt_of (MkCon name None) fields fs) target =
       Some (derive_struct_pack (struct_fields name fields) (adt_of (MkCon name None) fields fs) target))) /\
  (forall i, impl_pack_tagged (MkInput name attributes (DataEnum variants)) = Ok i ->
    (forall tag bytes, generated_unpack_data i tag bytes =
       Some (derive_unpack_data (variants_of name variants) tag bytes)) /\
    (forall a, value_of_enum name variants a ->
       run_tag_arms (tag_arms i) a = Some (derive_get_tag v0 (variants_of name variants) a) /\
       forall T E (P : PackTarget T E) (target : T),
       generated_pack_data i a target = Some (derive_pack_data (variants_of name variants) a target))) /\
  (forall i, impl_ext_enum (MkInput name attributes (DataEnum variants)) = Ok i ->
    (forall tag, run_from_tag_arms (from_tag_arms i) tag =
       Some (derive_try_from_tag (ext_variants_of name variants) tag)) /\
    (forall a, value_of_enum name variants a ->
       run_tag_arms (into_tag_arms i) a = Some (derive_into_tag v0 (ext_variants_of name variants) a))).
Proof.
  intros Hc Hd Hn. split_and!.
  - intros i Hi. by eapply generated_enum.
  - intros i Hi. by eapply generated_struct.
  - intros i Hi. by eapply generated_tagged.
  - intros i Hi. by eapply generated_ext.
Qed.
End interpreter.

(** ** Witness

    Tags and types that are written out: [u16] is [TType 2]. The enum
    [#[tag_type(u16)] enum Test { #[tag(12)] A { a: u8, b: u16 }, B(u16, u32) = 34, #[tag(56)] C }]. *)

Inductive example_tokens := TType (bytes : nat) | TLit (x : Z).
#[local] Instance example_syn : Syn := {|
  tokens := example_tokens; ty := nat; expr := Z; pat := Z;
  parse_type t := match t with TType n => Some n | TLit _ => None end;
  parse_expr t := match t with TLit x => Some x | TType _ => None end;
  parse_pat t := match t with TLit x => Some x | TType _ => None end;
  expr_tokens := TLit;
|}.
#[local] Instance example_pack (n : nat) : Pack Z := {|
  unpack := unpack_uint n;
  pack T E _ x t := pack_uint n x t;
|}.
Definition example_eval (e : Z) : Z := e.
Definition example_match (p x : Z) : bool := bool_decide (x = p).
Definition example_attr (name : string) (t : example_tokens) : Attribute := MkAttribute (MkPath false [name]) t.
Definition example_attrs : list Attribute := [example_attr "derive" (TLit 0); example_attr "tag_type" (TType 2)].
Definition example_variants : list EnumVariant :=
  [MkVariant "A" [example_attr "tag" (TLit 12)] (Named [("a", 1%nat); ("b", 2%nat)]) None;
   MkVariant "B" [] (Unnamed [2%nat; 4%nat]) (Some 34%Z);
   MkVariant "C" [example_attr "tag" (TLit 56)] Unit None].
Definition example_input : DeriveInput := MkInput "Test" example_attrs (DataEnum example_variants).
Definition example_value : Adt (V := Z) :=
  MkAdt (MkCon "Test" (Some "B")) (ArgsUnnamed [(2%nat, 10%Z); (4%nat, 20%Z)]).

Lemma example_tags_constant : tags_constant example_eval example_match.
Proof. intros [n|x] e p; [done|]. intros [= <-] [= <-] y. done. Qed.
Lemma example_well_declared : well_declared example_variants.
Proof. split; [by apply (bool_decide_unpack _)|]. by apply (bool_decide_unpack _). Qed.

Lemma generated_code_correct_witness :
  exists i, impl_pack example_input = Ok i /\
    generated_pack example_pack example_eval i example_value vec_new =
      Some (Ok (Vec [34; 0; 10; 0; 20; 0; 0; 0]%Z)) /\
    generated_unpack example_pack example_match i [34; 0; 10; 0; 20; 0; 0; 0; 7]%Z = Some (Ok (example_value, [7%Z])) /\
    exists tag_type, get_tag_type example_attrs = Ok tag_type /\
    (forall bytes, generated_unpack example_pack example_match i bytes =
       Some (@derive_enum_unpack Z Adt _ (example_pack tag_type)
         (variants_of 0%Z example_pack example_eval "Test" example_variants) bytes)) /\
    (forall T E (P : PackTarget T E) a (target : T), value_of_enum "Test" example_variants a ->
       generated_pack example_pack example_eval i a target =
       Some (@derive_enum_pack Z Adt (example_pack tag_type) 0%Z
         (variants_of 0%Z example_pack example_eval "Test" example_variants) T E P a target)).
Proof.
  eexists. split; [reflexivity|]. split; [vm_compute; reflexivity|]. split; [vm_compute; reflexivity|].
  apply (generated_code_correct (H := example_syn) 0%Z example_pack example_eval example_match "Test" example_attrs example_variants Unit
    example_tags_constant example_well_declared (NoDup_nil_2)). reflexivity.
Defined.
