(* ===== verification/PackTests.v ===== *)
(** * The packing crate's own tests ([src/src/pack/tests.rs])

    Each test is a boolean over the definitions of [Pack.v] and [PackDerive.v], with the derived
    implementations written as the macros' inputs, and an [Example] evaluates it. *)

From Stdlib Require Import ZArith.
From S2P Require Import Prelude Pack PackDerive.

#[local] Open Scope Z_scope.

Module PackTests.

Definition test_roundtrip {A} `{Pack A, EqDecision A} (input : A) (packed : list Z) : bool :=
  match unpack packed with
  | Ok (unpacked, remaining) => bool_decide (remaining = []) && bool_decide (unpacked = input)
  | Err _ => false
  end &&
  match pack input vec_new with Ok t => bool_decide (vec t = packed) | Err _ => false end.

Definition test_default_impls : bool :=
  test_roundtrip false [0x00] && test_roundtrip true [0x01] &&
  test_roundtrip (Uint 0x12 : u8) [0x12] && test_roundtrip (Uint 0x1234 : u16) [0x34; 0x12] &&
  test_roundtrip (Uint 0x12345678 : u32) [0x78; 0x56; 0x34; 0x12] &&
  test_roundtrip (Uint 0x0123456789ABCDEF : u64) [0xEF; 0xCD; 0xAB; 0x89; 0x67; 0x45; 0x23; 0x01].
Example default_impls_pass : test_default_impls = true.
Proof. vm_compute. reflexivity. Qed.

Definition test_tuples : bool :=
  test_roundtrip tt [] &&
  test_roundtrip (Uint 0x01 : u8, Uint 0x2345 : u16, Uint 0x6789ABCD : u32, Uint 0xDEADBEEFCAFEBABE : u64)
    [0x01; 0x45; 0x23; 0xCD; 0xAB; 0x89; 0x67; 0xBE; 0xBA; 0xFE; 0xCA; 0xEF; 0xBE; 0xAD; 0xDE].
Example tuples_pass : test_tuples = true.
Proof. vm_compute. reflexivity. Qed.

Definition test_slice_target : bool :=
  let unpacked := (Uint 0x1234 : u16, Uint 0x5678 : u16, Uint 0x1020 : u16) in
  match pack unpacked (slice_new (replicate 8 0)) with
  | Ok t => bool_decide (slice_into_usize t = 6%nat) &&
      bool_decide (slice t = [0x34; 0x12; 0x78; 0x56; 0x20; 0x10; 0; 0])
  | Err _ => false
  end &&
  match pack unpacked (slice_new (replicate 4 0)) with
  | Err (TargetError NotEnoughSpace) => true
  | _ => false
  end.
Example slice_target_passes : test_slice_target = true.
Proof. vm_compute. reflexivity. Qed.

(** ** [test_simple_struct] *)

Record TestF := MkTestF { tf_x : u8; tf_y : u16; tf_z : u32 }.
#[local] Instance TestF_eq_dec : EqDecision TestF.
Proof. solve_decision. Defined.
#[local] Instance TestF_Pack : Pack TestF :=
  derive_struct (FieldsOf (u8 * u16 * u32) (fun '(x, y, z) => MkTestF x y z)
    (fun t => (tf_x t, tf_y t, tf_z t))).
Inductive EmptyStruct := MkEmpty.
#[local] Instance EmptyStruct_eq_dec : EqDecision EmptyStruct.
Proof. solve_decision. Defined.
#[local] Instance EmptyStruct_Pack : Pack EmptyStruct :=
  derive_struct (FieldsOf unit (fun _ => MkEmpty) (fun _ => tt)).
Definition test_simple_struct : bool :=
  test_roundtrip (MkTestF (Uint 1) (Uint 2) (Uint 3)) [1; 2; 0; 3; 0; 0; 0] && test_roundtrip MkEmpty [].
Example simple_struct_passes : test_simple_struct = true.
Proof. vm_compute. reflexivity. Qed.

(** ** [test_simple_enum]: the tags are discriminants or given by the attribute. *)

Inductive TestSimple := A | B | C.
#[local] Instance TestSimple_eq_dec : EqDecision TestSimple.
Proof. solve_decision. Defined.
Definition simple_variants (n : nat) : list (variant (uint n) TestSimple) :=
  [Variant (Uint 12) unit (fun _ => A) (fun t => match t with A => Some tt | _ => None end);
   Variant (Uint 34) unit (fun _ => B) (fun t => match t with B => Some tt | _ => None end);
   Variant (Uint 56) unit (fun _ => C) (fun t => match t with C => Some tt | _ => None end)].
Definition test_simple (n : nat) (input : TestSimple) (packed : list Z) : bool :=
  let _ := derive_enum (Uint 0) (simple_variants n) in test_roundtrip input packed.
Definition test_simple_enum : bool :=
  test_simple 1 A [12] && test_simple 1 B [34] && test_simple 1 C [56] &&
  test_simple 4 A [12; 0; 0; 0] && test_simple 4 B [34; 0; 0; 0] && test_simple 4 C [56; 0; 0; 0].
Example simple_enum_passes : test_simple_enum = true.
Proof. vm_compute. reflexivity. Qed.

(** ** [test_data_enum] *)

Inductive TestData := DA (x : u8) | DB (x : u16) (y : u32) | DC (a : u8) | DD (a : u16) (b : u32).
#[local] Instance TestData_eq_dec : EqDecision TestData.
Proof. solve_decision. Defined.
Definition data_variants : list (variant u16 TestData) :=
  [Variant (Uint 12) u8 DA (fun t => match t with DA x => Some x | _ => None end);
   Variant (Uint 34) (u16 * u32) (fun '(x, y) => DB x y) (fun t => match t with DB x y => Some (x, y) | _ => None end);
   Variant (Uint 56) u8 DC (fun t => match t with DC x => Some x | _ => None end);
   Variant (Uint 78) (u16 * u32) (fun '(x, y) => DD x y) (fun t => match t with DD x y => Some (x, y) | _ => None end)].
#[local] Instance TestData_Pack : Pack TestData := derive_enum (Uint 0) data_variants.
Definition test_data_enum : bool :=
  test_roundtrip (DA (Uint 10)) [12; 0; 10] &&
  test_roundtrip (DB (Uint 10) (Uint 20)) [34; 0; 10; 0; 20; 0; 0; 0] &&
  test_roundtrip (DC (Uint 10)) [56; 0; 10] &&
  test_roundtrip (DD (Uint 10) (Uint 20)) [78; 0; 10; 0; 20; 0; 0; 0].
Example data_enum_passes : test_data_enum = true.
Proof. vm_compute. reflexivity. Qed.

(** ** [test_enum_tagged] *)

Definition test_roundtrip_tag {Tag X} `{PackTagged Tag X, EqDecision Tag, EqDecision X}
    (input : X) (tag : Tag) (packed : list Z) : bool :=
  bool_decide (get_tag input = tag) &&
  match unpack_data tag packed with
  | Ok (unpacked, remaining) => bool_decide (remaining = []) && bool_decide (unpacked = input)
  | Err _ => false
  end &&
  match pack_data input vec_new with Ok t => bool_decide (vec t = packed) | Err _ => false end.

Inductive TestTag := TagA | TagB | TagC | TagD.
#[local] Instance TestTag_eq_dec : EqDecision TestTag.
Proof. solve_decision. Defined.
Inductive TestTagged := TA (x : u8) | TB (x : u16) | TC (x : u32).
#[local] Instance TestTagged_eq_dec : EqDecision TestTagged.
Proof. solve_decision. Defined.
#[local] Instance TestTagged_PackTagged : PackTagged TestTag TestTagged := derive_tagged TagA
  [Variant TagA u8 TA (fun t => match t with TA x => Some x | _ => None end);
   Variant TagB u16 TB (fun t => match t with TB x => Some x | _ => None end);
   Variant TagC u32 TC (fun t => match t with TC x => Some x | _ => None end)].
Definition test_enum_tagged : bool :=
  test_roundtrip_tag (TA (Uint 12)) TagA [12] && test_roundtrip_tag (TB (Uint 0x0201)) TagB [0x01; 0x02] &&
  test_roundtrip_tag (TC (Uint 0x04030201)) TagC [0x01; 0x02; 0x03; 0x04].
Example enum_tagged_passes : test_enum_tagged = true.
Proof. vm_compute. reflexivity. Qed.

(** ** [test_ext_enum]: both directions, by the trait and by [Into] and [TryFrom]. *)

Inductive TestExt := EA | EB | EC | ED.
#[local] Instance TestExt_eq_dec : EqDecision TestExt.
Proof. solve_decision. Defined.
#[local] Instance TestExt_ExtEnum : ExtEnum u8 TestExt :=
  derive_ext_enum (Uint 0) [(Uint 0, EA); (Uint 1, EB); (Uint 2, EC); (Uint 3, ED)].
Definition test_ext_enum : bool :=
  forallb (fun '(e, n) => bool_decide (into_tag e = (Uint n : u8)) &&
             match try_from_tag (Uint n : u8) with Ok e' => bool_decide (e' = e) | Err _ => false end)
    [(EA, 0); (EB, 1); (EC, 2); (ED, 3)] &&
  match try_from_tag (A := TestExt) (Uint 4 : u8) with Err InvalidTag => true | Ok _ => false end.
Example ext_enum_passes : test_ext_enum = true.
Proof. vm_compute. reflexivity. Qed.
End PackTests.
