(* ===== verification/BitField.v ===== *)
(** * The contract of the [bitfield] crate

    [frame.rs] declares its control words with the third-party [bitfield!]
    macro, whose accessors read and write a range of bits of the raw integer.
    The crate's code is not part of the repository: [BitRange] is its
    interface, [BitRangeLaws] the behaviour its documentation gives for it,
    and everything that uses a control word is proved against those.
    [BitRange_reference] is one function that satisfies the laws; the concrete
    examples of the development run on it. *)

From Stdlib Require Import ZArith Lia.
From S2P Require Import Prelude.

#[local] Open Scope Z_scope.

(** [bit_range x msb lsb] and [set_bit_range x msb lsb v]. *)
Class BitRange := {
  bit_range : Z -> Z -> Z -> Z;
  set_bit_range : Z -> Z -> Z -> Z -> Z;
}.

(** Bits [lsb..msb] of the word, as a number; and the word with those bits
    replaced by the low bits of the value. *)
Class BitRangeLaws `{BitRange} := {
  bit_range_spec x msb lsb :
    0 <= x -> 0 <= lsb <= msb ->
    bit_range x msb lsb = (x / 2 ^ lsb) mod 2 ^ (msb - lsb + 1);
  set_bit_range_spec x msb lsb v i :
    0 <= x -> 0 <= v -> 0 <= lsb <= msb -> 0 <= i ->
    Z.testbit (set_bit_range x msb lsb v) i =
      if decide (lsb <= i <= msb) then Z.testbit v (i - lsb) else Z.testbit x i;
  set_bit_range_nonneg x msb lsb v :
    0 <= x -> 0 <= v -> 0 <= lsb <= msb -> 0 <= set_bit_range x msb lsb v;
}.

Section facts.
Context `{BitRangeLaws}.

Lemma bit_range_bits x msb lsb i :
  0 <= x -> 0 <= lsb <= msb -> 0 <= i ->
  Z.testbit (bit_range x msb lsb) i =
    if decide (i <= msb - lsb) then Z.testbit x (lsb + i) else false.
Proof.
  intros Hx Hl Hi. rewrite bit_range_spec by done. case_decide.
  - rewrite Z.mod_pow2_bits_low by lia. rewrite Z.div_pow2_bits by lia. f_equal; lia.
  - apply Z.mod_pow2_bits_high. lia.
Qed.

Lemma bit_range_bound x msb lsb :
  0 <= x -> 0 <= lsb <= msb -> 0 <= bit_range x msb lsb < 2 ^ (msb - lsb + 1).
Proof.
  intros. rewrite bit_range_spec by done. apply Z.mod_pos_bound, Z.pow_pos_nonneg; lia.
Qed.

Lemma bit_range_nonneg x msb lsb : 0 <= x -> 0 <= lsb <= msb -> 0 <= bit_range x msb lsb.
Proof. intros. by apply bit_range_bound. Qed.

Lemma bit_range_0 msb lsb : 0 <= lsb <= msb -> bit_range 0 msb lsb = 0.
Proof. intros. by rewrite bit_range_spec, Z.div_0_l, Z.mod_0_l by (lia || by apply Z.pow_nonzero; lia). Qed.

(** Reading the range just written, and reading a disjoint range. *)
Lemma bit_range_set_same x msb lsb v :
  0 <= x -> 0 <= lsb <= msb -> 0 <= v < 2 ^ (msb - lsb + 1) ->
  bit_range (set_bit_range x msb lsb v) msb lsb = v.
Proof.
  intros Hx Hl Hv. apply Z.bits_inj'. intros i Hi.
  rewrite bit_range_bits by (done || (apply set_bit_range_nonneg; lia)).
  case_decide.
  - rewrite set_bit_range_spec by lia. rewrite decide_True by lia. f_equal; lia.
  - symmetry. apply (testbit_above (msb - lsb + 1)); [done|lia].
Qed.

Lemma bit_range_set_other x msb lsb v msb' lsb' :
  0 <= x -> 0 <= v -> 0 <= lsb <= msb -> 0 <= lsb' <= msb' ->
  msb < lsb' \/ msb' < lsb ->
  bit_range (set_bit_range x msb lsb v) msb' lsb' = bit_range x msb' lsb'.
Proof.
  intros. apply Z.bits_inj'. intros i Hi.
  rewrite !bit_range_bits by (done || (apply set_bit_range_nonneg; lia)).
  case_decide; [|done]. rewrite set_bit_range_spec by lia.
  by rewrite decide_False by lia.
Qed.

Lemma set_bit_range_width w x msb lsb v :
  in_width w x -> 0 <= v -> 0 <= lsb <= msb -> msb < w ->
  in_width w (set_bit_range x msb lsb v).
Proof.
  unfold in_width. intros Hx Hv Hl Hw.
  assert (0 <= set_bit_range x msb lsb v) as Hnn by (apply set_bit_range_nonneg; lia).
  split; [done|].
  destruct (decide (set_bit_range x msb lsb v = 0)) as [->|Hne]; [apply Z.pow_pos_nonneg; lia|].
  apply Z.log2_lt_pow2; [lia|]. apply Z.nle_gt. intros Hlog.
  assert (Z.testbit (set_bit_range x msb lsb v) (Z.log2 (set_bit_range x msb lsb v)) = true) as Hb
    by (apply Z.bit_log2; lia).
  pose proof (Z.log2_nonneg (set_bit_range x msb lsb v)).
  rewrite set_bit_range_spec in Hb by lia. rewrite decide_False in Hb by lia.
  by rewrite (testbit_above w) in Hb.
Qed.
(** Writing a range that is empty adds the value there. *)
Lemma set_bit_range_add x msb lsb v :
  0 <= x -> 0 <= lsb <= msb -> 0 <= v < 2 ^ (msb - lsb + 1) ->
  bit_range x msb lsb = 0 ->
  set_bit_range x msb lsb v = x + v * 2 ^ lsb.
Proof.
  intros Hx Hl Hv Hz.
  assert (forall i, lsb <= i <= msb -> Z.testbit x i = false) as Hb.
  { intros i Hi. pose proof (bit_range_bits x msb lsb (i - lsb)) as E. rewrite Hz, Z.bits_0 in E.
    rewrite decide_True in E by lia. replace (lsb + (i - lsb)) with i in E by lia.
    symmetry. apply E; lia. }
  assert (forall i, 0 <= i -> Z.testbit (v * 2 ^ lsb) i =
            if decide (lsb <= i <= msb) then Z.testbit v (i - lsb) else false) as Hs.
  { intros i Hi. rewrite <- Z.shiftl_mul_pow2, Z.shiftl_spec by lia. case_decide; [done|].
    destruct (decide (i < lsb)); [by rewrite Z.testbit_neg_r by lia|].
    apply (testbit_above (msb - lsb + 1)); [done|lia]. }
  rewrite Z.add_nocarry_lxor, Z.lxor_lor.
  - apply Z.bits_inj'. intros i Hi. rewrite set_bit_range_spec, Z.lor_spec, Hs by lia.
    case_decide; [by rewrite Hb|by rewrite orb_false_r].
  - apply Z.bits_inj'. intros i Hi. rewrite Z.land_spec, Hs, Z.bits_0 by lia.
    case_decide; [by rewrite Hb|by rewrite andb_false_r].
  - apply Z.bits_inj'. intros i Hi. rewrite Z.land_spec, Hs, Z.bits_0 by lia.
    case_decide; [by rewrite Hb|by rewrite andb_false_r].
Qed.
(** Only the low bits of the value count. *)
Lemma set_bit_range_mod x msb lsb v :
  0 <= x -> 0 <= v -> 0 <= lsb <= msb ->
  set_bit_range x msb lsb v = set_bit_range x msb lsb (v mod 2 ^ (msb - lsb + 1)).
Proof.
  intros Hx Hv Hl. assert (0 < 2 ^ (msb - lsb + 1)) by (apply Z.pow_pos_nonneg; lia).
  assert (0 <= v mod 2 ^ (msb - lsb + 1)) by (apply Z.mod_pos_bound; lia).
  apply Z.bits_inj'. intros i Hi. rewrite !set_bit_range_spec by lia. case_decide; [|done].
  by rewrite Z.mod_pow2_bits_low by lia.
Qed.
End facts.

(** ** Words assembled field by field *)

(** A field of a control word: its most and least significant bits. *)
Record bit_field := BF { msb : Z; lsb : Z }.

Definition field_ok (w : Z) (f : bit_field) : Prop := 0 <= lsb f <= msb f /\ msb f < w.
Definition fits (f : bit_field) (v : Z) : Prop := 0 <= v < 2 ^ (msb f - lsb f + 1).
Definition disjoint_fields (f g : bit_field) : bool := (msb f <? lsb g) || (msb g <? lsb f).
Fixpoint no_overlap (fs : list bit_field) : bool :=
  match fs with
  | [] => true
  | f :: fs => forallb (disjoint_fields f) fs && no_overlap fs
  end.

#[export] Instance field_ok_dec w f : Decision (field_ok w f).
Proof. unfold field_ok. apply _. Defined.

Section words.
Context `{BitRange}.
Implicit Types l : list (bit_field * Z).

Definition get_field (f : bit_field) (x : Z) : Z := bit_range x (msb f) (lsb f).
Definition set_field (f : bit_field) (v x : Z) : Z := set_bit_range x (msb f) (lsb f) v.
Fixpoint write_fields l (x : Z) : Z :=
  match l with
  | [] => x
  | (f, v) :: l => write_fields l (set_bit_range x (msb f) (lsb f) v)
  end.

Context (w : Z) `{!BitRangeLaws}.
Definition writes_ok l : Prop := Forall (fun '(f, v) => field_ok w f /\ fits f v) l.

Lemma write_fields_width l x :
  writes_ok l -> in_width w x -> in_width w (write_fields l x).
Proof using All.
  revert x. induction l as [|[f v] l IH]; intros x Hl Hx; cbn; [done|].
  apply Forall_cons in Hl as [[[Hf Hw] Hv] Hl]. apply IH; [done|].
  unfold fits in Hv. apply set_bit_range_width; lia || done.
Qed.

Lemma get_write_other l x g :
  writes_ok l -> 0 <= x -> field_ok w g -> forallb (disjoint_fields g) l.*1 = true ->
  get_field g (write_fields l x) = get_field g x.
Proof using All.
  unfold field_ok. revert x. induction l as [|[f v] l IH]; intros x Hl Hx Hg Hd; cbn; [done|].
  apply Forall_cons in Hl as [[[Hf Hw] Hv] Hl]. unfold fits in Hv.
  cbn in Hd. apply andb_true_iff in Hd as [Hd Hds]. unfold disjoint_fields in Hd.
  rewrite IH; [|done|apply set_bit_range_nonneg; lia|done|done].
  unfold get_field. apply bit_range_set_other; lia.
Qed.

(** Every field reads back the value written to it. *)
Lemma get_write l x f v :
  writes_ok l -> no_overlap l.*1 = true -> 0 <= x -> (f, v) ∈ l ->
  get_field f (write_fields l x) = v.
Proof using All.
  revert x. induction l as [|[g u] l IH]; intros x Hl Hd Hx Hin; cbn.
  { by apply not_elem_of_nil in Hin. }
  apply Forall_cons in Hl as [[[Hf Hw] Hv] Hl]. unfold fits in Hv.
  cbn in Hd. apply andb_true_iff in Hd as [Hd Hds].
  assert (0 <= set_bit_range x (msb g) (lsb g) u) by (apply set_bit_range_nonneg; lia).
  apply elem_of_cons in Hin as [[= -> ->]|Hin].
  - rewrite get_write_other by done. by apply bit_range_set_same.
  - by apply IH.
Qed.
End words.

(** Closes [writes_ok w fields] and [_ ∈ fields] for fields that are written out. *)
Ltac solve_writes :=
  repeat (apply Forall_cons_2; [split; [unfold field_ok; cbn; lia|unfold fits; cbn; lia]|]);
  apply Forall_nil_2.
Ltac solve_field w fields :=
  apply (get_write w fields 0);
  [done|done|done|unfold fields; rewrite ?elem_of_cons; tauto].
Lemma bool_to_Z_range b : 0 <= bool_to_Z b < 2.
Proof. destruct b; cbn; lia. Qed.

(** ** A reference implementation of the contract *)

Definition reference_bit_range (x msb lsb : Z) : Z :=
  Z.land (Z.shiftr x lsb) (Z.ones (msb - lsb + 1)).
Definition reference_set_bit_range (x msb lsb v : Z) : Z :=
  Z.lor (Z.ldiff x (Z.shiftl (Z.ones (msb - lsb + 1)) lsb))
        (Z.shiftl (Z.land v (Z.ones (msb - lsb + 1))) lsb).

(** Not exported as an instance: only the concrete examples pick it. *)
Definition BitRange_reference : BitRange :=
  {| bit_range := reference_bit_range; set_bit_range := reference_set_bit_range |}.

Lemma BitRange_reference_laws : @BitRangeLaws BitRange_reference.
Proof.
  split; cbn.
  - intros x msb lsb Hx Hl. unfold reference_bit_range.
    rewrite Z.land_ones, Z.shiftr_div_pow2 by lia. done.
  - intros x msb lsb v i Hx Hv Hl Hi. unfold reference_set_bit_range.
    rewrite Z.lor_spec, Z.ldiff_spec, !Z.shiftl_spec, Z.land_spec by lia.
    case_decide.
    + rewrite !Z.ones_spec_low by lia. cbn.
      by rewrite !andb_false_r, orb_false_l, andb_true_r.
    + destruct (decide (i < lsb)).
      * by rewrite !(Z.testbit_neg_r _ (i - lsb)), andb_true_r, orb_false_r by lia.
      * by rewrite !Z.ones_spec_high, andb_true_r, andb_false_r, orb_false_r by lia.
  - intros x msb lsb v Hx Hv Hl. unfold reference_set_bit_range.
    assert (0 <= Z.ones (msb - lsb + 1)) by (rewrite Z.ones_equiv; pose proof (Z.pow_pos_nonneg 2 (msb - lsb + 1)); lia).
    apply Z.lor_nonneg; split; [apply Z.ldiff_nonneg; by left|].
    apply Z.shiftl_nonneg, Z.land_nonneg. by left.
Qed.
