(* ===== verification/Frame.v ===== *)
(** * IEEE 802.15.4 MAC frames ([src/src/ieee802154/frame.rs])

    Addresses, the frame header with its control word, and the payloads of the
    frame types.  Structs and enums that derive their packing are built with
    [PackDerive]; the hand-written implementations are translated one by one. *)

From Stdlib Require Import ZArith Lia String.
From S2P Require Import Prelude Pack PackDerive BitField.

#[local] Open Scope Z_scope.

(** ** Addresses *)

Record ShortAddress := ShortAddr { short_address : Z }.
Record ExtendedAddress := ExtAddr { extended_address : Z }.
Record PANID := PanId { panid : Z }.

Definition ShortAddress_broadcast : ShortAddress := ShortAddr 0xFFFF.
Definition ShortAddress_invalid : ShortAddress := ShortAddr 0xFFFF.
Definition ShortAddress_none_assigned : ShortAddress := ShortAddr 0xFFFE.
Definition PANID_broadcast : PANID := PanId 0xFFFF.

Inductive Address :=
| AddrShort (a : ShortAddress)
| AddrExtended (a : ExtendedAddress).

Record FullAddress := FullAddr { pan_id : PANID; address : Address }.

Inductive AddressingMode := AM_None | AM_Reserved | AM_Short | AM_Extended.

#[export] Instance ShortAddress_eq_dec : EqDecision ShortAddress.
Proof. solve_decision. Defined.
#[export] Instance ExtendedAddress_eq_dec : EqDecision ExtendedAddress.
Proof. solve_decision. Defined.
#[export] Instance PANID_eq_dec : EqDecision PANID.
Proof. solve_decision. Defined.
#[export] Instance Address_eq_dec : EqDecision Address.
Proof. solve_decision. Defined.
#[export] Instance FullAddress_eq_dec : EqDecision FullAddress.
Proof. solve_decision. Defined.
#[export] Instance AddressingMode_eq_dec : EqDecision AddressingMode.
Proof. solve_decision. Defined.

#[export] Instance ShortAddress_countable : Countable ShortAddress :=
  inj_countable' short_address ShortAddr (fun '(ShortAddr _) => eq_refl).
#[export] Instance ExtendedAddress_countable : Countable ExtendedAddress :=
  inj_countable' extended_address ExtAddr (fun '(ExtAddr _) => eq_refl).
#[export] Instance PANID_countable : Countable PANID :=
  inj_countable' panid PanId (fun '(PanId _) => eq_refl).
#[export] Instance Address_countable : Countable Address.
Proof.
  refine (inj_countable'
    (fun a => match a with AddrShort a => inl a | AddrExtended a => inr a end)
    (fun s => match s with inl a => AddrShort a | inr a => AddrExtended a end) _).
  by intros [].
Defined.
#[export] Instance FullAddress_countable : Countable FullAddress :=
  inj_countable' (fun a => (pan_id a, address a)) (fun '(p, a) => FullAddr p a)
    (fun '(FullAddr _ _) => eq_refl).

(** [#[derive(Pack)]] on the three address newtypes. *)
Definition ShortAddress_fields : fields_of ShortAddress :=
  FieldsOf u16 (fun x => ShortAddr (uint_val x)) (fun a => Uint (short_address a)).
Definition ExtendedAddress_fields : fields_of ExtendedAddress :=
  FieldsOf u64 (fun x => ExtAddr (uint_val x)) (fun a => Uint (extended_address a)).
Definition PANID_fields : fields_of PANID :=
  FieldsOf u16 (fun x => PanId (uint_val x)) (fun a => Uint (panid a)).
#[export] Instance ShortAddress_Pack : Pack ShortAddress := derive_struct ShortAddress_fields.
#[export] Instance ExtendedAddress_Pack : Pack ExtendedAddress :=
  derive_struct ExtendedAddress_fields.
#[export] Instance PANID_Pack : Pack PANID := derive_struct PANID_fields.

(** [#[derive(ExtEnum)] #[tag_type(u16)] enum AddressingMode] *)
Definition AddressingMode_tags : list (u16 * AddressingMode) :=
  [(Uint 0, AM_None); (Uint 1, AM_Reserved); (Uint 2, AM_Short); (Uint 3, AM_Extended)].
#[export] Instance AddressingMode_ExtEnum : ExtEnum u16 AddressingMode :=
  derive_ext_enum (Uint 0) AddressingMode_tags.

(** [#[derive(PackTagged)] #[tag_type(AddressingMode)] enum Address] *)
Definition Address_Short_variant : variant AddressingMode Address :=
  Variant AM_Short ShortAddress AddrShort
    (fun a => match a with AddrShort a => Some a | _ => None end).
Definition Address_Extended_variant : variant AddressingMode Address :=
  Variant AM_Extended ExtendedAddress AddrExtended
    (fun a => match a with AddrExtended a => Some a | _ => None end).
Definition Address_variants : list (variant AddressingMode Address) :=
  [Address_Short_variant; Address_Extended_variant].
#[export] Instance Address_PackTagged : PackTagged AddressingMode Address :=
  derive_tagged AM_None Address_variants.

(** [impl PackTagged for FullAddress] *)
Definition FullAddress_get_tag (a : FullAddress) : AddressingMode := get_tag (address a).
Definition FullAddress_unpack_data (tag : AddressingMode) (data : list Z) :
    unpacked FullAddress :=
  '(pan_id, data) ← unpack data;
  '(address, data) ← unpack_data tag data;
  Ok (FullAddr pan_id address, data).
Definition FullAddress_pack_data {T E} `{PackTarget T E} (a : FullAddress) (t : T) :
    result (PackError E) T :=
  t ← pack (pan_id a) t; pack_data (address a) t.
#[export] Instance FullAddress_PackTagged : PackTagged AddressingMode FullAddress := {|
  get_tag := FullAddress_get_tag;
  unpack_data := FullAddress_unpack_data;
  pack_data T E _ := FullAddress_pack_data;
|}.

(** [Frame::unpack_address] *)
Definition unpack_address (mode : AddressingMode) (previous_pan : option PANID)
    (data : list Z) : unpacked (option FullAddress) :=
  if decide (mode = AM_None) then Ok (None, data)
  else match previous_pan with
       | Some pan_id =>
           '(address, data) ← unpack_data mode data;
           Ok (Some (FullAddr pan_id address), data)
       | None =>
           '(address, data) ← unpack_data mode data;
           Ok (Some address, data)
       end.

(** ** Payloads *)

Record Payload := MkPayload { payload_bytes : list Z }.
#[export] Instance Payload_eq_dec : EqDecision Payload.
Proof. solve_decision. Defined.

Definition Payload_unpack (data : list Z) : unpacked Payload :=
  Ok (MkPayload data, drop (length data) data).
Definition Payload_pack {T E} `{PackTarget T E} (p : Payload) (t : T) : result (PackError E) T :=
  append_bytes t (payload_bytes p).
#[export] Instance Payload_Pack : Pack Payload := {|
  unpack := Payload_unpack;
  pack T E _ := Payload_pack;
|}.

(** ** Association *)

Inductive DeviceType := RFD | FFD.
Inductive PowerSource := Battery | AC.
Inductive AssociationError := PANAtCapacity | PANAccessDenied | HoppingSequenceOffset.

#[export] Instance DeviceType_eq_dec : EqDecision DeviceType.
Proof. solve_decision. Defined.
#[export] Instance PowerSource_eq_dec : EqDecision PowerSource.
Proof. solve_decision. Defined.
#[export] Instance AssociationError_eq_dec : EqDecision AssociationError.
Proof. solve_decision. Defined.

(** A data-less variant, its pattern an equality test. *)
Definition unit_variant {A} `{EqDecision A} (tag : u8) (c : A) : variant u8 A :=
  Variant tag unit (fun _ => c) (fun a => if decide (a = c) then Some () else None).

Definition DeviceType_variants : list (variant u8 DeviceType) :=
  [unit_variant (Uint 0) RFD; unit_variant (Uint 1) FFD].
#[export] Instance DeviceType_PackTagged : PackTagged u8 DeviceType :=
  derive_tagged (Uint 0) DeviceType_variants.
Definition PowerSource_variants : list (variant u8 PowerSource) :=
  [unit_variant (Uint 0) Battery; unit_variant (Uint 1) AC].
#[export] Instance PowerSource_PackTagged : PackTagged u8 PowerSource :=
  derive_tagged (Uint 0) PowerSource_variants.
Definition AssociationError_variants : list (variant u8 AssociationError) :=
  [unit_variant (Uint 1) PANAtCapacity; unit_variant (Uint 2) PANAccessDenied;
   unit_variant (Uint 3) HoppingSequenceOffset].
#[export] Instance AssociationError_PackTagged : PackTagged u8 AssociationError :=
  derive_tagged (Uint 0) AssociationError_variants.

Record CapabilityInformation := {
  device_type : DeviceType;
  power_source : PowerSource;
  receiver_on_when_idle : bool;
  ci_fast_association : bool;
  security_capable : bool;
  allocate_address : bool;
}.
#[export] Instance CapabilityInformation_eq_dec : EqDecision CapabilityInformation.
Proof. solve_decision. Defined.

(** [(x >> i) & 1] and its test against zero. *)
Definition bit_at (x i : Z) : Z := Z.land (Z.shiftr x i) 1.
Definition bit_set (x i : Z) : bool := negb (bit_at x i =? 0).

Definition CapabilityInformation_unpack (data : list Z) : unpacked CapabilityInformation :=
  '(capability_information, data) ← unpack_uint 1 data;
  '(device_type, data) ← unpack_data (Uint (bit_at capability_information 1)) data;
  '(power_source, data) ← unpack_data (Uint (bit_at capability_information 2)) data;
  Ok ({| device_type := device_type;
         power_source := power_source;
         receiver_on_when_idle := bit_set capability_information 3;
         ci_fast_association := bit_set capability_information 4;
         security_capable := bit_set capability_information 6;
         allocate_address := bit_set capability_information 7 |}, data).
(** The code's [pack] writes nothing. *)
Definition CapabilityInformation_pack {T E} `{PackTarget T E} (_ : CapabilityInformation)
    (t : T) : result (PackError E) T := Ok t.
#[export] Instance CapabilityInformation_Pack : Pack CapabilityInformation := {|
  unpack := CapabilityInformation_unpack;
  pack T E _ := CapabilityInformation_pack;
|}.

Record AssociationResponse := {
  ar_fast_association : bool;
  ar_status : result AssociationError ShortAddress;
}.
#[export] Instance AssociationResponse_eq_dec : EqDecision AssociationResponse.
Proof. solve_decision. Defined.

Definition AssociationResponse_unpack (data : list Z) : unpacked AssociationResponse :=
  '(short_address, data) ← unpack data;
  '(status, data) ← unpack_uint 1 data;
  let fast_association := negb (Z.land status 0x80 =? 0) in
  let status := Z.land status 0x7F in
  '(status, data) ←
    (if decide (status = 0) then Ok (Ok short_address, data)
     else '(error, data) ← unpack_data (Uint status : u8) data; Ok (Err error, data));
  Ok ({| ar_fast_association := fast_association; ar_status := status |}, data).
Definition AssociationResponse_pack {T E} `{PackTarget T E} (r : AssociationResponse) (t : T) :
    result (PackError E) T :=
  let '(address, status) :=
    match ar_status r with
    | Ok addr => (addr, 0)
    | Err x => (ShortAddress_invalid, uint_val (get_tag x : u8))
    end in
  let status := if ar_fast_association r then Z.lor status 0x80 else status in
  t ← pack address t; pack_uint 1 status t.
#[export] Instance AssociationResponse_Pack : Pack AssociationResponse := {|
  unpack := AssociationResponse_unpack;
  pack T E _ := AssociationResponse_pack;
|}.

(** ** Commands *)

Inductive Command :=
| AssociationRequest (c : CapabilityInformation)
| AssociationResponseCommand (r : AssociationResponse)
| DataRequest
| BeaconRequest.
#[export] Instance Command_eq_dec : EqDecision Command.
Proof. solve_decision. Defined.

Definition AssociationRequest_variant : variant u8 Command :=
  Variant (Uint 0x01) CapabilityInformation AssociationRequest
    (fun c => match c with AssociationRequest i => Some i | _ => None end).
Definition AssociationResponse_variant : variant u8 Command :=
  Variant (Uint 0x02) AssociationResponse AssociationResponseCommand
    (fun c => match c with AssociationResponseCommand r => Some r | _ => None end).
Definition Command_variants : list (variant u8 Command) :=
  [AssociationRequest_variant; AssociationResponse_variant;
   unit_variant (Uint 0x04) DataRequest; unit_variant (Uint 0x07) BeaconRequest].
#[export] Instance Command_Pack : Pack Command := derive_enum (Uint 0) Command_variants.

(** ** Beacons *)

Record Beacon := {
  beacon_order : Z;
  superframe_order : Z;
  final_cap_slot : Z;
  battery_life_extension : bool;
  pan_coordinator : bool;
  association_permit : bool;
  beacon_payload : Payload;
}.
#[export] Instance Beacon_eq_dec : EqDecision Beacon.
Proof. solve_decision. Defined.

Inductive FrameType :=
| FTBeacon (b : Beacon)
| FTData (p : Payload)
| FTAck (p : Payload)
| FTCommand (c : Command)
| FTReserved (p : Payload)
| FTMultipurpose (p : Payload)
| FTFragment (p : Payload)
| FTExtended (p : Payload).
#[export] Instance FrameType_eq_dec : EqDecision FrameType.
Proof. solve_decision. Defined.

Record Frame := {
  frame_pending : bool;
  acknowledge_request : bool;
  sequence_number : option Z;
  destination : option FullAddress;
  source : option FullAddress;
  frame_type : FrameType;
}.
#[export] Instance Frame_eq_dec : EqDecision Frame.
Proof. solve_decision. Defined.

(** The two [bitfield!] control words, with their accessors' bit ranges. *)
Record SuperframeSpecification := SSWord { ss_raw : Z }.
Definition SuperframeSpecification_fields : fields_of SuperframeSpecification :=
  FieldsOf u16 (fun x => SSWord (uint_val x)) (fun s => Uint (ss_raw s)).
#[export] Instance SuperframeSpecification_Pack : Pack SuperframeSpecification :=
  derive_struct SuperframeSpecification_fields.

Record FrameControl := FCWord { fc_raw : Z }.
Definition FrameControl_fields : fields_of FrameControl :=
  FieldsOf u16 (fun x => FCWord (uint_val x)) (fun f => Uint (fc_raw f)).
#[export] Instance FrameControl_Pack : Pack FrameControl := derive_struct FrameControl_fields.

Definition ss_beacon_order := BF 3 0.
Definition ss_superframe_order := BF 7 4.
Definition ss_final_cap_slot := BF 11 8.
Definition ss_battery_life_extension := BF 12 12.
Definition ss_reserved := BF 13 13.
Definition ss_pan_coordinator := BF 14 14.
Definition ss_association_permit := BF 15 15.

Definition fc_frame_type := BF 2 0.
Definition fc_security_enabled := BF 3 3.
Definition fc_frame_pending := BF 4 4.
Definition fc_acknowledge_request := BF 5 5.
Definition fc_pan_id_compression := BF 6 6.
Definition fc_reserved := BF 7 7.
Definition fc_sequence_number_supression := BF 8 8.
Definition fc_information_elements_present := BF 9 9.
Definition fc_destination_addressing_mode := BF 11 10.
Definition fc_frame_version := BF 13 12.
Definition fc_source_addressing_mode := BF 15 14.

Section frames.
Context `{BitRange}.

Definition ss_get (f : bit_field) (s : SuperframeSpecification) : Z :=
  get_field f (ss_raw s).
Definition ss_set (f : bit_field) (v : Z) (s : SuperframeSpecification) :
    SuperframeSpecification := SSWord (set_bit_range (ss_raw s) (msb f) (lsb f) v).
Definition fc_get (f : bit_field) (w : FrameControl) : Z :=
  get_field f (fc_raw w).
Definition fc_set (f : bit_field) (v : Z) (w : FrameControl) : FrameControl :=
  FCWord (set_bit_range (fc_raw w) (msb f) (lsb f) v).

(** [impl Pack for Beacon] *)
Definition Beacon_unpack (data : list Z) : unpacked Beacon :=
  '((ss, gts, pending_addresses), data) ←
    (unpack data : unpacked (SuperframeSpecification * u8 * u8));
  if negb (uint_val gts =? 0) || negb (uint_val pending_addresses =? 0)
  then Err (Unimplemented (Some "Non-zero GTS or pending-addresses not yet supported"%string))
  else
    '(payload, data) ← unpack data;
    Ok ({| beacon_order := ss_get ss_beacon_order ss;
           superframe_order := ss_get ss_superframe_order ss;
           final_cap_slot := ss_get ss_final_cap_slot ss;
           battery_life_extension := negb (ss_get ss_battery_life_extension ss =? 0);
           pan_coordinator := negb (ss_get ss_pan_coordinator ss =? 0);
           association_permit := negb (ss_get ss_association_permit ss =? 0);
           beacon_payload := payload |}, data).

Definition Beacon_pack {T E} `{PackTarget T E} (b : Beacon) (t : T) : result (PackError E) T :=
  let ss := SSWord 0 in
  if beacon_order b >? 0xF then Err (NotAllowed (Some "Beacon order out of range"%string))
  else let ss := ss_set ss_beacon_order (beacon_order b) ss in
  if superframe_order b >? 0xF
  then Err (NotAllowed (Some "Superframe order out of range"%string))
  else let ss := ss_set ss_superframe_order (superframe_order b) ss in
  if final_cap_slot b >? 0xF
  then Err (NotAllowed (Some "Final cap slot order out of range"%string))
  else let ss := ss_set ss_final_cap_slot (final_cap_slot b) ss in
  let ss := ss_set ss_battery_life_extension (bool_to_Z (battery_life_extension b)) ss in
  let ss := ss_set ss_reserved 0 ss in
  let ss := ss_set ss_pan_coordinator (bool_to_Z (pan_coordinator b)) ss in
  let ss := ss_set ss_association_permit (bool_to_Z (association_permit b)) ss in
  t ← pack (ss, (Uint 0 : u8), (Uint 0 : u8)) t;
  pack (beacon_payload b) t.

Definition Beacon_Pack : Pack Beacon := {|
  unpack := Beacon_unpack;
  pack T E _ := Beacon_pack;
|}.
#[local] Existing Instance Beacon_Pack.

(** [#[derive(PackTagged)] enum FrameType] *)
Definition FTBeacon_variant : variant u8 FrameType :=
  Variant (Uint 0) Beacon FTBeacon (fun t => match t with FTBeacon b => Some b | _ => None end).
Definition FTCommand_variant : variant u8 FrameType :=
  Variant (Uint 3) Command FTCommand
    (fun t => match t with FTCommand c => Some c | _ => None end).
(** The payload patterns of [FrameType]. *)
Definition as_data (t : FrameType) : option Payload :=
  match t with FTData p => Some p | _ => None end.
Definition as_ack (t : FrameType) : option Payload :=
  match t with FTAck p => Some p | _ => None end.
Definition as_reserved (t : FrameType) : option Payload :=
  match t with FTReserved p => Some p | _ => None end.
Definition as_multipurpose (t : FrameType) : option Payload :=
  match t with FTMultipurpose p => Some p | _ => None end.
Definition as_fragment (t : FrameType) : option Payload :=
  match t with FTFragment p => Some p | _ => None end.
Definition as_extended (t : FrameType) : option Payload :=
  match t with FTExtended p => Some p | _ => None end.
Definition payload_variant (tag : u8) (c : Payload -> FrameType)
    (d : FrameType -> option Payload) : variant u8 FrameType := Variant tag Payload c d.
Definition FrameType_variants : list (variant u8 FrameType) :=
  [FTBeacon_variant;
   payload_variant (Uint 1) FTData as_data;
   payload_variant (Uint 2) FTAck as_ack;
   FTCommand_variant;
   payload_variant (Uint 4) FTReserved
     as_reserved;
   payload_variant (Uint 5) FTMultipurpose
     as_multipurpose;
   payload_variant (Uint 6) FTFragment
     as_fragment;
   payload_variant (Uint 7) FTExtended
     as_extended].
Definition FrameType_PackTagged : PackTagged u8 FrameType :=
  derive_tagged (Uint 0) FrameType_variants.
#[local] Existing Instance FrameType_PackTagged.

(** [impl Pack for Frame] *)
Definition Frame_unpack (data : list Z) : unpacked Frame :=
  '(fc, data) ← unpack data;
  let frame_pending := negb (fc_get fc_frame_pending fc =? 0) in
  let acknowledge_request := negb (fc_get fc_acknowledge_request fc =? 0) in
  '(sequence_number, data) ←
    (unpack_data (fc_get fc_sequence_number_supression fc =? 0) data : unpacked (option u8));
  mode ← map_err UnpackError_from
           (try_from_tag (Uint (fc_get fc_destination_addressing_mode fc) : u16));
  '(destination, data) ← unpack_address mode None data;
  mode ← map_err UnpackError_from
           (try_from_tag (Uint (fc_get fc_source_addressing_mode fc) : u16));
  '(source, data) ←
    unpack_address mode
      (if negb (fc_get fc_pan_id_compression fc =? 0) then pan_id <$> destination else None)
      data;
  if negb (fc_get fc_information_elements_present fc =? 0)
  then Err (Unimplemented (Some "Information elements not implemented"%string))
  else if negb (fc_get fc_security_enabled fc =? 0)
  then Err (Unimplemented (Some "Secured frames not yet supported"%string))
  else
    '(frame_type, data) ← unpack_data (Uint (fc_get fc_frame_type fc mod 256) : u8) data;
    Ok ({| frame_pending := frame_pending;
           acknowledge_request := acknowledge_request;
           sequence_number := uint_val <$> sequence_number;
           destination := destination;
           source := source;
           frame_type := frame_type |}, data).

Definition address_tag (a : option FullAddress) : Z :=
  uint_val (into_tag (default AM_None (get_tag <$> a)) : u16).

(** The header word that [Frame::pack] assembles. *)
Definition Frame_control (f : Frame) : FrameControl :=
  let destination_pan_id := pan_id <$> destination f in
  let source_pan_id := pan_id <$> source f in
  let pan_id_compression :=
    bool_decide (is_Some destination_pan_id) && bool_decide (destination_pan_id = source_pan_id) in
  let fc := FCWord 0 in
  let fc := fc_set fc_frame_type (uint_val (get_tag (frame_type f) : u8)) fc in
  let fc := fc_set fc_security_enabled 0 fc in
  let fc := fc_set fc_frame_pending (bool_to_Z (frame_pending f)) fc in
  let fc := fc_set fc_acknowledge_request (bool_to_Z (acknowledge_request f)) fc in
  let fc := fc_set fc_pan_id_compression (bool_to_Z pan_id_compression) fc in
  let fc := fc_set fc_reserved 0 fc in
  let fc := fc_set fc_sequence_number_supression
              (bool_to_Z (bool_decide (sequence_number f = None))) fc in
  let fc := fc_set fc_information_elements_present 0 fc in
  let fc := fc_set fc_destination_addressing_mode (address_tag (destination f)) fc in
  let fc := fc_set fc_source_addressing_mode (address_tag (source f)) fc in
  fc_set fc_frame_version 0 fc.

Definition Frame_pack {T E} `{PackTarget T E} (f : Frame) (t : T) : result (PackError E) T :=
  let destination_pan_id := pan_id <$> destination f in
  let source_pan_id := pan_id <$> source f in
  let pan_id_compression :=
    bool_decide (is_Some destination_pan_id) && bool_decide (destination_pan_id = source_pan_id) in
  t ← pack (Frame_control f) t;
  t ← pack_data (Uint <$> sequence_number f : option u8) t;
  t ← match destination f with
      | Some destination => pack_data destination t
      | None => Ok t
      end;
  t ← match source f with
      | Some source =>
          if pan_id_compression then pack_data (address source) t else pack_data source t
      | None => Ok t
      end;
  pack_data (frame_type f) t.

Definition Frame_Pack : Pack Frame := {|
  unpack := Frame_unpack;
  pack T E _ := Frame_pack;
|}.
End frames.
