(* ===== verification/FrameTheory.v ===== *)
(** * Theory of MAC frames

    The packing contract of every type of [Frame.v], up to the frame itself:
    [frame_roundtrip], [frame_unpack_sound], [frame_repack] and the one
    exception, [CapabilityInformation] (the code packs it as nothing). *)

From Stdlib Require Import ZArith Lia String.
From S2P Require Import Prelude Pack PackDerive BitField Frame.

#[local] Open Scope Z_scope.

(** ** Addresses *)

#[export] Instance ShortAddress_laws : PackLaws ShortAddress :=
  derive_struct_laws ShortAddress_fields (uint_laws 2)
    (fun '(ShortAddr _) => eq_refl) (fun '(Uint _) => eq_refl).
#[export] Instance ExtendedAddress_laws : PackLaws ExtendedAddress :=
  derive_struct_laws ExtendedAddress_fields (uint_laws 8)
    (fun '(ExtAddr _) => eq_refl) (fun '(Uint _) => eq_refl).
#[export] Instance PANID_laws : PackLaws PANID :=
  derive_struct_laws PANID_fields (uint_laws 2)
    (fun '(PanId _) => eq_refl) (fun '(Uint _) => eq_refl).

(** Discharges the two inverse laws of a concrete variant. *)
Ltac solve_variant :=
  intros; repeat match goal with x : unit |- _ => destruct x end; cbn in *;
  repeat case_match; repeat case_decide; simplify_eq; done.

(** Discharges [variants_disjoint] of a concrete list of at most eight variants. *)
Ltac solve_disjoint :=
  let i := fresh "i" in let j := fresh "j" in
  intros i j ? ? ? ? ? ?;
  do 8 (try (destruct i as [|i])); do 8 (try (destruct j as [|j]));
  cbn in *; simplify_eq; repeat case_decide; done.

Definition Address_Short_lawful : lawful_variant AddressingMode Address.
Proof. refine (LawfulVariant Address_Short_variant ShortAddress_laws _ _); solve_variant. Defined.
Definition Address_Extended_lawful : lawful_variant AddressingMode Address.
Proof.
  refine (LawfulVariant Address_Extended_variant ExtendedAddress_laws _ _); solve_variant.
Defined.

Definition Address_lawful := [Address_Short_lawful; Address_Extended_lawful].
#[export] Instance Address_laws : PackTaggedLaws AddressingMode Address.
Proof.
  apply (derive_tagged_laws AM_None Address_lawful).
  - by apply (bool_decide_unpack _).
  - solve_disjoint.
Defined.

(** ** Data-less enums *)

Definition unit_lawful {A} `{EqDecision A} (tag : u8) (c : A) : lawful_variant u8 A.
Proof.
  refine (LawfulVariant (unit_variant tag c) unit_laws _ _).
  - intros []. cbn. by rewrite decide_True.
  - intros a [] H. cbn in *. by case_decide.
Defined.

Definition DeviceType_lawful := [unit_lawful (Uint 0) RFD; unit_lawful (Uint 1) FFD].
Definition PowerSource_lawful := [unit_lawful (Uint 0) Battery; unit_lawful (Uint 1) AC].
Definition AssociationError_lawful :=
  [unit_lawful (Uint 1) PANAtCapacity; unit_lawful (Uint 2) PANAccessDenied;
   unit_lawful (Uint 3) HoppingSequenceOffset].

#[export] Instance DeviceType_laws : PackTaggedLaws u8 DeviceType.
Proof.
  apply (derive_tagged_laws (Uint 0) DeviceType_lawful);
    [by apply (bool_decide_unpack _)|solve_disjoint].
Defined.
#[export] Instance PowerSource_laws : PackTaggedLaws u8 PowerSource.
Proof.
  apply (derive_tagged_laws (Uint 0) PowerSource_lawful);
    [by apply (bool_decide_unpack _)|solve_disjoint].
Defined.
#[export] Instance AssociationError_laws : PackTaggedLaws u8 AssociationError.
Proof.
  apply (derive_tagged_laws (Uint 0) AssociationError_lawful);
    [by apply (bool_decide_unpack _)|solve_disjoint].
Defined.

(** ** Payloads *)

#[export] Instance Payload_laws : PackLaws Payload.
Proof.
  refine {| value_ok p := bytes_ok (payload_bytes p); pack_wf p := bytes_ok (payload_bytes p);
            encoding := payload_bytes; pack_tail _ rest := rest = [] |}.
  - done.
  - done.
  - intros [bs] rest _ ->. cbn. unfold Payload_unpack. by rewrite app_nil_r, drop_all.
  - intros data [bs] rest Hd. cbn. unfold Payload_unpack. intros [= <- <-].
    split; [done|]. apply suffix_drop.
Defined.

(** ** Addresses with their PAN *)

#[export] Instance FullAddress_laws : PackTaggedLaws AddressingMode FullAddress.
Proof.
  refine {| tagged_ok a := value_ok (pan_id a) /\ tagged_ok (address a);
            tagged_wf a := pack_wf (pan_id a) /\ tagged_wf (address a);
            tagged_encoding a := encoding (pan_id a) ++ tagged_encoding (address a);
            tagged_tail a := tagged_tail (address a) |}.
  - intros a [??]. apply Forall_app_2; [by apply encoding_ok|by apply tagged_encoding_ok].
  - intros T E ?? a t [??] ?. cbn [pack_data FullAddress_PackTagged]. unfold FullAddress_pack_data.
    rewrite (pack_spec (pan_id a)) by done. apply append_bytes_bind; [done|].
    intros. by apply (tagged_spec (address a)).
  - intros [p a] rest [??] ?. cbn [get_tag FullAddress_PackTagged unpack_data].
    unfold FullAddress_unpack_data, FullAddress_get_tag. cbn [pan_id address] in *.
    rewrite <- (assoc_L (++)), (unpack_encoding p) by done. cbn [mbind result_bind].
    by rewrite (unpack_tagged_encoding a).
  - intros tag data [p a] rest Hd Hu. cbn [unpack_data FullAddress_PackTagged] in Hu.
    unfold FullAddress_unpack_data in Hu.
    apply result_bind_Ok in Hu as ([p' r] & U1 & Hu).
    apply result_bind_Ok in Hu as ([a' r'] & U2 & [= <- <- <-]).
    apply unpack_sound in U1 as [? [c1 ->]]; [|done].
    apply unpack_tagged_sound in U2 as (? & ? & [c2 ->]); [|eauto with rust].
    split; [done|]. split; [done|solve_suffix].
Defined.

(** ** Capability information

    The reader is in order; the writer emits nothing at all, so no value is
    packable: [pack_wf] is empty here and [capability_information_pack_lossy]
    below states what happens. *)
Lemma bit_at_01 x i : 0 <= bit_at x i <= 1.
Proof.
  unfold bit_at. pose proof (Z.land_ones (Z.shiftr x i) 1 ltac:(lia)) as E.
  change (Z.ones 1) with 1 in E. change (2 ^ 1) with 2 in E. rewrite E. pose proof (Z.mod_pos_bound (Z.shiftr x i) 2).
  lia.
Qed.

#[export] Instance CapabilityInformation_laws : PackLaws CapabilityInformation.
Proof.
  refine {| value_ok _ := True; pack_wf _ := False; encoding _ := []; pack_tail _ _ := True |}.
  - done.
  - done.
  - done.
  - intros data c rest Hd Hu. cbn [unpack CapabilityInformation_Pack] in Hu.
    unfold CapabilityInformation_unpack in Hu. split; [done|].
    apply result_bind_Ok in Hu as ([x r] & U1 & Hu).
    apply result_bind_Ok in Hu as ([dt r1] & U2 & Hu).
    apply result_bind_Ok in Hu as ([ps r2] & U3 & [= <- <-]).
    apply unpack_uint_inv in U1 as [_ ->]; [|done].
    apply unpack_tagged_sound in U2 as (_ & _ & [c1 ->]); [|eauto with rust].
    apply unpack_tagged_sound in U3 as (_ & _ & [c2 ->]); [|eauto with rust].
    solve_suffix.
Defined.

(** ** Association responses *)

Definition ar_ok (r : AssociationResponse) : Prop :=
  match ar_status r with Ok addr => in_width 16 (short_address addr) | Err _ => True end.

Definition ar_status_byte (r : AssociationResponse) : Z :=
  let s := match ar_status r with Ok _ => 0 | Err x => uint_val (get_tag x : u8) end in
  if ar_fast_association r then Z.lor s 0x80 else s.
Definition ar_address (r : AssociationResponse) : ShortAddress :=
  match ar_status r with Ok addr => addr | Err _ => ShortAddress_invalid end.

Lemma ar_pack_eq {T E} `{PackTarget T E} (r : AssociationResponse) (t : T) :
  pack r t = (t ← pack (ar_address r) t; pack_uint 1 (ar_status_byte r) t).
Proof. destruct r as [[] [a|e]]; reflexivity. Qed.

Lemma ar_status_byte_width r : in_width 8 (ar_status_byte r).
Proof. destruct r as [[] [[a]|[]]]; split; by vm_compute. Qed.

#[export] Instance AssociationResponse_laws : PackLaws AssociationResponse.
Proof.
  refine {| value_ok := ar_ok; pack_wf := ar_ok; pack_tail _ _ := True;
            encoding r := encoding (ar_address r) ++ to_le_bytes 1 (ar_status_byte r) |}.
  - intros r Hr. apply Forall_app_2; [|apply to_le_bytes_ok].
    apply (encoding_ok (ar_address r)). unfold ar_ok, ar_address in *. by destruct (ar_status r).
  - intros T E ?? r t Hr Ht. rewrite ar_pack_eq, (pack_spec (ar_address r)).
    + by apply append_bytes_bind.
    + unfold ar_ok, ar_address in *. by destruct (ar_status r).
    + done.
  - intros r rest Hr _. cbn [unpack AssociationResponse_Pack].
    unfold AssociationResponse_unpack. rewrite <- (assoc_L (++)).
    rewrite (unpack_encoding (ar_address r));
      [|unfold ar_ok, ar_address in *; by destruct (ar_status r)|done].
    cbn [mbind result_bind]. rewrite unpack_uint_app by apply ar_status_byte_width.
    by destruct r as [[] [[a]|[]]].
  - intros data r rest Hd Hu. cbn [unpack AssociationResponse_Pack] in Hu.
    unfold AssociationResponse_unpack in Hu.
    apply result_bind_Ok in Hu as ([a r0] & U1 & Hu).
    apply result_bind_Ok in Hu as ([s r1] & U2 & Hu).
    apply result_bind_Ok in Hu as ([st r2] & U3 & [= <- <-]).
    apply unpack_sound in U1 as [Ha [c1 ->]]; [|done].
    apply unpack_uint_inv in U2 as [_ ->]; [|eauto with rust].
    unfold ar_ok; cbn [ar_status]. case_decide.
    + injection U3 as <- <-. split; [done|]. solve_suffix.
    + apply result_bind_Ok in U3 as ([e r3] & U3 & [= <- <-]).
      apply unpack_tagged_sound in U3 as (_ & _ & [c2 ->]); [|eauto with rust].
      split; [done|]. solve_suffix.
Defined.

(** ** Commands *)

Definition AssociationRequest_lawful : lawful_variant u8 Command.
Proof.
  refine (LawfulVariant AssociationRequest_variant CapabilityInformation_laws _ _);
    solve_variant.
Defined.
Definition AssociationResponse_lawful : lawful_variant u8 Command.
Proof.
  refine (LawfulVariant AssociationResponse_variant AssociationResponse_laws _ _);
    solve_variant.
Defined.
Definition Command_lawful :=
  [AssociationRequest_lawful; AssociationResponse_lawful;
   unit_lawful (Uint 0x04) DataRequest; unit_lawful (Uint 0x07) BeaconRequest].

#[export] Instance Command_laws : PackLaws Command.
Proof.
  refine (derive_enum_laws (Uint 0) Command_lawful _ _ _ _).
  - by apply (bool_decide_unpack _).
  - solve_disjoint.
  - by repeat constructor.
  - done.
Defined.

#[export] Instance SuperframeSpecification_laws : PackLaws SuperframeSpecification :=
  derive_struct_laws SuperframeSpecification_fields (uint_laws 2)
    (fun '(SSWord _) => eq_refl) (fun '(Uint _) => eq_refl).
#[export] Instance FrameControl_laws : PackLaws FrameControl :=
  derive_struct_laws FrameControl_fields (uint_laws 2)
    (fun '(FCWord _) => eq_refl) (fun '(Uint _) => eq_refl).

Section frames.
Context `{BitRangeLaws}.

(** Proves [writes_ok 16 l] for a concrete list of writes with symbolic values. *)
Ltac solve_writes :=
  repeat (apply Forall_cons; split; [split; [by apply (bool_decide_unpack _)|]|]);
  try apply Forall_nil_2; unfold fits; cbn.

Lemma bool_fits b f : field_ok 16 f -> fits f (bool_to_Z b).
Proof.
  intros [Hf ?]. unfold fits. assert (2 ^ 1 <= 2 ^ (msb f - lsb f + 1)) by (apply Z.pow_le_mono_r; lia).
  destruct b; cbn; lia.
Qed.

(** ** Beacons *)

Definition Beacon_writes (b : Beacon) : list (bit_field * Z) :=
  [(ss_beacon_order, beacon_order b); (ss_superframe_order, superframe_order b);
   (ss_final_cap_slot, final_cap_slot b);
   (ss_battery_life_extension, bool_to_Z (battery_life_extension b)); (ss_reserved, 0);
   (ss_pan_coordinator, bool_to_Z (pan_coordinator b));
   (ss_association_permit, bool_to_Z (association_permit b))].
Definition Beacon_word (b : Beacon) : SuperframeSpecification :=
  SSWord (write_fields (Beacon_writes b) 0).

Definition Beacon_ok (b : Beacon) : Prop :=
  in_width 4 (beacon_order b) /\ in_width 4 (superframe_order b) /\
  in_width 4 (final_cap_slot b) /\ bytes_ok (payload_bytes (beacon_payload b)).

Lemma Beacon_writes_ok b : Beacon_ok b -> writes_ok 16 (Beacon_writes b).
Proof.
  intros (? & ? & ? & _). unfold in_width in *.
  solve_writes; try done; by destruct (battery_life_extension b), (pan_coordinator b), (association_permit b).
Qed.

Lemma Beacon_pack_eq {T E} `{PackTarget T E} (b : Beacon) (t : T) :
  Beacon_ok b ->
  Beacon_pack b t = (t ← pack (Beacon_word b, (Uint 0 : u8), (Uint 0 : u8)) t;
                     pack (beacon_payload b) t).
Proof.
  intros (? & ? & ? & _). unfold in_width in *. change (2 ^ 4) with 16 in *.
  unfold Beacon_pack. rewrite !Z.gtb_ltb, !(proj2 (Z.ltb_nlt _ _)) by lia. reflexivity.
Qed.

(** Membership in a concrete list of writes. *)
Ltac in_writes := apply list_elem_of_In; cbn; tauto.

Lemma ss_get_word b f v :
  Beacon_ok b -> (f, v) ∈ Beacon_writes b -> ss_get f (Beacon_word b) = v.
Proof.
  intros Hb Hin. unfold ss_get, Beacon_word. cbn [ss_raw].
  apply (get_write 16); [by apply Beacon_writes_ok|reflexivity|done|done].
Qed.

Lemma Beacon_word_width b : Beacon_ok b -> in_width 16 (ss_raw (Beacon_word b)).
Proof. intros Hb. apply (write_fields_width 16); [by apply Beacon_writes_ok|done]. Qed.

Lemma ss_get_bound f s :
  field_ok 16 f -> in_width 16 (ss_raw s) -> fits f (ss_get f s).
Proof.
  intros [? ?] [? _]. by apply bit_range_bound.
Qed.

Definition Beacon_encoding (b : Beacon) : list Z :=
  encoding (Beacon_word b, (Uint 0 : u8), (Uint 0 : u8)) ++ payload_bytes (beacon_payload b).

#[export] Instance Beacon_laws : @PackLaws Beacon Beacon_Pack.
Proof.
  refine (@Build_PackLaws Beacon Beacon_Pack Beacon_ok Beacon_ok
    Beacon_encoding (fun _ rest => rest = []) _ _ _ _).
  - intros b Hb. apply Forall_app_2; [|apply Hb].
    apply (encoding_ok (Beacon_word b, (Uint 0 : u8), (Uint 0 : u8))).
    split; [split|]; [by apply Beacon_word_width|done|done].
  - intros T E ?? b t Hb Ht. change (Beacon_pack b t = append_bytes t (Beacon_encoding b)).
    rewrite Beacon_pack_eq by done.
    rewrite (pack_spec (Beacon_word b, (Uint 0 : u8), (Uint 0 : u8)));
      [|split; [split|]; [by apply Beacon_word_width|done|done]|done].
    by apply append_bytes_bind.
  - intros b rest Hb ->. change (Beacon_unpack (Beacon_encoding b ++ []) = Ok (b, [])).
    unfold Beacon_unpack, Beacon_encoding.
    rewrite app_nil_r, (unpack_encoding (Beacon_word b, (Uint 0 : u8), (Uint 0 : u8)));
      [|split; [split|]; [by apply Beacon_word_width|done|done]|done].
    cbn -[ss_get]. rewrite drop_all.
    rewrite (ss_get_word b ss_beacon_order (beacon_order b)) by (done || in_writes).
    rewrite (ss_get_word b ss_superframe_order (superframe_order b)) by (done || in_writes).
    rewrite (ss_get_word b ss_final_cap_slot (final_cap_slot b)) by (done || in_writes).
    rewrite (ss_get_word b ss_battery_life_extension (bool_to_Z (battery_life_extension b)))
      by (done || in_writes).
    rewrite (ss_get_word b ss_pan_coordinator (bool_to_Z (pan_coordinator b)))
      by (done || in_writes).
    rewrite (ss_get_word b ss_association_permit (bool_to_Z (association_permit b)))
      by (done || in_writes).
    rewrite !bool_to_Z_neqb. by destruct b as [?????? []].
  - intros data b rest Hd Hu. change (Beacon_unpack data = Ok (b, rest)) in Hu.
    unfold Beacon_unpack in Hu.
    apply result_bind_Ok in Hu as ([[[ss g] p] r] & U1 & Hu).
    apply unpack_sound in U1 as [[[Hss _] _] [c1 ->]]; [|done].
    destruct (_ || _); [done|].
    apply result_bind_Ok in Hu as ([pl r1] & U2 & [= <- <-]).
    apply unpack_sound in U2 as [? [c2 ->]]; [|eauto with rust].
    split; [|solve_suffix]. change (in_width 16 (ss_raw ss)) in Hss.
    split; [by apply (ss_get_bound ss_beacon_order ss)|].
    split; [by apply (ss_get_bound ss_superframe_order ss)|].
    split; [by apply (ss_get_bound ss_final_cap_slot ss)|done].
Defined.
#[local] Existing Instance Beacon_Pack.

(** ** Frame types *)

Definition FTBeacon_lawful : lawful_variant u8 FrameType.
Proof. refine (LawfulVariant FTBeacon_variant Beacon_laws _ _); solve_variant. Defined.
Definition FTCommand_lawful : lawful_variant u8 FrameType.
Proof. refine (LawfulVariant FTCommand_variant Command_laws _ _); solve_variant. Defined.
Definition payload_lawful (tag : u8) (c : Payload -> FrameType) d
    (H1 : forall p, d (c p) = Some p) (H2 : forall t p, d t = Some p -> c p = t) :
    lawful_variant u8 FrameType :=
  LawfulVariant (payload_variant tag c d) Payload_laws H1 H2.

Definition FrameType_lawful : list (lawful_variant u8 FrameType).
Proof.
  refine [FTBeacon_lawful; payload_lawful (Uint 1) FTData as_data _ _;
          payload_lawful (Uint 2) FTAck as_ack _ _; FTCommand_lawful;
          payload_lawful (Uint 4) FTReserved as_reserved _ _;
          payload_lawful (Uint 5) FTMultipurpose as_multipurpose _ _;
          payload_lawful (Uint 6) FTFragment as_fragment _ _;
          payload_lawful (Uint 7) FTExtended as_extended _ _].
  all: first [intros p; reflexivity|intros [] q E; cbn in E; congruence].
Defined.

Lemma FrameType_lawful_variants : lv_variant <$> FrameType_lawful = FrameType_variants.
Proof. reflexivity. Qed.

#[export] Instance FrameType_laws : @PackTaggedLaws u8 FrameType FrameType_PackTagged.
Proof.
  apply (derive_tagged_laws (Uint 0) FrameType_lawful).
  - by apply (bool_decide_unpack _).
  - solve_disjoint.
Defined.
#[local] Existing Instance FrameType_PackTagged.

(** The type's tag fits the three bits of the header. *)
Lemma FrameType_tag_width (t : FrameType) : fits fc_frame_type (uint_val (get_tag t : u8)).
Proof. by destruct t; split. Qed.

(** ** Well-formed frames *)

Definition address_ok (a : FullAddress) : Prop :=
  in_width 16 (panid (pan_id a)) /\
  match address a with
  | AddrShort s => in_width 16 (short_address s)
  | AddrExtended e => in_width 64 (extended_address e)
  end.
Definition command_ok (c : Command) : Prop :=
  match c with AssociationResponseCommand r => ar_ok r | _ => True end.
Definition frame_type_ok (t : FrameType) : Prop :=
  match t with
  | FTBeacon b => Beacon_ok b
  | FTCommand c => command_ok c
  | FTData p | FTAck p | FTReserved p | FTMultipurpose p | FTFragment p | FTExtended p =>
      bytes_ok (payload_bytes p)
  end.
Definition frame_ok (f : Frame) : Prop :=
  from_option (in_width 8) True (sequence_number f) /\
  from_option address_ok True (destination f) /\
  from_option address_ok True (source f) /\
  frame_type_ok (frame_type f).

(** The one payload whose writer is wrong. *)
Definition is_association_request (t : FrameType) : bool :=
  match t with FTCommand (AssociationRequest _) => true | _ => false end.

Lemma address_tagged_wf (a : FullAddress) : tagged_wf a <-> address_ok a.
Proof. by destruct a as [? []]. Qed.
Lemma address_tagged_ok (a : FullAddress) : tagged_ok a <-> address_ok a.
Proof. by destruct a as [? []]. Qed.
Lemma address_tail (a : FullAddress) rest : tagged_tail a rest.
Proof. by destruct a as [? []]. Qed.

Lemma unit_lawful_ok {A} `{EqDecision A} tag (c : A) fs :
  @value_ok _ _ (lv_laws (unit_lawful tag c)) fs.
Proof. done. Qed.

Lemma frame_type_tagged_ok (t : FrameType) : tagged_ok t -> frame_type_ok t.
Proof. by destruct t as [| | |[]| | | |]. Qed.
Lemma frame_type_tagged_wf (t : FrameType) :
  frame_type_ok t -> is_association_request t = false -> tagged_wf t.
Proof. by destruct t as [| | |[]| | | |]. Qed.
Lemma frame_type_tail (t : FrameType) :
  is_association_request t = false -> tagged_tail t [].
Proof. by destruct t as [| | |[]| | | |]. Qed.

(** ** The header word *)

Definition pan_id_compressed (f : Frame) : bool :=
  bool_decide (is_Some (pan_id <$> destination f))
  && bool_decide (pan_id <$> destination f = pan_id <$> source f).

Definition Frame_writes (f : Frame) : list (bit_field * Z) :=
  [(fc_frame_type, uint_val (get_tag (frame_type f) : u8)); (fc_security_enabled, 0);
   (fc_frame_pending, bool_to_Z (frame_pending f));
   (fc_acknowledge_request, bool_to_Z (acknowledge_request f));
   (fc_pan_id_compression, bool_to_Z (pan_id_compressed f)); (fc_reserved, 0);
   (fc_sequence_number_supression, bool_to_Z (bool_decide (sequence_number f = None)));
   (fc_information_elements_present, 0);
   (fc_destination_addressing_mode, address_tag (destination f));
   (fc_source_addressing_mode, address_tag (source f)); (fc_frame_version, 0)].

Lemma Frame_control_writes f : Frame_control f = FCWord (write_fields (Frame_writes f) 0).
Proof. reflexivity. Qed.

Lemma address_tag_fits a f :
  msb f - lsb f = 1 -> fits f (address_tag a).
Proof.
  intros Hf. unfold fits. rewrite Hf. by destruct a as [[? []]|].
Qed.

Lemma Frame_writes_ok f : writes_ok 16 (Frame_writes f).
Proof.
  unfold Frame_writes.
  repeat (apply Forall_cons; split; [split; [by apply (bool_decide_unpack _)|]|]);
    try apply Forall_nil_2; try done.
  - apply FrameType_tag_width.
  - apply bool_fits; by apply (bool_decide_unpack _).
  - apply bool_fits; by apply (bool_decide_unpack _).
  - apply bool_fits; by apply (bool_decide_unpack _).
  - apply bool_fits; by apply (bool_decide_unpack _).
  - by apply address_tag_fits.
  - by apply address_tag_fits.
Qed.

Lemma fc_get_control f fld v :
  (fld, v) ∈ Frame_writes f -> fc_get fld (Frame_control f) = v.
Proof.
  intros Hin. rewrite Frame_control_writes. unfold fc_get; cbn [fc_raw].
  apply (get_write 16); [apply Frame_writes_ok|reflexivity|done|done].
Qed.

Lemma Frame_control_width f : pack_wf (Frame_control f).
Proof.
  change (in_width 16 (fc_raw (Frame_control f))). rewrite Frame_control_writes.
  apply (write_fields_width 16); [apply Frame_writes_ok|done].
Qed.
(** ** The wire format of a frame *)

Definition address_encoding (compressed : bool) (a : option FullAddress) : list Z :=
  match a with
  | Some a => if compressed then tagged_encoding (address a) else tagged_encoding a
  | None => []
  end.
(** The header, followed by the bytes of the frame's payload. *)
Definition Frame_header (f : Frame) (body : list Z) : list Z :=
  encoding (Frame_control f) ++
  tagged_encoding (Uint <$> sequence_number f : option u8) ++
  address_encoding false (destination f) ++
  address_encoding (pan_id_compressed f) (source f) ++ body.
Definition Frame_encoding (f : Frame) : list Z :=
  Frame_header f (tagged_encoding (frame_type f)).

Definition frame_wf (f : Frame) : Prop :=
  frame_ok f /\ is_association_request (frame_type f) = false.

Lemma sequence_wf f : frame_ok f -> tagged_wf (Uint <$> sequence_number f : option u8).
Proof. intros [Hs _]. by destruct (sequence_number f). Qed.

Lemma pack_address_spec {T E} `{PackTargetLaws T E} c (a : option FullAddress) (t : T) :
  from_option address_ok True a -> target_ok t ->
  (match a with
   | Some a => if c : bool then pack_data (address a) t else pack_data a t
   | None => Ok t
   end) = append_bytes t (address_encoding c a).
Proof.
  intros Ha Ht. destruct a as [a|]; cbn [address_encoding from_option] in *;
    [|by rewrite append_bytes_nil].
  apply address_tagged_wf in Ha. destruct c.
  - apply (tagged_spec (address a)); [apply Ha|done].
  - by apply (tagged_spec a).
Qed.

Lemma Frame_pack_header {T E} `{PackTargetLaws T E} (f : Frame) body (t : T) :
  frame_ok f -> target_ok t ->
  (forall t : T, target_ok t -> pack_data (frame_type f) t = append_bytes t body) ->
  Frame_pack f t = append_bytes t (Frame_header f body).
Proof.
  intros Hf Ht Hbody. unfold Frame_pack.
  rewrite (pack_spec (Frame_control f)) by (done || apply Frame_control_width).
  apply append_bytes_bind; [done|]. clear t Ht. intros t Ht.
  rewrite (tagged_spec (Uint <$> sequence_number f : option u8)) by (done || by apply sequence_wf).
  destruct Hf as (_ & Hd & Hs & _).
  apply append_bytes_bind; [done|]. clear t Ht. intros t Ht.
  rewrite (pack_address_spec false) by done.
  apply append_bytes_bind; [done|]. clear t Ht. intros t Ht.
  rewrite (pack_address_spec (pan_id_compressed f)) by done.
  by apply append_bytes_bind.
Qed.

Lemma address_encoding_ok c a :
  from_option address_ok True a -> bytes_ok (address_encoding c a).
Proof.
  destruct a as [a|]; cbn [address_encoding from_option]; [|auto with rust].
  intros Ha. apply address_tagged_wf in Ha. destruct c.
  - exact (tagged_encoding_ok (address a) (proj2 Ha)).
  - exact (tagged_encoding_ok a Ha).
Qed.

Lemma Frame_header_ok f body : frame_ok f -> bytes_ok body -> bytes_ok (Frame_header f body).
Proof.
  intros Hf Hb. pose proof Hf as (_ & ? & ? & _). unfold Frame_header.
  repeat apply Forall_app_2; try done.
  - exact (encoding_ok (Frame_control f) (Frame_control_width f)).
  - exact (tagged_encoding_ok (Uint <$> sequence_number f : option u8) (sequence_wf f Hf)).
  - by apply address_encoding_ok.
  - by apply address_encoding_ok.
Qed.

Lemma Frame_encoding_ok f : frame_wf f -> bytes_ok (Frame_encoding f).
Proof.
  intros [Hf Hreq]. unfold Frame_encoding. apply (Frame_header_ok f); [exact Hf|].
  exact (tagged_encoding_ok (frame_type f) (frame_type_tagged_wf _ (proj2 (proj2 (proj2 Hf))) Hreq)).
Qed.

Lemma Frame_pack_spec {T E} `{PackTargetLaws T E} (f : Frame) (t : T) :
  frame_wf f -> target_ok t -> Frame_pack f t = append_bytes t (Frame_encoding f).
Proof.
  intros [Hf Hreq] Ht. apply Frame_pack_header; [done|done|]. intros t' Ht'.
  apply (tagged_spec (frame_type f)); [|done]. apply frame_type_tagged_wf; [apply Hf|done].
Qed.

Definition address_mode (a : option FullAddress) : AddressingMode :=
  default AM_None (get_tag <$> a).

Lemma try_from_address_tag (a : option FullAddress) :
  try_from_tag (Uint (address_tag a) : u16) = Ok (address_mode a).
Proof. by destruct a as [[? []]|]. Qed.

(** Reading back an address: with the PAN of its own, or, compressed, with the
    PAN of the destination. *)
Lemma unpack_address_encoding (a : option FullAddress) previous_pan rest :
  from_option address_ok True a ->
  (forall p, previous_pan = Some p -> pan_id <$> a = Some p \/ a = None) ->
  unpack_address (address_mode a) previous_pan
    (address_encoding (bool_decide (is_Some previous_pan)) a ++ rest) = Ok (a, rest).
Proof.
  intros Ha Hp. unfold unpack_address.
  destruct a as [a|]; [|by rewrite decide_True]. cbn [from_option] in Ha.
  apply address_tagged_wf in Ha.
  rewrite decide_False by by destruct a as [? []].
  destruct previous_pan as [p|].
  - destruct (Hp p eq_refl) as [[= <-]|]; [|done]. cbn [address_encoding].
    rewrite bool_decide_true by by eexists.
    change (address_mode (Some a)) with (get_tag (address a)).
    rewrite (unpack_tagged_encoding (address a));
      [by destruct a|apply Ha|by destruct a as [? []]].
  - cbn [address_encoding]. rewrite bool_decide_false by by intros [].
    change (address_mode (Some a)) with (get_tag a).
    by rewrite (unpack_tagged_encoding a) by (done || apply address_tail).
Qed.

Lemma source_pan_of f :
  frame_ok f ->
  let previous := if pan_id_compressed f then pan_id <$> destination f else None in
  bool_decide (is_Some previous) = pan_id_compressed f /\
  (forall p, previous = Some p -> pan_id <$> source f = Some p \/ source f = None).
Proof.
  intros _. unfold pan_id_compressed.
  destruct (destination f) as [d|]; cbn; [|done].
  destruct (bool_decide_reflect (Some (pan_id d) = pan_id <$> source f)) as [E|E]; cbn.
  - split; [done|]. intros p [= <-]. by left.
  - done.
Qed.

Ltac fc_read f fld v :=
  rewrite (fc_get_control f fld v) by (apply list_elem_of_In; cbn; tauto).

Lemma sequence_tag f :
  (bool_to_Z (bool_decide (sequence_number f = None)) =? 0)
  = get_tag (Uint <$> sequence_number f : option u8).
Proof. by destruct (sequence_number f). Qed.

(** Reading a header back leaves the payload to the frame type's reader. *)
Lemma Frame_unpack_header (f : Frame) body :
  frame_ok f ->
  Frame_unpack (Frame_header f body) =
    ('(t, data) ← unpack_data (get_tag (frame_type f) : u8) body;
     Ok ({| frame_pending := frame_pending f; acknowledge_request := acknowledge_request f;
            sequence_number := sequence_number f; destination := destination f;
            source := source f; frame_type := t |}, data)).
Proof.
  intros Hf. pose proof (source_pan_of f Hf) as [Hc Hp].
  unfold Frame_unpack, Frame_header.
  rewrite (unpack_encoding (Frame_control f)) by (done || apply Frame_control_width).
  cbn [mbind result_bind].
  fc_read f fc_frame_pending (bool_to_Z (frame_pending f)).
  fc_read f fc_acknowledge_request (bool_to_Z (acknowledge_request f)).
  fc_read f fc_sequence_number_supression
    (bool_to_Z (bool_decide (sequence_number f = None))).
  fc_read f fc_destination_addressing_mode (address_tag (destination f)).
  fc_read f fc_source_addressing_mode (address_tag (source f)).
  fc_read f fc_pan_id_compression (bool_to_Z (pan_id_compressed f)).
  fc_read f fc_information_elements_present 0.
  fc_read f fc_security_enabled 0.
  fc_read f fc_frame_type (uint_val (get_tag (frame_type f) : u8)).
  rewrite !bool_to_Z_neqb, sequence_tag, (unpack_tagged_encoding (Uint <$> _ : option u8));
    [|by apply sequence_wf|by destruct (sequence_number f)].
  destruct Hf as (_ & Hd & Hs & _).
  cbn [mbind result_bind]. rewrite !try_from_address_tag. cbn [map_err mbind result_bind].
  rewrite (unpack_address_encoding (destination f) None) by done. cbn [mbind result_bind].
  rewrite <- Hc at 2. rewrite (unpack_address_encoding (source f)) by done.
  cbn [mbind result_bind]. rewrite !Z.eqb_refl. cbn [negb].
  rewrite (Z.mod_small _ 256) by (destruct (frame_type f); done).
  replace (Uint (uint_val (get_tag (frame_type f) : u8))) with (get_tag (frame_type f) : u8)
    by by destruct (get_tag (frame_type f)).
  replace (uint_val <$> (Uint <$> sequence_number f : option u8)) with (sequence_number f)
    by by destruct (sequence_number f).
  reflexivity.
Qed.

Lemma Frame_unpack_encoding (f : Frame) :
  frame_wf f -> Frame_unpack (Frame_encoding f) = Ok (f, []).
Proof.
  intros [Hf Hreq]. unfold Frame_encoding. rewrite Frame_unpack_header by done.
  rewrite <- (app_nil_r (tagged_encoding (frame_type f))).
  rewrite (unpack_tagged_encoding (frame_type f));
    [|apply frame_type_tagged_wf; [apply Hf|done]|by apply frame_type_tail].
  by destruct f.
Qed.

(** Reading an address keeps its numbers in range, given that the PAN it may
    borrow is. *)
Lemma unpack_address_sound mode previous_pan data a rest :
  bytes_ok data -> from_option (fun p => in_width 16 (panid p)) True previous_pan ->
  unpack_address mode previous_pan data = Ok (a, rest) ->
  from_option address_ok True a /\ rest `suffix_of` data.
Proof.
  intros Hd Hp Hu. unfold unpack_address in Hu. case_decide; [by injection Hu as <- <-|].
  destruct previous_pan as [p|].
  - apply result_bind_Ok in Hu as ([x r] & U & [= <- <-]).
    apply unpack_tagged_sound in U as (Hx & _ & Hr); [|done]. split; [|done].
    by apply (address_tagged_ok (FullAddr p x)).
  - apply result_bind_Ok in Hu as ([x r] & U & [= <- <-]).
    apply unpack_tagged_sound in U as (Hx & _ & Hr); [|done]. split; [|done].
    by apply (address_tagged_ok x).
Qed.

Lemma pan_of_ok (a : option FullAddress) (c : bool) :
  from_option address_ok True a ->
  from_option (fun p => in_width 16 (panid p)) True (if c then pan_id <$> a else None).
Proof. destruct a, c; cbn; [by intros [? _]|done..]. Qed.

Lemma bytes_ok_suffix (xs ys : list Z) : xs `suffix_of` ys -> bytes_ok ys -> bytes_ok xs.
Proof. intros [k ->]. apply bytes_ok_app_r. Qed.

Lemma Frame_unpack_ok data f rest :
  bytes_ok data -> Frame_unpack data = Ok (f, rest) ->
  frame_ok f /\ rest `suffix_of` data.
Proof.
  intros Hd Hu. unfold Frame_unpack in Hu.
  apply result_bind_Ok in Hu as ([fc r0] & U0 & Hu).
  apply unpack_sound in U0 as [_ S0]; [|done].
  apply result_bind_Ok in Hu as ([sq r1] & U1 & Hu).
  apply unpack_tagged_sound in U1 as (Hsq & _ & S1); [|by eapply bytes_ok_suffix].
  apply result_bind_Ok in Hu as (m2 & _ & Hu).
  apply result_bind_Ok in Hu as ([d r2] & U2 & Hu).
  assert (r1 `suffix_of` data) as S1' by by etrans.
  apply unpack_address_sound in U2 as [Hdst S2]; [|by eapply bytes_ok_suffix|done].
  assert (r2 `suffix_of` data) as S2' by by etrans.
  apply result_bind_Ok in Hu as (m3 & _ & Hu).
  apply result_bind_Ok in Hu as ([s r3] & U3 & Hu).
  apply unpack_address_sound in U3 as [Hsrc S3];
    [|by eapply bytes_ok_suffix|by apply pan_of_ok].
  assert (r3 `suffix_of` data) as S3' by by etrans.
  destruct (negb _); [done|]. destruct (negb _); [done|].
  apply result_bind_Ok in Hu as ([t r4] & U4 & [= <- <-]).
  apply unpack_tagged_sound in U4 as (Hft & _ & S4); [|by eapply bytes_ok_suffix].
  split; [|by etrans]. repeat split; cbn; try done.
  - by destruct sq.
  - by apply frame_type_tagged_ok.
Qed.
End frames.

(** ** Packing into a [Vec], whatever the numbers *)

Definition beacon_in_range (t : FrameType) : bool :=
  match t with
  | FTBeacon b => (beacon_order b <=? 15) && (superframe_order b <=? 15) && (final_cap_slot b <=? 15)
  | _ => true
  end.

Section vec.
Context `{BitRange}.
#[local] Existing Instances Beacon_Pack FrameType_PackTagged.

(** Up to the payload nothing can fail. *)
Lemma Frame_pack_vec_header f :
  exists bs, Frame_pack f vec_new = pack_data (frame_type f) (Vec bs).
Proof.
  unfold Frame_pack. destruct (sequence_number f) as [?|];
    destruct (destination f) as [[? []]|]; destruct (source f) as [[? []]|];
    cbn -[Frame_control bool_decide pack_data FrameType_PackTagged]; try case_match;
    by eexists.
Qed.

Lemma frame_type_pack_vec t bs :
  beacon_in_range t = true -> exists bs', pack_data t (Vec bs) = Ok (Vec bs').
Proof.
  destruct t as [b|p|p|[c|[f [a|[]]]| |]|p|p|p|p]; cbn; try by eexists.
  - intros Hr. unfold Beacon_pack. rewrite !Z.gtb_ltb, !(proj2 (Z.ltb_nlt _ _)) by lia.
    by eexists.
Qed.

Lemma frame_type_pack_vec_err t bs :
  beacon_in_range t = false -> exists m, pack_data t (Vec bs) = Err (NotAllowed (Some m)).
Proof.
  destruct t as [b|p|p|c|p|p|p|p]; try done. cbn. intros Hr. unfold Beacon_pack.
  rewrite !Z.gtb_ltb. repeat case_match; try by eexists. lia.
Qed.

Lemma Frame_pack_vec_ok f :
  beacon_in_range (frame_type f) = true -> exists bs, Frame_pack f vec_new = Ok (Vec bs).
Proof.
  intros Hr. destruct (Frame_pack_vec_header f) as [bs ->]. by apply frame_type_pack_vec.
Qed.

Lemma Frame_pack_vec_err f :
  beacon_in_range (frame_type f) = false ->
  exists m, Frame_pack f vec_new = Err (NotAllowed (Some m)).
Proof.
  intros Hr. destruct (Frame_pack_vec_header f) as [bs ->]. by apply frame_type_pack_vec_err.
Qed.
End vec.

(** ** The properties of the frame codec *)

(** C1: a well-formed frame packs into a byte string that unpacks to exactly that
    frame with nothing left over: header bits, PAN-id compression, sequence-number
    suppression, addressing modes and every payload but the association request
    survive the wire. *)
Theorem frame_roundtrip `{BitRangeLaws} (f : Frame) :
  frame_wf f ->
  exists bs, Frame_pack f vec_new = Ok (Vec bs) /\ bytes_ok bs /\ Frame_unpack bs = Ok (f, []).
Proof.
  intros Hf. exists (Frame_encoding f). split; [|split].
  - by rewrite (Frame_pack_spec f vec_new).
  - by apply Frame_encoding_ok.
  - by apply Frame_unpack_encoding.
Qed.

(** C33: whatever bytes arrive, a frame the reader accepts has all its numbers in
    range (addresses, PAN ids, sequence number, beacon fields), what it leaves over
    is the tail of the input, and, association requests apart, packing the frame
    again gives a byte string that reads back as the same frame. *)
Theorem frame_unpack_sound `{BitRangeLaws} (data : list Z) (f : Frame) (rest : list Z) :
  bytes_ok data -> Frame_unpack data = Ok (f, rest) ->
  frame_ok f /\ rest `suffix_of` data /\
  (is_association_request (frame_type f) = false ->
   exists bs, Frame_pack f vec_new = Ok (Vec bs) /\ Frame_unpack bs = Ok (f, [])).
Proof.
  intros Hd Hu. destruct (Frame_unpack_ok _ _ _ Hd Hu) as [Hok Hs].
  split; [done|]. split; [done|]. intros Hreq. exists (Frame_encoding f).
  by rewrite (Frame_pack_spec f vec_new), Frame_unpack_encoding.
Qed.

(** An association-request command does not survive: the capability
    information is packed as no bytes at all, so what the frame packs to is
    refused by the reader for lack of data. *)
Theorem association_request_not_packed `{BitRangeLaws} (f : Frame) (c : CapabilityInformation) :
  frame_ok f -> frame_type f = FTCommand (AssociationRequest c) ->
  exists bs, Frame_pack f vec_new = Ok (Vec bs) /\ Frame_unpack bs = Err NotEnoughData.
Proof.
  intros Hf Hc. exists (Frame_header f [0x01]). split.
  - rewrite (Frame_pack_header f [0x01] vec_new); [done..|]. intros t Ht. rewrite Hc.
    apply (append_bytes_ret (append_bytes t [0x01])).
  - rewrite Frame_unpack_header, Hc by done. reflexivity.
Qed.

(** Packing a frame into a [Vec] fails exactly for a beacon with a field above
    15, and then with [NotAllowed]; every other frame packs. *)
Theorem frame_pack_fails_iff `{BitRange} (f : Frame) :
  if beacon_in_range (frame_type f)
  then exists bs, Frame_pack f vec_new = Ok (Vec bs)
  else exists m, Frame_pack f vec_new = Err (NotAllowed (Some m)).
Proof.
  destruct (beacon_in_range (frame_type f)) eqn:E.
  - by apply Frame_pack_vec_ok.
  - by apply Frame_pack_vec_err.
Qed.

(** ** Concrete instances *)

Definition example_pan : PANID := PanId 0x7698.
(** The association response of the repository's own test vector. *)
Definition example_frame : Frame :=
  {| frame_pending := false; acknowledge_request := true; sequence_number := Some 10;
     destination := Some (FullAddr example_pan (AddrExtended (ExtAddr 0xd0cf5efffe1c6306)));
     source := Some (FullAddr example_pan (AddrExtended (ExtAddr 0x00124b000e896815)));
     frame_type := FTCommand (AssociationResponseCommand
       {| ar_fast_association := false; ar_status := Ok (ShortAddr 0x558b) |}) |}.
Definition example_frame_bytes : list Z :=
  [0x63; 0xcc; 0x0a; 0x98; 0x76; 0x06; 0x63; 0x1c; 0xfe; 0xff; 0x5e; 0xcf; 0xd0; 0x15;
   0x68; 0x89; 0x0e; 0x00; 0x4b; 0x12; 0x00; 0x02; 0x8b; 0x55; 0x00].
Definition example_association_request : CapabilityInformation :=
  {| device_type := FFD; power_source := AC; receiver_on_when_idle := true;
     ci_fast_association := false; security_capable := false; allocate_address := true |}.
Definition example_request_frame : Frame :=
  {| frame_pending := false; acknowledge_request := true; sequence_number := Some 1;
     destination := Some (FullAddr example_pan (AddrShort (ShortAddr 0)));
     source := Some (FullAddr PANID_broadcast (AddrExtended (ExtAddr 0xd0cf5efffe1c6306)));
     frame_type := FTCommand (AssociationRequest example_association_request) |}.

Example example_frame_packs :
  @Frame_pack BitRange_reference _ _ _ example_frame vec_new = Ok (Vec example_frame_bytes).
Proof. reflexivity. Qed.

Lemma example_frame_wf : frame_wf example_frame.
Proof. repeat split; vm_compute; intros; discriminate. Defined.

Lemma frame_roundtrip_witness :
  frame_wf example_frame /\
  exists bs, @Frame_pack BitRange_reference _ _ _ example_frame vec_new = Ok (Vec bs) /\
    bytes_ok bs /\ @Frame_unpack BitRange_reference bs = Ok (example_frame, []).
Proof.
  split; [exact example_frame_wf|].
  exact (@frame_roundtrip BitRange_reference BitRange_reference_laws example_frame example_frame_wf).
Defined.

Lemma frame_unpack_sound_witness :
  @Frame_unpack BitRange_reference example_frame_bytes = Ok (example_frame, []) /\
  frame_ok example_frame /\ [] `suffix_of` example_frame_bytes /\
  (is_association_request (frame_type example_frame) = false ->
   exists bs, @Frame_pack BitRange_reference _ _ _ example_frame vec_new = Ok (Vec bs) /\
     @Frame_unpack BitRange_reference bs = Ok (example_frame, [])).
Proof.
  split; [reflexivity|].
  apply (@frame_unpack_sound BitRange_reference BitRange_reference_laws example_frame_bytes);
    [by apply (bool_decide_unpack _)|reflexivity].
Defined.

Lemma association_request_not_packed_witness :
  frame_type example_request_frame = FTCommand (AssociationRequest example_association_request) /\
  exists bs, @Frame_pack BitRange_reference _ _ _ example_request_frame vec_new = Ok (Vec bs) /\
    @Frame_unpack BitRange_reference bs = Err NotEnoughData.
Proof.
  split; [reflexivity|].
  apply (@association_request_not_packed BitRange_reference BitRange_reference_laws
           example_request_frame example_association_request);
    [repeat split; vm_compute; intros; discriminate|reflexivity].
Defined.
