(* ===== verification/Async.v ===== *)
(** * Asynchronous plumbing ([unique_key.rs], [waker_store.rs])

    [Poll], wakers, unique keys and the polling context.  A poll receives from
    its environment the waker of the calling task, the unique key that
    [UniqueKey::new] would hand out during the call, which sleeping timers have
    run out, and the order in which the hash maps iterate; the model takes all
    of these as an argument and the theorems quantify over them. *)

From Stdlib Require Import ZArith Lia.
From S2P Require Import Prelude.

(** [std::task::Poll] *)
Inductive Poll (A : Type) := Ready (a : A) | Pending.
Arguments Ready {A} a.
Arguments Pending {A}.

(** [UniqueKey] wraps the process-unique identifier of a third-party crate; only
    its equality is used.  [UniqueKey::new] is an input of the operations that
    call it. *)
Record UniqueKey := MkKey { unique_id : N }.
#[export] Instance UniqueKey_eq_dec : EqDecision UniqueKey.
Proof. solve_decision. Defined.
#[export] Instance UniqueKey_countable : Countable UniqueKey :=
  inj_countable' unique_id MkKey (fun '(MkKey _) => eq_refl).

(** A task's waker, identified by the task. *)
Record Waker := MkWaker { task : N }.
#[export] Instance Waker_eq_dec : EqDecision Waker.
Proof. solve_decision. Defined.

(** ** [WakerStore]

    Waking takes the waker out of the store: a stored waker that disappears is a
    task that was scheduled ([ws_woken] says which). *)
Record WakerStore := MkStore { storage : option Waker }.

Definition ws_new : WakerStore := MkStore None.
Definition ws_register (w : Waker) (_ : WakerStore) : WakerStore := MkStore (Some w).
Definition ws_take (s : WakerStore) : option Waker * WakerStore := (storage s, MkStore None).
Definition ws_woken (s : WakerStore) : option Waker := fst (ws_take s).
Definition ws_wake (s : WakerStore) : WakerStore := snd (ws_take s).
(** [pend]: register the context's waker; the poll then returns [Pending]. *)
Definition ws_pend {A} (w : Waker) (s : WakerStore) : Poll A * WakerStore :=
  (Pending, ws_register w s).

(** ** Timers

    [async_std::task::sleep(d)] creates a timer; whether it has run out when it
    is polled is up to the environment.  A timer is told from the others by the
    number the environment gives it. *)
Definition Duration := N.  (* nanoseconds *)
Definition from_secs (n : N) : Duration := (n * 1000000000)%N.
Definition from_millis (n : N) : Duration := (n * 1000000)%N.
#[export] Instance Duration_eq_dec : EqDecision Duration := N.eq_dec.

Record Timer := Sleep { timer_id : N; timer_duration : Duration }.
#[export] Instance Timer_eq_dec : EqDecision Timer.
Proof. solve_decision. Defined.

(** What the environment supplies to a poll. *)
Record Context := {
  cx_waker : Waker;
  cx_key : UniqueKey;
  cx_timer : N;
  cx_expired : Timer -> bool;
}.

(** The iteration order of a hash map: any permutation of its keys, possibly a
    different one each time the map is walked. *)
Record IterOrder (K : Type) := {
  iter_order :> nat -> list K -> list K;
  iter_order_perm n ks : iter_order n ks ≡ₚ ks;
}.
Definition iter_identity (K : Type) : IterOrder K :=
  {| iter_order := fun _ ks => ks; iter_order_perm := fun _ _ => reflexivity _ |}.
Definition iter_reverse (K : Type) : IterOrder K :=
  {| iter_order := fun _ ks => reverse ks;
     iter_order_perm := fun _ ks => reverse_Permutation ks |}.
