(* ===== verification/Executor.v ===== *)
(** * The executor ([src/src/async_std_executor.rs])

    [AsyncStdExecutor] keeps the join handles of the tasks it has spawned; as a future it is
    ready when no task is left. The tasks run elsewhere: which of them have ended when they are
    polled, and which are spawned meanwhile through a clone of the executor, is up to the
    environment. A handle is named by a number. *)

From Stdlib Require Import ZArith Lia.
From S2P Require Import Prelude.
From S2P Require Import Async.

Module Exec.

Record AsyncStdExecutor := { handles : list N }.

Definition new : AsyncStdExecutor := {| handles := [] |}.

(** [Spawn::spawn_obj], with the handle of the new task *)
Definition spawn_obj (handle : N) (s : AsyncStdExecutor) : AsyncStdExecutor :=
  {| handles := handles s ++ [handle] |}.

(** The loop over the handles taken out; for each of them [pending] says whether its task is still
    running and [spawned] what was spawned before it is put back. *)
Fixpoint poll_handles (pending : N -> bool) (spawned : N -> list N) (joinhandles : list N)
    (s : AsyncStdExecutor) : AsyncStdExecutor :=
  match joinhandles with
  | [] => s
  | handle :: joinhandles =>
      let s := {| handles := handles s ++ spawned handle |} in
      let s := if pending handle then spawn_obj handle s else s in
      poll_handles pending spawned joinhandles s
  end.

(** [Future::poll]; [late] is spawned before the handles that remain are counted. *)
Definition poll (pending : N -> bool) (spawned : N -> list N) (late : list N) (s : AsyncStdExecutor) :
    Poll unit * AsyncStdExecutor :=
  let joinhandles := handles s in
  let s := poll_handles pending spawned joinhandles {| handles := [] |} in
  let s := {| handles := handles s ++ late |} in
  let num_remaining := length (handles s) in
  (if decide (num_remaining = 0%nat) then Ready tt else Pending, s).

(** What was spawned and what has ended, over any history of the executor *)
Inductive exec_run : AsyncStdExecutor -> list N -> list N -> Prop :=
| run_new : exec_run new [] []
| run_spawn h s all done : exec_run s all done -> exec_run (spawn_obj h s) (all ++ [h]) done
| run_poll pending spawned late s all done :
    exec_run s all done ->
    exec_run (poll pending spawned late s).2 (all ++ (handles s ≫= spawned) ++ late)
      (done ++ filter (fun h => pending h = false) (handles s)).

Lemma poll_handles_perm pending spawned js s :
  handles (poll_handles pending spawned js s) ++ filter (fun h => pending h = false) js ≡ₚ
  handles s ++ js ++ (js ≫= spawned).
Proof.
  revert s. induction js as [|j js IH]; intros s; cbn [poll_handles]; [done|].
  rewrite filter_cons. destruct (pending j) eqn:Ej; cbn [decide].
  - rewrite IH. cbn. solve_Permutation.
  - rewrite decide_True by done. rewrite <- Permutation_middle, IH. cbn. solve_Permutation.
Qed.

(** No handle is lost and none is counted twice; the executor's future is ready exactly when every
    task that was ever spawned has been seen to end. *)
Theorem executor_waits_for_all s all done : exec_run s all done ->
  all ≡ₚ done ++ handles s /\
  forall pending spawned late, (poll pending spawned late s).1 = Ready tt <->
    late = [] /\ Forall (fun h => pending h = false /\ spawned h = []) (handles s).
Proof.
  intros Hr. split.
  - induction Hr as [|h s all done _ IH|pending spawned late s all done _ IH]; [done|..].
    + cbn. rewrite IH. solve_Permutation.
    + cbn [poll snd handles]. pose proof (poll_handles_perm pending spawned (handles s) {| handles := [] |}) as Hp.
      cbn [handles app] in Hp. rewrite IH. rewrite <- !(assoc_L (++)). apply Permutation_app_head.
      rewrite (assoc_L (++) (filter _ _)), (Permutation_app_comm (filter _ _)), Hp. solve_Permutation.
  - intros pending spawned late. unfold poll. cbn [fst].
    pose proof (poll_handles_perm pending spawned (handles s) {| handles := [] |}) as Hp.
    set (s1 := poll_handles _ _ _ _) in *. cbn [handles app] in Hp |- *. rewrite length_app.
    assert (Hfil : (length (filter (fun h => pending h = false) (handles s)) <= length (handles s))%nat)
      by apply length_filter.
    apply Permutation_length in Hp as Hl. rewrite !length_app in Hl. case_decide as Hd.
    + split; [intros _|done].
      assert (handles s1 = []) as E1 by (apply length_zero_iff_nil; lia).
      assert (late = []) as -> by (apply length_zero_iff_nil; lia).
      rewrite E1 in Hl. cbn in Hl.
      assert (handles s ≫= spawned = []) as Es by (apply length_zero_iff_nil; lia). split; [done|].
      apply Forall_forall. intros h Hh. split.
      * rewrite E1, Es, app_nil_r in Hp. cbn in Hp. rewrite <- Hp in Hh. by apply list_elem_of_filter in Hh as [? _].
      * destruct (spawned h) as [|x l] eqn:Ex; [done|]. exfalso. assert (x ∈ handles s ≫= spawned) as Hx.
        { apply list_elem_of_bind. exists h. split; [rewrite Ex; by left|done]. }
        rewrite Es in Hx. by apply not_elem_of_nil in Hx.
    + split; [done|]. intros [-> Hall]. exfalso. apply Hd.
      assert (handles s ≫= spawned = []) as Es.
      { clear -Hall. induction Hall as [|h l [_ Hh] _ IH]; [done|]. cbn. by rewrite Hh, IH. }
      assert (filter (fun h => pending h = false) (handles s) = handles s) as Ef.
      { clear -Hall. induction Hall as [|h l [Hh _] _ IH]; [done|]. by rewrite filter_cons_True, IH by done. }
      rewrite Es, Ef in Hl. cbn in *. lia.
Qed.
End Exec.
