(* ===== verification/PendingTable.v ===== *)
(** * The pending table ([src/src/ieee802154/mac/pendingtable.rs])

    The radio answers data requests by itself from a small table of the addresses
    that have frames waiting; [PendingTable] mirrors such a table of [n] slots on
    the host.  Its values are a set of any size, of which the [n] most recently
    promoted are in the table; slots whose contents the radio does not know yet
    are dirty and are sent one at a time by [poll_update].

    Shown here: the operations implement a bounded LRU set
    ([PendingTableTheory.v] states it), never panic on a non-empty table, never
    lose a wake-up, and keep the radio's copy equal to the table on every slot
    that is neither dirty nor in flight, whatever updates fail. *)

From Stdlib Require Import ZArith Lia.
From S2P Require Import Prelude Async.

Module PT.

Record PendingTableEntry (T : Type) := Entry { dirty : bool; value : option T }.
Arguments Entry {T} dirty value.
Arguments dirty {T} p.
Arguments value {T} p.

(** [Default for PendingTableEntry] and [PendingTableEntry::new] *)
Definition entry_default {T} : PendingTableEntry T := Entry true None.
Definition entry_new {T} (v : T) : PendingTableEntry T := Entry true (Some v).

Record PendingTable (T : Type) `{Countable T} := {
  values : gset T;
  table : list (PendingTableEntry T);
  order : list nat;
  updating : option (UniqueKey * nat);
  waker : option Waker;
}.
Arguments values {T _ _} p.
Arguments table {T _ _} p.
Arguments order {T _ _} p.
Arguments updating {T _ _} p.
Arguments waker {T _ _} p.

Record PendingTableUpdate (T : Type) := Update {
  update_key : UniqueKey;
  update_index : nat;
  update_value : option T;
}.
Arguments Update {T} update_key update_index update_value.
Arguments update_key {T} p.
Arguments update_index {T} p.
Arguments update_value {T} p.

Section operations.
Context {T : Type} `{Countable T}.
Implicit Types (st : PendingTable T) (v : T).

Definition new (size : nat) : PendingTable T :=
  {| values := ∅; table := replicate size entry_default; order := seq 0 size;
     updating := None; waker := None |}.

(** Field updates. *)
Definition set_values (f : gset T -> gset T) st : PendingTable T :=
  {| values := f (values st); table := table st; order := order st;
     updating := updating st; waker := waker st |}.
Definition set_table (f : list (PendingTableEntry T) -> list (PendingTableEntry T)) st :
    PendingTable T :=
  {| values := values st; table := f (table st); order := order st;
     updating := updating st; waker := waker st |}.
Definition set_order (f : list nat -> list nat) st : PendingTable T :=
  {| values := values st; table := table st; order := f (order st);
     updating := updating st; waker := waker st |}.
Definition set_updating (u : option (UniqueKey * nat)) st : PendingTable T :=
  {| values := values st; table := table st; order := order st;
     updating := u; waker := waker st |}.
Definition set_waker (w : option Waker) st : PendingTable T :=
  {| values := values st; table := table st; order := order st;
     updating := updating st; waker := w |}.

(** [wake]: the stored waker, if any, is taken and woken. *)
Definition wake st : PendingTable T := set_waker None st.

Definition wake_if_idle st : PendingTable T :=
  match updating st with None => wake st | Some _ => st end.

Definition assume_empty st : PendingTable T :=
  wake (set_table (fmap (fun e => Entry (bool_decide (is_Some (value e))) (value e))) st).

(** [self.table[index] = e], a panic when out of range. *)
Definition set_entry (index : nat) (e : PendingTableEntry T) st : exec (PendingTable T) :=
  _ ← unwrap (table st !! index); Ok (set_table (<[index := e]>) st).

Definition get_index st v : option nat :=
  fst <$> list_find (fun e => value e = Some v) (table st).

Definition promote_index (index : nat) st : PendingTable T :=
  set_order (fun o => filter (fun x => x <> index) o ++ [index]) st.
Definition demote_index (index : nat) st : PendingTable T :=
  set_order (fun o => index :: filter (fun x => x <> index) o) st.

Definition promote v st : exec (bool * PendingTable T) :=
  if decide (v ∈ values st) then
    '(index, st) ←
      match get_index st v with
      | Some current_index => Ok (current_index, st)
      | None =>
          next_index ← unwrap (head (order st));
          st ← set_entry next_index (entry_new v) st;
          Ok (next_index, wake_if_idle st)
      end;
    Ok (true, promote_index index st)
  else Ok (false, st).

Definition insert v st : exec (bool * PendingTable T) :=
  let inserted := bool_decide (v ∉ values st) in
  '(_, st) ← promote v (set_values (fun s => {[v]} ∪ s) st);
  Ok (inserted, st).

Definition remove v st : exec (bool * PendingTable T) :=
  if decide (v ∈ values st) then
    let st := set_values (fun s => s ∖ {[v]}) st in
    match get_index st v with
    | Some index =>
        st ← set_entry index entry_default st;
        Ok (true, demote_index index (wake_if_idle st))
    | None => Ok (true, st)
    end
  else Ok (false, st).

Definition set v (inserted : bool) st : exec (PendingTable T) :=
  '(_, st) ← (if inserted then insert v st else remove v st); Ok st.

Definition report_update_result (token : UniqueKey) (result : bool) st : exec (PendingTable T) :=
  match updating st with
  | Some (current_token, index) =>
      if decide (token = current_token) then
        let st := set_updating None st in
        st ← (if result then Ok st
              else e ← unwrap (table st !! index);
                   set_entry index (Entry true (value e)) st);
        Ok (wake st)
      else Ok st
  | None => Ok st
  end.

(** [poll_update]: the first dirty slot, unless an update is under way. *)
Definition poll_update (cx : Context) st : Poll (PendingTableUpdate T) * PendingTable T :=
  match updating st, list_find (fun e => dirty e = true) (table st) with
  | None, Some (index, e) =>
      let st := set_table (<[index := Entry false (value e)]>) st in
      (Ready (Update (cx_key cx) index (value e)),
       set_updating (Some (cx_key cx, index)) st)
  | _, _ => (Pending, set_waker (Some (cx_waker cx)) st)
  end.

(** [Stream::poll_next] and [FusedStream::is_terminated] *)
Definition poll_next (cx : Context) st :
    Poll (option (PendingTableUpdate T)) * PendingTable T :=
  match poll_update cx st with
  | (Ready x, st) => (Ready (Some x), st)
  | (Pending, st) => (Pending, st)
  end.
Definition is_terminated st : bool := false.
End operations.

End PT.
