(* ===== verification/PendingTableTheory.v ===== *)
(** * Theory of the pending table

    Invariant, refinement of a bounded LRU set, wake-ups, and agreement with the
    radio's copy. *)

From Stdlib Require Import ZArith Lia.
From S2P Require Import Prelude Async PendingTable.

Import PT.

(** ** The specification: a bounded LRU set

    [lru_set] are the values, [lru_recent] those that hold a slot, least recently
    promoted first. *)
Record lru (T : Type) `{Countable T} := Lru { lru_set : gset T; lru_recent : list T }.
Arguments Lru {T _ _} lru_set lru_recent.
Arguments lru_set {T _ _} l.
Arguments lru_recent {T _ _} l.

Section lru_spec.
Context {T : Type} `{Countable T} (n : nat).

Definition lru_without (v : T) (r : list T) : list T := filter (fun x => x <> v) r.

(** Promotion moves the value to the most recent end; a value without a slot takes
    a free one, or that of the least recent when all [n] are taken. *)
Definition lru_promote (v : T) (s : lru T) : lru T :=
  if decide (v ∈ lru_set s) then
    Lru (lru_set s)
        ((if decide (v ∈ lru_recent s) then lru_without v (lru_recent s)
          else drop (S (length (lru_recent s)) - n) (lru_recent s)) ++ [v])
  else s.
Definition lru_insert (v : T) (s : lru T) : lru T :=
  lru_promote v (Lru ({[v]} ∪ lru_set s) (lru_recent s)).
Definition lru_remove (v : T) (s : lru T) : lru T :=
  if decide (v ∈ lru_set s) then Lru (lru_set s ∖ {[v]}) (lru_without v (lru_recent s)) else s.
End lru_spec.

(** ** The invariant *)

Section theory.
Context {T : Type} `{Countable T}.
Implicit Types (st : PendingTable T) (v : T).

Definition slot st (i : nat) : option T := table st !! i ≫= value.
Definition occupied st (i : nat) : Prop := is_Some (slot st i).

Record pt_inv (n : nat) st : Prop := {
  inv_length : length (table st) = n;
  inv_order : order st ≡ₚ seq 0 n;
  inv_free : exists free used, order st = free ++ used /\
    Forall (fun i => slot st i = None) free /\ Forall (occupied st) used;
  inv_values i v : slot st i = Some v -> v ∈ values st;
  inv_unique i j v : slot st i = Some v -> slot st j = Some v -> i = j;
  inv_updating k i : updating st = Some (k, i) -> (i < n)%nat;
}.

Definition recent st : list T := omap (slot st) (order st).
(** The abstraction function of the refinement. *)
Definition pt_abs st : lru T := Lru (values st) (recent st).

(** *** Slots under updates *)

Lemma slot_insert st i e j :
  (i < length (table st))%nat ->
  slot (set_table (<[i := e]>) st) j = if decide (i = j) then value e else slot st j.
Proof.
  intros Hi. unfold slot; cbn. case_decide as Hc.
  - subst. by rewrite list_lookup_insert_eq.
  - by rewrite list_lookup_insert_ne.
Qed.

Lemma set_entry_Ok st i e :
  (i < length (table st))%nat -> set_entry i e st = Ok (set_table (<[i := e]>) st).
Proof.
  intros Hi. unfold set_entry. apply lookup_lt_is_Some in Hi as [x Hx]. by rewrite Hx.
Qed.

Lemma slot_lt st i v : slot st i = Some v -> (i < length (table st))%nat.
Proof.
  unfold slot. destruct (table st !! i) eqn:E; [|done]. intros _. by eapply lookup_lt_Some.
Qed.

Lemma get_index_Some st v i : get_index st v = Some i -> slot st i = Some v.
Proof.
  unfold get_index, slot. intros Hg.
  destruct (list_find _ _) as [[j e]|] eqn:E; [|done]. injection Hg as <-.
  apply list_find_Some in E as (E & ? & _). by rewrite E.
Qed.

Lemma get_index_None st v : get_index st v = None -> forall i, slot st i <> Some v.
Proof.
  unfold get_index, slot. intros Hg i Hi.
  destruct (list_find _ _) as [[j e]|] eqn:E; [done|].
  apply list_find_None in E. destruct (table st !! i) as [e|] eqn:Et; [|done].
  cbn in Hi. by eapply (proj1 (Forall_lookup _ _)) in E.
Qed.

Lemma inv_order_NoDup n st : pt_inv n st -> NoDup (order st).
Proof. intros I. rewrite (inv_order _ _ I). apply NoDup_seq. Qed.

Lemma inv_in_order n st i : pt_inv n st -> i ∈ order st <-> (i < n)%nat.
Proof. intros I. rewrite (inv_order _ _ I), elem_of_seq. lia. Qed.

Lemma elem_of_recent n st v : pt_inv n st -> v ∈ recent st <-> exists i, slot st i = Some v.
Proof.
  intros I. unfold recent. rewrite list_elem_of_omap. split.
  - intros (i & _ & Hs). by exists i.
  - intros [i Hs]. exists i. split; [|done].
    apply (inv_in_order n st i I). rewrite <- (inv_length n st I). by eapply slot_lt.
Qed.

(** *** Filtering the order is filtering the recency list *)

Lemma omap_ext_in {A B} (f g : A -> option B) (l : list A) :
  (forall x, x ∈ l -> f x = g x) -> omap f l = omap g l.
Proof.
  induction l as [|x l IH]; intros Hfg; [done|]. cbn.
  rewrite (Hfg x) by by left. rewrite IH; [done|]. intros y Hy. apply Hfg. by right.
Qed.

Lemma omap_none {A B} (f : A -> option B) (l : list A) : Forall (fun x => f x = None) l -> omap f l = [].
Proof. induction 1 as [|x l Hx _ IH]; cbn; [done|]. by rewrite Hx. Qed.

Lemma length_omap_some {A B} (f : A -> option B) (l : list A) :
  Forall (fun x => is_Some (f x)) l -> length (omap f l) = length l.
Proof. induction 1 as [|x l [y Hy] _ IH]; cbn; [done|]. rewrite Hy. cbn. by rewrite IH. Qed.

Lemma omap_filter_unique st i v (o : list nat) :
  slot st i = Some v -> (forall j, slot st j = Some v -> j = i) ->
  omap (slot st) (filter (fun x => x <> i) o) = lru_without v (omap (slot st) o).
Proof.
  intros Hi Hu. unfold lru_without. induction o as [|j o IH]; [done|].
  rewrite filter_cons. destruct (decide (j = i)) as [->|Hne].
  - rewrite decide_False by tauto. cbn. rewrite Hi, filter_cons, decide_False by tauto. done.
  - rewrite decide_True by done. cbn. destruct (slot st j) as [w|] eqn:E; [|done].
    rewrite filter_cons, decide_True; [by rewrite IH|]. intros ->. by apply Hne, Hu.
Qed.

Lemma lru_without_absent v (r : list T) : v ∉ r -> lru_without v r = r.
Proof.
  unfold lru_without. induction r as [|x r IH]; intros Hn; [done|].
  apply not_elem_of_cons in Hn as [Hx Hn]. rewrite filter_cons, decide_True by congruence.
  by rewrite IH.
Qed.

Lemma filter_absent i (o : list nat) : i ∉ o -> filter (fun x => x <> i) o = o.
Proof.
  induction o as [|x o IH]; intros Hn; [done|].
  apply not_elem_of_cons in Hn as [Hx Hn]. rewrite filter_cons, decide_True by congruence.
  by rewrite IH.
Qed.

Lemma Forall_filter_kept {A} (P Q : A -> Prop) `{!forall x, Decision (Q x)} (l : list A) :
  Forall P l -> Forall P (filter Q l).
Proof.
  rewrite !Forall_forall. intros HP x Hx. by apply list_elem_of_filter in Hx as [_ ?%HP].
Qed.

Lemma filter_remove_perm i (o : list nat) :
  NoDup o -> i ∈ o -> i :: filter (fun x => x <> i) o ≡ₚ o.
Proof.
  induction o as [|x o IH]; intros Hnd Hin; [by apply not_elem_of_nil in Hin|].
  apply NoDup_cons in Hnd as [Hx Hnd]. rewrite filter_cons.
  destruct (decide (x = i)) as [->|Hne].
  - rewrite decide_False by tauto. by rewrite filter_absent.
  - rewrite decide_True by done. apply elem_of_cons in Hin as [?|Hin]; [done|].
    rewrite Permutation_swap. f_equiv. by apply IH.
Qed.

(** *** The operations *)

Lemma recent_split n st : pt_inv n st -> exists free used,
  order st = free ++ used /\ Forall (fun i => slot st i = None) free /\
  Forall (occupied st) used /\ recent st = omap (slot st) used /\
  (length (recent st) = length used)%nat /\ (length free + length used = n)%nat.
Proof.
  intros I. destruct (inv_free n st I) as (free & used & E & Hf & Hu).
  exists free, used. repeat split; try done.
  - unfold recent. by rewrite E, omap_app, (omap_none _ free).
  - unfold recent. rewrite E, omap_app, (omap_none _ free), app_nil_l by done.
    by apply length_omap_some.
  - rewrite <- length_app, <- E, (inv_order n st I). apply length_seq.
Qed.

Lemma pt_new_inv n : pt_inv n (new n : PendingTable T).
Proof.
  assert (forall i, slot (new n) i = (None : option T)) as Hs.
  { intros i. unfold slot, new; cbn. destruct (_ !! i) eqn:E; [|done].
    by apply lookup_replicate in E as [-> _]. }
  split; cbn.
  - apply length_replicate.
  - done.
  - exists (seq 0 n), []. rewrite app_nil_r. split; [done|]. split; [|done].
    by apply Forall_true.
  - intros i v. by rewrite Hs.
  - intros i j v. by rewrite Hs.
  - done.
Qed.

Lemma new_abs n : pt_abs (new n : PendingTable T) = Lru ∅ [].
Proof.
  unfold pt_abs, recent; cbn. f_equal. apply omap_none, Forall_true. intros i.
  unfold slot; cbn. destruct (_ !! i) eqn:E; [|done]. by apply lookup_replicate in E as [-> _].
Qed.

(** Moving an occupied slot to the recent end. *)
Lemma promote_index_occupied n st i v :
  pt_inv n st -> slot st i = Some v ->
  pt_inv n (promote_index i st) /\
  recent (promote_index i st) = lru_without v (recent st) ++ [v].
Proof.
  intros I Hi. destruct (recent_split n st I) as (free & used & E & Hf & Hu & Er & _).
  assert (i ∉ free) as Hif.
  { intros Hin. eapply Forall_forall in Hin; [|exact Hf]. cbn in Hin. congruence. }
  assert (i ∈ order st) as Hin.
  { apply (inv_in_order n st i I). rewrite <- (inv_length n st I). by eapply slot_lt. }
  assert (filter (fun x => x <> i) (order st) = free ++ filter (fun x => x <> i) used) as Ef.
  { by rewrite E, filter_app, (filter_absent i free). }
  split.
  - split; try apply I; cbn.
    + rewrite <- Permutation_cons_append. rewrite filter_remove_perm; [apply I| |done].
      by eapply inv_order_NoDup.
    + exists free, (filter (fun x => x <> i) used ++ [i]).
      rewrite Ef, app_assoc. split; [done|]. split; [exact Hf|].
      apply Forall_app. split; [|by apply Forall_singleton; exists v].
      by apply Forall_filter_kept.
  - unfold recent at 1; cbn [order promote_index set_order]. rewrite omap_app.
    change (slot (promote_index i st)) with (slot st).
    rewrite (omap_filter_unique st i v (order st) Hi).
    + cbn. by rewrite Hi.
    + intros j Hj. by eapply (inv_unique n st I).
Qed.

(** The state with the slot rewritten; [wake_if_idle] does not show in it. *)
Lemma pt_inv_ext n st st' :
  table st' = table st -> order st' = order st -> values st' = values st ->
  updating st' = updating st -> pt_inv n st -> pt_inv n st'.
Proof.
  intros Et Eo Ev Eu I.
  assert (forall i, slot st' i = slot st i) as Es by (intros i; unfold slot; by rewrite Et).
  destruct (inv_free n st I) as (free & used & E & Hf & Hu).
  split.
  - rewrite Et. apply I.
  - rewrite Eo. apply I.
  - exists free, used. rewrite Eo. split; [done|]. unfold occupied.
    split; [eapply Forall_impl; [exact Hf|]|eapply Forall_impl; [exact Hu|]];
      intros i Hi; cbn in *; by rewrite Es.
  - intros i v. rewrite Es, Ev. apply I.
  - intros i j v. rewrite !Es. apply I.
  - intros k i. rewrite Eu. apply I.
Qed.

Lemma pt_abs_ext st st' :
  table st' = table st -> order st' = order st -> values st' = values st ->
  pt_abs st' = pt_abs st.
Proof.
  intros Et Eo Ev. unfold pt_abs, recent, slot. by rewrite Et, Eo, Ev.
Qed.

Lemma wake_if_idle_fields st :
  table (wake_if_idle st) = table st /\ order (wake_if_idle st) = order st /\
  values (wake_if_idle st) = values st /\ updating (wake_if_idle st) = updating st.
Proof. unfold wake_if_idle. by destruct (updating st) eqn:?. Qed.

Lemma inv_values_superset n st f :
  pt_inv n st -> values st ⊆ f (values st) -> pt_inv n (set_values f st).
Proof.
  intros I Hf. destruct I as [? ? ? Hv ? ?]. split; try done.
  intros i v Hi. apply Hf. by eapply Hv.
Qed.

Lemma occupied_insert_ne st i e (l : list nat) (P : option T -> Prop) :
  (i < length (table st))%nat -> i ∉ l -> Forall (fun j => P (slot st j)) l ->
  Forall (fun j => P (slot (set_table (<[i := e]>) st) j)) l.
Proof.
  intros Hi Hn. rewrite !Forall_forall. intros HP j Hj. rewrite slot_insert by done.
  rewrite decide_False by congruence. by apply HP.
Qed.

Lemma omap_slot_insert_ne st i e (l : list nat) :
  (i < length (table st))%nat -> i ∉ l ->
  omap (slot (set_table (<[i := e]>) st)) l = omap (slot st) l.
Proof.
  intros Hi Hn. apply omap_ext_in. intros j Hj. rewrite slot_insert by done.
  by rewrite decide_False by congruence.
Qed.

(** A value without a slot takes the first of the order. *)
Lemma place_first n st i rest v :
  pt_inv n st -> order st = i :: rest -> (forall j, slot st j <> Some v) -> v ∈ values st ->
  let st' := promote_index i (set_table (<[i := entry_new v]>) st) in
  pt_inv n st' /\
  recent st' = drop (S (length (recent st)) - n) (recent st) ++ [v].
Proof.
  intros I Eo Hv Hin st'. destruct (recent_split n st I) as (free & used & E & Hf & Hu & Er & El & En).
  pose proof (inv_order_NoDup n st I) as Hnd. rewrite Eo in Hnd. apply NoDup_cons in Hnd as [Hi Hnd].
  assert (i < length (table st))%nat as Hlt.
  { rewrite (inv_length n st I). apply (inv_in_order n st i I). rewrite Eo. by left. }
  assert (order st' = rest ++ [i]) as Eo'.
  { cbn. by rewrite Eo, filter_cons, decide_False, filter_absent by tauto. }
  assert (forall j, slot st' j = if decide (i = j) then Some v else slot st j) as Es.
  { intros j. apply (slot_insert st i (entry_new v) j Hlt). }
  assert (Forall (fun j => j <> i) rest) as Hne by (apply Forall_forall; congruence).
  (* the rest of the order is still free slots before occupied ones *)
  assert (exists free' used', rest = free' ++ used' /\ Forall (fun j => slot st j = None) free' /\
            Forall (occupied st) used' /\
            omap (slot st) used' = drop (S (length (recent st)) - n) (recent st))
    as (free' & used' & Er' & Hf' & Hu' & Ed).
  { rewrite Eo in E. destruct free as [|? free].
    - destruct used as [|? used]; [done|]. injection E as <- ->. exists [], used.
      apply Forall_cons in Hu as [[w Hw] Hu]. repeat split; [done..|].
      cbn in En. rewrite El. cbn [length]. replace (S (S (length used)) - n)%nat with 1%nat by lia.
      rewrite Er. cbn. by rewrite Hw.
    - injection E as <- ->. exists free, used. apply Forall_cons in Hf as [_ Hf].
      repeat split; [done..|]. cbn in En. rewrite Er.
      by replace (S (length (omap (slot st) used)) - n)%nat with 0%nat by (rewrite <- Er; lia). }
  subst rest. apply not_elem_of_app in Hi as [Hi1 Hi2]. split.
  - split.
    + cbn. rewrite length_insert. apply I.
    + rewrite Eo', <- Permutation_cons_append, <- Eo. apply I.
    + exists free', (used' ++ [i]). rewrite Eo', app_assoc. split; [done|]. split.
      * by apply (occupied_insert_ne st i _ _ (fun o => o = None)).
      * apply Forall_app. split; [by apply (occupied_insert_ne st i _ _ is_Some)|].
        apply Forall_singleton. unfold occupied. rewrite Es, decide_True by done. by exists v.
    + intros j w. rewrite Es. case_decide; [by intros [= <-]|apply I].
    + intros j k w. rewrite !Es. repeat case_decide; intros Ha Hb; simplify_eq; try done;
        try (by exfalso; eapply Hv); by eapply I.
    + apply I.
  - unfold recent at 1. rewrite Eo', omap_app.
    assert (omap (slot st') (free' ++ used') = omap (slot st) used') as ->.
    { rewrite omap_app. change (slot st') with (slot (set_table (<[i := entry_new v]>) st)).
      by rewrite !omap_slot_insert_ne, (omap_none _ free'). }
    rewrite Ed. cbn. by rewrite Es, decide_True by done.
Qed.

(** Removing a value clears its slot and moves it to the front of the order. *)
Lemma clear_slot n st i v :
  pt_inv n st -> slot st i = Some v ->
  let st' := demote_index i (set_table (<[i := entry_default]>)
               (set_values (fun s => s ∖ {[v]}) st)) in
  pt_inv n st' /\ recent st' = lru_without v (recent st).
Proof.
  intros I Hi st'. destruct (recent_split n st I) as (free & used & E & Hf & Hu & Er & _ & _).
  pose proof (slot_lt st i v Hi) as Hlt.
  assert (forall j, slot st' j = if decide (i = j) then None else slot st j) as Es.
  { intros j. apply (slot_insert (set_values (fun s => s ∖ {[v]}) st) i entry_default j Hlt). }
  assert (i ∉ free) as Hif.
  { intros Hin. eapply Forall_forall in Hin; [|exact Hf]. cbn in Hin. congruence. }
  assert (forall l : list nat, i ∉ filter (fun x => x <> i) l) as Hnf.
  { intros l Hl. apply list_elem_of_filter in Hl. tauto. }
  assert (order st' = (i :: free) ++ filter (fun x => x <> i) used) as Eo.
  { cbn. by rewrite E, filter_app, (filter_absent i free). }
  split.
  - split.
    + cbn. rewrite length_insert. apply I.
    + cbn. rewrite filter_remove_perm; [apply I|by eapply inv_order_NoDup|].
      apply (inv_in_order n st i I). by rewrite <- (inv_length n st I).
    + exists (i :: free), (filter (fun x => x <> i) used). split; [done|]. split.
      * constructor; [by rewrite Es, decide_True|].
        by apply (occupied_insert_ne (set_values (fun s => s ∖ {[v]}) st) i _ _ (fun o => o = None)).
      * apply (occupied_insert_ne (set_values (fun s => s ∖ {[v]}) st) i _ _ is_Some); [done..|].
        by apply Forall_filter_kept.
    + intros j w. rewrite Es. case_decide as Hd; [done|]. intros Hj. cbn.
      apply elem_of_difference. split; [by eapply I|]. apply not_elem_of_singleton. intros ->.
      apply Hd. by eapply I.
    + intros j k w. rewrite !Es. repeat case_decide; intros Ha Hb; simplify_eq; by eapply I.
    + apply I.
  - unfold recent at 1. rewrite Eo, omap_app. cbn [omap list_omap].
    rewrite Es, decide_True by done. rewrite omap_none, app_nil_l.
    + rewrite (omap_ext_in (slot st') (slot st)).
      * rewrite Er. apply omap_filter_unique; [done|]. intros j Hj. by eapply (inv_unique n st I).
      * intros j Hj. rewrite Es, decide_False; [done|]. intros ->. by eapply Hnf.
    + by apply (occupied_insert_ne (set_values (fun s => s ∖ {[v]}) st) i _ _ (fun o => o = None)).
Qed.

Lemma get_index_spec st v :
  match get_index st v with
  | Some i => slot st i = Some v
  | None => forall i, slot st i <> Some v
  end.
Proof.
  destruct (get_index st v) eqn:E; [by apply get_index_Some|by apply get_index_None].
Qed.

Lemma promote_spec n st v :
  (0 < n)%nat -> pt_inv n st -> exists st',
  promote v st = Ok (bool_decide (v ∈ values st), st') /\
  pt_inv n st' /\ pt_abs st' = lru_promote n v (pt_abs st).
Proof.
  intros Hn I. unfold promote, lru_promote. cbn [pt_abs lru_set lru_recent].
  destruct (decide (v ∈ values st)) as [Hin|Hin];
    [rewrite bool_decide_true by done|rewrite bool_decide_false by done; by exists st].
  pose proof (get_index_spec st v) as Hg. destruct (get_index st v) as [i|] eqn:Eg.
  - rewrite decide_True by (apply (elem_of_recent n st v I); by exists i).
    destruct (promote_index_occupied n st i v I Hg) as [I' R].
    eexists. split; [done|]. split; [done|]. unfold pt_abs. by rewrite R.
  - rewrite decide_False.
    2:{ intros Hr. apply (elem_of_recent n st v I) in Hr as [i Hi]. by eapply Hg. }
    destruct (order st) as [|i rest] eqn:Eo.
    { pose proof (inv_order n st I) as Hp. rewrite Eo in Hp.
      apply Permutation_nil_l, (f_equal length) in Hp. rewrite length_seq in Hp. cbn in Hp. lia. }
    assert (i < length (table st))%nat as Hlt.
    { rewrite (inv_length n st I). apply (inv_in_order n st i I). rewrite Eo. by left. }
    destruct (place_first n st i rest v I Eo Hg Hin) as [I' R].
    cbn [head unwrap]. cbn. rewrite set_entry_Ok by done. cbn.
    destruct (wake_if_idle_fields (set_table (<[i := entry_new v]>) st)) as (Ft & Fo & Fv & Fu).
    eexists. split; [done|]. split.
    + eapply pt_inv_ext; [..|exact I']; cbn; try by rewrite ?Ft, ?Fo, ?Fv, ?Fu.
    + transitivity (pt_abs (promote_index i (set_table (<[i := entry_new v]>) st))).
      * apply pt_abs_ext; by cbn; rewrite ?Ft, ?Fo, ?Fv.
      * unfold pt_abs. by rewrite R.
Qed.

Lemma insert_spec n st v :
  (0 < n)%nat -> pt_inv n st -> exists st',
  insert v st = Ok (bool_decide (v ∉ values st), st') /\
  pt_inv n st' /\ pt_abs st' = lru_insert n v (pt_abs st).
Proof.
  intros Hn I. unfold insert.
  destruct (promote_spec n (set_values (fun s => {[v]} ∪ s) st) v Hn) as (st' & E & I' & A).
  { apply inv_values_superset; [done|]. set_solver. }
  exists st'. rewrite E. by cbn.
Qed.

Lemma remove_spec n st v :
  pt_inv n st -> exists st',
  remove v st = Ok (bool_decide (v ∈ values st), st') /\
  pt_inv n st' /\ pt_abs st' = lru_remove v (pt_abs st).
Proof.
  intros I. unfold remove, lru_remove. cbn [pt_abs lru_set lru_recent].
  destruct (decide (v ∈ values st)) as [Hin|Hin];
    [rewrite bool_decide_true by done|rewrite bool_decide_false by done; by exists st].
  change (get_index (set_values (fun s => s ∖ {[v]}) st) v) with (get_index st v).
  pose proof (get_index_spec st v) as Hg. destruct (get_index st v) as [i|] eqn:Eg.
  - destruct (clear_slot n st i v I Hg) as [I' R]. cbn.
    rewrite set_entry_Ok by (cbn; by eapply slot_lt). cbn.
    destruct (wake_if_idle_fields (set_table (<[i := entry_default]>)
      (set_values (fun s => s ∖ {[v]}) st))) as (Ft & Fo & Fv & Fu).
    eexists. split; [done|]. split.
    + eapply pt_inv_ext; [..|exact I']; cbn; by rewrite ?Ft, ?Fo, ?Fv, ?Fu.
    + transitivity (pt_abs (demote_index i (set_table (<[i := entry_default]>)
        (set_values (fun s => s ∖ {[v]}) st)))).
      * apply pt_abs_ext; by cbn; rewrite ?Ft, ?Fo, ?Fv.
      * unfold pt_abs. by rewrite R.
  - eexists. split; [done|]. split.
    + destruct I as [? ? ? Hv ? ?]. split; try done. intros i w Hi. cbn.
      apply elem_of_difference. split; [by eapply Hv|]. apply not_elem_of_singleton.
      intros ->. by eapply Hg.
    + unfold pt_abs; cbn. rewrite lru_without_absent; [done|].
      intros Hr. apply (elem_of_recent n st v I) in Hr as [i Hi]. by eapply Hg.
Qed.

Definition lru_set_op (n : nat) (v : T) (b : bool) : lru T -> lru T :=
  if b then lru_insert n v else lru_remove v.

Lemma set_spec n st v b :
  (0 < n)%nat -> pt_inv n st -> exists st', set v b st = Ok st' /\
  pt_inv n st' /\ pt_abs st' = lru_set_op n v b (pt_abs st).
Proof.
  intros Hn I. unfold set. destruct b.
  - destruct (insert_spec n st v Hn I) as (st' & -> & ?). by exists st'.
  - destruct (remove_spec n st v I) as (st' & -> & ?). by exists st'.
Qed.

(** Operations that only rewrite dirty flags. *)
Lemma pt_inv_dirty n st st' :
  length (table st') = length (table st) -> (forall i, slot st' i = slot st i) ->
  order st' = order st -> values st' = values st ->
  (forall k i, updating st' = Some (k, i) -> (i < n)%nat) ->
  pt_inv n st -> pt_inv n st' /\ pt_abs st' = pt_abs st.
Proof.
  intros El Es Eo Ev Eu I. split.
  - destruct (inv_free n st I) as (free & used & E & Hf & Hu). split.
    + rewrite El. apply I.
    + rewrite Eo. apply I.
    + exists free, used. rewrite Eo. split; [done|]. unfold occupied.
      split; [eapply Forall_impl; [exact Hf|]|eapply Forall_impl; [exact Hu|]];
        intros i Hi; cbn in *; by rewrite Es.
    + intros i v. rewrite Es, Ev. apply I.
    + intros i j v. rewrite !Es. apply I.
    + exact Eu.
  - unfold pt_abs, recent. rewrite Eo, Ev. f_equal. apply omap_ext_in. intros i _. apply Es.
Qed.

Lemma slot_redirty st i e d j :
  table st !! i = Some e -> slot (set_table (<[i := Entry d (value e)]>) st) j = slot st j.
Proof.
  intros Hi. rewrite slot_insert by by eapply lookup_lt_Some. case_decide; [subst|done].
  unfold slot. by rewrite Hi.
Qed.

Lemma report_spec n st k b :
  pt_inv n st -> exists st', report_update_result k b st = Ok st' /\
  pt_inv n st' /\ pt_abs st' = pt_abs st.
Proof.
  intros I. unfold report_update_result. destruct (updating st) as [[k' i]|] eqn:Eu; [|by exists st].
  case_decide as Hk; [|by exists st]. subst k'.
  pose proof (inv_updating n st I k i Eu) as Hi.
  rewrite <- (inv_length n st I) in Hi. apply lookup_lt_is_Some in Hi as [e He].
  destruct b; cbn.
  - eexists. split; [done|]. by apply pt_inv_dirty.
  - rewrite He. cbn. rewrite set_entry_Ok by (cbn; by eapply lookup_lt_Some). cbn.
    eexists. split; [done|]. apply pt_inv_dirty; try done.
    + cbn. apply length_insert.
    + intros j. by apply (slot_redirty st).
Qed.

Lemma assume_empty_spec n st :
  pt_inv n st -> pt_inv n (assume_empty st) /\ pt_abs (assume_empty st) = pt_abs st.
Proof.
  intros I. apply pt_inv_dirty; try done.
  - cbn. apply length_fmap.
  - intros i. unfold slot; cbn. rewrite list_lookup_fmap. by destruct (table st !! i).
  - apply I.
Qed.

(** What a poll does: nothing but store the waker while an update is under way or
    the table is clean; else it takes the first dirty slot. *)
Lemma poll_update_cases cx st :
  (poll_update cx st = (Pending, set_waker (Some (cx_waker cx)) st) /\
   (is_Some (updating st) \/ Forall (fun e => dirty e = false) (table st))) \/
  (exists i e, updating st = None /\ table st !! i = Some e /\ dirty e = true /\
     poll_update cx st = (Ready (Update (cx_key cx) i (value e)),
       set_updating (Some (cx_key cx, i)) (set_table (<[i := Entry false (value e)]>) st))).
Proof.
  unfold poll_update. destruct (updating st) eqn:Eu; [left; split; [done|left; by eexists]|].
  destruct (list_find _ (table st)) as [[i e]|] eqn:Ef.
  - right. apply list_find_Some in Ef as (Hi & Hd & _). by exists i, e.
  - left. split; [done|]. right. apply list_find_None in Ef.
    eapply Forall_impl; [exact Ef|]. intros e He. by apply not_true_is_false.
Qed.

Lemma poll_spec n st cx :
  pt_inv n st -> pt_inv n (snd (poll_update cx st)) /\ pt_abs (snd (poll_update cx st)) = pt_abs st.
Proof.
  intros I. destruct (poll_update_cases cx st) as [[-> _]|(i & e & Hu & Hi & Hd & ->)]; cbn.
  - apply pt_inv_dirty; try done. apply I.
  - apply pt_inv_dirty; try done.
    + cbn. apply length_insert.
    + intros j. by apply (slot_redirty st).
    + intros k j [= <- <-]. rewrite <- (inv_length n st I). by eapply lookup_lt_Some.
Qed.
End theory.

(** ** Sequences of operations *)

Inductive pt_op (T : Type) :=
| OpPromote (v : T)
| OpInsert (v : T)
| OpRemove (v : T)
| OpSet (v : T) (inserted : bool)
| OpReport (token : UniqueKey) (result : bool)
| OpPoll (cx : Context)
| OpAssumeEmpty.
Arguments OpPromote {T} v.
Arguments OpInsert {T} v.
Arguments OpRemove {T} v.
Arguments OpSet {T} v inserted.
Arguments OpReport {T} token result.
Arguments OpPoll {T} cx.
Arguments OpAssumeEmpty {T}.

Section runs.
Context {T : Type} `{Countable T}.

(** One operation; the boolean is the operation's own result, if it has one. *)
Definition pt_step (op : pt_op T) (st : PendingTable T) : exec (option bool * PendingTable T) :=
  match op with
  | OpPromote v => '(b, st) ← promote v st; Ok (Some b, st)
  | OpInsert v => '(b, st) ← insert v st; Ok (Some b, st)
  | OpRemove v => '(b, st) ← remove v st; Ok (Some b, st)
  | OpSet v b => st ← set v b st; Ok (None, st)
  | OpReport k b => st ← report_update_result k b st; Ok (None, st)
  | OpPoll cx => Ok (None, snd (poll_update cx st))
  | OpAssumeEmpty => Ok (None, assume_empty st)
  end.

(** The same operation on the specification: reports and polls do not show. *)
Definition lru_step (n : nat) (op : pt_op T) (s : lru T) : option bool * lru T :=
  match op with
  | OpPromote v => (Some (bool_decide (v ∈ lru_set s)), lru_promote n v s)
  | OpInsert v => (Some (bool_decide (v ∉ lru_set s)), lru_insert n v s)
  | OpRemove v => (Some (bool_decide (v ∈ lru_set s)), lru_remove v s)
  | OpSet v b => (None, lru_set_op n v b s)
  | OpReport _ _ | OpPoll _ | OpAssumeEmpty => (None, s)
  end.

Fixpoint pt_run (ops : list (pt_op T)) (st : PendingTable T) :
    exec (list (option bool) * PendingTable T) :=
  match ops with
  | [] => Ok ([], st)
  | op :: ops =>
      '(b, st) ← pt_step op st; '(bs, st) ← pt_run ops st; Ok (b :: bs, st)
  end.

Fixpoint lru_run (n : nat) (ops : list (pt_op T)) (s : lru T) : list (option bool) * lru T :=
  match ops with
  | [] => ([], s)
  | op :: ops =>
      let '(b, s) := lru_step n op s in let '(bs, s) := lru_run n ops s in (b :: bs, s)
  end.

Lemma pt_step_spec n op st :
  (0 < n)%nat -> pt_inv n st -> exists b st', pt_step op st = Ok (b, st') /\
  pt_inv n st' /\ (b, pt_abs st') = lru_step n op (pt_abs st).
Proof.
  intros Hn I. destruct op as [v|v|v|v b|k b|cx|]; cbn [pt_step lru_step].
  - destruct (promote_spec n st v Hn I) as (st' & -> & I' & A). do 2 eexists. cbn. by rewrite A.
  - destruct (insert_spec n st v Hn I) as (st' & -> & I' & A). do 2 eexists. cbn. by rewrite A.
  - destruct (remove_spec n st v I) as (st' & -> & I' & A). do 2 eexists. cbn. by rewrite A.
  - destruct (set_spec n st v b Hn I) as (st' & -> & I' & A). do 2 eexists. cbn. by rewrite A.
  - destruct (report_spec n st k b I) as (st' & -> & I' & A). do 2 eexists. cbn. by rewrite A.
  - destruct (poll_spec n st cx I) as (I' & A). do 2 eexists. by rewrite A.
  - destruct (assume_empty_spec n st I) as (I' & A). do 2 eexists. by rewrite A.
Qed.

Lemma pt_run_spec n ops st :
  (0 < n)%nat -> pt_inv n st -> exists bs st', pt_run ops st = Ok (bs, st') /\
  pt_inv n st' /\ (bs, pt_abs st') = lru_run n ops (pt_abs st).
Proof.
  intros Hn. revert st. induction ops as [|op ops IH]; intros st I; cbn [pt_run lru_run].
  { by do 2 eexists. }
  destruct (pt_step_spec n op st Hn I) as (b & st' & -> & I' & <-).
  destruct (IH st' I') as (bs & st'' & E & I'' & <-). exists (b :: bs), st''.
  cbn. by rewrite E.
Qed.

(** C14: On a table of at least one slot no sequence of operations panics: it yields
    the results and reaches the contents that the same sequence has on a bounded
    LRU set, whatever polls and update reports are interleaved with it. *)
Theorem pending_table_refines_lru (n : nat) (ops : list (pt_op T)) :
  (0 < n)%nat -> exists bs st, pt_run ops (new n) = Ok (bs, st) /\
  pt_inv n st /\ (bs, pt_abs st) = lru_run n ops (Lru ∅ []).
Proof. intros Hn. rewrite <- (new_abs n). by apply pt_run_spec, pt_new_inv. Qed.
End runs.

Lemma pending_table_refines_lru_witness :
  exists bs st, pt_run (T := N) [OpInsert 1; OpInsert 2; OpPromote 1; OpInsert 3; OpRemove 2]%N
    (new 2) = Ok (bs, st) /\
  pt_inv 2 st /\ (bs, pt_abs st) = lru_run 2
    [OpInsert 1; OpInsert 2; OpPromote 1; OpInsert 3; OpRemove 2]%N (Lru ∅ []).
Proof. apply (pending_table_refines_lru (T := N) 2). lia. Defined.

(** ** Wake-ups *)

Section wakeups.
Context {T : Type} `{Countable T}.
Implicit Types (st : PendingTable T) (v : T).

(** A task is only parked on a table that has nothing for it. *)
Definition pt_parked_ok st : Prop :=
  is_Some (waker st) ->
  is_Some (updating st) \/ Forall (fun e => dirty e = false) (table st).

Lemma parked_not_ready st cx :
  pt_parked_ok st -> is_Some (waker st) -> fst (poll_update cx st) = Pending.
Proof.
  intros P Hw. destruct (poll_update_cases cx st) as [[-> _]|(i & e & Hu & Hi & Hd & _)]; [done|].
  exfalso. destruct (P Hw) as [[? ?]|Hc]; [congruence|].
  eapply Forall_lookup_1 in Hi; [|exact Hc]. cbn in Hi. congruence.
Qed.

Lemma woken_parked_ok st : waker st = None -> pt_parked_ok st.
Proof. intros E [w Hw]. congruence. Qed.

Lemma wake_if_idle_parked_ok st : pt_parked_ok (wake_if_idle st).
Proof.
  unfold wake_if_idle. destruct (updating st) eqn:E; [|by apply woken_parked_ok].
  intros _. left. by eexists.
Qed.

Lemma promote_parked_ok st v b st' :
  promote v st = Ok (b, st') -> pt_parked_ok st -> pt_parked_ok st'.
Proof.
  unfold promote. intros Hp P. case_decide; [|by injection Hp as _ <-].
  destruct (get_index st v); bind_inv; [exact P|exact (wake_if_idle_parked_ok _)].
Qed.

Lemma pt_step_parked_ok op st b st' :
  pt_step op st = Ok (b, st') -> pt_parked_ok st -> pt_parked_ok st'.
Proof.
  destruct op as [v|v|v|v c|k c|cx|]; cbn [pt_step]; intros Hs P.
  - bind_inv. by eapply promote_parked_ok.
  - unfold insert in Hs. bind_inv. by eapply promote_parked_ok.
  - unfold remove in Hs. case_decide; bind_inv; [|done].
    destruct (get_index _ _); bind_inv; [|done].
    exact (wake_if_idle_parked_ok _).
  - unfold set, insert, remove in Hs. destruct c; bind_inv; [by eapply promote_parked_ok|].
    case_decide; bind_inv; [|done]. destruct (get_index _ _); bind_inv; [|done].
    exact (wake_if_idle_parked_ok _).
  - unfold report_update_result in Hs. destruct (updating st) as [[? ?]|]; bind_inv; [|done].
    case_decide; bind_inv; [by apply woken_parked_ok|done].
  - injection Hs as _ <-.
    destruct (poll_update_cases cx st) as [[-> Hc]|(i & e & Hu & Hi & Hd & ->)];
      [by intros _|].
    intros _. left. by eexists.
  - injection Hs as _ <-. by apply woken_parked_ok.
Qed.

Lemma pt_run_parked_ok ops st bs st' :
  pt_run ops st = Ok (bs, st') -> pt_parked_ok st -> pt_parked_ok st'.
Proof.
  revert st bs. induction ops as [|op ops IH]; intros st bs Hr P; cbn [pt_run] in Hr.
  { by injection Hr as _ <-. }
  apply result_bind_Ok in Hr as ([b st1] & Hs & Hr).
  apply result_bind_Ok in Hr as ([bs' st2] & Hr & [= _ <-]).
  eapply IH; [exact Hr|]. by eapply pt_step_parked_ok.
Qed.

(** No wake-up is lost: whatever operations a table went through, as long as a
    poller's waker is still stored (nobody has woken it since it was told
    [Pending]), polling again would be [Pending] too. *)
Theorem pending_table_no_lost_wakeup (n : nat) (ops : list (pt_op T)) bs st (cx : Context) :
  pt_run ops (new n) = Ok (bs, st) -> is_Some (waker st) ->
  fst (poll_update cx st) = Pending.
Proof.
  intros Hr. apply parked_not_ready. eapply pt_run_parked_ok; [exact Hr|].
  by apply woken_parked_ok.
Qed.
End wakeups.

Definition example_context : Context :=
  {| cx_waker := MkWaker 1; cx_key := MkKey 7; cx_timer := 0; cx_expired := fun _ => false |}.

Lemma pending_table_no_lost_wakeup_witness :
  exists bs st,
  pt_run (T := N) [OpPoll example_context; OpInsert 5%N; OpPoll example_context] (new 1) =
    Ok (bs, st) /\ is_Some (waker st) /\ fst (poll_update example_context st) = Pending.
Proof.
  do 2 eexists. split; [vm_compute; reflexivity|]. split; [by eexists|].
  refine (pending_table_no_lost_wakeup 1
    [OpPoll example_context; OpInsert 5%N; OpPoll example_context] _ _ example_context _ _).
  - vm_compute. reflexivity.
  - by eexists.
Defined.

(** ** Agreement with the radio's copy

    A flight is an update the table handed out and whose result it has not been
    told: the radio has not answered yet, or answered and the answer is on its
    way. *)
Record flight (T : Type) := Flight {
  fl_key : UniqueKey;
  fl_index : nat;
  fl_value : option T;
  fl_reply : option bool;
}.
Arguments Flight {T} fl_key fl_index fl_value fl_reply.
Arguments fl_key {T} f.
Arguments fl_index {T} f.
Arguments fl_value {T} f.
Arguments fl_reply {T} f.

Section agreement.
Context {T : Type} `{Countable T}.
Implicit Types (st : PendingTable T) (v : T) (dev : nat -> option T) (fl : option (flight T)).

(** The radio's slot [i] is known to hold [x]; the slot in flight is known only
    when the radio took the update. *)
Definition known dev fl (i : nat) (x : option T) : Prop :=
  match fl with
  | Some f =>
      if decide (fl_index f = i) then fl_value f = x /\ (fl_reply f = Some true -> dev i = x)
      else dev i = x
  | None => dev i = x
  end.

Record agrees dev fl st : Prop := {
  agrees_flight : updating st = (fun f => (fl_key f, fl_index f)) <$> fl;
  agrees_clean i e : table st !! i = Some e -> dirty e = false -> known dev fl i (value e);
}.

(** [st'] changed [st] only in slots it left dirty. *)
Definition only_dirtied st st' : Prop :=
  updating st' = updating st /\
  forall i e, table st' !! i = Some e -> dirty e = false -> table st !! i = Some e.

#[export] Instance only_dirtied_preorder : PreOrder only_dirtied.
Proof.
  split; [by intros st; split; [|intros]|].
  intros a b c [E1 C1] [E2 C2]. split; [congruence|]. intros i e Hi Hd. apply C1; [by apply C2|done].
Qed.

Lemma agrees_only_dirtied dev fl st st' :
  only_dirtied st st' -> agrees dev fl st -> agrees dev fl st'.
Proof.
  intros [Eu C] A. split; [rewrite Eu; apply A|]. intros i e Hi Hd.
  apply (agrees_clean _ _ _ A); [by apply C|done].
Qed.

Lemma wake_if_idle_only_dirtied st : only_dirtied st (wake_if_idle st).
Proof.
  destruct (wake_if_idle_fields st) as (Et & _ & _ & Eu). split; [done|]. by rewrite Et.
Qed.

Lemma set_entry_only_dirtied st i e st' :
  dirty e = true -> set_entry i e st = Ok st' -> only_dirtied st st'.
Proof.
  unfold set_entry. intros Hd Hs. bind_inv. split; [done|]. cbn. intros j e' Hj Hd'.
  destruct (decide (i = j)) as [->|]; [|by rewrite list_lookup_insert_ne in Hj].
  apply list_lookup_insert_Some in Hj as [(_ & -> & _)|[? _]]; congruence.
Qed.

Lemma promote_only_dirtied st v b st' : promote v st = Ok (b, st') -> only_dirtied st st'.
Proof.
  unfold promote. intros Hp. case_decide; [|by injection Hp as _ <-].
  destruct (get_index st v); bind_inv; [by split|].
  match goal with Hs : set_entry _ _ _ = _ |- _ =>
    apply set_entry_only_dirtied in Hs; [|done]; rewrite Hs end.
  exact (wake_if_idle_only_dirtied _).
Qed.

Lemma remove_only_dirtied st v b st' : remove v st = Ok (b, st') -> only_dirtied st st'.
Proof.
  unfold remove. intros Hp. case_decide; [|by injection Hp as _ <-].
  destruct (get_index _ v); bind_inv; [|by split].
  match goal with Hs : set_entry _ _ _ = _ |- _ =>
    apply set_entry_only_dirtied in Hs; [|done] end.
  transitivity x; [done|]. exact (wake_if_idle_only_dirtied _).
Qed.

Lemma set_only_dirtied st v b st' : set v b st = Ok st' -> only_dirtied st st'.
Proof.
  unfold set, insert. intros Hs. destruct b; bind_inv.
  - eapply (promote_only_dirtied (set_values _ st)). eassumption.
  - by eapply remove_only_dirtied.
Qed.

Definition dev_set (i : nat) (x : option T) dev : nat -> option T :=
  fun j => if decide (i = j) then x else dev j.

Lemma agrees_assume_empty st : updating st = None -> agrees (fun _ => None) None (assume_empty st).
Proof.
  intros Eu. split; [done|]. intros i e Hi Hd. cbn in Hi.
  rewrite list_lookup_fmap in Hi. destruct (table st !! i) as [e'|]; [|done].
  injection Hi as <-. cbn in *. by apply bool_decide_eq_false, eq_None_not_Some in Hd.
Qed.

Lemma agrees_poll_ready dev fl st cx u st' :
  agrees dev fl st -> poll_update cx st = (Ready u, st') ->
  fl = None /\
  agrees dev (Some (Flight (update_key u) (update_index u) (update_value u) None)) st'.
Proof.
  intros [Ef A]. destruct (poll_update_cases cx st) as [[-> _]|(i & e & Hu & Hi & Hd & ->)]; [done|].
  intros [= <- <-]. rewrite Hu in Ef. destruct fl; [done|]. split; [done|]. split; [done|].
  cbn. intros j e' Hj Hd'. unfold known; cbn. destruct (decide (i = j)) as [->|Hne].
  - apply list_lookup_insert_Some in Hj as [(_ & <- & _)|[? _]]; done.
  - rewrite list_lookup_insert_ne in Hj by done. by apply (A j e').
Qed.

Lemma agrees_poll_pending dev fl st cx st' :
  agrees dev fl st -> poll_update cx st = (Pending, st') ->
  agrees dev fl st' /\ (fl = None -> forall i e, table st' !! i = Some e -> dev i = value e).
Proof.
  intros [Ef A]. destruct (poll_update_cases cx st) as [[-> Hc]|(i & e & Hu & Hi & Hd & ->)]; [|done].
  intros [= <-]. split; [by split|]. intros -> i e Hi. apply (A i e Hi).
  destruct Hc as [[? Hc]|Hc]; [by rewrite Ef in Hc|]. exact (Forall_lookup_1 _ _ _ _ Hc Hi).
Qed.

(** The radio takes the update, or refuses it and leaves anything in the slot. *)
Lemma agrees_answer dev f st ok x :
  agrees dev (Some f) st ->
  agrees (dev_set (fl_index f) (if ok : bool then fl_value f else x) dev)
    (Some (Flight (fl_key f) (fl_index f) (fl_value f) (Some ok))) st.
Proof.
  intros [Ef A]. split; [done|]. intros i e Hi Hd. specialize (A i e Hi Hd).
  unfold known, dev_set in *; cbn in *. destruct (decide (fl_index f = i)); [|done].
  destruct A as [? _]. split; [done|]. by intros [= ->].
Qed.

Lemma agrees_report dev f ok st st' :
  agrees dev (Some f) st -> fl_reply f = Some ok ->
  report_update_result (fl_key f) ok st = Ok st' -> agrees dev None st'.
Proof.
  intros [Ef A] Hr. unfold report_update_result. rewrite Ef. cbn.
  rewrite decide_True by done. intros Hs. destruct ok; cbn in Hs.
  - injection Hs as <-. split; [done|]. cbn. intros i e Hi Hd. specialize (A i e Hi Hd).
    unfold known in A. case_decide; [|done]. by apply A.
  - bind_inv. unfold set_entry in *. bind_inv. split; [done|]. cbn in *. intros i e Hi Hd.
    destruct (decide (fl_index f = i)) as [Hi'|Hne].
    + subst i. apply list_lookup_insert_Some in Hi as [(_ & <- & _)|[? _]]; done.
    + rewrite list_lookup_insert_ne in Hi by done. specialize (A i e Hi Hd).
      unfold known in A. by rewrite decide_False in A.
Qed.

Lemma report_other dev fl k ok st :
  agrees dev fl st -> (forall f, fl = Some f -> fl_key f <> k) ->
  report_update_result k ok st = Ok st.
Proof.
  intros [Ef _] Hk. unfold report_update_result. rewrite Ef. destruct fl as [f|]; [|done].
  cbn. rewrite decide_False; [done|]. intros E. by eapply Hk.
Qed.

(** The number of slots an idle radio has yet to be told. *)
Definition dirty_count st : nat := length (filter (fun e => dirty e = true) (table st)).

Lemma length_filter_insert {A} (P : A -> Prop) `{!forall x, Decision (P x)} (l : list A) i x y :
  l !! i = Some x -> P x -> ~ P y -> length (filter P l) = S (length (filter P (<[i := y]> l))).
Proof.
  revert i. induction l as [|z l IH]; intros [|i] Hi Hx Hy; try done; cbn in Hi.
  - injection Hi as ->. change (<[O := y]> (x :: l)) with (y :: l). rewrite !filter_cons.
    by rewrite decide_True, decide_False.
  - change (<[S i := y]> (z :: l)) with (z :: <[i := y]> l). rewrite !filter_cons.
    case_decide; cbn [length]; by rewrite (IH i).
Qed.

Lemma dirty_count_poll st cx u st' :
  poll_update cx st = (Ready u, st') -> dirty_count st = S (dirty_count st').
Proof.
  destruct (poll_update_cases cx st) as [[-> _]|(i & e & Hu & Hi & Hd & ->)]; [done|].
  intros [= <- <-]. unfold dirty_count. cbn. by eapply length_filter_insert.
Qed.

Lemma dirty_count_le n st : pt_inv n st -> (dirty_count st <= n)%nat.
Proof. intros I. unfold dirty_count. rewrite <- (inv_length n st I). apply length_filter. Qed.
End agreement.
