(* ===== verification/CombinedPendingTableTheory.v ===== *)
(** * Theory of the combined pending table

    The host's tables together with the radio's: a system that interleaves changes
    of the tables, polls, radio answers and reports of these answers. *)

From Stdlib Require Import ZArith Lia.
From S2P Require Import Prelude Pack Frame Async PendingTable PendingTableTheory.
From S2P Require Import CombinedPendingTable.

Abbreviation short_dest := (PANID * ShortAddress)%type.

(** ** Host and radio *)

(** [dev_short] and [dev_ext] are the radio's tables.  A flight is a request that
    has been handed out and whose result the host has not been told. *)
Record system := Sys {
  host : CPT.CombinedPendingTable;
  dev_short : nat -> option short_dest;
  dev_ext : nat -> option ExtendedAddress;
  init_fl : option (UniqueKey * option bool);
  short_fl : option (flight short_dest);
  ext_fl : option (flight ExtendedAddress);
}.

Definition with_host (h : CPT.CombinedPendingTable) (s : system) : system :=
  Sys h (dev_short s) (dev_ext s) (init_fl s) (short_fl s) (ext_fl s).

Definition initial (ds : nat -> option short_dest) (de : nat -> option ExtendedAddress) : system :=
  Sys CPT.new ds de None None None.

Definition fresh (k : UniqueKey) (s : system) : Prop :=
  (forall k' r, init_fl s = Some (k', r) -> k' <> k) /\
  (forall f, short_fl s = Some f -> fl_key f <> k) /\
  (forall f, ext_fl s = Some f -> fl_key f <> k).

(** A poll and the request it sends, if any. *)
Definition sys_poll (cx : Context) (s : system) : system :=
  match CPT.poll_action cx (host s) with
  | (Ready (CPT.Init k), h) =>
      Sys h (dev_short s) (dev_ext s) (Some (k, None)) (short_fl s) (ext_fl s)
  | (Ready (CPT.UpdateShort k i v), h) =>
      Sys h (dev_short s) (dev_ext s) (init_fl s) (Some (Flight k i v None)) (ext_fl s)
  | (Ready (CPT.UpdateExtended k i v), h) =>
      Sys h (dev_short s) (dev_ext s) (init_fl s) (short_fl s) (Some (Flight k i v None))
  | (Pending, h) => with_host h s
  end.

(** The radio's side of a request: it carries it out ([ok]) or fails and leaves
    anything ([x], [ds], [de]) where the request pointed. *)
Definition radio_init (k : UniqueKey) (ok : bool) ds de (s : system) : system :=
  Sys (host s) (if ok then fun _ => None else ds) (if ok then fun _ => None else de)
    (Some (k, Some ok)) (short_fl s) (ext_fl s).
Definition answered {T} (f : flight T) (ok : bool) : flight T :=
  Flight (fl_key f) (fl_index f) (fl_value f) (Some ok).
Definition radio_short (f : flight short_dest) (ok : bool) x (s : system) : system :=
  Sys (host s) (dev_set (fl_index f) (if ok then fl_value f else x) (dev_short s)) (dev_ext s)
    (init_fl s) (Some (answered f ok)) (ext_fl s).
Definition radio_ext (f : flight ExtendedAddress) (ok : bool) x (s : system) : system :=
  Sys (host s) (dev_short s) (dev_set (fl_index f) (if ok then fl_value f else x) (dev_ext s))
    (init_fl s) (short_fl s) (Some (answered f ok)).

(** The host hears of an answer. *)
Definition hear_init (k : UniqueKey) (ok : bool) (s : system) : system :=
  Sys (CPT.report_init_result k ok (host s)) (dev_short s) (dev_ext s) None
    (short_fl s) (ext_fl s).

Inductive step : system -> system -> Prop :=
| step_set a inserted s h :
    CPT.set a inserted (host s) = Ok h -> step s (with_host h s)
| step_poll cx s : fresh (cx_key cx) s -> step s (sys_poll cx s)
| step_radio_init k ok ds de s :
    init_fl s = Some (k, None) -> step s (radio_init k ok ds de s)
| step_radio_short f ok x s :
    short_fl s = Some f -> fl_reply f = None -> step s (radio_short f ok x s)
| step_radio_ext f ok x s :
    ext_fl s = Some f -> fl_reply f = None -> step s (radio_ext f ok x s)
| step_hear_init k ok s :
    init_fl s = Some (k, Some ok) -> step s (hear_init k ok s)
| step_hear_short f ok s h :
    short_fl s = Some f -> fl_reply f = Some ok ->
    CPT.report_update_result (fl_key f) ok (host s) = Ok h ->
    step s (Sys h (dev_short s) (dev_ext s) (init_fl s) None (ext_fl s))
| step_hear_ext f ok s h :
    ext_fl s = Some f -> fl_reply f = Some ok ->
    CPT.report_update_result (fl_key f) ok (host s) = Ok h ->
    step s (Sys h (dev_short s) (dev_ext s) (init_fl s) (short_fl s) None)
| step_hear_stray k ok s h :
    fresh k s -> CPT.report_update_result k ok (host s) = Ok h -> step s (with_host h s).

Definition reachable (s : system) : Prop := exists ds de, rtc step (initial ds de) s.

(** ** The invariant *)

Record sys_inv (s : system) : Prop := {
  si_short : pt_inv 8 (CPT.short (host s));
  si_ext : pt_inv 8 (CPT.extended (host s));
  si_initializing : CPT.initializing (host s) = fst <$> init_fl s;
  si_initialized : CPT.is_initialized (host s) = true -> init_fl s = None;
  si_short_flight :
    PT.updating (CPT.short (host s)) = (fun f => (fl_key f, fl_index f)) <$> short_fl s;
  si_ext_flight :
    PT.updating (CPT.extended (host s)) = (fun f => (fl_key f, fl_index f)) <$> ext_fl s;
  si_no_flight : CPT.is_initialized (host s) = false -> short_fl s = None /\ ext_fl s = None;
  si_keys f g : short_fl s = Some f -> ext_fl s = Some g -> fl_key f <> fl_key g;
  si_short_agrees : CPT.is_initialized (host s) = true ->
    agrees (dev_short s) (short_fl s) (CPT.short (host s));
  si_ext_agrees : CPT.is_initialized (host s) = true ->
    agrees (dev_ext s) (ext_fl s) (CPT.extended (host s));
  si_init_ok k : init_fl s = Some (k, Some true) ->
    dev_short s = (fun _ => None) /\ dev_ext s = (fun _ => None);
}.

Lemma initial_inv ds de : sys_inv (initial ds de).
Proof. split; try done; apply pt_new_inv. Qed.

(** Changing a table: the rest of the system does not see it. *)
Lemma set_inv s a b h : CPT.set a b (host s) = Ok h -> sys_inv s -> sys_inv (with_host h s).
Proof.
  intros Hs I. destruct a as [[p [x|x]]|]; cbn in Hs; bind_inv; cbn.
  - destruct (set_spec 8 (CPT.short (host s)) (p, x) b ltac:(lia) (si_short s I))
      as (st & E & I' & _).
    match goal with H : PT.set _ _ _ = Ok _ |- _ => rewrite E in H; injection H as <- end.
    pose proof (set_only_dirtied _ _ _ _ E) as D.
    destruct I; split; cbn; try done.
    + by rewrite (proj1 D).
    + intros Hi. by eapply agrees_only_dirtied; [exact D|auto].
  - destruct (set_spec 8 (CPT.extended (host s)) x b ltac:(lia) (si_ext s I))
      as (st & E & I' & _).
    match goal with H : PT.set _ _ _ = Ok _ |- _ => rewrite E in H; injection H as <- end.
    pose proof (set_only_dirtied _ _ _ _ E) as D.
    destruct I; split; cbn; try done.
    + by rewrite (proj1 D).
    + intros Hi. by eapply agrees_only_dirtied; [exact D|auto].
  - by destruct I; split.
Qed.

Lemma set_total s a b : sys_inv s -> exists h, CPT.set a b (host s) = Ok h.
Proof.
  intros I. destruct a as [[p [x|x]]|]; cbn; [| |by eexists].
  - destruct (set_spec 8 (CPT.short (host s)) (p, x) b ltac:(lia) (si_short s I)) as (st & -> & _).
    by eexists.
  - destruct (set_spec 8 (CPT.extended (host s)) x b ltac:(lia) (si_ext s I)) as (st & -> & _).
    by eexists.
Qed.

Lemma sys_poll_inv s cx : fresh (cx_key cx) s -> sys_inv s -> sys_inv (sys_poll cx s).
Proof.
  intros (Fi & Fs & Fe) I. unfold sys_poll, CPT.poll_action.
  destruct (CPT.initializing (host s)) as [k|] eqn:Ei.
  { cbn. destruct I; split; cbn; done. }
  pose proof (si_initializing s I) as Hi. rewrite Ei in Hi.
  destruct (init_fl s) as [[? ?]|] eqn:Efi; [done|].
  destruct (CPT.is_initialized (host s)) eqn:Einit; cbn.
  2:{ destruct I; split; cbn; try done; congruence. }
  pose proof (poll_spec 8 _ cx (si_short s I)) as [Is As].
  pose proof (poll_spec 8 _ cx (si_ext s I)) as [Ie Ae].
  pose proof (si_short_agrees s I Einit) as Gs. pose proof (si_ext_agrees s I Einit) as Ge.
  destruct (PT.poll_update cx (CPT.short (host s))) as [[u|] st] eqn:Ep.
  - destruct (agrees_poll_ready _ _ _ _ _ _ Gs Ep) as [Enf Gs'].
    assert (PT.update_key u = cx_key cx) as Eu.
    { destruct (poll_update_cases cx (CPT.short (host s))) as [[E _]|(i & e & _ & _ & _ & E)];
        rewrite E in Ep; [done|by injection Ep as <- _]. }
    destruct I; split; cbn; try done; try congruence; try by rewrite Einit.
    + apply Gs'.
    + intros f g [= <-] Hg. cbn. rewrite Eu. apply not_eq_sym. by apply Fe.
  - destruct (agrees_poll_pending _ _ _ _ _ Gs Ep) as [Gs' _].
    destruct (PT.poll_update cx (CPT.extended (host s))) as [[u|] st'] eqn:Ep'.
    + destruct (agrees_poll_ready _ _ _ _ _ _ Ge Ep') as [Enf Ge'].
      assert (PT.update_key u = cx_key cx) as Eu.
      { destruct (poll_update_cases cx (CPT.extended (host s))) as [[E _]|(i & e & _ & _ & _ & E)];
          rewrite E in Ep'; [done|by injection Ep' as <- _]. }
      destruct I; split; cbn; try done; try congruence; try by rewrite Einit.
      * apply Gs'.
      * apply Ge'.
      * intros f g Hf [= <-]. cbn. rewrite Eu. by apply Fs.
    + destruct (agrees_poll_pending _ _ _ _ _ Ge Ep') as [Ge' _].
      destruct I; split; cbn; try done; try by rewrite Einit.
      * apply Gs'.
      * apply Ge'.
Qed.

Lemma radio_inv_init k ok ds de s :
  init_fl s = Some (k, None) -> sys_inv s -> sys_inv (radio_init k ok ds de s).
Proof.
  intros Hf I. unfold radio_init.
  destruct I as [? ? Ei Einit ? ? Hnf ? ? ? ?]. rewrite Hf in Ei, Einit.
  split; cbn; try done; try (intros E; by specialize (Einit E)).
  intros k' [= _ ->]. done.
Qed.

Lemma flight_initialized s :
  sys_inv s -> is_Some (short_fl s) \/ is_Some (ext_fl s) ->
  CPT.is_initialized (host s) = true /\ init_fl s = None.
Proof.
  intros I Hf. destruct (CPT.is_initialized (host s)) eqn:E.
  - split; [done|]. by apply I.
  - destruct (si_no_flight s I E) as [E1 E2]. rewrite E1, E2 in Hf. by destruct Hf as [[]|[]].
Qed.

Lemma radio_inv_short f ok x s :
  short_fl s = Some f -> sys_inv s -> sys_inv (radio_short f ok x s).
Proof.
  intros Hf I. destruct (flight_initialized s I) as [Ei En]; [left; by eexists|].
  pose proof (si_short_agrees s I Ei) as A. rewrite Hf in A.
  apply (agrees_answer _ _ _ ok x) in A.
  destruct I as [? ? ? ? Eu ? ? Hk ? ? ?]. rewrite Hf in Eu. split; cbn; try done; try congruence.
  intros f' g [= <-] Hg. exact (Hk f g Hf Hg).
Qed.

Lemma radio_inv_ext f ok x s :
  ext_fl s = Some f -> sys_inv s -> sys_inv (radio_ext f ok x s).
Proof.
  intros Hf I. destruct (flight_initialized s I) as [Ei En]; [right; by eexists|].
  pose proof (si_ext_agrees s I Ei) as A. rewrite Hf in A.
  apply (agrees_answer _ _ _ ok x) in A.
  destruct I as [? ? ? ? ? Eu ? Hk ? ? ?]. rewrite Hf in Eu. split; cbn; try done; try congruence.
  intros f' g Hf' [= <-]. exact (Hk f' f Hf' Hf).
Qed.

Lemma hear_inv_init k ok s :
  init_fl s = Some (k, Some ok) -> sys_inv s -> sys_inv (hear_init k ok s).
Proof.
  intros Hf I. unfold hear_init, CPT.report_init_result.
  rewrite decide_True by by rewrite (si_initializing s I), Hf.
  assert (CPT.is_initialized (host s) = false) as Ei.
  { destruct (CPT.is_initialized (host s)) eqn:E; [|done]. by rewrite (si_initialized s I E) in Hf. }
  destruct (si_no_flight s I Ei) as [Es Ee].
  pose proof (si_short_flight s I) as Us. pose proof (si_ext_flight s I) as Ue.
  rewrite Es in Us. rewrite Ee in Ue.
  destruct ok.
  - destruct (si_init_ok s I k Hf) as [Ds De].
    destruct I. split; cbn; try done; try (by rewrite Es); try (by rewrite Ee).
    + by apply assume_empty_spec.
    + by apply assume_empty_spec.
    + intros _. rewrite Es, Ds. by apply agrees_assume_empty.
    + intros _. rewrite Ee, De. by apply agrees_assume_empty.
  - destruct I; split; cbn; done.
Qed.

Lemma hear_inv_short f ok s h :
  short_fl s = Some f -> fl_reply f = Some ok ->
  CPT.report_update_result (fl_key f) ok (host s) = Ok h -> sys_inv s ->
  sys_inv (Sys h (dev_short s) (dev_ext s) (init_fl s) None (ext_fl s)).
Proof.
  intros Hf Hr Hh I. destruct (flight_initialized s I) as [Ei En]; [left; by eexists|].
  pose proof (si_short_agrees s I Ei) as A. rewrite Hf in A.
  destruct (report_spec 8 _ (fl_key f) ok (si_short s I)) as (st & E & I' & _).
  pose proof (agrees_report _ _ _ _ _ A Hr E) as A'.
  unfold CPT.report_update_result in Hh. rewrite E in Hh. cbn in Hh.
  rewrite (report_other (dev_ext s) (ext_fl s)) in Hh.
  - cbn in Hh. injection Hh as <-. destruct I; split; cbn; try done; try congruence.
    + apply A'.
  - by apply I.
  - intros g Hg. apply not_eq_sym. by eapply si_keys.
Qed.

Lemma hear_inv_ext f ok s h :
  ext_fl s = Some f -> fl_reply f = Some ok ->
  CPT.report_update_result (fl_key f) ok (host s) = Ok h -> sys_inv s ->
  sys_inv (Sys h (dev_short s) (dev_ext s) (init_fl s) (short_fl s) None).
Proof.
  intros Hf Hr Hh I. destruct (flight_initialized s I) as [Ei En]; [right; by eexists|].
  pose proof (si_ext_agrees s I Ei) as A. rewrite Hf in A.
  destruct (report_spec 8 _ (fl_key f) ok (si_ext s I)) as (st & E & I' & _).
  pose proof (agrees_report _ _ _ _ _ A Hr E) as A'.
  unfold CPT.report_update_result in Hh.
  rewrite (report_other (dev_short s) (short_fl s)) in Hh.
  - cbn in Hh. rewrite E in Hh. cbn in Hh. injection Hh as <-.
    destruct I; split; cbn; try done; try congruence.
    + apply A'.
  - by apply I.
  - intros g Hg. by eapply si_keys.
Qed.

(** An answer to a request that is not in flight changes nothing. *)
Lemma hear_stray k ok s :
  fresh k s -> sys_inv s -> CPT.report_update_result k ok (host s) = Ok (host s).
Proof.
  intros (_ & Fs & Fe) I. unfold CPT.report_update_result.
  assert (PT.report_update_result k ok (CPT.short (host s)) = Ok (CPT.short (host s))) as ->.
  { unfold PT.report_update_result. rewrite (si_short_flight s I).
    destruct (short_fl s) as [f|] eqn:E; [|done]. cbn. rewrite decide_False; [done|].
    intros ->. by eapply Fs. }
  assert (PT.report_update_result k ok (CPT.extended (host s)) = Ok (CPT.extended (host s))) as ->.
  { unfold PT.report_update_result. rewrite (si_ext_flight s I).
    destruct (ext_fl s) as [f|] eqn:E; [|done]. cbn. rewrite decide_False; [done|].
    intros ->. by eapply Fe. }
  cbn. by destruct (host s).
Qed.

Lemma sys_step_inv s s' : step s s' -> sys_inv s -> sys_inv s'.
Proof.
  destruct 1 as [a b s h Hs|cx s Hf|k ok ds de s Hf|f ok x s Hf Hr|f ok x s Hf Hr|k ok s Hf
    |f ok s h Hf Hr Hh|f ok s h Hf Hr Hh|k ok s h Hf Hh]; intros I.
  - by eapply set_inv.
  - by apply sys_poll_inv.
  - by apply radio_inv_init.
  - by apply radio_inv_short.
  - by apply radio_inv_ext.
  - by apply hear_inv_init.
  - by eapply hear_inv_short.
  - by eapply hear_inv_ext.
  - rewrite hear_stray in Hh by done. injection Hh as <-. by destruct I; split.
Qed.

Lemma reachable_inv s : reachable s -> sys_inv s.
Proof.
  intros (ds & de & Hr). pose proof (initial_inv ds de) as I. revert I.
  induction Hr as [s|s s' s'' Hs _ IH]; [done|]. intros I. apply IH. by eapply sys_step_inv.
Qed.

(** ** When nothing is left to do *)

Lemma poll_pending_inv s cx h :
  sys_inv s -> CPT.poll_action cx (host s) = (Pending, h) -> init_fl s = None ->
  CPT.is_initialized (host s) = true /\
  (exists st, PT.poll_update cx (CPT.short (host s)) = (Pending, st)) /\
  (exists st, PT.poll_update cx (CPT.extended (host s)) = (Pending, st)).
Proof.
  intros I. unfold CPT.poll_action. pose proof (si_initializing s I) as Hi.
  intros Hp Hn. rewrite Hn in Hi. rewrite Hi in Hp.
  destruct (CPT.is_initialized (host s)); cbn in Hp; [|done]. split; [done|].
  destruct (PT.poll_update cx (CPT.short (host s))) as [[?|] st]; [done|].
  destruct (PT.poll_update cx (CPT.extended (host s))) as [[?|] st']; [done|]. eauto.
Qed.

Lemma settled_slots {T} `{Countable T} n dev (st : PT.PendingTable T) cx st' v :
  pt_inv n st -> agrees dev None st -> PT.poll_update cx st = (Pending, st') ->
  (exists i, (i < n)%nat /\ dev i = Some v) <-> v ∈ recent st.
Proof.
  intros I A Hp. destruct (agrees_poll_pending _ _ _ _ _ A Hp) as [_ Hd].
  assert (PT.table st' = PT.table st) as Et.
  { destruct (poll_update_cases cx st) as [[E _]|(i & e & _ & _ & _ & E)];
      rewrite E in Hp; [by injection Hp as <-|done]. }
  rewrite (elem_of_recent n st v I). unfold slot. split.
  - intros (i & Hi & Hv). exists i. rewrite <- (inv_length n st I) in Hi.
    apply lookup_lt_is_Some in Hi as [e He]. rewrite He. cbn.
    rewrite <- (Hd eq_refl i e); [done|]. by rewrite Et.
  - intros (i & Hi). exists i. split.
    + rewrite <- (inv_length n st I). by eapply slot_lt.
    + destruct (PT.table st !! i) as [e|] eqn:He; [|done]. cbn in Hi.
      rewrite (Hd eq_refl i e); [done|]. by rewrite Et.
Qed.

(** C8: Whatever changes, polls, radio answers (refusals included), late reports and
    initialisations happened in whatever order: once a poll has nothing to do and
    no request is in flight, the radio's tables hold exactly the most recent
    addresses of the host's. *)
Theorem quiescent_radio_agrees (s : system) (cx : Context) h :
  reachable s -> CPT.poll_action cx (host s) = (Pending, h) ->
  init_fl s = None -> short_fl s = None -> ext_fl s = None ->
  (forall v, (exists i, (i < 8)%nat /\ dev_short s i = Some v) <->
     v ∈ recent (CPT.short (host s))) /\
  (forall v, (exists i, (i < 8)%nat /\ dev_ext s i = Some v) <->
     v ∈ recent (CPT.extended (host s))).
Proof.
  intros Hr Hp Hi Hs He. pose proof (reachable_inv s Hr) as I.
  destruct (poll_pending_inv s cx h I Hp Hi) as (Hin & [st Ps] & [st' Pe]).
  pose proof (si_short_agrees s I Hin) as As. rewrite Hs in As.
  pose proof (si_ext_agrees s I Hin) as Ae. rewrite He in Ae.
  split; intros v; [eapply settled_slots; [apply I|exact As|exact Ps]|
    eapply settled_slots; [apply I|exact Ae|exact Pe]].
Qed.

(** ** Reaching it *)

(** One exchange with a radio that takes every request: poll, carry out, report;
    [None] when there was nothing to do. *)
Definition exchange (cx : Context) (s : system) : exec (option system) :=
  match CPT.poll_action cx (host s) with
  | (Pending, _) => Ok None
  | (Ready (CPT.Init k), _) => Ok (Some (hear_init k true (radio_init k true (dev_short s) (dev_ext s) (sys_poll cx s))))
  | (Ready (CPT.UpdateShort k i v), _) =>
      let s := radio_short (Flight k i v None) true None (sys_poll cx s) in
      h ← CPT.report_update_result k true (host s);
      Ok (Some (Sys h (dev_short s) (dev_ext s) (init_fl s) None (ext_fl s)))
  | (Ready (CPT.UpdateExtended k i v), _) =>
      let s := radio_ext (Flight k i v None) true None (sys_poll cx s) in
      h ← CPT.report_update_result k true (host s);
      Ok (Some (Sys h (dev_short s) (dev_ext s) (init_fl s) (short_fl s) None))
  end.

(** Exchanges until there is nothing to do, at most as many as given contexts. *)
Fixpoint settle (cxs : list Context) (s : system) : exec system :=
  match cxs with
  | [] => Err OutOfFuel
  | cx :: cxs =>
      r ← exchange cx s;
      match r with Some s => settle cxs s | None => Ok s end
  end.

Definition idle (s : system) : Prop := init_fl s = None /\ short_fl s = None /\ ext_fl s = None.

(** What is left to send. *)
Definition todo (s : system) : nat :=
  if CPT.is_initialized (host s)
  then dirty_count (CPT.short (host s)) + dirty_count (CPT.extended (host s)) else 17.

Lemma report_true_dirty_count {T} `{Countable T} k (st st' : PT.PendingTable T) :
  PT.report_update_result k true st = Ok st' -> dirty_count st' = dirty_count st.
Proof.
  unfold PT.report_update_result. destruct (PT.updating st) as [[? ?]|]; [|by intros [= <-]].
  case_decide; cbn; by intros [= <-].
Qed.

Lemma report_true_dirty_counts k h h' :
  CPT.report_update_result k true h = Ok h' ->
  dirty_count (CPT.short h') = dirty_count (CPT.short h) /\
  dirty_count (CPT.extended h') = dirty_count (CPT.extended h) /\
  CPT.is_initialized h' = CPT.is_initialized h.
Proof.
  unfold CPT.report_update_result. intros Hr. bind_inv. cbn.
  split; [|split; [|done]]; by eapply report_true_dirty_count.
Qed.

Lemma report_total s k b :
  sys_inv s -> exists h, CPT.report_update_result k b (host s) = Ok h.
Proof.
  intros I. unfold CPT.report_update_result.
  destruct (report_spec 8 _ k b (si_short s I)) as (st & -> & _).
  destruct (report_spec 8 _ k b (si_ext s I)) as (st' & -> & _). by eexists.
Qed.

(** An exchange is a few steps of the system and leaves less to do. *)
Lemma exchange_spec cx s :
  sys_inv s -> idle s ->
  (exists h, CPT.poll_action cx (host s) = (Pending, h) /\ exchange cx s = Ok None) \/
  (exists s', exchange cx s = Ok (Some s') /\ rtc step s s' /\ idle s' /\ (todo s' < todo s)%nat).
Proof.
  intros I (Hi & Hs & He).
  assert (fresh (cx_key cx) s) as Hf by (unfold fresh; rewrite Hi, Hs, He; done).
  pose proof (step_poll cx s Hf) as Sp. pose proof (sys_step_inv _ _ Sp I) as Ip.
  pose proof (si_initializing s I) as Hin. rewrite Hi in Hin.
  unfold exchange. unfold sys_poll in *. unfold CPT.poll_action in *. rewrite Hin in *.
  destruct (CPT.is_initialized (host s)) eqn:Einit; cbn [negb] in *.
  2:{ right. eexists. split; [reflexivity|]. split.
      - eapply rtc_l; [exact Sp|]. eapply rtc_l; [by eapply step_radio_init|].
        eapply rtc_l; [by eapply step_hear_init|]. reflexivity.
      - split; [by split|]. unfold todo at 2. rewrite Einit. unfold todo. cbn.
        unfold CPT.report_init_result. cbn. rewrite decide_True by done. cbn.
        apply Nat.lt_succ_r. change 16%nat with (8 + 8)%nat. apply Nat.add_le_mono.
        + exact (dirty_count_le 8 _ (proj1 (assume_empty_spec 8 _ (si_short s I)))).
        + exact (dirty_count_le 8 _ (proj1 (assume_empty_spec 8 _ (si_ext s I)))). }
  destruct (PT.poll_update cx (CPT.short (host s))) as [[u|] st] eqn:Ep.
  - right. destruct (report_total _ (PT.update_key u) true Ip) as [h Hh].
    cbn in Hh |- *. rewrite Hh. cbn. eexists. split; [reflexivity|]. split.
    + eapply rtc_l; [exact Sp|].
      eapply rtc_l; [by eapply (step_radio_short _ true None)|].
      eapply rtc_l; [by eapply step_hear_short|]. cbn. reflexivity.
    + split; [by split|]. apply report_true_dirty_counts in Hh as (D1 & D2 & D3).
      apply dirty_count_poll in Ep. unfold todo. cbn. rewrite Einit, D3, D1, D2. cbn.
      rewrite Einit. lia.
  - destruct (PT.poll_update cx (CPT.extended (host s))) as [[u|] st'] eqn:Ep'.
    2:{ left. eexists. split; reflexivity. }
    right. destruct (report_total _ (PT.update_key u) true Ip) as [h Hh].
    cbn in Hh |- *. rewrite Hh. cbn. eexists. split; [reflexivity|]. split.
    + eapply rtc_l; [exact Sp|].
      eapply rtc_l; [by eapply (step_radio_ext _ true None)|].
      eapply rtc_l; [by eapply step_hear_ext|]. cbn. reflexivity.
    + split; [by split|]. apply report_true_dirty_counts in Hh as (D1 & D2 & D3).
      apply dirty_count_poll in Ep'. unfold todo. cbn. rewrite Einit, D3, D1, D2. cbn.
      rewrite Einit.
      assert (dirty_count st = dirty_count (CPT.short (host s))) as ->; [|lia].
      destruct (poll_update_cases cx (CPT.short (host s))) as [[E _]|(i & e & _ & _ & _ & E)];
        rewrite E in Ep; [by injection Ep as <-|done].
Qed.

Lemma settle_spec cxs s :
  sys_inv s -> idle s -> (todo s < length cxs)%nat ->
  exists s', settle cxs s = Ok s' /\ rtc step s s' /\ idle s' /\
    (exists cx h, CPT.poll_action cx (host s') = (Pending, h)).
Proof.
  revert s. induction cxs as [|cx cxs IH]; intros s I Hidle Hl; cbn in Hl; [lia|].
  cbn [settle].
  destruct (exchange_spec cx s I Hidle) as [(h & Hp & ->)|(s' & -> & Hr & Hi & Ht)].
  - exists s. split; [done|]. split; [reflexivity|]. split; [done|]. eauto.
  - destruct (IH s') as (s'' & E & Hr' & ?); [|done|lia|].
    { clear - Hr I. induction Hr as [|s s1 s' Hs _ IHr]; [done|]. apply IHr. by eapply sys_step_inv. }
    exists s''. split; [done|]. split; [by transitivity s'|done].
Qed.

Lemma todo_le s : sys_inv s -> (todo s <= 17)%nat.
Proof.
  intros I. unfold todo. destruct (CPT.is_initialized (host s)); [|lia].
  pose proof (dirty_count_le 8 _ (si_short s I)). pose proof (dirty_count_le 8 _ (si_ext s I)). lia.
Qed.

(** C34: Left undisturbed with a radio that takes its requests, the tables settle: from
    every reachable state with nothing in flight at most seventeen exchanges (one
    initialisation and sixteen slots) leave nothing to do, and then the radio's
    tables hold exactly the most recent addresses of the host's. *)
Theorem tables_settle (s : system) (cxs : list Context) :
  reachable s -> idle s -> (17 < length cxs)%nat ->
  exists s', settle cxs s = Ok s' /\ reachable s' /\ idle s' /\
    (exists cx h, CPT.poll_action cx (host s') = (Pending, h)) /\
    (forall v, (exists i, (i < 8)%nat /\ dev_short s' i = Some v) <->
       v ∈ recent (CPT.short (host s'))) /\
    (forall v, (exists i, (i < 8)%nat /\ dev_ext s' i = Some v) <->
       v ∈ recent (CPT.extended (host s'))).
Proof.
  intros Hr Hidle Hl. pose proof (reachable_inv s Hr) as I. pose proof (todo_le s I) as Ht.
  destruct (settle_spec cxs s I Hidle ltac:(lia)) as (s' & E & Hs & Hi & cx & h & Hp).
  assert (reachable s') as Hr'.
  { destruct Hr as (ds & de & Hr). exists ds, de. by transitivity s. }
  exists s'. split; [done|]. split; [done|]. split; [done|]. split; [by eauto|].
  pose proof (reachable_inv s' Hr') as I'. destruct Hi as (Hi & Hs' & He).
  destruct (poll_pending_inv s' cx h I' Hp Hi) as (Hin & [st Ps] & [st' Pe]).
  pose proof (si_short_agrees s' I' Hin) as As. rewrite Hs' in As.
  pose proof (si_ext_agrees s' I' Hin) as Ae. rewrite He in Ae.
  split; intros v; [eapply settled_slots; [apply I'|exact As|exact Ps]|
    eapply settled_slots; [apply I'|exact Ae|exact Pe]].
Qed.

(** ** Wake-ups *)

Inductive cpt_op :=
| CSet (a : option FullAddress) (inserted : bool)
| CPoll (cx : Context)
| CReportInit (key : UniqueKey) (result : bool)
| CReportUpdate (key : UniqueKey) (success : bool).

Definition cpt_op_step (op : cpt_op) (c : CPT.CombinedPendingTable) :
    exec CPT.CombinedPendingTable :=
  match op with
  | CSet a b => CPT.set a b c
  | CPoll cx => Ok (snd (CPT.poll_action cx c))
  | CReportInit k b => Ok (CPT.report_init_result k b c)
  | CReportUpdate k b => CPT.report_update_result k b c
  end.

Fixpoint cpt_run (ops : list cpt_op) (c : CPT.CombinedPendingTable) :
    exec CPT.CombinedPendingTable :=
  match ops with
  | [] => Ok c
  | op :: ops => c ← cpt_op_step op c; cpt_run ops c
  end.

(** Every store the last poll left its waker in still has it. *)
Definition cpt_parked (c : CPT.CombinedPendingTable) : Prop :=
  is_Some (storage (CPT.waker c)) \/
  is_Some (PT.waker (CPT.short c)) /\ is_Some (PT.waker (CPT.extended c)).

Record cpt_ok (c : CPT.CombinedPendingTable) : Prop := {
  co_short : pt_inv 8 (CPT.short c);
  co_ext : pt_inv 8 (CPT.extended c);
  co_store : is_Some (storage (CPT.waker c)) -> is_Some (CPT.initializing c);
  co_init : CPT.is_initialized c = true -> CPT.initializing c = None;
  co_wakers : is_Some (PT.waker (CPT.short c)) \/ is_Some (PT.waker (CPT.extended c)) ->
    CPT.is_initialized c = true;
  co_short_parked : pt_parked_ok (CPT.short c);
  co_ext_parked : pt_parked_ok (CPT.extended c);
}.

Lemma set_waker_kept {T} `{Countable T} v b (st st' : PT.PendingTable T) :
  PT.set v b st = Ok st' -> is_Some (PT.waker st') -> is_Some (PT.waker st).
Proof.
  assert (forall st : PT.PendingTable T, is_Some (PT.waker (PT.wake_if_idle st)) -> is_Some (PT.waker st))
    as Hw.
  { intros s. unfold PT.wake_if_idle. destruct (PT.updating s); [done|]. by intros []. }
  unfold PT.set, PT.insert, PT.remove, PT.promote. intros Hs.
  destruct b; bind_inv; case_decide; bind_inv; try done;
    destruct (PT.get_index _ _); bind_inv; try done; unfold PT.set_entry in *; bind_inv;
    intros Hi; exact (Hw _ Hi).
Qed.

Lemma set_step_total {T} `{Countable T} v b (st : PT.PendingTable T) :
  pt_inv 8 st -> pt_parked_ok st ->
  exists st', PT.set v b st = Ok st' /\ pt_inv 8 st' /\ pt_parked_ok st' /\
    (is_Some (PT.waker st') -> is_Some (PT.waker st)).
Proof.
  intros I P. destruct (set_spec 8 st v b ltac:(lia) I) as (st' & E & I' & _).
  exists st'. split; [done|]. split; [done|]. split; [|by eapply set_waker_kept].
  eapply (pt_step_parked_ok (OpSet v b)); [cbn; by rewrite E|done].
Qed.

Lemma report_step_total {T} `{Countable T} k b (st : PT.PendingTable T) :
  pt_inv 8 st -> pt_parked_ok st ->
  exists st', PT.report_update_result k b st = Ok st' /\ pt_inv 8 st' /\ pt_parked_ok st' /\
    (is_Some (PT.waker st') -> is_Some (PT.waker st)).
Proof.
  intros I P. destruct (report_spec 8 st k b I) as (st' & E & I' & _).
  exists st'. split; [done|]. split; [done|]. split.
  - eapply (pt_step_parked_ok (OpReport k b)); [cbn; by rewrite E|done].
  - unfold PT.report_update_result in E. destruct (PT.updating st) as [[? ?]|]; bind_inv; [|done].
    case_decide; bind_inv; [by intros []|done].
Qed.

Lemma poll_parked_ok {T} `{Countable T} cx (st : PT.PendingTable T) :
  pt_inv 8 st -> pt_parked_ok st ->
  pt_inv 8 (snd (PT.poll_update cx st)) /\ pt_parked_ok (snd (PT.poll_update cx st)).
Proof.
  intros I P. split; [by apply poll_spec|].
  eapply (pt_step_parked_ok (OpPoll cx)); [cbn; done|done].
Qed.

Lemma cpt_set_ok a b c : cpt_ok c -> exists c', CPT.set a b c = Ok c' /\ cpt_ok c'.
Proof.
  intros I. destruct a as [[p [x|x]]|]; cbn.
  - destruct (set_step_total (p, x) b _ (co_short c I) (co_short_parked c I))
      as (st & -> & I' & P' & W). eexists. split; [done|]. destruct I as [? ? ? ? Hw ? ?].
    split; cbn; try done. intros [?|?]; apply Hw; auto.
  - destruct (set_step_total x b _ (co_ext c I) (co_ext_parked c I))
      as (st & -> & I' & P' & W). eexists. split; [done|]. destruct I as [? ? ? ? Hw ? ?].
    split; cbn; try done. intros [?|?]; apply Hw; auto.
  - eexists. split; [done|]. by destruct I; split.
Qed.

Lemma cpt_report_update_ok k b c :
  cpt_ok c -> exists c', CPT.report_update_result k b c = Ok c' /\ cpt_ok c'.
Proof.
  intros I. unfold CPT.report_update_result.
  destruct (report_step_total k b _ (co_short c I) (co_short_parked c I))
    as (st & -> & I1 & P1 & W1).
  destruct (report_step_total k b _ (co_ext c I) (co_ext_parked c I))
    as (st' & -> & I2 & P2 & W2).
  eexists. split; [done|]. destruct I as [? ? ? ? Hw ? ?].
  split; cbn; try done. intros [?|?]; apply Hw; auto.
Qed.

Lemma cpt_report_init_ok k b c : cpt_ok c -> cpt_ok (CPT.report_init_result k b c).
Proof.
  intros I. unfold CPT.report_init_result. case_decide as Hk; [|done].
  destruct I as [I1 I2 Hs Hi Hw P1 P2].
  assert (CPT.is_initialized c = false) as Ei.
  { destruct (CPT.is_initialized c); [|done]. by rewrite Hi in Hk. }
  destruct b; split; cbn; try done; try (by intros []); try (by apply assume_empty_spec).
  intros Hp. by rewrite <- Ei, Hw.
Qed.

Lemma cpt_poll_ok cx c : cpt_ok c -> cpt_ok (snd (CPT.poll_action cx c)).
Proof.
  intros I. unfold CPT.poll_action.
  destruct (CPT.initializing c) as [k|] eqn:Ei; cbn.
  { destruct I; split; cbn; try done; intros _; rewrite Ei; by eexists. }
  destruct (CPT.is_initialized c) eqn:Einit; cbn.
  2:{ destruct I; split; cbn; try done; congruence. }
  destruct (poll_parked_ok cx _ (co_short c I) (co_short_parked c I)) as [I1 P1].
  destruct (poll_parked_ok cx _ (co_ext c I) (co_ext_parked c I)) as [I2 P2].
  destruct (PT.poll_update cx (CPT.short c)) as [[u|] st]; cbn;
    [|destruct (PT.poll_update cx (CPT.extended c)) as [[u|] st']; cbn];
    destruct I; split; cbn; try done; by rewrite ?Ei.
Qed.

Lemma cpt_run_ok ops c : cpt_ok c -> exists c', cpt_run ops c = Ok c' /\ cpt_ok c'.
Proof.
  revert c. induction ops as [|op ops IH]; intros c I; cbn [cpt_run]; [by eexists|].
  assert (exists c', cpt_op_step op c = Ok c' /\ cpt_ok c') as (c' & -> & I').
  { destruct op; cbn [cpt_op_step].
    - by apply cpt_set_ok.
    - eexists. split; [done|]. by apply cpt_poll_ok.
    - eexists. split; [done|]. by apply cpt_report_init_ok.
    - by apply cpt_report_update_ok. }
  by apply IH.
Qed.

Lemma cpt_parked_pending cx c :
  cpt_ok c -> cpt_parked c -> fst (CPT.poll_action cx c) = Pending.
Proof.
  intros I [Hp|[Hp1 Hp2]]; unfold CPT.poll_action.
  - apply (co_store c I) in Hp as [k ->]. done.
  - pose proof (co_wakers c I (or_introl Hp1)) as Ei. rewrite (co_init c I Ei), Ei. cbn.
    pose proof (parked_not_ready _ cx (co_short_parked c I) Hp1) as E1.
    pose proof (parked_not_ready _ cx (co_ext_parked c I) Hp2) as E2.
    destruct (PT.poll_update cx (CPT.short c)) as [? ?]; cbn in E1; subst.
    destruct (PT.poll_update cx (CPT.extended c)) as [? ?]; cbn in E2; subst. done.
Qed.

(** No sequence of operations makes the combined table panic, and none loses a
    wake-up: while no one has woken the waker that the last poll left, in the
    table's own store or in both of the tables, a poll would still be [Pending]. *)
Theorem combined_table_no_lost_wakeup (ops : list cpt_op) :
  exists c, cpt_run ops CPT.new = Ok c /\
  (cpt_parked c -> forall cx, fst (CPT.poll_action cx c) = Pending).
Proof.
  destruct (cpt_run_ok ops CPT.new) as (c & E & I).
  { split; cbn; try done; try apply pt_new_inv; try (by apply woken_parked_ok); try (by intros []);
      by intros [[]|[]]. }
  exists c. split; [done|]. intros Hp cx. by apply cpt_parked_pending.
Qed.

(** ** Witnesses *)

Lemma idle_initial ds de : idle (initial ds de).
Proof. done. Qed.

Lemma tables_settle_witness :
  exists s', settle (replicate 18 example_context) (initial (fun _ => None) (fun _ => None)) = Ok s' /\
  reachable s' /\ idle s' /\
  (exists cx h, CPT.poll_action cx (host s') = (Pending, h)) /\
  (forall v, (exists i, (i < 8)%nat /\ dev_short s' i = Some v) <->
     v ∈ recent (CPT.short (host s'))) /\
  (forall v, (exists i, (i < 8)%nat /\ dev_ext s' i = Some v) <->
     v ∈ recent (CPT.extended (host s'))).
Proof.
  apply (tables_settle (initial (fun _ => None) (fun _ => None)) (replicate 18 example_context)).
  - exists (fun _ => None), (fun _ => None). reflexivity.
  - apply idle_initial.
  - cbn. lia.
Defined.

Lemma settle_steps cxs s s' :
  sys_inv s -> idle s -> settle cxs s = Ok s' -> rtc step s s'.
Proof.
  revert s. induction cxs as [|cx cxs IH]; intros s I Hidle; cbn [settle]; [done|].
  destruct (exchange_spec cx s I Hidle) as [(h & Hp & ->)|(s1 & -> & Hr & Hi & Ht)].
  - by intros [= <-].
  - intros E. transitivity s1; [done|]. apply IH; [|done..].
    clear - Hr I. induction Hr as [|s s1 s' Hs _ IHr]; [done|]. apply IHr. by eapply sys_step_inv.
Qed.

(** A short address is inserted and the tables settle. *)
Definition blank : system := initial (fun _ => None) (fun _ => None).
Definition example_address : option FullAddress :=
  Some (FullAddr (PanId 0x1234) (AddrShort (ShortAddr 0x5678))).
Definition inserted_example : system :=
  match CPT.set example_address true (host blank) with
  | Ok h => with_host h blank
  | Err _ => blank
  end.
Definition settled_example : system :=
  match settle (replicate 18 example_context) inserted_example with
  | Ok s => s
  | Err _ => blank
  end.

Lemma settled_example_reachable : reachable settled_example.
Proof.
  exists (fun _ => None), (fun _ => None).
  assert (sys_inv blank) as I by apply initial_inv.
  destruct (set_total blank example_address true I) as [h Hh].
  assert (inserted_example = with_host h blank) as E.
  { unfold inserted_example. by rewrite Hh. }
  apply (rtc_l step _ (with_host h blank)); [exact (step_set _ _ _ _ Hh)|]. rewrite <- E.
  apply settle_steps with (cxs := replicate 18 example_context); [|done|].
  - rewrite E. by eapply set_inv.
  - unfold settled_example.
    destruct (settle (replicate 18 example_context) inserted_example) eqn:Es; [done|].
    exfalso. vm_compute in Es. discriminate.
Qed.

Lemma quiescent_radio_agrees_witness :
  exists s cx h,
  reachable s /\ CPT.poll_action cx (host s) = (Pending, h) /\
  init_fl s = None /\ short_fl s = None /\ ext_fl s = None /\
  recent (CPT.short (host s)) = [(PanId 0x1234, ShortAddr 0x5678)] /\
  (forall v, (exists i, (i < 8)%nat /\ dev_short s i = Some v) <->
     v ∈ recent (CPT.short (host s))).
Proof.
  exists settled_example, example_context.
  exists (snd (CPT.poll_action example_context (host settled_example))).
  assert (CPT.poll_action example_context (host settled_example) =
    (Pending, snd (CPT.poll_action example_context (host settled_example)))) as Hp
    by (vm_compute; reflexivity).
  split; [exact settled_example_reachable|]. split; [exact Hp|].
  split; [vm_compute; reflexivity|]. split; [vm_compute; reflexivity|].
  split; [vm_compute; reflexivity|]. split; [vm_compute; reflexivity|].
  refine (proj1 (quiescent_radio_agrees settled_example example_context _ _ Hp _ _ _)).
  - exact settled_example_reachable.
  - vm_compute. reflexivity.
  - vm_compute. reflexivity.
  - vm_compute. reflexivity.
Defined.
