(* ===== verification/Pib.v ===== *)
(** * The PAN information base ([ieee802154/pib.rs], [services/error.rs])

    The attributes of the MAC, their untyped values, reading and writing them by
    name, sequence numbers and the device's own addresses.

    Shown here: what a successful write reads back, that it changes nothing else
    and that a failed one changes nothing; when a write fails; that sequence
    numbers repeat after 256 frames and not before; and what [reset] keeps. *)

From Stdlib Require Import ZArith Lia.
From S2P Require Import Prelude Pack Frame Async.

#[local] Open Scope Z_scope.

(** [services/error.rs] *)
Inductive Error :=
| ChannelAccessFailure | FrameTooLong | ReadOnly | UnsupportedAttribute | InvalidIndex
| InvalidParameter | InvalidHandle | NoShortAddress | TransactionExpired | NoAck.
#[export] Instance Error_eq_dec : EqDecision Error.
Proof. solve_decision. Defined.

Inductive PIBProperty :=
| MacExtendedAddress | MacAssociatedPanCoord | MacAssociationPermit | MacBeaconPayload
| MacBsn | MacDsn | MacPanId | MacShortAddress | MacBeaconAutoRespond
| MacTransactionPersistenceTime | MacMaxFrameRetries | PhyCurrentChannel | PhyMaxTxPower
| PhyTxPower.
#[export] Instance PIBProperty_eq_dec : EqDecision PIBProperty.
Proof. solve_decision. Defined.

Inductive PIBValue :=
| VBool (b : bool)
| VU8 (x : Z)
| VU16 (x : Z)
| VBlob (bs : list Z)
| VDuration (d : Duration)
| VShortAddress (a : ShortAddress)
| VExtendedAddress (a : ExtendedAddress)
| VPANID (p : PANID)
| VPair (a b : PIBValue)
| VEmpty.
#[export] Instance PIBValue_eq_dec : EqDecision PIBValue.
Proof. solve_decision. Defined.

(** ** Conversions: [From<A> for PIBValue], [TryInto<A> for PIBValue]

    [u8] and [u16] are told apart by the wrapper of their width. *)
Class IntoPIB (A : Type) := into_pib : A -> PIBValue.
Class TryFromPIB (A : Type) := try_from_pib : PIBValue -> result unit A.

#[export] Instance bool_IntoPIB : IntoPIB bool := VBool.
#[export] Instance u8_IntoPIB : IntoPIB u8 := fun x => VU8 (uint_val x).
#[export] Instance u16_IntoPIB : IntoPIB u16 := fun x => VU16 (uint_val x).
#[export] Instance blob_IntoPIB : IntoPIB (list Z) := VBlob.
#[export] Instance Duration_IntoPIB : IntoPIB Duration := VDuration.
#[export] Instance ShortAddress_IntoPIB : IntoPIB ShortAddress := VShortAddress.
#[export] Instance ExtendedAddress_IntoPIB : IntoPIB ExtendedAddress := VExtendedAddress.
#[export] Instance PANID_IntoPIB : IntoPIB PANID := VPANID.
#[export] Instance pair_IntoPIB {A B} `{IntoPIB A, IntoPIB B} : IntoPIB (A * B) :=
  fun p => VPair (into_pib (fst p)) (into_pib (snd p)).
#[export] Instance option_IntoPIB {A} `{IntoPIB A} : IntoPIB (option A) :=
  fun o => match o with Some x => into_pib x | None => VEmpty end.

#[export] Instance bool_TryFromPIB : TryFromPIB bool :=
  fun v => match v with VBool x => Ok x | _ => Err tt end.
#[export] Instance u8_TryFromPIB : TryFromPIB u8 :=
  fun v => match v with VU8 x => Ok (Uint x) | _ => Err tt end.
#[export] Instance u16_TryFromPIB : TryFromPIB u16 :=
  fun v => match v with VU16 x => Ok (Uint x) | _ => Err tt end.
#[export] Instance blob_TryFromPIB : TryFromPIB (list Z) :=
  fun v => match v with VBlob x => Ok x | _ => Err tt end.
#[export] Instance Duration_TryFromPIB : TryFromPIB Duration :=
  fun v => match v with VDuration x => Ok x | _ => Err tt end.
#[export] Instance ShortAddress_TryFromPIB : TryFromPIB ShortAddress :=
  fun v => match v with VShortAddress x => Ok x | _ => Err tt end.
#[export] Instance ExtendedAddress_TryFromPIB : TryFromPIB ExtendedAddress :=
  fun v => match v with VExtendedAddress x => Ok x | _ => Err tt end.
#[export] Instance PANID_TryFromPIB : TryFromPIB PANID :=
  fun v => match v with VPANID x => Ok x | _ => Err tt end.
#[export] Instance pair_TryFromPIB {A B} `{TryFromPIB A, TryFromPIB B} : TryFromPIB (A * B) :=
  fun v => match v with
           | VPair a b => a ← try_from_pib a; b ← try_from_pib b; Ok (a, b)
           | _ => Err tt
           end.

(** What the two conversions promise each other. *)
Class PIBConversion (A : Type) `{IntoPIB A, TryFromPIB A} := {
  try_from_into a : try_from_pib (into_pib a) = Ok a;
  into_try_from v a : try_from_pib v = Ok a -> into_pib a = v;
}.

(** ** The attributes *)

Record PIB := MkPIB {
  mac_extended_address : ExtendedAddress;
  mac_associated_pan_coord : option (ExtendedAddress * ShortAddress);
  mac_association_permit : bool;
  mac_beacon_payload : list Z;
  mac_bsn : u8;
  mac_dsn : u8;
  mac_pan_id : PANID;
  mac_short_address : ShortAddress;
  mac_beacon_auto_respond : bool;
  mac_transaction_persistence_time : Duration;
  mac_max_frame_retries : u16;
  phy_current_channel : u16;
  phy_max_tx_power : u16;
  phy_tx_power : u16;
}.

(** Field updates. *)
Definition set_mac_associated_pan_coord (x : option (ExtendedAddress * ShortAddress)) (p : PIB) : PIB :=
  let '(MkPIB a _ c d e f g h i j k l m n) := p in MkPIB a x c d e f g h i j k l m n.
Definition set_mac_association_permit (x : bool) (p : PIB) : PIB :=
  let '(MkPIB a b _ d e f g h i j k l m n) := p in MkPIB a b x d e f g h i j k l m n.
Definition set_mac_beacon_payload (x : list Z) (p : PIB) : PIB :=
  let '(MkPIB a b c _ e f g h i j k l m n) := p in MkPIB a b c x e f g h i j k l m n.
Definition set_mac_bsn (x : u8) (p : PIB) : PIB :=
  let '(MkPIB a b c d _ f g h i j k l m n) := p in MkPIB a b c d x f g h i j k l m n.
Definition set_mac_dsn (x : u8) (p : PIB) : PIB :=
  let '(MkPIB a b c d e _ g h i j k l m n) := p in MkPIB a b c d e x g h i j k l m n.
Definition set_mac_pan_id (x : PANID) (p : PIB) : PIB :=
  let '(MkPIB a b c d e f _ h i j k l m n) := p in MkPIB a b c d e f x h i j k l m n.
Definition set_mac_short_address (x : ShortAddress) (p : PIB) : PIB :=
  let '(MkPIB a b c d e f g _ i j k l m n) := p in MkPIB a b c d e f g x i j k l m n.
Definition set_mac_beacon_auto_respond (x : bool) (p : PIB) : PIB :=
  let '(MkPIB a b c d e f g h _ j k l m n) := p in MkPIB a b c d e f g h x j k l m n.
Definition set_mac_transaction_persistence_time (x : Duration) (p : PIB) : PIB :=
  let '(MkPIB a b c d e f g h i _ k l m n) := p in MkPIB a b c d e f g h i x k l m n.
Definition set_phy_current_channel (x : u16) (p : PIB) : PIB :=
  let '(MkPIB a b c d e f g h i j k _ m n) := p in MkPIB a b c d e f g h i j k x m n.
Definition set_phy_max_tx_power (x : u16) (p : PIB) : PIB :=
  let '(MkPIB a b c d e f g h i j k l _ n) := p in MkPIB a b c d e f g h i j k l x n.
Definition set_phy_tx_power (x : u16) (p : PIB) : PIB :=
  let '(MkPIB a b c d e f g h i j k l m _) := p in MkPIB a b c d e f g h i j k l m x.

(** [PIB::new]; [random()] (a third-party crate) gives the two sequence numbers. *)
Definition PIB_new (random_bsn random_dsn : u8) (extended_address : ExtendedAddress)
    (current_channel max_tx_power : u16) : PIB := {|
  mac_extended_address := extended_address;
  mac_associated_pan_coord := None;
  mac_association_permit := false;
  mac_beacon_payload := [];
  mac_bsn := random_bsn;
  mac_dsn := random_dsn;
  mac_pan_id := PanId 0xFFFF;
  mac_short_address := ShortAddr 0xFFFF;
  mac_beacon_auto_respond := false;
  mac_transaction_persistence_time := from_secs (5 * 60);
  mac_max_frame_retries := Uint 3;
  phy_current_channel := current_channel;
  phy_max_tx_power := max_tx_power;
  phy_tx_power := max_tx_power;
|}.

Definition PIB_reset (random_bsn random_dsn : u8) (p : PIB) : PIB :=
  PIB_new random_bsn random_dsn (mac_extended_address p) (phy_current_channel p) (phy_tx_power p).

Definition PIB_get (p : PIB) (param : PIBProperty) : result unit PIBValue :=
  match param with
  | MacExtendedAddress => Ok (into_pib (mac_extended_address p))
  | MacAssociatedPanCoord => Ok (into_pib (mac_associated_pan_coord p))
  | MacAssociationPermit => Ok (into_pib (mac_association_permit p))
  | MacBeaconPayload => Ok (into_pib (mac_beacon_payload p))
  | MacBsn => Ok (into_pib (mac_bsn p))
  | MacDsn => Ok (into_pib (mac_dsn p))
  | MacPanId => Ok (into_pib (mac_pan_id p))
  | MacShortAddress => Ok (into_pib (mac_short_address p))
  | MacBeaconAutoRespond => Ok (into_pib (mac_beacon_auto_respond p))
  | MacTransactionPersistenceTime => Ok (into_pib (mac_transaction_persistence_time p))
  | PhyCurrentChannel => Ok (into_pib (phy_current_channel p))
  | PhyMaxTxPower => Ok (into_pib (phy_max_tx_power p))
  | PhyTxPower => Ok (into_pib (phy_tx_power p))
  | _ => Err tt
  end.

(** [self.field = value.try_into().or(Err(InvalidParameter))?; Ok(())] *)
Definition assign {A} `{TryFromPIB A} (set_field : A -> PIB -> PIB) (v : PIBValue) (p : PIB) :
    result Error unit * PIB :=
  match try_from_pib v with
  | Ok x => (Ok tt, set_field x p)
  | Err _ => (Err InvalidParameter, p)
  end.

Definition PIB_set (param : PIBProperty) (v : PIBValue) (p : PIB) : result Error unit * PIB :=
  match param with
  | MacExtendedAddress => (Err ReadOnly, p)
  | MacAssociationPermit => assign set_mac_association_permit v p
  | MacBeaconPayload => assign set_mac_beacon_payload v p
  | MacBsn => assign set_mac_bsn v p
  | MacDsn => assign set_mac_dsn v p
  | MacPanId => assign set_mac_pan_id v p
  | MacShortAddress => assign set_mac_short_address v p
  | MacBeaconAutoRespond => assign set_mac_beacon_auto_respond v p
  | MacTransactionPersistenceTime => assign set_mac_transaction_persistence_time v p
  | PhyCurrentChannel => assign set_phy_current_channel v p
  | PhyMaxTxPower => assign set_phy_max_tx_power v p
  | PhyTxPower => assign set_phy_tx_power v p
  | _ => (Err UnsupportedAttribute, p)
  end.

(** [u8::wrapping_add(1)] *)
Definition wrapping_succ (x : u8) : u8 := Uint ((uint_val x + 1) mod 2 ^ 8).

Definition next_beacon_sequence_nr (p : PIB) : u8 * PIB :=
  (mac_bsn p, set_mac_bsn (wrapping_succ (mac_bsn p)) p).
Definition next_data_sequence_nr (p : PIB) : u8 * PIB :=
  (mac_dsn p, set_mac_dsn (wrapping_succ (mac_dsn p)) p).

Definition get_full_short_address (p : PIB) : FullAddress :=
  FullAddr (mac_pan_id p)
    (if decide (mac_short_address p <> ShortAddress_none_assigned)
     then AddrShort (mac_short_address p) else AddrExtended (mac_extended_address p)).
Definition get_full_extended_address (p : PIB) : FullAddress :=
  FullAddr (mac_pan_id p) (AddrExtended (mac_extended_address p)).

(** ** Conversions round-trip *)

Ltac solve_conversion :=
  split; [by intros []|intros v a; destruct v; cbn; (done || by intros [= <-])].

#[export] Instance bool_conversion : PIBConversion bool.
Proof. solve_conversion. Qed.
#[export] Instance u8_conversion : PIBConversion u8.
Proof. solve_conversion. Qed.
#[export] Instance u16_conversion : PIBConversion u16.
Proof. solve_conversion. Qed.
#[export] Instance blob_conversion : PIBConversion (list Z).
Proof. solve_conversion. Qed.
#[export] Instance Duration_conversion : PIBConversion Duration.
Proof. solve_conversion. Qed.
#[export] Instance ShortAddress_conversion : PIBConversion ShortAddress.
Proof. solve_conversion. Qed.
#[export] Instance ExtendedAddress_conversion : PIBConversion ExtendedAddress.
Proof. solve_conversion. Qed.
#[export] Instance PANID_conversion : PIBConversion PANID.
Proof. solve_conversion. Qed.
#[export] Instance pair_conversion {A B} `{PIBConversion A, PIBConversion B} :
  PIBConversion (A * B).
Proof.
  split.
  - intros [a b].
    change ((x ← try_from_pib (into_pib a); y ← try_from_pib (into_pib b); Ok (x, y)) = Ok (a, b)).
    by rewrite !try_from_into.
  - intros v [a b]. change (into_pib (a, b)) with (VPair (into_pib a) (into_pib b)).
    destruct v as [| | | | | | | |v w|]; try done.
    change ((x ← try_from_pib v; y ← try_from_pib w; Ok (x, y)) = Ok (a, b) ->
      VPair (into_pib a) (into_pib b) = VPair v w).
    intros Hv. bind_inv. f_equal; by apply into_try_from.
Qed.

(** ** Writing an attribute *)

Lemma assign_cases {A} `{PIBConversion A} (f : A -> PIB -> PIB) v p :
  (exists x, v = into_pib x /\ assign f v p = (Ok tt, f x p)) \/
  assign f v p = (Err InvalidParameter, p).
Proof.
  unfold assign. destruct (try_from_pib v) as [x|] eqn:E; [left|by right].
  exists x. split; [|done]. symmetry. by apply into_try_from.
Qed.

(** Case analysis of [PIB_set] on an attribute. *)
Ltac assign_inv :=
  match goal with
  | |- context [assign ?f ?v ?p] =>
      let x := fresh "x" in
      destruct (assign_cases f v p) as [(x & -> & ->)| ->]
  end.

(** A successful write is read back as the value written and changes no other
    attribute, nor the retry limit, which cannot be read by name; a failed write
    changes nothing. *)
Theorem pib_set_spec (param : PIBProperty) (v : PIBValue) (p : PIB) :
  match PIB_set param v p with
  | (Ok _, p') =>
      PIB_get p' param = Ok v /\
      (forall q, q <> param -> PIB_get p' q = PIB_get p q) /\
      mac_max_frame_retries p' = mac_max_frame_retries p
  | (Err _, p') => p' = p
  end.
Proof.
  destruct param; cbn; try done; assign_inv; try done; destruct p; cbn;
    (split; [done|split; [|done]]); intros q Hq; destruct q; done.
Qed.

(** The attributes that can be written. *)
Definition writable (param : PIBProperty) : bool :=
  match param with
  | MacExtendedAddress | MacAssociatedPanCoord | MacMaxFrameRetries => false
  | _ => true
  end.

(** Writing back the value just read is accepted exactly for the writable
    attributes and leaves the information base as it was; the others are refused,
    the extended address as read-only and the rest as unsupported. *)
Theorem pib_get_set (param : PIBProperty) (v : PIBValue) (p : PIB) :
  PIB_get p param = Ok v ->
  PIB_set param v p =
    (if writable param then Ok tt
     else Err (if decide (param = MacExtendedAddress) then ReadOnly else UnsupportedAttribute), p).
Proof.
  intros Hg. destruct param; cbn in Hg |- *; try done; injection Hg as <-;
    unfold assign; rewrite ?try_from_into; by destruct p.
Qed.

(** ** Sequence numbers *)

Fixpoint data_sequence_nrs (n : nat) (p : PIB) : list u8 * PIB :=
  match n with
  | O => ([], p)
  | S n =>
      let '(s, p) := next_data_sequence_nr p in
      let '(ss, p) := data_sequence_nrs n p in (s :: ss, p)
  end.

Lemma mac_dsn_set x p : mac_dsn (set_mac_dsn x p) = x.
Proof. by destruct p. Qed.

Lemma data_sequence_nrs_lookup n p i :
  in_width 8 (uint_val (mac_dsn p)) -> (i < n)%nat ->
  fst (data_sequence_nrs n p) !! i =
    Some (Uint ((uint_val (mac_dsn p) + Z.of_nat i) mod 256)).
Proof.
  revert p i. induction n as [|n IH]; intros p i Hp Hi; [lia|]. cbn.
  destruct (data_sequence_nrs n _) as [ss p'] eqn:E. cbn.
  unfold in_width in Hp. change (2 ^ 8) with 256 in *. destruct i as [|i]; cbn.
  - rewrite Z.add_0_r, Z.mod_small by done. by destruct (mac_dsn p).
  - specialize (IH (set_mac_dsn (wrapping_succ (mac_dsn p)) p) i). rewrite E in IH.
    cbn [fst] in IH. etransitivity; [apply IH; [|lia]|]; rewrite mac_dsn_set;
      unfold wrapping_succ; cbn [uint_val]; change (2 ^ 8) with 256.
    + unfold in_width. change (2 ^ 8) with 256. apply Z.mod_pos_bound. lia.
    + rewrite Zplus_mod_idemp_l. do 3 f_equal. lia.
Qed.

(** Two frames get the same sequence number exactly when the number of frames
    between them is a multiple of 256: acknowledgements of the last 256 frames are
    told apart. *)
Theorem data_sequence_nr_period (n i j : nat) (p : PIB) :
  in_width 8 (uint_val (mac_dsn p)) -> (i < n)%nat -> (j < n)%nat ->
  fst (data_sequence_nrs n p) !! i = fst (data_sequence_nrs n p) !! j <->
  (Z.of_nat i - Z.of_nat j) mod 256 = 0.
Proof.
  intros Hp Hi Hj. rewrite !data_sequence_nrs_lookup by done.
  set (d := uint_val (mac_dsn p)).
  assert (forall a b : Z, a mod 256 = b mod 256 <-> (a - b) mod 256 = 0) as Hm.
  { intros a b. split; intros E.
    - rewrite Zminus_mod, E, Z.sub_diag. done.
    - apply Z.mod_divide in E; [|lia]. destruct E as [k Hk].
      replace a with (b + k * 256) by lia. apply Z.mod_add. lia. }
  split.
  - intros [= E]. apply Hm in E. rewrite <- E. f_equal. lia.
  - intros E. do 2 f_equal. apply Hm. rewrite <- E. f_equal. lia.
Qed.

(** Resetting keeps the address and the channel, but makes the current transmit
    power the maximum: after a write that lowered the power, the maximum is lost. *)
Theorem pib_reset_forgets_max_power (bsn dsn : u8) (x : u16) (p : PIB) :
  let p' := PIB_reset bsn dsn (snd (PIB_set PhyTxPower (into_pib x) p)) in
  mac_extended_address p' = mac_extended_address p /\
  phy_current_channel p' = phy_current_channel p /\
  phy_max_tx_power p' = x /\ phy_tx_power p' = x.
Proof. by destruct p, x. Qed.

(** ** Witnesses *)

Definition example_pib : PIB := PIB_new (Uint 7) (Uint 250) (ExtAddr 0x1122334455667788) (Uint 25) (Uint 7).

Lemma pib_get_set_witness :
  PIB_get example_pib MacPanId = Ok (VPANID (PanId 0xFFFF)) /\
  PIB_set MacPanId (VPANID (PanId 0xFFFF)) example_pib = (Ok tt, example_pib).
Proof.
  split; [reflexivity|]. refine (pib_get_set MacPanId _ example_pib _). reflexivity.
Defined.

Lemma data_sequence_nr_period_witness :
  fst (data_sequence_nrs 300 example_pib) !! 3%nat = fst (data_sequence_nrs 300 example_pib) !! 259%nat <->
  (Z.of_nat 3 - Z.of_nat 259) mod 256 = 0.
Proof.
  refine (data_sequence_nr_period 300 3 259 example_pib _ _ _).
  - vm_compute. split; [discriminate|reflexivity].
  - lia.
  - lia.
Defined.
