(* ===== verification/Services.v ===== *)
(** * The MAC's service interfaces ([ieee802154/services/mcps.rs], [mlme.rs])

    The requests, confirms, indications and responses that cross the MAC's data
    ([mcps]) and management ([mlme]) service access points. *)

From Stdlib Require Import ZArith Lia.
From S2P Require Import Prelude Pack Frame Async Pib.

Module mcps.

Record MsduHandle := MkHandle { handle_key : UniqueKey }.
#[global] Instance MsduHandle_eq_dec : EqDecision MsduHandle.
Proof. solve_decision. Defined.
#[global] Instance MsduHandle_countable : Countable MsduHandle :=
  inj_countable' handle_key MkHandle (fun '(MkHandle _) => eq_refl).

(** [MsduHandle::new], given the unique key. *)
Definition MsduHandle_new (key : UniqueKey) : MsduHandle := MkHandle key.

Record DataRequest := {
  source_addressing_mode : AddressingMode;
  destination : option FullAddress;
  msdu : list Z;
  msdu_handle : MsduHandle;
  ack_tx : bool;
  indirect_tx : bool;
}.
Record DataConfirm := MkDataConfirm {
  confirm_handle : MsduHandle;
  ack_payload : result Error (list Z);
}.
Record DataIndication := {
  ind_source : option FullAddress;
  ind_destination : option FullAddress;
  ind_msdu : list Z;
  mpdu_link_quality : u8;
  dsn : option u8;
  rssi : u8;
}.
Record PurgeRequest := MkPurgeRequest { purge_handle : MsduHandle }.
Record PurgeConfirm := MkPurgeConfirm {
  purged_handle : MsduHandle;
  purge_status : result Error unit;
}.

Inductive Request := ReqData (r : DataRequest) | ReqPurge (r : PurgeRequest).
Inductive Confirm := ConfData (c : DataConfirm) | ConfPurge (c : PurgeConfirm).
Inductive Indication := IndData (i : DataIndication).
Inductive Response : Set := .
Inductive Input := InRequest (r : Request) | InResponse (r : Response).
Inductive Output := OutConfirm (c : Confirm) | OutIndication (i : Indication).

#[global] Instance DataConfirm_eq_dec : EqDecision DataConfirm.
Proof. solve_decision. Defined.
#[global] Instance PurgeConfirm_eq_dec : EqDecision PurgeConfirm.
Proof. solve_decision. Defined.
#[global] Instance Confirm_eq_dec : EqDecision Confirm.
Proof. solve_decision. Defined.

End mcps.

Module mlme.

Inductive BeaconType := BTBeacon | BTEnhancedBeacon.
#[global] Instance BeaconType_eq_dec : EqDecision BeaconType.
Proof. solve_decision. Defined.

Record ResetRequest := MkReset { set_default_pib : bool }.
Record StartRequest := {
  start_pan_id : PANID;
  channel_number : u16;
  start_channel_page : u16;
  start_time : u32;
  beacon_order : u8;
  superframe_order : u8;
  pan_coordinator : bool;
  battery_life_extension : bool;
}.
Record BeaconRequest := {
  beacon_type : BeaconType;
  channel : u16;
  channel_page : u16;
  beacon_superframe_order : nat;
  dst_addr : option FullAddress;
}.
Record GetRequest := MkGet { get_attribute : PIBProperty }.
Record SetRequest := MkSet { set_attribute : PIBProperty; set_value : PIBValue }.

Inductive Request :=
| ReqReset (r : ResetRequest)
| ReqStart (r : StartRequest)
| ReqBeacon (r : BeaconRequest)
| ReqGet (r : GetRequest)
| ReqSet (r : SetRequest).

Inductive Confirm :=
| ConfReset (r : result Error unit)
| ConfStart (r : result Error unit)
| ConfBeacon (r : result Error unit)
| ConfGet (p : PIBProperty) (r : result Error PIBValue)
| ConfSet (p : PIBProperty) (r : result Error unit).

Inductive Indication :=
| IndBeaconRequest (beacon_type : BeaconType) (src_addr : option FullAddress) (dst_pan_id : PANID)
| IndAssociate (device_address : ExtendedAddress)
    (capability_information : CapabilityInformation).

Inductive Response :=
| RespAssociate (device_address : ExtendedAddress) (fast_association : bool)
    (status : result AssociationError (option ShortAddress)).

Inductive Input := InRequest (r : Request) | InResponse (r : Response).
Inductive Output := OutConfirm (c : Confirm) | OutIndication (i : Indication).

End mlme.
