(* ===== verification/DeviceQueue.v ===== *)
(** * The queue of frames for one device ([mac/devicequeue.rs])

    Frames for a device are sent one at a time: the front entry is sent when it is
    direct or the device asked for data, retried when sending fails or no
    acknowledgement comes, and reported when it is done, out of retries or out of
    time.  [poll_next_action] says what to do next.

    Shown in [DeviceQueueTheory.v]: every accepted entry is reported or removed at
    most once and none is lost; a direct entry is sent at most once more than its
    retries; an indirect one only after a data request; polls terminate; what
    acknowledgements change; and where the retry after a missing acknowledgement
    waits for an unrelated event. *)

From Stdlib Require Import ZArith Lia.
From S2P Require Import Prelude Pack Frame Async Pib.

#[local] Open Scope Z_scope.

(** [DataRequest] of [mac/data.rs], what the queues hold. *)
Record DataRequest := {
  dr_key : UniqueKey;
  dr_destination : option FullAddress;
  dr_source_mode : AddressingMode;
  dr_acknowledge_request : bool;
  dr_indirect : bool;
  dr_content : FrameType;
}.

Module DQ.

Inductive DeviceQueueError := TransactionExpired | SendFailure | NoAck.
#[global] Instance DeviceQueueError_eq_dec : EqDecision DeviceQueueError.
Proof. solve_decision. Defined.

Inductive DeviceQueueState :=
| Idle (datarequest : bool)
| Sending (send_key : UniqueKey) (ack_requested : option Z) (ack_payload : list Z)
| WaitingForAck (ack_requested : Z) (timeout : Timer)
| HaveResult (r : result DeviceQueueError (list Z)).

Record DeviceQueueEntry := {
  data : DataRequest;
  retries_left : nat;
  timeout : Timer;
}.

Record DeviceQueue := {
  state : DeviceQueueState;
  last_pending_reported : option bool;
  entries : list DeviceQueueEntry;
  waker : WakerStore;
}.

Inductive DeviceQueueAction :=
| Empty
| SetPending (pending : bool)
| SendFrame (key : UniqueKey) (f : Frame)
| ReportResult (key : UniqueKey) (r : result DeviceQueueError (list Z)).

Definition new : DeviceQueue :=
  {| state := Idle false; last_pending_reported := None; entries := []; waker := ws_new |}.

(** Field updates. *)
Definition set_state (s : DeviceQueueState) (q : DeviceQueue) : DeviceQueue :=
  {| state := s; last_pending_reported := last_pending_reported q; entries := entries q;
     waker := waker q |}.
Definition set_last_pending (b : option bool) (q : DeviceQueue) : DeviceQueue :=
  {| state := state q; last_pending_reported := b; entries := entries q; waker := waker q |}.
Definition set_entries (es : list DeviceQueueEntry) (q : DeviceQueue) : DeviceQueue :=
  {| state := state q; last_pending_reported := last_pending_reported q; entries := es;
     waker := waker q |}.
Definition set_waker (w : WakerStore) (q : DeviceQueue) : DeviceQueue :=
  {| state := state q; last_pending_reported := last_pending_reported q; entries := entries q;
     waker := w |}.
Definition wake (q : DeviceQueue) : DeviceQueue := set_waker (ws_wake (waker q)) q.

Definition entry_key (e : DeviceQueueEntry) : UniqueKey := dr_key (data e).
Definition indirect (e : DeviceQueueEntry) : bool := dr_indirect (data e).
(** [front_entry.retries_left -= 1] *)
Definition use_retry (e : DeviceQueueEntry) : DeviceQueueEntry :=
  {| data := data e; retries_left := retries_left e - 1; timeout := timeout e |}.

Definition contains (key : UniqueKey) (q : DeviceQueue) : bool :=
  existsb (fun e => bool_decide (entry_key e = key)) (entries q).

(** [insert]; [timer] tells the entry's timer from the others. *)
Definition insert (p : PIB) (timer : N) (entry : DataRequest) (q : DeviceQueue) :
    bool * DeviceQueue :=
  if contains (dr_key entry) q then (false, q)
  else
    let e := {| data := entry;
                retries_left := Z.to_nat (uint_val (mac_max_frame_retries p));
                timeout := Sleep timer (mac_transaction_persistence_time p) |} in
    (true, wake (set_entries (entries q ++ [e]) q)).

Definition remove (key : UniqueKey) (q : DeviceQueue) : bool * DeviceQueue :=
  let pre_len := length (entries q) in
  let first_removed :=
    match head (entries q) with Some front => bool_decide (entry_key front = key) | None => false end in
  let q := set_entries (filter (fun e => entry_key e <> key) (entries q)) q in
  let q := if first_removed then set_state (Idle false) q else q in
  if first_removed || (length (entries q) <? pre_len)%nat then (true, wake q) else (false, q).

Definition process_datarequest (q : DeviceQueue) : DeviceQueue :=
  let q := match state q with Idle _ => set_state (Idle true) q | _ => q end in
  wake q.

Definition create_frame (request : DataRequest) (p : PIB) (more_pending : bool) :
    option Z * Frame * PIB :=
  let source :=
    match dr_source_mode request with
    | AM_None | AM_Reserved => None
    | AM_Short => Some (get_full_short_address p)
    | AM_Extended => Some (get_full_extended_address p)
    end in
  let '(sequence_nr, p) := next_data_sequence_nr p in
  let sequence_nr := uint_val sequence_nr in
  let frame := {|
    frame_pending := more_pending;
    acknowledge_request := dr_acknowledge_request request;
    sequence_number := Some sequence_nr;
    destination := dr_destination request;
    source := source;
    frame_type := dr_content request;
  |} in
  (if dr_acknowledge_request request then Some sequence_nr else None, frame, p).

(** [process_send_result]; [timer] tells the acknowledgement timer. *)
Definition process_send_result (timer : N) (key : UniqueKey) (success : bool) (q : DeviceQueue) :
    DeviceQueue :=
  match state q with
  | Sending send_key ack_requested ack_payload =>
      if decide (send_key = key) then
        if success then
          match ack_requested with
          | Some ack_requested =>
              set_state (WaitingForAck ack_requested (Sleep timer (from_millis 100))) q
          | None => set_state (HaveResult (Ok ack_payload)) q
          end
        else
          match entries q with
          | front :: rest =>
              if indirect front then set_state (Idle false) q
              else if decide (0 < retries_left front)%nat then
                set_state (Idle false) (set_entries (use_retry front :: rest) q)
              else set_state (HaveResult (Err SendFailure)) q
          | [] => set_state (Idle false) q
          end
      else q
  | _ => q
  end.

Definition process_acknowledge (seq_nr : option Z) (payload : list Z) (q : DeviceQueue) :
    DeviceQueue :=
  match state q with
  | WaitingForAck ack_requested _ =>
      if decide (seq_nr = Some ack_requested) then set_state (HaveResult (Ok payload)) q else q
  | Sending send_key ack_requested _ =>
      if bool_decide (is_Some ack_requested) && bool_decide (ack_requested = seq_nr)
      then set_state (Sending send_key None payload) q else q
  | _ => q
  end.

(** The end of [poll_next_action]: the first entry out of time is reported. *)
Definition poll_timeouts (cx : Context) (q : DeviceQueue) : Poll DeviceQueueAction * DeviceQueue :=
  match list_find (fun e => cx_expired cx (timeout e) = true) (entries q) with
  | Some (index, e) =>
      let q := set_entries (delete index (entries q)) q in
      let q := if decide (index = 0%nat) then set_state (Idle false) q else q in
      (Ready (ReportResult (entry_key e) (Err TransactionExpired)), q)
  | None =>
      let '(r, w) := ws_pend (cx_waker cx) (waker q) in (r, set_waker w q)
  end.

(** The two results of a poll that reports the front entry. *)
Definition report_front (front : DeviceQueueEntry) (rest : list DeviceQueueEntry)
    (r : result DeviceQueueError (list Z)) (q : DeviceQueue) :
    Poll DeviceQueueAction * DeviceQueue :=
  (Ready (ReportResult (entry_key front) r), set_state (Idle false) (set_entries rest q)).

Definition poll_next_action (p : PIB) (cx : Context) (q : DeviceQueue) :
    Poll DeviceQueueAction * PIB * DeviceQueue :=
  let should_be_pending :=
    match head (entries q) with Some entry => indirect entry | None => false end in
  if decide (last_pending_reported q <> Some should_be_pending) then
    (Ready (SetPending should_be_pending), p, set_last_pending (Some should_be_pending) q)
  else
    match entries q with
    | front :: rest =>
        match state q with
        | Idle datarequest =>
            if negb (indirect front) || datarequest then
              let more_pending := match rest with e :: _ => indirect e | [] => false end in
              let '(ack_requested, frame, p) := create_frame (data front) p more_pending in
              (Ready (SendFrame (cx_key cx) frame), p,
               set_state (Sending (cx_key cx) ack_requested []) q)
            else
              let '(r, q) := poll_timeouts cx (set_state (Idle false) q) in (r, p, q)
        | WaitingForAck ack_requested timeout =>
            if cx_expired cx timeout then
              if indirect front then
                let '(r, q) := poll_timeouts cx (set_state (Idle false) q) in (r, p, q)
              else if decide (0 < retries_left front)%nat then
                let '(r, q) := poll_timeouts cx
                  (set_state (Idle false) (set_entries (use_retry front :: rest) q)) in (r, p, q)
              else let '(r, q) := report_front front rest (Err NoAck) q in (r, p, q)
            else let '(r, q) := poll_timeouts cx q in (r, p, q)
        | HaveResult res => let '(r, q) := report_front front rest res q in (r, p, q)
        | Sending _ _ _ => let '(r, q) := poll_timeouts cx q in (r, p, q)
        end
    | [] => (Ready Empty, p, set_state (Idle false) q)
    end.

End DQ.
