(* ===== verification/DeviceQueueTheory.v ===== *)
(** * Theory of the device queue

    Runs of a queue with the events they make visible, and what holds of every run. *)

From Stdlib Require Import ZArith Lia.
From S2P Require Import Prelude Pack Frame Async Pib DeviceQueue.

Import DQ.

(** ** Operations and events *)

Inductive dq_op :=
| QInsert (p : PIB) (timer : N) (r : DataRequest)
| QRemove (key : UniqueKey)
| QDataRequest
| QSendResult (timer : N) (key : UniqueKey) (success : bool)
| QAck (seq_nr : option Z) (payload : list Z)
| QPoll (p : PIB) (cx : Context).

Inductive dq_event :=
| Accepted (r : DataRequest) (retries : nat)
| Refused (r : DataRequest)
| Removed (key : UniqueKey)
| DataRequested
| Acknowledged (seq_nr : option Z) (payload : list Z)
| Sent (r : DataRequest) (f : Frame)
| Reported (key : UniqueKey) (r : result DeviceQueueError (list Z))
| PendingReported (b : bool)
| IsEmpty
| Silent.

(** A poll's event; a frame that is sent is the front entry's. *)
Definition poll_event (q : DeviceQueue) (r : Poll DeviceQueueAction) : dq_event :=
  match r with
  | Pending => Silent
  | Ready Empty => IsEmpty
  | Ready (SetPending b) => PendingReported b
  | Ready (SendFrame _ f) =>
      match entries q with e :: _ => Sent (data e) f | [] => Silent end
  | Ready (ReportResult k r) => Reported k r
  end.

Definition dq_step (op : dq_op) (q : DeviceQueue) : dq_event * DeviceQueue :=
  match op with
  | QInsert p t r =>
      let '(b, q) := insert p t r q in
      (if b then Accepted r (Z.to_nat (uint_val (mac_max_frame_retries p))) else Refused r, q)
  | QRemove k => let '(b, q) := remove k q in (if b then Removed k else Silent, q)
  | QDataRequest => (DataRequested, process_datarequest q)
  | QSendResult t k b => (Silent, process_send_result t k b q)
  | QAck s pl => (Acknowledged s pl, process_acknowledge s pl q)
  | QPoll p cx => let '(r, _, q') := poll_next_action p cx q in (poll_event q r, q')
  end.

Fixpoint dq_run (ops : list dq_op) (q : DeviceQueue) : list dq_event * DeviceQueue :=
  match ops with
  | [] => ([], q)
  | op :: ops =>
      let '(ev, q) := dq_step op q in let '(evs, q) := dq_run ops q in (ev :: evs, q)
  end.

(** Induction over runs: an invariant of events so far and state. *)
Lemma dq_run_ind (P : list dq_event -> DeviceQueue -> Prop) :
  P [] new ->
  (forall evs q op, P evs q -> P (evs ++ [fst (dq_step op q)]) (snd (dq_step op q))) ->
  forall ops, P (fst (dq_run ops new)) (snd (dq_run ops new)).
Proof.
  intros H0 Hs ops.
  assert (forall evs q, P evs q -> P (evs ++ fst (dq_run ops q)) (snd (dq_run ops q))) as Hg.
  { induction ops as [|op ops IH]; intros evs q Hq; cbn [dq_run].
    - by rewrite app_nil_r.
    - specialize (Hs evs q op Hq). destruct (dq_step op q) as [ev q1]. cbn in Hs.
      specialize (IH _ _ Hs). destruct (dq_run ops q1) as [evs' q2]. cbn in *.
      by rewrite <- app_assoc in IH. }
  by apply (Hg [] new).
Qed.

(** ** The invariant *)

Definition keys (q : DeviceQueue) : list UniqueKey := entry_key <$> entries q.
Definition is_idle (s : DeviceQueueState) : bool := match s with Idle _ => true | _ => false end.

Record dq_inv (q : DeviceQueue) : Prop := {
  dq_unique : NoDup (keys q);
  dq_busy : is_idle (state q) = false -> entries q <> [];
}.

Lemma contains_spec k q : contains k q = bool_decide (k ∈ keys q).
Proof.
  unfold contains, keys. induction (entries q) as [|e es IH]; cbn.
  - by rewrite bool_decide_false by apply not_elem_of_nil.
  - rewrite IH. repeat case_bool_decide; set_solver.
Qed.

(** *** What a poll does *)

(** The four shapes of a poll's outcome on a nonempty queue whose pending bit has
    been reported; [q0] is the state after the front entry has been looked at. *)
Lemma poll_timeouts_cases cx q :
  (poll_timeouts cx q = (Pending, set_waker (ws_register (cx_waker cx) (waker q)) q) /\
   Forall (fun e => cx_expired cx (timeout e) = false) (entries q)) \/
  (exists i e, entries q !! i = Some e /\ cx_expired cx (timeout e) = true /\
     poll_timeouts cx q =
       (Ready (ReportResult (entry_key e) (Err TransactionExpired)),
        (if decide (i = 0%nat) then set_state (Idle false) else id)
          (set_entries (delete i (entries q)) q))).
Proof.
  unfold poll_timeouts. destruct (list_find _ _) as [[i e]|] eqn:E.
  - right. apply list_find_Some in E as (Hi & He & _). exists i, e.
    repeat split; try done. by case_decide.
  - left. split; [done|]. apply list_find_None in E. eapply Forall_impl; [exact E|].
    intros x Hx. by apply not_true_is_false.
Qed.

(** The state and entries the timeouts are looked at in, when the poll gets there. *)
Inductive waits (cx : Context) (q : DeviceQueue) : DeviceQueue -> Prop :=
| waits_idle e rest b :
    entries q = e :: rest -> state q = Idle b -> indirect e = true -> b = false ->
    waits cx q (set_state (Idle false) q)
| waits_sending k a pl :
    entries q <> [] -> state q = Sending k a pl -> waits cx q q
| waits_ack a t :
    entries q <> [] -> state q = WaitingForAck a t -> cx_expired cx t = false -> waits cx q q
| waits_indirect e rest a t :
    entries q = e :: rest -> state q = WaitingForAck a t -> cx_expired cx t = true ->
    indirect e = true -> waits cx q (set_state (Idle false) q)
| waits_retry e rest a t :
    entries q = e :: rest -> state q = WaitingForAck a t -> cx_expired cx t = true ->
    indirect e = false -> (0 < retries_left e)%nat ->
    waits cx q (set_state (Idle false) (set_entries (use_retry e :: rest) q)).

Inductive poll_outcome (p : PIB) (cx : Context) (q : DeviceQueue) :
    Poll DeviceQueueAction -> DeviceQueue -> Prop :=
| outcome_pending b :
    last_pending_reported q <> Some b ->
    b = match head (entries q) with Some e => indirect e | None => false end ->
    poll_outcome p cx q (Ready (SetPending b)) (set_last_pending (Some b) q)
| outcome_empty :
    entries q = [] -> poll_outcome p cx q (Ready Empty) (set_state (Idle false) q)
| outcome_send e rest b a f :
    entries q = e :: rest -> state q = Idle b -> indirect e = false \/ b = true ->
    destination f = dr_destination (data e) -> frame_type f = dr_content (data e) ->
    acknowledge_request f = dr_acknowledge_request (data e) ->
    sequence_number f = Some (uint_val (mac_dsn p)) ->
    a = (if dr_acknowledge_request (data e) then sequence_number f else None) ->
    poll_outcome p cx q (Ready (SendFrame (cx_key cx) f)) (set_state (Sending (cx_key cx) a []) q)
| outcome_report e rest r :
    entries q = e :: rest ->
    state q = HaveResult r \/
      (exists a t, state q = WaitingForAck a t /\ cx_expired cx t = true /\
         indirect e = false /\ retries_left e = 0%nat /\ r = Err NoAck) ->
    poll_outcome p cx q (Ready (ReportResult (entry_key e) r))
      (set_state (Idle false) (set_entries rest q))
| outcome_wait q0 :
    waits cx q q0 -> Forall (fun e => cx_expired cx (timeout e) = false) (entries q0) ->
    poll_outcome p cx q Pending (set_waker (ws_register (cx_waker cx) (waker q0)) q0)
| outcome_expired q0 i e :
    waits cx q q0 -> entries q0 !! i = Some e -> cx_expired cx (timeout e) = true ->
    poll_outcome p cx q (Ready (ReportResult (entry_key e) (Err TransactionExpired)))
      ((if decide (i = 0%nat) then set_state (Idle false) else id)
         (set_entries (delete i (entries q0)) q0)).

Lemma poll_cases p cx q :
  let '(r, _, q') := poll_next_action p cx q in poll_outcome p cx q r q'.
Proof.
  assert (forall q0, waits cx q q0 ->
    poll_outcome p cx q (fst (poll_timeouts cx q0)) (snd (poll_timeouts cx q0))) as Hw.
  { intros q0 Hq. destruct (poll_timeouts_cases cx q0) as [[-> Hf]|(i & e & Hi & He & ->)].
    - by apply outcome_wait.
    - by eapply outcome_expired. }
  unfold poll_next_action. case_decide as Hl; [by apply outcome_pending|].
  destruct (entries q) as [|e rest] eqn:Ee; [by apply outcome_empty|].
  destruct (state q) as [b|k a pl|a t|r] eqn:Es.
  - destruct (negb (indirect e) || b) eqn:Eb.
    + destruct (create_frame _ _ _) as [[a f] p'] eqn:Ec. unfold create_frame in Ec.
      injection Ec as <- <- <-. eapply outcome_send; try done.
      apply orb_true_iff in Eb as [Eb|Eb]; [left; by apply negb_true_iff|by right].
    + apply orb_false_iff in Eb as [Eb ->]. apply negb_false_iff in Eb.
      specialize (Hw _ (waits_idle cx q _ _ _ Ee Es Eb eq_refl)).
      by destruct (poll_timeouts _ _).
  - specialize (Hw q). destruct (poll_timeouts _ _). apply Hw.
    eapply waits_sending; [by rewrite Ee|done].
  - destruct (cx_expired cx t) eqn:Et.
    + destruct (indirect e) eqn:Ei.
      * specialize (Hw _ (waits_indirect cx q _ _ _ _ Ee Es Et Ei)).
        by destruct (poll_timeouts _ _).
      * case_decide as Hr.
        -- specialize (Hw _ (waits_retry cx q _ _ _ _ Ee Es Et Ei Hr)).
           by destruct (poll_timeouts _ _).
        -- cbn. eapply outcome_report; [done|]. right. exists a, t. repeat split; try done. lia.
    + specialize (Hw q). destruct (poll_timeouts _ _). apply Hw.
      eapply waits_ack; [by rewrite Ee|done..].
  - cbn. eapply outcome_report; [done|by left].
Qed.

(** The front entry's key is what the retry bookkeeping leaves alone. *)
Lemma waits_keys cx q q0 : waits cx q q0 -> keys q0 = keys q /\ entries q0 <> [].
Proof.
  intros Hw. destruct Hw as [e rest b Ee _ _ _|k a pl Ee _|a t Ee _ _|e rest a t Ee _ _ _
    |e rest a t Ee _ _ _ _]; (split; [|by cbn; rewrite ?Ee]); try done.
  unfold keys; cbn. by rewrite Ee.
Qed.

Lemma keys_delete q i : keys (set_entries (delete i (entries q)) q) = delete i (keys q).
Proof.
  unfold keys; cbn. generalize (entries q). intros es. revert i.
  induction es as [|e es IH]; intros [|i]; cbn; [done..|]. f_equal. apply IH.
Qed.

Lemma NoDup_delete {A} (l : list A) i : NoDup l -> NoDup (delete i l).
Proof. intros Hn. eapply sublist_NoDup; [exact Hn|apply sublist_delete]. Qed.

Lemma keys_remove k q :
  keys (snd (remove k q)) = filter (fun x => x <> k) (keys q).
Proof.
  unfold remove. 
  set (first := match head (entries q) with Some _ => _ | None => _ end).
  assert (keys (set_entries (filter (fun e => entry_key e <> k) (entries q)) q) =
    filter (fun x => x <> k) (keys q)) as E.
  { unfold keys; cbn. induction (entries q) as [|e es IH]; [done|].
    cbn [fmap list_fmap]. rewrite !filter_cons. by repeat case_decide; cbn; rewrite ?IH. }
  destruct first; cbn [orb snd]; [exact E|].
  by match goal with |- context [if ?b then (true, _) else _] => destruct b end.
Qed.

Lemma insert_inv p t r q : dq_inv q -> dq_inv (snd (insert p t r q)).
Proof.
  intros [Hn Hb]. unfold insert. rewrite contains_spec. case_bool_decide as Hc; [by split|].
  split; cbn.
  - unfold keys in *; cbn. rewrite fmap_app. apply NoDup_app. split; [done|]. cbn.
    split; [|apply NoDup_singleton]. intros k Hk Hk'. apply list_elem_of_singleton in Hk'.
    by subst.
  - intros _ [_ ?]%app_nil. done.
Qed.

Lemma remove_state k q :
  match entries q with
  | e :: rest =>
      if decide (entry_key e = k) then state (snd (remove k q)) = Idle false
      else state (snd (remove k q)) = state q /\ exists rest', entries (snd (remove k q)) = e :: rest'
  | [] => snd (remove k q) = q
  end.
Proof.
  unfold remove. destruct (entries q) as [|e rest] eqn:Ee; cbn.
  - destruct q; cbn in *; by subst.
  - case_decide as Hk.
    + by rewrite bool_decide_true.
    + rewrite bool_decide_false by done. cbn [orb].
      assert (exists rest', filter (fun e => entry_key e <> k) (e :: rest) = e :: rest') as [rest' E].
      { rewrite filter_cons, decide_True by done. by eexists. }
      match goal with |- context [if ?b then (true, _) else _] => destruct b end;
        cbn [snd wake set_waker set_entries entries state]; rewrite ?Ee;
        split; try done; exists rest'; exact E.
Qed.

Lemma remove_inv k q : dq_inv q -> dq_inv (snd (remove k q)).
Proof.
  intros [Hn Hb]. split.
  - rewrite keys_remove. by apply NoDup_filter.
  - pose proof (remove_state k q) as Hs. destruct (entries q) as [|e rest] eqn:Ee.
    + rewrite Hs. by rewrite Ee.
    + case_decide as Hk; [by rewrite Hs|]. destruct Hs as [-> [rest' ->]]. done.
Qed.

Lemma dq_poll_inv p cx q : dq_inv q -> dq_inv (snd (poll_next_action p cx q)).
Proof.
  intros [Hn Hb]. pose proof (poll_cases p cx q) as Ho.
  destruct (poll_next_action p cx q) as [[r p'] q']. cbn.
  destruct Ho as [b _ _|Ee|e rest b a f Ee _ _ _ _ _ _ _|e rest r Ee _|q0 Hw _|q0 i e Hw Hi _].
  - by split.
  - by split.
  - split; [done|]. cbn. by rewrite Ee.
  - split; [|done]. unfold keys in *; cbn. rewrite Ee in Hn. by apply NoDup_cons in Hn as [_ ?].
  - apply waits_keys in Hw as [Hk He]. split; [|done]. by rewrite <- Hk in Hn.
  - apply waits_keys in Hw as [Hk He].
    assert (NoDup (keys (set_entries (delete i (entries q0)) q0))) as Hn'.
    { rewrite keys_delete, Hk. by apply NoDup_delete. }
    case_decide as Hz; [by split|]. split; [done|]. cbn. intros _ Hd.
    destruct (entries q0) as [|x es]; [done|]. by destruct i.
Qed.

Lemma send_result_keys t k b q :
  keys (process_send_result t k b q) = keys q /\
  (is_idle (state (process_send_result t k b q)) = false -> is_idle (state q) = false).
Proof.
  unfold process_send_result, keys.
  destruct (state q) as [d|sk a pl|a tm|r] eqn:Es; rewrite ?Es; try by split.
  case_decide; [|by rewrite Es]. destruct b; [by destruct a|].
  destruct (entries q) as [|e rest] eqn:Ee; [by cbn; rewrite Ee|]. destruct (indirect e); [by cbn; rewrite Ee|].
  case_decide; cbn; by rewrite ?Ee.
Qed.

Lemma acknowledge_keys s pl q :
  entries (process_acknowledge s pl q) = entries q /\
  is_idle (state (process_acknowledge s pl q)) = is_idle (state q).
Proof.
  unfold process_acknowledge. destruct (state q) as [d|sk a pl'|a tm|r] eqn:Es; rewrite ?Es; try done.
  - destruct (_ && _); cbn; by rewrite ?Es.
  - case_decide; cbn; by rewrite ?Es.
Qed.

Lemma keys_nil q : keys q = [] <-> entries q = [].
Proof. unfold keys. by destruct (entries q). Qed.

Lemma dq_step_inv op q : dq_inv q -> dq_inv (snd (dq_step op q)).
Proof.
  intros I. destruct op as [p t r|k| |t k b|s pl|p cx]; cbn.
  - pose proof (insert_inv p t r q I). by destruct (insert p t r q) as [[] ?].
  - pose proof (remove_inv k q I). by destruct (remove k q) as [[] ?].
  - destruct I as [Hn Hb]. unfold process_datarequest.
    destruct (state q) eqn:Es; split; cbn; rewrite ?Es; try done; by apply Hb.
  - destruct (send_result_keys t k b q) as [Hk Hi]. destruct I as [Hn Hb]. split.
    + by rewrite Hk.
    + rewrite <- keys_nil, Hk, keys_nil. auto.
  - destruct (acknowledge_keys s pl q) as [Hk Hi]. destruct I as [Hn Hb]. split.
    + unfold keys. by rewrite Hk.
    + rewrite Hk, Hi. auto.
  - pose proof (dq_poll_inv p cx q I). by destruct (poll_next_action p cx q) as [[[] ?] ?].
Qed.

(** ** Nothing is lost, nothing is reported twice *)

Definition accepted (ev : dq_event) : list UniqueKey :=
  match ev with Accepted r _ => [dr_key r] | _ => [] end.
Definition settled (ev : dq_event) : list UniqueKey :=
  match ev with Removed k | Reported k _ => [k] | _ => [] end.

Lemma filter_ne_perm k (l : list UniqueKey) :
  NoDup l -> k ∈ l -> l ≡ₚ k :: filter (fun x => x <> k) l.
Proof.
  induction l as [|x l IH]; intros Hn Hk; [by apply not_elem_of_nil in Hk|].
  apply NoDup_cons in Hn as [Hx Hn]. rewrite filter_cons. case_decide as Hd.
  - apply elem_of_cons in Hk as [?|Hk]; [done|]. rewrite (IH Hn Hk) at 1. apply Permutation_swap.
  - subst. f_equiv.
    assert (filter (fun y => y <> k) l = l) as ->; [|done].
    clear -Hx. induction l as [|y l IH]; [done|]. apply not_elem_of_cons in Hx as [? ?].
    by rewrite filter_cons, decide_True, IH by congruence.
Qed.

Lemma filter_ne_absent k (l : list UniqueKey) : k ∉ l -> filter (fun x => x <> k) l = l.
Proof.
  induction l as [|y l IH]; intros Hx; [done|]. apply not_elem_of_cons in Hx as [? ?].
  by rewrite filter_cons, decide_True, IH by congruence.
Qed.

Lemma remove_result k q : fst (remove k q) = bool_decide (k ∈ keys q).
Proof.
  pose proof (keys_remove k q) as Hk. unfold remove in *.
  set (first := match head (entries q) with Some _ => _ | None => _ end) in *.
  assert (length (filter (fun e => entry_key e <> k) (entries q)) =
    length (filter (fun x => x <> k) (keys q))) as El.
  { unfold keys. clear. induction (entries q) as [|e es IH]; [done|].
    cbn [fmap list_fmap]. rewrite !filter_cons. repeat case_decide; cbn; by rewrite ?IH. }
  assert (length (entries q) = length (keys q)) as El' by (unfold keys; by rewrite length_fmap).
  destruct first eqn:Ef; cbn [orb fst].
  - unfold first in Ef. destruct (entries q) as [|e es] eqn:Ee; cbn in Ef; [done|].
    apply bool_decide_eq_true in Ef. rewrite bool_decide_true; [done|]. unfold keys. rewrite Ee.
    cbn. rewrite Ef. by left.
  - assert (length (filter (fun x => x <> k) (keys q)) < length (keys q) <-> k ∈ keys q)%nat as Hl.
    { clear. induction (keys q) as [|y l IH]; [split; [cbn; lia|by intros ?%not_elem_of_nil]|].
      rewrite filter_cons, elem_of_cons. pose proof (length_filter (fun x => x <> k) l).
      case_decide; cbn.
      - split; [intros; right; apply IH; lia|intros [?|?%IH]; [congruence|lia]].
      - split; [intros; by left|lia]. }
    destruct (_ <? _)%nat eqn:E; cbn.
    + apply Nat.ltb_lt in E. cbn [set_entries entries] in E. rewrite El, El', Hl in E. by rewrite bool_decide_true.
    + apply Nat.ltb_ge in E. cbn [set_entries entries] in E. rewrite El, El' in E. rewrite bool_decide_false; [done|]. rewrite <- Hl. lia.
Qed.

Lemma step_conserves op q :
  dq_inv q ->
  let '(ev, q') := dq_step op q in
  accepted ev ++ keys q ≡ₚ settled ev ++ keys q'.
Proof.
  intros I. destruct op as [p t r|k| |t k b|s pl|p cx]; cbn [dq_step].
  - unfold insert. destruct (contains (dr_key r) q); cbn; [done|].
    unfold keys; cbn. rewrite fmap_app. cbn. apply Permutation_cons_append.
  - pose proof (remove_result k q) as Hr. pose proof (keys_remove k q) as Hk.
    destruct (remove k q) as [b q']; cbn in *. rewrite Hr, Hk.
    case_bool_decide as Hin; cbn.
    + apply filter_ne_perm; [apply I|done].
    + by rewrite filter_ne_absent.
  - unfold process_datarequest. by destruct (state q).
  - cbn. by rewrite (proj1 (send_result_keys t k b q)).
  - cbn. unfold keys. by rewrite (proj1 (acknowledge_keys s pl q)).
  - pose proof (poll_cases p cx q) as Ho.
    destruct (poll_next_action p cx q) as [[r p'] q'].
    destruct Ho as [b _ _|Ee|e rest b a f Ee _ _ _ _ _ _ _|e rest r Ee _|q0 Hw _|q0 i e Hw Hi _];
      cbn; try done.
    + unfold keys; cbn; by rewrite !Ee.
    + unfold keys; cbn. by rewrite Ee.
    + apply waits_keys in Hw as [Hk _]. change (keys q ≡ₚ keys q0). by rewrite Hk.
    + apply waits_keys in Hw as [Hk _]. rewrite <- Hk.
      transitivity (entry_key e :: keys (set_entries (delete i (entries q0)) q0)).
      * rewrite keys_delete. apply delete_Permutation. unfold keys.
        by rewrite list_lookup_fmap, Hi.
      * by case_decide.
Qed.

(** C11: Over every run of a queue, the keys it accepted are, up to order, the keys it
    reported or removed and the keys it still holds: nothing is lost and, since
    waiting keys are distinct, nothing settles twice for one acceptance. *)
Theorem device_queue_conserves (ops : list dq_op) :
  let '(evs, q) := dq_run ops new in
  NoDup (keys q) /\ evs ≫= accepted ≡ₚ (evs ≫= settled) ++ keys q.
Proof.
  pose proof (dq_run_ind (fun evs q =>
    dq_inv q /\ evs ≫= accepted ≡ₚ (evs ≫= settled) ++ keys q)) as Hind.
  specialize (Hind ltac:(by split; [split; [constructor|done]|])).
  assert (forall ops, let evs := fst (dq_run ops new) in let q := snd (dq_run ops new) in
    dq_inv q /\ evs ≫= accepted ≡ₚ (evs ≫= settled) ++ keys q) as H.
  { apply Hind. intros evs q op [I Hp]. split; [by apply dq_step_inv|].
    pose proof (step_conserves op q I) as Hs. destruct (dq_step op q) as [ev q']. cbn [fst snd].
    rewrite !bind_app. cbn. rewrite !app_nil_r. rewrite Hp.
    rewrite <- !(assoc_L (++)). f_equiv. rewrite (Permutation_app_comm (keys q)). exact Hs. }
  specialize (H ops). destruct (dq_run ops new) as [evs q]. destruct H as [[? ?] ?]. done.
Qed.

(** ** How often a frame is sent *)

(** What a run says of one key since it was last accepted. *)
Record history := History { h_indirect : bool; h_retries : nat; h_sent : nat }.

Definition history_step (k : UniqueKey) (h : option history) (ev : dq_event) : option history :=
  match ev with
  | Accepted r n => if decide (dr_key r = k) then Some (History (dr_indirect r) n 0) else h
  | Sent r _ =>
      if decide (dr_key r = k)
      then (fun h => History (h_indirect h) (h_retries h) (S (h_sent h))) <$> h else h
  | _ => h
  end.
Definition history_of (k : UniqueKey) (evs : list dq_event) : option history :=
  foldl (history_step k) None evs.

Lemma history_of_snoc k evs ev :
  history_of k (evs ++ [ev]) = history_step k (history_of k evs) ev.
Proof. unfold history_of. by rewrite foldl_app. Qed.

(** The retries of a waiting direct entry, counted against its history. *)
Definition entry_counted (busy : bool) (h : option history) (e : DeviceQueueEntry) : Prop :=
  exists g, h = Some g /\ h_indirect g = indirect e /\
    (indirect e = false ->
     (h_sent g + retries_left e)%nat = (h_retries g + if busy then 1 else 0)%nat).

Definition counted (evs : list dq_event) (q : DeviceQueue) : Prop :=
  match entries q with
  | e :: rest =>
      entry_counted (negb (is_idle (state q))) (history_of (entry_key e) evs) e /\
      Forall (fun e => entry_counted false (history_of (entry_key e) evs) e) rest
  | [] => True
  end.
Definition sent_bounded (evs : list dq_event) : Prop :=
  forall k g, history_of k evs = Some g -> h_indirect g = false -> (h_sent g <= S (h_retries g))%nat.

Lemma counted_all evs q :
  is_idle (state q) = true ->
  counted evs q <-> Forall (fun e => entry_counted false (history_of (entry_key e) evs) e) (entries q).
Proof. unfold counted. intros ->. destruct (entries q); cbn; [done|]. by rewrite Forall_cons. Qed.

Lemma counted_tail evs q e rest :
  entries q = e :: rest -> counted evs q ->
  Forall (fun e => entry_counted false (history_of (entry_key e) evs) e) rest.
Proof. unfold counted. intros ->. by intros []. Qed.

Lemma entry_counted_indirect b b' h e : indirect e = true -> entry_counted b h e -> entry_counted b' h e.
Proof. intros Hi (g & ? & ? & _). exists g. split; [done|]. split; [done|]. congruence. Qed.

Lemma entry_counted_retry h e :
  (0 < retries_left e)%nat -> entry_counted true h e -> entry_counted false h (use_retry e).
Proof.
  intros Hr (g & ? & ? & Hc). exists g. split; [done|]. split; [done|]. cbn. intros Hi.
  specialize (Hc Hi). lia.
Qed.

(** Events that are not about a key do not change its history. *)
Lemma history_other k evs ev :
  (forall r n, ev = Accepted r n -> dr_key r <> k) -> (forall r f, ev = Sent r f -> dr_key r <> k) ->
  history_of k (evs ++ [ev]) = history_of k evs.
Proof.
  intros Ha Hs. rewrite history_of_snoc. destruct ev; cbn; try done.
  - rewrite decide_False; [done|]. by eapply Ha.
  - rewrite decide_False; [done|]. by eapply Hs.
Qed.

Lemma counted_quiet evs ev q :
  (forall r n, ev <> Accepted r n) -> (forall r f, ev <> Sent r f) ->
  counted evs q -> counted (evs ++ [ev]) q.
Proof.
  intros Ha Hs. unfold counted. destruct (entries q) as [|e rest]; [done|].
  assert (forall k, history_of k (evs ++ [ev]) = history_of k evs) as E.
  { intros k. apply history_other; intros ? ? ->; exfalso; [by eapply Ha|by eapply Hs]. }
  rewrite E. intros [H1 H2]. split; [done|]. eapply Forall_impl; [exact H2|].
  intros x Hx. cbn in *. by rewrite E.
Qed.

Lemma counted_remove k evs q : counted evs q -> counted evs (snd (remove k q)).
Proof.
  intros Hc. pose proof (remove_state k q) as Hs. unfold counted in Hc |- *.
  assert (entries (snd (remove k q)) = filter (fun e => entry_key e <> k) (entries q)) as Ee.
  { unfold remove. repeat case_match; done. }
  destruct (entries q) as [|e rest] eqn:E0; [by rewrite Ee|].
  assert (Forall (fun e => entry_counted false (history_of (entry_key e) evs) e)
    (filter (fun e => entry_key e <> k) rest)) as Hr'.
  { apply Forall_forall. intros x Hx. apply list_elem_of_filter in Hx as [_ Hx].
    destruct Hc as [_ Hr]. by eapply Forall_forall in Hr. }
  destruct Hc as [Hf _]. rewrite Ee, filter_cons.
  destruct (decide (entry_key e = k)) as [Hk|Hk].
  - rewrite decide_False by tauto. rewrite Hs.
    destruct (filter _ rest); [done|]. by apply Forall_cons in Hr'.
  - rewrite decide_True by done. destruct Hs as [-> _]. done.
Qed.

Lemma poll_counted p cx evs q :
  dq_inv q -> counted evs q ->
  let '(r, _, q') := poll_next_action p cx q in counted (evs ++ [poll_event q r]) q'.
Proof.
  intros I Hc. pose proof (poll_cases p cx q) as Ho.
  destruct (poll_next_action p cx q) as [[r p'] q'].
  assert (forall q0, waits cx q q0 -> counted evs q0) as Hw0.
  { intros q0 Hw. destruct Hw as [e rest b Ee Es Hi ->|k a pl _ _|a t _ _ _|e rest a t Ee Es _ Hi
      |e rest a t Ee Es _ Hi Hr]; try done; unfold counted in *; cbn; rewrite Ee in *;
      rewrite Es in Hc; cbn in Hc |- *; destruct Hc as [H1 H2]; (split; [|done]).
    - by eapply entry_counted_indirect.
    - by eapply entry_counted_indirect.
    - by apply entry_counted_retry. }
  destruct Ho as [b _ _|Ee|e rest b a f Ee Es _ _ _ _ _ _|e rest r Ee _|q0 Hw _|q0 i e Hw Hi _];
    cbn [poll_event].
  - by apply counted_quiet.
  - unfold counted; cbn. by rewrite Ee.
  - unfold counted in *; cbn. rewrite Ee in *. rewrite Es in Hc. cbn in Hc. destruct Hc as [H1 H2].
    destruct I as [Hn _]. unfold keys in Hn. rewrite Ee in Hn. apply NoDup_cons in Hn as [Hn _].
    split.
    + rewrite history_of_snoc. cbn. rewrite decide_True by done.
      destruct H1 as (g & -> & Hg & Hr). eexists. split; [done|]. split; [done|]. cbn in *.
      intros Hd. specialize (Hr Hd). lia.
    + apply Forall_forall. intros x Hx. eapply Forall_forall in H2; [|exact Hx]. cbn in H2.
      rewrite history_other; [done|done|]. intros r' f' [= <- <-] Hk. apply Hn.
      unfold entry_key at 1. rewrite Hk. by apply list_elem_of_fmap_2.
  - apply counted_quiet; [done..|]. apply counted_all; [done|]. by eapply counted_tail.
  - apply counted_quiet; [done..|]. exact (Hw0 q0 Hw).
  - apply counted_quiet; [done..|]. specialize (Hw0 q0 Hw). apply waits_keys in Hw as [_ He].
    destruct i as [|i]; cbn [decide].
    + rewrite decide_True by done. apply counted_all; [done|]. cbn.
      destruct (entries q0) eqn:E0; [done|]. by eapply counted_tail.
    + rewrite decide_False by done. unfold counted in *; cbn.
      destruct (entries q0) as [|x es]; [done|]. cbn. destruct Hw0. split; [done|].
      by apply Forall_delete.
Qed.

Lemma step_counted op evs q :
  dq_inv q -> counted evs q ->
  counted (evs ++ [fst (dq_step op q)]) (snd (dq_step op q)).
Proof.
  intros I Hc. destruct op as [p t r|k| |t k b|s pl|p cx]; cbn [dq_step].
  - unfold insert. rewrite contains_spec. case_bool_decide as Hk; cbn; [by apply counted_quiet|].
    assert (forall e, e ∈ entries q ->
      history_of (entry_key e) (evs ++ [Accepted r (Z.to_nat (uint_val (mac_max_frame_retries p)))]) =
      history_of (entry_key e) evs) as Ho.
    { intros e He. apply history_other; [|done]. intros r' n [= <- _] E. apply Hk. rewrite E.
      by apply list_elem_of_fmap_2. }
    assert (entry_counted false (history_of (dr_key r)
      (evs ++ [Accepted r (Z.to_nat (uint_val (mac_max_frame_retries p)))]))
      {| data := r; retries_left := Z.to_nat (uint_val (mac_max_frame_retries p));
         timeout := Sleep t (mac_transaction_persistence_time p) |}) as Hnew.
    { rewrite history_of_snoc. cbn. rewrite decide_True by done. eexists. split; [done|].
      split; [done|]. cbn. lia. }
    unfold counted in *. cbn. destruct (entries q) as [|e rest] eqn:Ee; cbn.
    + destruct (is_idle (state q)) eqn:Ei; [by split|]. by destruct (dq_busy q I Ei).
    + destruct Hc as [H1 H2]. split; [rewrite Ho by (by left); done|].
      apply Forall_app. split; [|by apply Forall_singleton].
      apply Forall_forall. intros x Hx. rewrite Ho by (by right). by eapply Forall_forall in H2.
  - pose proof (counted_remove k evs q Hc) as Hr. destruct (remove k q) as [[] q']; cbn in *;
      by apply counted_quiet.
  - cbn. apply counted_quiet; [done..|]. unfold process_datarequest, counted in *.
    destruct (state q) eqn:Es; cbn; by rewrite ?Es.
  - cbn. apply counted_quiet; [done..|]. unfold process_send_result.
    destruct (state q) as [d|sk a pl|a tm|r] eqn:Es; try done. case_decide; [|done].
    unfold counted in *. rewrite Es in Hc. cbn in Hc.
    destruct b; [by destruct a|]. destruct (entries q) as [|e rest] eqn:Ee; [cbn; by rewrite Ee|].
    destruct Hc as [H1 H2]. destruct (indirect e) eqn:Hi; [cbn; rewrite Ee|case_decide; cbn; rewrite ?Ee];
      (split; [|done]); [by eapply entry_counted_indirect|by apply entry_counted_retry|done].
  - cbn. apply counted_quiet; [done..|]. destruct (acknowledge_keys s pl q) as [He Hi].
    unfold counted in *. by rewrite He, Hi.
  - pose proof (poll_counted p cx evs q I Hc). by destruct (poll_next_action p cx q) as [[r p'] q'].
Qed.

Lemma step_sent_bounded op evs q :
  dq_inv q -> counted evs q -> sent_bounded evs -> sent_bounded (evs ++ [fst (dq_step op q)]).
Proof.
  intros I Hc Hb k g. rewrite history_of_snoc.
  pose proof (step_counted op evs q I Hc) as Hc'.
  destruct (fst (dq_step op q)) as [r n|r|k'| |s pl|r f|k' r|b| |] eqn:Eev; cbn; try apply Hb.
  - case_decide; [|apply Hb]. intros [= <-]. cbn. lia.
  - case_decide as Hk; [|apply Hb]. destruct (history_of k evs) as [g0|] eqn:Eh; [|done].
    intros [= <-]. cbn. intros Hd.
    destruct op as [p t r'|k'| |t k' b|s pl|p cx]; cbn in Eev; try done.
    + destruct (insert p t r' q) as [[] ?]; done.
    + destruct (remove k' q) as [[] ?]; done.
    + pose proof (poll_cases p cx q) as Ho. destruct (poll_next_action p cx q) as [[o p'] q'].
      destruct Ho as [b _ _|Ee|e rest b a f' Ee Es _ _ _ _ _ _|e rest o Ee _|q0 _ _|q0 i e _ _ _];
        cbn in Eev; try done. rewrite Ee in Eev. injection Eev as <- <-.
      unfold counted in Hc. rewrite Ee, Es in Hc. cbn in Hc. destruct Hc as [(g1 & E1 & Hi & Hr) _].
      unfold entry_key in E1. rewrite Hk, Eh in E1. injection E1 as <-. rewrite Hd in Hi.
      specialize (Hr (eq_sym Hi)). lia.
Qed.

(** C36: A direct frame is handed out for sending at most once more than the retry
    limit it was accepted with, however often sending fails, acknowledgements are
    missing, or the queue is changed meanwhile. *)
Theorem direct_frame_attempts (ops : list dq_op) (k : UniqueKey) (h : history) :
  history_of k (fst (dq_run ops new)) = Some h -> h_indirect h = false ->
  (h_sent h <= S (h_retries h))%nat.
Proof.
  intros Hh Hd.
  pose proof (dq_run_ind (fun evs q => dq_inv q /\ counted evs q /\ sent_bounded evs)) as Hind.
  refine (proj2 (proj2 (Hind _ _ ops)) k h Hh Hd).
  - split; [split; [constructor|done]|]. split; [done|]. intros ? ?. done.
  - intros evs q op (I & Hc & Hb). split; [by apply dq_step_inv|].
    split; [by apply step_counted|by eapply step_sent_bounded].
Qed.

(** ** Indirect frames wait for data requests *)

Definition sends_indirect (ev : dq_event) : nat :=
  match ev with Sent r _ => if dr_indirect r then 1 else 0 | _ => 0 end.
Definition requests (ev : dq_event) : nat := match ev with DataRequested => 1 | _ => 0 end.
Definition total (f : dq_event -> nat) (evs : list dq_event) : nat := sum_list_with f evs.

(** A data request that has not been answered with a frame yet. *)
Definition requested (s : DeviceQueueState) : nat := match s with Idle true => 1 | _ => 0 end.

Lemma total_snoc f evs ev : total f (evs ++ [ev]) = (total f evs + f ev)%nat.
Proof. unfold total. rewrite sum_list_with_app. cbn. lia. Qed.

Lemma requested_le s : (requested s <= 1)%nat.
Proof. destruct s as [[]| | |]; cbn; lia. Qed.

Lemma step_requests op q :
  (sends_indirect (fst (dq_step op q)) + requested (state (snd (dq_step op q))) <=
   requests (fst (dq_step op q)) + requested (state q))%nat.
Proof.
  destruct op as [p t r|k| |t k b|s pl|p cx]; cbn [dq_step].
  - unfold insert. by destruct (contains _ _).
  - pose proof (remove_state k q) as Hs. destruct (entries q) as [|e rest].
    + destruct (remove k q) as [[] q']; cbn in *; by subst.
    + destruct (decide (entry_key e = k)); [|destruct Hs as [Hs _]];
        destruct (remove k q) as [[] q']; cbn in *; rewrite Hs; cbn; lia.
  - unfold process_datarequest. destruct (state q) eqn:Es; cbn; rewrite ?Es; cbn; lia.
  - cbn. unfold process_send_result.
    destruct (state q) as [d|sk a pl|a tm|r] eqn:Es; rewrite ?Es; try done.
    case_decide; [|by rewrite Es]. destruct b; [by destruct a|].
    destruct (entries q); [done|]. destruct (indirect _); [done|]. by case_decide.
  - cbn. unfold process_acknowledge.
    destruct (state q) as [d|sk a pl'|a tm|r] eqn:Es; rewrite ?Es; try done.
    + destruct (_ && _); cbn; by rewrite ?Es.
    + case_decide; cbn; by rewrite ?Es.
  - pose proof (poll_cases p cx q) as Ho. destruct (poll_next_action p cx q) as [[o p'] q'].
    assert (forall q0, waits cx q q0 -> requested (state q0) = requested (state q)) as Hw0.
    { intros q0 []; try done; cbn; by simplify_eq; match goal with H : state q = _ |- _ => rewrite H end. }
    destruct Ho as [b _ _|Ee|e rest b a f' Ee Es Hi _ _ _ _ _|e rest o Ee _|q0 Hw _|q0 i e Hw _ _];
      cbn; try lia.
    + rewrite Ee, Es. cbn. unfold indirect in Hi. destruct Hi as [-> | ->]; [lia|].
      destruct (dr_indirect _); lia.
    + by rewrite (Hw0 q0 Hw).
    + rewrite <- (Hw0 q0 Hw). case_decide; cbn; lia.
Qed.

(** Indirect frames are handed out for sending at most once per data request of
    the device: at every point of a run the number of indirect frames sent is at
    most the number of data requests received. *)
Theorem indirect_frames_requested (ops : list dq_op) :
  (total sends_indirect (fst (dq_run ops new)) <= total requests (fst (dq_run ops new)))%nat.
Proof.
  pose proof (dq_run_ind (fun evs q =>
    total sends_indirect evs + requested (state q) <= total requests evs)%nat) as Hind.
  specialize (Hind ltac:(cbn; lia)).
  assert (forall ops, (total sends_indirect (fst (dq_run ops new)) +
    requested (state (snd (dq_run ops new))) <= total requests (fst (dq_run ops new)))%nat) as H.
  { apply Hind. intros evs q op Hq. rewrite !total_snoc. pose proof (step_requests op q). lia. }
  specialize (H ops). lia.
Qed.

(** ** What a success means *)

(** The last frame sent and the acknowledgement of it that came first, if any. *)
Definition ack_step (g : option (DataRequest * Frame * option (list Z))) (ev : dq_event) :
    option (DataRequest * Frame * option (list Z)) :=
  match ev with
  | Sent r f => Some (r, f, None)
  | Acknowledged s pl =>
      match g with
      | Some (r, f, None) =>
          if acknowledge_request f && bool_decide (s = sequence_number f)
          then Some (r, f, Some pl) else g
      | _ => g
      end
  | _ => g
  end.
Definition last_sent (evs : list dq_event) : option (DataRequest * Frame * option (list Z)) :=
  foldl ack_step None evs.

Lemma last_sent_snoc evs ev : last_sent (evs ++ [ev]) = ack_step (last_sent evs) ev.
Proof. unfold last_sent. by rewrite foldl_app. Qed.

Definition not_sent (ev : dq_event) : Prop := match ev with Sent _ _ => False | _ => True end.

Lemma last_sent_trace evs r f o :
  last_sent evs = Some (r, f, o) ->
  exists pre post, evs = pre ++ Sent r f :: post /\ Forall not_sent post /\
  forall pl, o = Some pl -> Acknowledged (sequence_number f) pl ∈ post.
Proof.
  revert o. induction evs as [|ev evs IH] using rev_ind; intros o; [done|].
  rewrite last_sent_snoc. intros Hs.
  assert (forall o', last_sent evs = Some (r, f, o') -> not_sent ev ->
    (forall pl, o = Some pl -> o' = Some pl \/ ev = Acknowledged (sequence_number f) pl) ->
    exists pre post, evs ++ [ev] = pre ++ Sent r f :: post /\ Forall not_sent post /\
      forall pl, o = Some pl -> Acknowledged (sequence_number f) pl ∈ post) as Hk.
  { intros o' E Hn Ho. destruct (IH o' E) as (pre & post & -> & Hp & Ha).
    exists pre, (post ++ [ev]). split; [by rewrite <- (assoc_L (++))|]. split.
    - apply Forall_app. split; [done|by apply Forall_singleton].
    - intros pl Hpl. apply elem_of_app. destruct (Ho pl Hpl) as [Ho'| ->].
      + left. by apply Ha.
      + right. by apply list_elem_of_singleton. }
  destruct ev as [r' n|r'|k'| |s pl|r' f'|k' r'|b| |]; cbn in Hs; try (by eapply Hk; [exact Hs|done|auto]).
  - destruct (last_sent evs) as [[[r1 f1] [pl'|]]|] eqn:E; [by eapply Hk; [exact Hs|done|auto]| |done].
    destruct (acknowledge_request f1 && bool_decide (s = sequence_number f1)) eqn:Ec;
      [|by eapply Hk; [exact Hs|done|auto]].
    apply andb_true_iff in Ec as [_ ->%bool_decide_eq_true].
    injection Hs as -> -> <-. eapply (Hk None); [done|done|]. intros pl' [= ->]. by right.
  - injection Hs as -> -> <-. exists evs, []. split; [done|]. split; [constructor|done].
Qed.

(** What a busy state knows of the frame it is about. *)
Definition about (f : Frame) (o : option (list Z)) (s : DeviceQueueState) : Prop :=
  if acknowledge_request f then
    match s with
    | Idle _ => True
    | Sending _ a pl =>
        match o with
        | None => a = sequence_number f /\ is_Some a
        | Some pl' => a = None /\ pl = pl'
        end
    | WaitingForAck a _ => o = None /\ sequence_number f = Some a
    | HaveResult r => forall pl, r = Ok pl -> o = Some pl
    end
  else
    match s with
    | Idle _ => True
    | Sending _ a pl => a = None /\ pl = []
    | WaitingForAck _ _ => False
    | HaveResult r => forall pl, r = Ok pl -> pl = []
    end.

Definition linked (evs : list dq_event) (q : DeviceQueue) : Prop :=
  is_idle (state q) = true \/
  exists r f o e rest, last_sent evs = Some (r, f, o) /\ entries q = e :: rest /\
    data e = r /\ acknowledge_request f = dr_acknowledge_request r /\ about f o (state q).

Lemma linked_quiet evs ev q :
  (forall g, ack_step g ev = g) -> linked evs q -> linked (evs ++ [ev]) q.
Proof. intros Hg. unfold linked. by rewrite last_sent_snoc, Hg. Qed.

Lemma linked_idle evs q b : state q = Idle b -> linked evs q.
Proof. intros E. left. by rewrite E. Qed.

(** The parts of a queue that the link depends on. *)
Lemma linked_ext evs q q' :
  state q' = state q ->
  (forall e rest, entries q = e :: rest -> exists e' rest', entries q' = e' :: rest' /\ data e' = data e) ->
  linked evs q -> linked evs q'.
Proof.
  intros Es He [Hi|(r & f & o & e & rest & E1 & E2 & E3 & E4 & E5)]; [left; by rewrite Es|].
  destruct (He e rest E2) as (e' & rest' & Ee & Ed). right. exists r, f, o, e', rest'.
  rewrite Es, Ed. done.
Qed.

Lemma waits_linked evs cx q q0 : waits cx q q0 -> linked evs q -> linked evs q0.
Proof.
  intros Hw Hl. destruct Hw; try done; by eapply linked_idle.
Qed.

Lemma poll_linked p cx evs q :
  linked evs q ->
  let '(r, _, q') := poll_next_action p cx q in linked (evs ++ [poll_event q r]) q'.
Proof.
  intros Hl. pose proof (poll_cases p cx q) as Ho.
  destruct (poll_next_action p cx q) as [[r p'] q'].
  destruct Ho as [b _ _|Ee|e rest b a f Ee Es _ _ _ Ha Hs Hd|e rest r Ee _|q0 Hw _|q0 i e Hw Hi _];
    cbn [poll_event].
  - by apply linked_quiet.
  - by eapply linked_idle.
  - right. rewrite Ee, last_sent_snoc. cbn. do 5 eexists. split; [reflexivity|].
    split; [exact Ee|]. split; [done|]. split; [done|]. unfold about. cbn. rewrite Hd, Ha.
    destruct (dr_acknowledge_request (data e)); [|done]. split; [done|]. rewrite Hs. by eexists.
  - by eapply linked_idle.
  - apply linked_quiet; [done|]. eapply (waits_linked evs) in Hw; [|done]. exact Hw.
  - apply linked_quiet; [done|]. pose proof (waits_linked evs _ _ _ Hw Hl) as Hl0.
    case_decide as Hz; [by eapply linked_idle|]. eapply linked_ext; [| |exact Hl0]; [done|].
    intros e' rest' Ee. cbn. rewrite Ee. destruct i as [|i]; [done|]. cbn. eauto.
Qed.

Lemma send_result_linked evs t k b q :
  linked evs q -> linked evs (process_send_result t k b q).
Proof.
  intros Hl. unfold process_send_result.
  destruct (state q) as [d|sk a pl|a tm|r] eqn:Es; try done. case_decide; [|done].
  destruct Hl as [Hi|(r & f & o & e & rest & E1 & E2 & E3 & E4 & E5)]; [by rewrite Es in Hi|].
  rewrite Es in E5. unfold about in E5. rewrite E2.
  destruct b.
  - right. exists r, f, o, e, rest. unfold about.
    destruct (acknowledge_request f), o as [pl'|], a as [a|]; cbn; try done; 
      destruct E5 as [? ?]; try done; simplify_eq/=; repeat split; try done;
      try (by destruct (is_Some_None _)); by intros ? [= ->].
  - destruct (indirect e); [by eapply linked_idle|]. case_decide; [by eapply linked_idle|].
    right. exists r, f, o, e, rest. unfold about. destruct (acknowledge_request f); cbn; done.
Qed.

Lemma acknowledge_linked evs s pl q :
  linked evs q -> linked (evs ++ [Acknowledged s pl]) (process_acknowledge s pl q).
Proof.
  intros Hl. unfold process_acknowledge.
  destruct Hl as [Hi|(r & f & o & e & rest & E1 & E2 & E3 & E4 & E5)].
  { destruct (state q) eqn:Es; try done. by eapply linked_idle. }
  assert (forall q', entries q' = entries q ->
    about f (match o with
             | None => if acknowledge_request f && bool_decide (s = sequence_number f)
                       then Some pl else None
             | Some pl' => Some pl' end) (state q') ->
    linked (evs ++ [Acknowledged s pl]) q') as Hk.
  { intros q' Ee Ha. right. rewrite last_sent_snoc, E1. cbn.
    exists r, f. destruct o as [pl'|]; [|destruct (_ && _)]; cbn [fst snd];
      do 3 eexists; (split; [reflexivity|]); rewrite Ee; done. }
  unfold about in E5, Hk. destruct (state q) as [d|sk a pl'|a tm|res] eqn:Es.
  - apply Hk; [done|]. rewrite Es. by destruct (acknowledge_request f).
  - destruct (acknowledge_request f) eqn:Eq; cbn [andb] in Hk.
    + destruct o as [pl0|].
      * destruct E5 as [-> ->]. cbn. apply Hk; [done|]. by rewrite Es.
      * destruct E5 as [-> [x Hx]]. rewrite Hx in *. rewrite bool_decide_true by done. cbn [andb].
        destruct (decide (s = Some x)) as [->|Hs].
        -- rewrite !bool_decide_true in * by done. by apply Hk.
        -- rewrite bool_decide_false by congruence. rewrite bool_decide_false in Hk by done.
           apply Hk; [done|]. rewrite Es. split; [done|]. by eexists.
    + destruct E5 as [-> ->]. cbn. apply Hk; [done|]. by rewrite Es.
  - destruct (acknowledge_request f) eqn:Eq; [|done]. destruct E5 as [-> Hs]. cbn [andb] in Hk.
    rewrite Hs in Hk. destruct (decide (s = Some a)) as [Hd|Hd].
    + rewrite bool_decide_true in Hk by done. apply Hk; [done|]. cbn. by intros ? [= ->].
    + rewrite bool_decide_false in Hk by done. apply Hk; [done|]. by rewrite Es.
  - apply Hk; [done|]. rewrite Es. destruct (acknowledge_request f); [|done].
    intros pl' Hp. by rewrite (E5 pl' Hp).
Qed.

Lemma step_linked op evs q :
  linked evs q -> linked (evs ++ [fst (dq_step op q)]) (snd (dq_step op q)).
Proof.
  intros Hl. destruct op as [p t r|k| |t k b|s pl|p cx]; cbn [dq_step].
  - unfold insert. destruct (contains _ _); cbn; [by apply linked_quiet|].
    apply linked_quiet; [done|]. eapply linked_ext; [| |exact Hl]; [done|].
    intros e rest Ee. cbn. rewrite Ee. cbn. eauto.
  - assert (linked evs (snd (remove k q))) as Hr.
    { pose proof (remove_state k q) as Hs. destruct (entries q) as [|e rest] eqn:Ee.
      - by rewrite Hs.
      - case_decide; [by eapply linked_idle|]. destruct Hs as [Es [rest' Er]].
        eapply linked_ext; [exact Es| |exact Hl]. intros e' r' Ee'. rewrite Ee in Ee'.
        injection Ee' as <- <-. eauto. }
    destruct (remove k q) as [[] q']; cbn in *; by apply linked_quiet.
  - cbn. apply linked_quiet; [done|]. unfold process_datarequest. destruct (state q) eqn:Es.
    + by eapply linked_idle.
    + exact Hl.
    + exact Hl.
    + exact Hl.
  - cbn. apply linked_quiet; [done|]. by apply send_result_linked.
  - cbn. by apply acknowledge_linked.
  - pose proof (poll_linked p cx evs q Hl). by destruct (poll_next_action p cx q) as [[r p'] q'].
Qed.

(** C30: A frame is reported as delivered only when it was: the last frame the queue
    sent is the reported request's, and either it asked for no acknowledgement and
    the payload is empty, or an acknowledgement with its sequence number came after
    it was sent and the payload is that acknowledgement's. *)
Theorem success_was_acknowledged (ops : list dq_op) (op : dq_op) (k : UniqueKey) (pl : list Z) :
  let '(evs, q) := dq_run ops new in
  fst (dq_step op q) = Reported k (Ok pl) ->
  exists r f pre post, evs = pre ++ Sent r f :: post /\ Forall not_sent post /\
    dr_key r = k /\
    (dr_acknowledge_request r = false /\ pl = [] \/
     dr_acknowledge_request r = true /\ Acknowledged (sequence_number f) pl ∈ post).
Proof.
  pose proof (dq_run_ind linked ltac:(by left) ltac:(intros; by apply step_linked) ops) as Hl.
  destruct (dq_run ops new) as [evs q]. cbn [fst snd] in Hl. intros He.
  destruct op as [p t r|k'| |t k' b|s pl'|p cx]; cbn [dq_step] in He; try done.
  { unfold insert in He. by destruct (contains _ _). }
  { by destruct (remove k' q) as [[] ?]. }
  pose proof (poll_cases p cx q) as Ho. destruct (poll_next_action p cx q) as [[o p'] q'].
  destruct Ho as [b _ _|Ee|e rest b a f' Ee Es _ _ _ _ _ _|e rest res Ee Hr|q0 Hw _|q0 i e Hw _ _];
    cbn in He; try done; [by rewrite Ee in He|]. injection He as <- ->.
  destruct Hr as [Hr|(? & ? & _ & _ & _ & _ & ?)]; [|done].
  destruct Hl as [Hi|(r & f & o & e' & rest' & E1 & E2 & E3 & E4 & E5)]; [by rewrite Hr in Hi|].
  rewrite Ee in E2. injection E2 as <- <-. subst r.
  destruct (last_sent_trace evs (data e) f o E1) as (pre & post & -> & Hp & Ha).
  exists (data e), f, pre, post. repeat split; try done.
  unfold about in E5. rewrite Hr, E4 in E5.
  destruct (dr_acknowledge_request (data e)); [right|left]; (split; [done|]); [apply Ha|]; by apply E5.
Qed.

(** ** Timers *)

(** The pending bit that the next poll reports, if it differs from the last. *)
Definition should_be_pending (q : DeviceQueue) : bool :=
  match head (entries q) with Some e => indirect e | None => false end.

(** When the acknowledgement of a direct frame times out with retries left and no
    entry is out of time, the poll arranges the retry but answers [Pending]: the next
    poll would send the frame, yet the stored waker is only woken by an unrelated
    event. *)
Theorem ack_timeout_retry_stalls (p : PIB) (cx cx' : Context) (q : DeviceQueue)
    (e : DeviceQueueEntry) rest a t :
  entries q = e :: rest -> state q = WaitingForAck a t -> cx_expired cx t = true ->
  indirect e = false -> (0 < retries_left e)%nat -> last_pending_reported q = Some (should_be_pending q) ->
  Forall (fun e => cx_expired cx (timeout e) = false) (entries q) ->
  let '(r, p', q') := poll_next_action p cx q in
  r = Pending /\ storage (waker q') = Some (cx_waker cx) /\
  exists f, fst (fst (poll_next_action p' cx' q')) = Ready (SendFrame (cx_key cx') f).
Proof.
  intros Ee Es Ht Hi Hr Hl Hf. unfold should_be_pending in Hl. rewrite Ee in Hl. cbn in Hl.
  rewrite Hi in Hl. unfold poll_next_action at 1. rewrite Hl, Ee. cbn [head].
  rewrite Hi, decide_False by tauto. rewrite Es, Ht, decide_True by done.
  destruct (poll_timeouts_cases cx (set_state (Idle false) (set_entries (use_retry e :: rest) q)))
    as [[-> _]|(i & x & Hx & He & _)].
  - cbn. split; [done|]. split; [done|]. unfold poll_next_action. cbn.
    rewrite Hl. change (indirect (use_retry e)) with (indirect e). rewrite Hi.
    rewrite decide_False by tauto. cbn. eexists. reflexivity.
  - exfalso. rewrite Ee in Hf. apply Forall_cons in Hf as [Hf1 Hf2]. cbn in Hx.
    destruct i as [|i]; cbn in Hx.
    + injection Hx as <-. cbn in He. congruence.
    + eapply Forall_lookup_1 in Hx; [|exact Hf2]. cbn in Hx. congruence.
Qed.

Definition bit (b : bool) : nat := if b then 1 else 0.

(** Polls that are left once every timer has run out. *)
Definition work (q : DeviceQueue) : nat :=
  4 * length (entries q) + bit (bool_decide (last_pending_reported q <> Some (should_be_pending q))) +
  bit (is_idle (state q)).

Fixpoint drain (fuel : nat) (p : PIB) (cx : Context) (q : DeviceQueue) :
    exec (list UniqueKey * DeviceQueue) :=
  match fuel with
  | O => Err OutOfFuel
  | S fuel =>
      match poll_next_action p cx q with
      | (Pending, _, _) => Err OutOfFuel
      | (Ready Empty, _, q) => Ok ([], q)
      | (Ready (ReportResult k _), p, q) => '(ks, q) ← drain fuel p cx q; Ok (k :: ks, q)
      | (Ready _, p, q) => drain fuel p cx q
      end
  end.

Lemma bit_le b : (bit b <= 1)%nat.
Proof. destruct b; cbn; lia. Qed.

Lemma length_delete_lt {A} (l : list A) i x :
  l !! i = Some x -> S (length (delete i l)) = length l.
Proof.
  intros Hi. pose proof (lookup_lt_Some _ _ _ Hi). rewrite length_delete by (by eexists). lia.
Qed.

(** A poll with every timer run out does something, and leaves less to do. *)
Lemma poll_expired_work p cx q :
  (forall t, cx_expired cx t = true) ->
  let '(r, p', q') := poll_next_action p cx q in
  (r = Ready Empty /\ entries q = [] /\ entries q' = []) \/
  (r <> Pending /\ r <> Ready Empty /\ (work q' < work q)%nat).
Proof.
  intros Hx. pose proof (poll_cases p cx q) as Ho.
  destruct (poll_next_action p cx q) as [[r p'] q'].
  assert (forall q0, waits cx q q0 -> length (entries q0) = length (entries q)) as Hw0.
  { intros q0 Hw. apply waits_keys in Hw as [Hk _]. apply (f_equal length) in Hk.
    unfold keys in Hk. by rewrite !length_fmap in Hk. }
  destruct Ho as [b Hl Hb|Ee|e rest b a f Ee Es _ _ _ _ _ _|e rest r Ee _|q0 Hw Hf|q0 i e Hw Hi _].
  - right. split; [done|]. split; [done|]. unfold work, should_be_pending. cbn. rewrite <- Hb.
    rewrite bool_decide_false by tauto. rewrite bool_decide_true by done. cbn. lia.
  - by left.
  - right. split; [done|]. split; [done|]. unfold work, should_be_pending. cbn. rewrite Es. cbn. lia.
  - right. split; [done|]. split; [done|]. unfold work. cbn. rewrite Ee. cbn.
    match goal with |- context [bit (bool_decide ?P)] => pose proof (bit_le (bool_decide P)) end. lia.
  - exfalso. apply waits_keys in Hw as [_ He]. destruct (entries q0) as [|x l]; [done|].
    apply Forall_cons in Hf as [Hf _]. by rewrite Hx in Hf.
  - right. split; [done|]. split; [done|].
    apply length_delete_lt in Hi. rewrite (Hw0 q0 Hw) in Hi.
    set (q' := (if decide (i = 0%nat) then set_state (Idle false) else id) _).
    assert (length (entries q') < length (entries q))%nat as Hlt.
    { unfold q'. case_decide; cbn; lia. }
    clearbody q'. unfold work.
    pose proof (bit_le (bool_decide (last_pending_reported q' <> Some (should_be_pending q')))).
    pose proof (bit_le (is_idle (state q'))). lia.
Qed.

(** Nothing waits for ever: once every timer has run out, at most four polls per
    entry and three more empty the queue, and they report exactly the entries that
    were left. *)
Theorem device_queue_drains (fuel : nat) (p : PIB) (cx : Context) (q : DeviceQueue) :
  dq_inv q -> (forall t, cx_expired cx t = true) -> (4 * length (entries q) + 2 < fuel)%nat ->
  exists ks q', drain fuel p cx q = Ok (ks, q') /\ entries q' = [] /\ ks ≡ₚ keys q.
Proof.
  intros I Hx Hl.
  assert (work q < fuel)%nat as Hw.
  { unfold work. pose proof (bit_le (is_idle (state q))).
    pose proof (bit_le (bool_decide (last_pending_reported q <> Some (should_be_pending q)))). lia. }
  clear Hl. revert p q I Hw. induction fuel as [|fuel IH]; intros p q I Hw; [lia|]. cbn [drain].
  pose proof (poll_expired_work p cx q Hx) as Hs. pose proof (dq_poll_inv p cx q I) as I'.
  pose proof (step_conserves (QPoll p cx) q I) as Hc. cbn [dq_step] in Hc.
  destruct (poll_next_action p cx q) as [[r p'] q'] eqn:Ep. cbn in I'.
  destruct Hs as [(-> & E1 & E2)|(Hn & Hn' & Hlt)].
  { exists [], q'. split; [done|]. split; [done|]. unfold keys. by rewrite E1. }
  destruct (IH p' q' I' ltac:(lia)) as (ks & q2 & E & He & Hk).
  destruct r as [[|b|k f|k r]|]; try done; cbn in Hc.
  - exists ks, q2. rewrite E. split; [done|]. split; [done|]. by rewrite Hk, Hc.
  - exists ks, q2. rewrite E. split; [done|]. split; [done|]. rewrite Hk.
    destruct (entries q); cbn in Hc; by rewrite Hc.
  - exists (k :: ks), q2. rewrite E. split; [done|]. split; [done|]. by rewrite Hk, Hc.
Qed.

(** ** Witnesses *)

Definition example_request (key : N) (ack indirect : bool) : DataRequest := {|
  dr_key := MkKey key;
  dr_destination := Some (FullAddr (PanId 0x1234) (AddrShort (ShortAddr 0x5678)));
  dr_source_mode := AM_Short;
  dr_acknowledge_request := ack;
  dr_indirect := indirect;
  dr_content := FTData (MkPayload [1%Z; 2%Z]);
|}.
Definition poll_context (key : N) (expired : Timer -> bool) : Context :=
  {| cx_waker := MkWaker 1; cx_key := MkKey key; cx_timer := 0; cx_expired := expired |}.
Definition no_timer : Timer -> bool := fun _ => false.
Definition ack_timer : Timer -> bool := fun t => bool_decide (timer_duration t = from_millis 100).

(** A direct frame is accepted, sent and acknowledged. *)
Definition example_ops : list dq_op :=
  [QInsert example_pib 1 (example_request 10 true false);
   QPoll example_pib (poll_context 20 no_timer);
   QPoll example_pib (poll_context 21 no_timer);
   QSendResult 2 (MkKey 21) true;
   QAck (Some 250%Z) [9%Z]].

Lemma direct_frame_attempts_witness :
  history_of (MkKey 10) (fst (dq_run example_ops new)) = Some (History false 3 1) /\ (1 <= 4)%nat.
Proof.
  split; [vm_compute; reflexivity|].
  refine (direct_frame_attempts example_ops (MkKey 10) (History false 3 1) _ _).
  - vm_compute. reflexivity.
  - reflexivity.
Defined.

Lemma success_was_acknowledged_witness :
  exists r f pre post, fst (dq_run example_ops new) = pre ++ Sent r f :: post /\
    Forall not_sent post /\ dr_key r = MkKey 10 /\
    (dr_acknowledge_request r = false /\ [9%Z] = [] \/
     dr_acknowledge_request r = true /\ Acknowledged (sequence_number f) [9%Z] ∈ post).
Proof.
  exact (success_was_acknowledged example_ops (QPoll example_pib (poll_context 22 no_timer))
    (MkKey 10) [9%Z] eq_refl).
Defined.

(** The same frame, sent but not acknowledged in time. *)
Definition stalled_queue : DeviceQueue := snd (dq_run (take 4 example_ops) new).

Lemma ack_timeout_retry_stalls_witness :
  let '(r, p', q') := poll_next_action example_pib (poll_context 30 ack_timer) stalled_queue in
  r = Pending /\ storage (waker q') = Some (MkWaker 1) /\
  exists f, fst (fst (poll_next_action p' (poll_context 31 no_timer) q')) = Ready (SendFrame (MkKey 31) f).
Proof.
  refine (ack_timeout_retry_stalls example_pib (poll_context 30 ack_timer) (poll_context 31 no_timer)
    stalled_queue _ _ _ _ eq_refl eq_refl eq_refl eq_refl _ eq_refl _).
  - cbn. lia.
  - vm_compute. repeat constructor.
Defined.

Lemma stalled_queue_inv : dq_inv stalled_queue.
Proof.
  split; [|by vm_compute]. vm_compute. constructor; [by intros ?%not_elem_of_nil|constructor].
Qed.

Lemma device_queue_drains_witness :
  exists ks q', drain 7 example_pib (poll_context 40 (fun _ => true)) stalled_queue = Ok (ks, q') /\
    entries q' = [] /\ ks ≡ₚ keys stalled_queue.
Proof.
  refine (device_queue_drains 7 example_pib (poll_context 40 (fun _ => true)) stalled_queue _ _ _).
  - exact stalled_queue_inv.
  - reflexivity.
  - vm_compute. lia.
Defined.
