(* ===== verification/BiMap.v ===== *)
(** * The contract of the two-way map ([bimap::BiMap], a third-party crate)

    The data service keeps the handles of its clients and the keys of its queues in
    a map that is one to one, and the MAC service of the first version the short and the
    extended addresses of its devices.  Its operations are a parameter of the model, with
    the laws its documentation gives: looking a key up from either side gives the
    same pairs; inserting a pair overwrites the pairs that share either side;
    removing gives the removed pair back. *)

From S2P Require Import Prelude.

Class BiMap (L R M : Type) `{EqDecision L, EqDecision R} := {
  bm_new : M;
  bm_insert : L -> R -> M -> M;
  bm_remove_by_left : L -> M -> option (L * R) * M;
  bm_remove_by_right : R -> M -> option (L * R) * M;
  bm_get : M -> L -> option R;
  bm_get_by_right : M -> R -> option L;
  bm_contains_left : M -> L -> bool;
}.
Arguments bm_new {L R M _ _ _}.

Class BiMapLaws (L R M : Type) `{BiMap L R M} := {
  bm_get_new l : bm_get (M := M) bm_new l = None;
  bm_get_inj (m : M) l l' r : bm_get m l = Some r -> bm_get m l' = Some r -> l = l';
  bm_get_insert (m : M) l r l' :
    bm_get (bm_insert l r m) l' =
      if decide (l' = l) then Some r
      else if decide (bm_get m l' = Some r) then None else bm_get m l';
  bm_remove_left_pair (m : M) l :
    fst (bm_remove_by_left l m) = (fun r => (l, r)) <$> bm_get m l;
  bm_get_remove_left (m : M) l l' :
    bm_get (snd (bm_remove_by_left l m)) l' = if decide (l' = l) then None else bm_get m l';
  bm_remove_right_pair (m : M) l r :
    fst (bm_remove_by_right r m) = Some (l, r) <-> bm_get m l = Some r;
  bm_remove_right_key (m : M) l r r' :
    fst (bm_remove_by_right r m) = Some (l, r') -> r' = r;
  bm_get_remove_right (m : M) r l' :
    bm_get (snd (bm_remove_by_right r m)) l' =
      if decide (bm_get m l' = Some r) then None else bm_get m l';
  bm_get_right (m : M) l r : bm_get_by_right m r = Some l <-> bm_get m l = Some r;
  bm_contains_left_get (m : M) l : bm_contains_left m l = bool_decide (is_Some (bm_get m l));
}.

(** ** A reference map that keeps the contract: a list of pairs without repetitions *)

Section reference.
Context {L R : Type} `{EqDecision L, EqDecision R}.
Implicit Types (ps : list (L * R)) (l : L) (r : R).

Definition one_to_one ps : Prop := NoDup (ps.*1) /\ NoDup (ps.*2).
#[local] Instance one_to_one_dec ps : Decision (one_to_one ps).
Proof. unfold one_to_one. apply _. Defined.

Record ref_map := RefMap { pairs : list (L * R); pairs_ok : bool_decide (one_to_one pairs) = true }.

Lemma NoDup_fmap_filter {A B} (f : A -> B) (P : A -> Prop) `{!forall x, Decision (P x)} (l : list A) :
  NoDup (f <$> l) -> NoDup (f <$> filter P l).
Proof.
  induction l as [|x l IH]; [done|]. rewrite fmap_cons, filter_cons.
  intros [Hx Hn]%NoDup_cons.
  case_decide; [|by apply IH]. rewrite fmap_cons. apply NoDup_cons. split; [|by apply IH].
  intros (y & E & [_ Hy]%list_elem_of_filter)%list_elem_of_fmap.
  apply Hx. rewrite E. by apply list_elem_of_fmap_2.
Qed.

Lemma one_to_one_filter (P : L * R -> Prop) `{!forall x, Decision (P x)} ps :
  one_to_one ps -> one_to_one (filter P ps).
Proof. intros [H1 H2]. split; by apply NoDup_fmap_filter. Qed.

Lemma pairs_one_to_one (m : ref_map) : one_to_one (pairs m).
Proof. apply (bool_decide_eq_true _), pairs_ok. Qed.

Lemma one_to_one_cons l r ps :
  one_to_one ps -> one_to_one ((l, r) :: filter (fun p => fst p <> l /\ snd p <> r) ps).
Proof.
  intros Hp. destruct (one_to_one_filter (fun p => fst p <> l /\ snd p <> r) ps Hp) as [H1 H2].
  split; cbn; apply NoDup_cons; (split; [|assumption]);
    intros (p & E & Hin)%list_elem_of_fmap; apply list_elem_of_filter in Hin as [[Ha Hb] _];
    congruence.
Qed.

Definition ref_filter (P : L * R -> Prop) `{!forall x, Decision (P x)} (m : ref_map) : ref_map :=
  RefMap (filter P (pairs m))
    (bool_decide_eq_true_2 _ (one_to_one_filter P (pairs m) (pairs_one_to_one m))).

Definition ref_cons l r (m : ref_map) : ref_map :=
  RefMap ((l, r) :: filter (fun p => fst p <> l /\ snd p <> r) (pairs m))
    (bool_decide_eq_true_2 _ (one_to_one_cons l r (pairs m) (pairs_one_to_one m))).

Definition ref_find (P : L * R -> Prop) `{!forall x, Decision (P x)} (m : ref_map) : option (L * R) :=
  snd <$> list_find P (pairs m).

#[export] Instance BiMap_reference : BiMap L R ref_map := {|
  bm_new := RefMap [] (bool_decide_eq_true_2 _ (conj (NoDup_nil_2) (NoDup_nil_2)));
  bm_insert := ref_cons;
  bm_remove_by_left l m := (ref_find (fun p => fst p = l) m, ref_filter (fun p => fst p <> l) m);
  bm_remove_by_right r m := (ref_find (fun p => snd p = r) m, ref_filter (fun p => snd p <> r) m);
  bm_get m l := snd <$> ref_find (fun p => fst p = l) m;
  bm_get_by_right m r := fst <$> ref_find (fun p => snd p = r) m;
  bm_contains_left m l := bool_decide (is_Some (ref_find (fun p => fst p = l) m));
|}.

(** *** The laws *)

Lemma ref_find_fst (m : ref_map) l l' r :
  ref_find (fun p => fst p = l) m = Some (l', r) <-> l' = l /\ (l, r) ∈ pairs m.
Proof.
  unfold ref_find. destruct (pairs_one_to_one m) as [Hn _]. split.
  - intros Hf. destruct (list_find _ _) as [[i [x y]]|] eqn:E; [|done]. injection Hf as -> ->.
    apply list_find_Some in E as (Hi & Hx & _). cbn in Hx. subst l'. split; [done|].
    by eapply list_elem_of_lookup_2.
  - intros [-> Hin]. destruct (list_find _ _) as [[i [x y]]|] eqn:E.
    + apply list_find_Some in E as (Hi & Hx & _). cbn in *. subst x. do 2 f_equal.
      apply list_elem_of_lookup in Hin as [j Hj].
      assert (i = j) as ->; [|congruence].
      eapply NoDup_lookup; [exact Hn| |]; rewrite list_lookup_fmap; [by rewrite Hi|by rewrite Hj].
    + apply list_find_None in E. eapply Forall_forall in E; [|exact Hin]. done.
Qed.

Lemma ref_find_snd (m : ref_map) l r r' :
  ref_find (fun p => snd p = r) m = Some (l, r') <-> r' = r /\ (l, r) ∈ pairs m.
Proof.
  unfold ref_find. destruct (pairs_one_to_one m) as [_ Hn]. split.
  - intros Hf. destruct (list_find _ _) as [[i [x y]]|] eqn:E; [|done]. injection Hf as -> ->.
    apply list_find_Some in E as (Hi & Hx & _). cbn in Hx. subst r'. split; [done|].
    by eapply list_elem_of_lookup_2.
  - intros [-> Hin]. destruct (list_find _ _) as [[i [x y]]|] eqn:E.
    + apply list_find_Some in E as (Hi & Hx & _). cbn in *. subst y. do 2 f_equal.
      apply list_elem_of_lookup in Hin as [j Hj].
      assert (i = j) as ->; [|congruence].
      eapply NoDup_lookup; [exact Hn| |]; rewrite list_lookup_fmap; [by rewrite Hi|by rewrite Hj].
    + apply list_find_None in E. eapply Forall_forall in E; [|exact Hin]. done.
Qed.

Lemma ref_get_Some (m : ref_map) l r : bm_get m l = Some r <-> (l, r) ∈ pairs m.
Proof.
  cbn. destruct (ref_find (fun p => fst p = l) m) as [[l' r']|] eqn:E; cbn.
  - apply ref_find_fst in E as [-> Hin]. split; [by intros [= <-]|]. intros Hr.
    pose proof (proj2 (ref_find_fst m l l r) (conj eq_refl Hr)) as E1.
    pose proof (proj2 (ref_find_fst m l l r') (conj eq_refl Hin)) as E2. congruence.
  - split; [done|]. intros Hr. by rewrite (proj2 (ref_find_fst m l l r) (conj eq_refl Hr)) in E.
Qed.

Lemma ref_get_eq (m m' : ref_map) l l' (Q : Prop) `{!Decision Q} :
  (forall r, (l, r) ∈ pairs m' <-> ~ Q /\ (l', r) ∈ pairs m) ->
  bm_get m' l = if decide Q then None else bm_get m l'.
Proof.
  intros Hp. apply option_eq. intros r. rewrite ref_get_Some, Hp. case_decide.
  - split; [tauto|done].
  - rewrite ref_get_Some. tauto.
Qed.

#[export] Instance BiMap_reference_laws : BiMapLaws L R ref_map.
Proof.
  split.
  - done.
  - intros m l l' r H1%ref_get_Some H2%ref_get_Some.
    pose proof (proj2 (ref_find_snd m l r r) (conj eq_refl H1)) as E1.
    pose proof (proj2 (ref_find_snd m l' r r) (conj eq_refl H2)) as E2. congruence.
  - intros m l r l'. apply option_eq. intros x. rewrite ref_get_Some. cbn [bm_insert BiMap_reference ref_cons pairs].
    rewrite elem_of_cons, list_elem_of_filter. cbn [fst snd]. case_decide as Hl.
    + subst. split; [intros [E|[[? _] _]]; congruence|intros [= <-]; by left].
    + rewrite <- ref_get_Some. case_decide as Hr.
      * split; [|done]. intros [?|[[_ Hx] Hg]]; congruence.
      * split; [intros [?|[_ ?]]; [congruence|done]|]. intros Hg. right. split; [|done].
        split; [done|]. intros ->. done.
  - intros m l. cbn. destruct (ref_find _ m) as [[l' r]|] eqn:E; [|done].
    apply ref_find_fst in E as [-> _]. done.
  - intros m l l'. apply (ref_get_eq m _ l' l' (l' = l)). intros r.
    cbn [bm_remove_by_left BiMap_reference snd ref_filter pairs].
    rewrite list_elem_of_filter. done.
  - intros m l r. cbn [bm_remove_by_right BiMap_reference fst].
    rewrite ref_find_snd, ref_get_Some. tauto.
  - intros m l r r'. cbn [bm_remove_by_right BiMap_reference fst]. by intros [? _]%ref_find_snd.
  - intros m r l'. apply option_eq. intros x. rewrite ref_get_Some.
    cbn [bm_remove_by_right BiMap_reference snd ref_filter pairs].
    rewrite list_elem_of_filter, <- ref_get_Some. cbn [snd].
    case_decide; (split; [|try done]); [intros [? ?]; congruence|by intros [_ ?]|].
    intros Hg. split; [congruence|done].
  - intros m l r. rewrite ref_get_Some. cbn [bm_get_by_right BiMap_reference]. split.
    + destruct (ref_find _ m) as [[l' r']|] eqn:E; [|done]. intros [= ->].
      by apply ref_find_snd in E as [-> ?].
    + intros Hin. by rewrite (proj2 (ref_find_snd m l r r) (conj eq_refl Hin)).
  - intros m l. cbn. apply bool_decide_ext. by rewrite fmap_is_Some.
Qed.
End reference.
Arguments ref_map L R {_ _}.
