(* ===== verification/DataService.v ===== *)
(** * The data service ([mac/data.rs])

    One queue per destination, the handles of the clients' requests, and the
    radio's pending tables.  [poll_action] carries the queues' internal actions out
    (discarding empty queues, setting pending bits, dropping reports nobody waits
    for) until there is something for the radio or a client to do.

    Shown in [DataServiceTheory.v]: [poll_action] terminates and never panics;
    every outstanding handle's frame is still queued, so that its confirm comes;
    purging stops a frame; and when nothing is left to do the pending tables hold
    exactly the short addresses whose next frame is indirect. *)

From Stdlib Require Import ZArith Lia.
From S2P Require Import Prelude Pack Frame Async PendingTable CombinedPendingTable Pib.
From S2P Require Import Services DeviceQueue BiMap.

Module DS.

Inductive DataServiceAction :=
| InitPendingTable (key : UniqueKey)
| SetPendingShort (key : UniqueKey) (index : nat) (v : option (PANID * ShortAddress))
| SetPendingExtended (key : UniqueKey) (index : nat) (v : option ExtendedAddress)
| SendFrame (key : UniqueKey) (f : Frame)
| Confirm (c : mcps.Confirm).

(** [From<CombinedPendingTableAction> for DataServiceAction] *)
Definition from_table_action (a : CPT.CombinedPendingTableAction) : DataServiceAction :=
  match a with
  | CPT.Init x => InitPendingTable x
  | CPT.UpdateShort k i v => SetPendingShort k i v
  | CPT.UpdateExtended k i v => SetPendingExtended k i v
  end.

Abbreviation dest := (option FullAddress).
Abbreviation queue_map := (gmap (option FullAddress) DQ.DeviceQueue).

Section data_service.
Context {M : Type} `{!BiMap mcps.MsduHandle UniqueKey M}.

Record DataService := {
  queues : queue_map;
  msdu_handles : M;
  pending_table : CPT.CombinedPendingTable;
  waker : WakerStore;
}.

Definition new : DataService :=
  {| queues := ∅; msdu_handles := bm_new; pending_table := CPT.new; waker := ws_new |}.

(** Field updates. *)
Definition set_queues (qs : queue_map) (s : DataService) : DataService :=
  {| queues := qs; msdu_handles := msdu_handles s; pending_table := pending_table s;
     waker := waker s |}.
Definition set_handles (m : M) (s : DataService) : DataService :=
  {| queues := queues s; msdu_handles := m; pending_table := pending_table s; waker := waker s |}.
Definition set_table (t : CPT.CombinedPendingTable) (s : DataService) : DataService :=
  {| queues := queues s; msdu_handles := msdu_handles s; pending_table := t; waker := waker s |}.
Definition set_waker (w : WakerStore) (s : DataService) : DataService :=
  {| queues := queues s; msdu_handles := msdu_handles s; pending_table := pending_table s;
     waker := w |}.

Definition insert (p : PIB) (timer : N) (entry : DataRequest) (s : DataService) : DataService :=
  match queues s !! dr_destination entry with
  | Some existing =>
      set_queues (<[dr_destination entry := snd (DQ.insert p timer entry existing)]> (queues s)) s
  | None =>
      let new_queue := snd (DQ.insert p timer entry DQ.new) in
      let s := set_queues (<[dr_destination entry := new_queue]> (queues s)) s in
      set_waker (ws_wake (waker s)) s
  end.

(** [for (_, queue) in self.queues.iter_mut() { removed = removed || queue.remove(key) }],
    in the order the map iterates. *)
Fixpoint remove_loop (key : UniqueKey) (ds : list dest) (removed : bool) (qs : queue_map) :
    bool * queue_map :=
  match ds with
  | [] => (removed, qs)
  | d :: ds =>
      match qs !! d with
      | Some q =>
          if removed then remove_loop key ds removed qs
          else let '(removed, q) := DQ.remove key q in
               remove_loop key ds removed (<[d := q]> qs)
      | None => remove_loop key ds removed qs
      end
  end.

Definition destinations (s : DataService) : list dest := elements (dom (queues s)).

Definition remove (ord : IterOrder dest) (key : UniqueKey) (s : DataService) : bool * DataService :=
  let '(removed, qs) := remove_loop key (ord 0%nat (destinations s)) false (queues s) in
  (removed, set_queues qs s).

(** The inner loop of [poll_action]: queues are polled until one is ready. *)
Fixpoint poll_queues (cx : Context) (ds : list dest) (p : PIB) (qs : queue_map) :
    option (dest * DQ.DeviceQueueAction) * PIB * queue_map :=
  match ds with
  | [] => (None, p, qs)
  | d :: ds =>
      match qs !! d with
      | Some q =>
          match DQ.poll_next_action p cx q with
          | (Ready x, p, q) => (Some (d, x), p, <[d := q]> qs)
          | (Pending, p, q) => poll_queues cx ds p (<[d := q]> qs)
          end
      | None => poll_queues cx ds p qs
      end
  end.

Definition confirm_error (e : DQ.DeviceQueueError) : Error :=
  match e with
  | DQ.TransactionExpired => TransactionExpired
  | DQ.SendFailure => ChannelAccessFailure
  | DQ.NoAck => NoAck
  end.

(** [poll_action]; each round of the outer loop iterates the map anew. *)
Fixpoint poll_action (fuel : nat) (ord : IterOrder dest) (cx : Context) (p : PIB)
    (s : DataService) : exec (Poll DataServiceAction * PIB * DataService) :=
  match fuel with
  | O => Err OutOfFuel
  | S fuel =>
      match CPT.poll_action cx (pending_table s) with
      | (Ready x, t) => Ok (Ready (from_table_action x), p, set_table t s)
      | (Pending, t) =>
          let s := set_table t s in
          let '(r, p, qs) := poll_queues cx (ord fuel (destinations s)) p (queues s) in
          let s := set_queues qs s in
          match r with
          | None =>
              let '(r, w) := ws_pend (cx_waker cx) (waker s) in Ok (r, p, set_waker w s)
          | Some (destination, DQ.Empty) =>
              poll_action fuel ord cx p (set_queues (delete destination (queues s)) s)
          | Some (destination, DQ.SetPending pending) =>
              t ← CPT.set destination pending (pending_table s);
              poll_action fuel ord cx p (set_table t s)
          | Some (_, DQ.SendFrame key frame) => Ok (Ready (SendFrame key frame), p, s)
          | Some (_, DQ.ReportResult key result) =>
              let '(removed, m) := bm_remove_by_right key (msdu_handles s) in
              let s := set_handles m s in
              match removed with
              | Some (handle, _) =>
                  Ok (Ready (Confirm (mcps.ConfData (mcps.MkDataConfirm handle
                        (map_err confirm_error result)))), p, s)
              | None => poll_action fuel ord cx p s
              end
          end
      end
  end.

Definition process_init_pending_table_result (key : UniqueKey) (success : bool) (s : DataService) :
    DataService :=
  set_table (CPT.report_init_result key success (pending_table s)) s.
Definition process_set_pending_result (key : UniqueKey) (success : bool) (s : DataService) :
    exec DataService :=
  t ← CPT.report_update_result key success (pending_table s); Ok (set_table t s).
Definition process_send_result (timer : N) (key : UniqueKey) (success : bool) (s : DataService) :
    DataService :=
  set_queues (DQ.process_send_result timer key success <$> queues s) s.

Definition process_frame_ack (f : Frame) (payload : Payload) (s : DataService) : DataService :=
  set_queues (DQ.process_acknowledge (sequence_number f) (payload_bytes payload) <$> queues s) s.

Definition process_frame_data_request (p : PIB) (f : Frame) (s : DataService) : DataService :=
  if decide (destination f = Some (get_full_short_address p) \/
             destination f = Some (get_full_extended_address p)) then
    match queues s !! source f with
    | Some q => set_queues (<[source f := DQ.process_datarequest q]> (queues s)) s
    | None => s
    end
  else s.

Definition process_frame (p : PIB) (f : Frame) (s : DataService) : DataService :=
  match frame_type f with
  | FTAck payload => process_frame_ack f payload s
  | FTCommand Frame.DataRequest => process_frame_data_request p f s
  | _ => s
  end.

(** [process_mcps_data_request], given the unique key. *)
Definition process_mcps_data_request (p : PIB) (key : UniqueKey) (timer : N)
    (r : mcps.DataRequest) (s : DataService) : option mcps.Confirm * DataService :=
  let internal_request := {|
    dr_key := key;
    dr_destination := mcps.destination r;
    dr_source_mode := mcps.source_addressing_mode r;
    dr_acknowledge_request := mcps.ack_tx r;
    dr_indirect := mcps.indirect_tx r;
    dr_content := FTData (MkPayload (mcps.msdu r));
  |} in
  let s := insert p timer internal_request s in
  (None, set_handles (bm_insert (mcps.msdu_handle r) key (msdu_handles s)) s).

Definition process_mcps_purge_request (ord : IterOrder dest) (r : mcps.PurgeRequest)
    (s : DataService) : mcps.Confirm * DataService :=
  let '(removed, m) := bm_remove_by_left (mcps.purge_handle r) (msdu_handles s) in
  let s := set_handles m s in
  match removed with
  | Some (handle, key) =>
      (mcps.ConfPurge (mcps.MkPurgeConfirm handle (Ok tt)), snd (remove ord key s))
  | None =>
      (mcps.ConfPurge (mcps.MkPurgeConfirm (mcps.purge_handle r) (Err InvalidHandle)), s)
  end.

Definition process_mcps_request (p : PIB) (ord : IterOrder dest) (key : UniqueKey) (timer : N)
    (r : mcps.Request) (s : DataService) : option mcps.Confirm * DataService :=
  match r with
  | mcps.ReqData r => process_mcps_data_request p key timer r s
  | mcps.ReqPurge r =>
      let '(c, s) := process_mcps_purge_request ord r s in (Some c, s)
  end.

(** [process_mcps_response]: there are no responses. *)
Definition process_mcps_response (r : mcps.Response) (s : DataService) : DataService :=
  match r with end.
End data_service.
Arguments DataService : clear implicits.

End DS.
