(* ===== verification/DataServiceTheory.v ===== *)
(** * Theory of the data service

    Its invariant, kept by every operation; termination of [poll_action]; and what
    holds of the handles and of the pending tables. *)

From Stdlib Require Import ZArith Lia.
From S2P Require Import Prelude Pack Frame Async PendingTable PendingTableTheory.
From S2P Require Import CombinedPendingTable CombinedPendingTableTheory Pib Services.
From S2P Require Import DeviceQueue DeviceQueueTheory BiMap DataService.

Import DS.

(** ** Queues that only waited *)

(** [q'] holds the same requests as [q] and has reported the same pending bit. *)
Definition same (q q' : DQ.DeviceQueue) : Prop :=
  DQ.data <$> DQ.entries q' = DQ.data <$> DQ.entries q /\
  DQ.last_pending_reported q' = DQ.last_pending_reported q /\ (dq_inv q -> dq_inv q').

#[export] Instance same_preorder : PreOrder same.
Proof.
  split; [by intros q|]. intros a b c (H1 & H2 & H3) (H4 & H5 & H6).
  split; [congruence|]. split; [congruence|auto].
Qed.

Lemma keys_data q : keys q = dr_key <$> (DQ.data <$> DQ.entries q).
Proof. unfold keys. by rewrite <- list_fmap_compose. Qed.

Lemma same_keys q q' : same q q' -> keys q' = keys q.
Proof. intros (E & _). by rewrite !keys_data, E. Qed.

Lemma should_data q :
  should_be_pending q = match head (DQ.data <$> DQ.entries q) with Some r => dr_indirect r | None => false end.
Proof. unfold should_be_pending. by destruct (DQ.entries q). Qed.

Lemma same_should q q' : same q q' -> should_be_pending q' = should_be_pending q.
Proof. intros (E & _). by rewrite !should_data, E. Qed.

Lemma waits_data cx q q0 :
  waits cx q q0 ->
  DQ.data <$> DQ.entries q0 = DQ.data <$> DQ.entries q /\
  DQ.last_pending_reported q0 = DQ.last_pending_reported q.
Proof. intros []; try done. cbn. match goal with H : DQ.entries q = _ |- _ => by rewrite H end. Qed.

(** The pending bit is reported before anything else. *)
Lemma poll_reported p cx q r p' q' :
  DQ.poll_next_action p cx q = (r, p', q') -> (forall b, r <> Ready (DQ.SetPending b)) ->
  DQ.last_pending_reported q = Some (should_be_pending q).
Proof.
  intros Hp Hr. destruct (decide (DQ.last_pending_reported q = Some (should_be_pending q))) as [|Hn];
    [done|]. unfold DQ.poll_next_action in Hp. rewrite decide_True in Hp by exact Hn.
  injection Hp as <- _ _. by destruct (Hr (should_be_pending q)).
Qed.

Lemma poll_pending_same p cx q p' q' :
  DQ.poll_next_action p cx q = (Pending, p', q') ->
  same q q' /\ DQ.last_pending_reported q' = Some (should_be_pending q').
Proof.
  intros Hp. pose proof (poll_cases p cx q) as Ho. rewrite Hp in Ho.
  assert (same q q') as Hs.
  { split; [|split; [|intros I; pose proof (dq_poll_inv p cx q I) as I'; by rewrite Hp in I']];
      inversion Ho; subst; cbn; by eapply waits_data. }
  split; [done|]. rewrite (same_should _ _ Hs). destruct Hs as (_ & -> & _).
  by eapply poll_reported.
Qed.

(** ** What is left to poll *)

Definition queue_work (q : DQ.DeviceQueue) : nat :=
  2 * length (DQ.entries q) +
  bit (bool_decide (DQ.last_pending_reported q <> Some (should_be_pending q))) + 1.

Lemma same_work q q' : same q q' -> queue_work q' = queue_work q.
Proof.
  intros Hs. unfold queue_work. rewrite (same_should _ _ Hs). destruct Hs as (E & -> & _).
  apply (f_equal length) in E. rewrite !length_fmap in E. by rewrite E.
Qed.

Lemma sum_list_perm (l l' : list nat) : l ≡ₚ l' -> sum_list l = sum_list l'.
Proof. induction 1; cbn; lia. Qed.

(** The sum of a measure over the queues. *)
Definition sum_over (f : DQ.DeviceQueue -> nat) (qs : queue_map) : nat :=
  sum_list ((map_to_list (f <$> qs)).*2).

Lemma sum_over_delete f qs d q :
  qs !! d = Some q -> sum_over f qs = (f q + sum_over f (delete d qs))%nat.
Proof.
  intros Hd. unfold sum_over. rewrite fmap_delete.
  rewrite <- (sum_list_perm _ _ (fmap_Permutation snd _ _ (map_to_list_delete
    (f <$> qs) d (f q) ltac:(by rewrite lookup_fmap, Hd)))).
  done.
Qed.

Lemma sum_over_insert f qs d q q' :
  qs !! d = Some q -> (sum_over f (<[d := q']> qs) + f q = sum_over f qs + f q')%nat.
Proof.
  intros Hd. rewrite (sum_over_delete f qs d q Hd).
  rewrite (sum_over_delete f (<[d := q']> qs) d q') by apply lookup_insert_eq.
  rewrite delete_insert_eq. lia.
Qed.

Lemma sum_over_le f g qs : (forall q, (f q <= g q)%nat) -> (sum_over f qs <= sum_over g qs)%nat.
Proof.
  intros Hle. unfold sum_over. rewrite !map_to_list_fmap, <- !list_fmap_compose.
  induction (map_to_list qs) as [|[d q] l IH]; cbn; [lia|]. specialize (Hle q). cbn in IH. lia.
Qed.

Definition total_work (qs : queue_map) : nat := sum_over queue_work qs.

(** ** Polling the queues *)

Definition all_same (qs qs' : queue_map) : Prop := forall d, option_Forall2 same (qs !! d) (qs' !! d).

#[export] Instance all_same_preorder : PreOrder all_same.
Proof.
  split.
  - intros qs d. destruct (qs !! d); constructor. reflexivity.
  - intros a b c H1 H2 d. specialize (H1 d). specialize (H2 d).
    destruct H1; inversion H2; subst; constructor. by etransitivity.
Qed.

Lemma all_same_insert qs d q q' : qs !! d = Some q -> same q q' -> all_same qs (<[d := q']> qs).
Proof.
  intros Hd Hs e. destruct (decide (d = e)) as [->|Hn].
  - rewrite lookup_insert_eq, Hd. by constructor.
  - rewrite lookup_insert_ne by done. destruct (qs !! e); constructor. reflexivity.
Qed.

Lemma all_same_work qs qs' : all_same qs qs' -> total_work qs' = total_work qs.
Proof.
  intros Hs. unfold total_work, sum_over. do 3 f_equal. apply map_eq. intros d. rewrite !lookup_fmap.
  specialize (Hs d). destruct Hs as [q q' Hs|]; [|done]. exact (f_equal Some (same_work _ _ Hs)).
Qed.

Lemma poll_queues_spec cx ds p qs :
  let '(r, p', qs') := poll_queues cx ds p qs in
  exists qs0, all_same qs qs0 /\
  match r with
  | None => qs' = qs0 /\
      forall d q, d ∈ ds -> qs' !! d = Some q -> DQ.last_pending_reported q = Some (should_be_pending q)
  | Some (d, x) => exists p0 q q', qs0 !! d = Some q /\
      DQ.poll_next_action p0 cx q = (Ready x, p', q') /\ qs' = <[d := q']> qs0
  end.
Proof.
  revert p qs. induction ds as [|d ds IH]; intros p qs; cbn [poll_queues].
  { exists qs. split; [reflexivity|]. split; [done|]. by intros ? ? ?%not_elem_of_nil. }
  destruct (qs !! d) as [q|] eqn:Hd.
  - destruct (DQ.poll_next_action p cx q) as [[[x|] p1] q1] eqn:Ep.
    + exists qs. split; [reflexivity|]. exists p, q, q1. done.
    + destruct (poll_pending_same p cx q p1 q1 Ep) as [Hs Hl].
      specialize (IH p1 (<[d := q1]> qs)).
      destruct (poll_queues cx ds p1 (<[d := q1]> qs)) as [[r p'] qs'].
      destruct IH as (qs0 & Ha & Hr). exists qs0.
      pose proof (all_same_insert qs d q q1 Hd Hs) as Hi.
      split; [by etransitivity|]. destruct r as [[d' x]|]; [done|]. destruct Hr as [-> Hr].
      split; [done|]. intros d' q' [->|Hin]%elem_of_cons Hq; [|by eapply Hr].
      specialize (Ha d). rewrite lookup_insert_eq, Hq in Ha. inversion Ha as [? ? Hs'|]; subst.
      rewrite (same_should _ _ Hs'). by destruct Hs' as (_ & -> & _).
  - specialize (IH p qs). destruct (poll_queues cx ds p qs) as [[r p'] qs'].
    destruct IH as (qs0 & Ha & Hr). exists qs0. split; [done|].
    destruct r as [[d' x]|]; [done|]. destruct Hr as [-> Hr]. split; [done|].
    intros d' q' [->|Hin]%elem_of_cons Hq; [|by eapply Hr].
    specialize (Ha d). rewrite Hd, Hq in Ha. inversion Ha.
Qed.

(** ** The pending tables' contents *)

(** The destination is in the tables; the extended table forgets the PAN. *)
Definition marked (t : CPT.CombinedPendingTable) (d : dest) : Prop :=
  match d with
  | None => CPT.none t = true
  | Some (FullAddr pan (AddrShort a)) => (pan, a) ∈ PT.values (CPT.short t)
  | Some (FullAddr _ (AddrExtended a)) => a ∈ PT.values (CPT.extended t)
  end.

(** Destinations that no other destination shares its entry with. *)
Definition exact (d : dest) : Prop :=
  match d with Some (FullAddr _ (AddrExtended _)) => False | _ => True end.

Lemma pt_set_values {T} `{Countable T} (st st' : PT.PendingTable T) v b w :
  pt_inv 8 st -> PT.set v b st = Ok st' ->
  w ∈ PT.values st' <-> if b then w = v \/ w ∈ PT.values st else w <> v /\ w ∈ PT.values st.
Proof.
  intros I Hs. destruct (set_spec 8 st v b ltac:(lia) I) as (st2 & E & _ & A).
  rewrite E in Hs. injection Hs as <-. apply (f_equal lru_set) in A.
  change (PT.values st2 = lru_set (lru_set_op 8 v b (pt_abs st))) in A. rewrite A.
  unfold lru_set_op, lru_insert, lru_promote, lru_remove. destruct b.
  - cbn. case_decide; cbn; set_solver.
  - cbn. case_decide; cbn; set_solver.
Qed.

Lemma cpt_set_marked d b t t' d' :
  cpt_ok t -> CPT.set d b t = Ok t' -> exact d' ->
  marked t' d' <-> if decide (d' = d) then b = true else marked t d'.
Proof.
  intros I Hs Hx. destruct d as [[pan [a|a]]|]; cbn in Hs; bind_inv;
    destruct d' as [[pan' [a'|a']]|]; cbn in Hx; try done; try (by rewrite decide_False).
  cbn [marked CPT.set_tables CPT.short CPT.none].
  erewrite pt_set_values by (done || apply I).
  destruct (decide ((pan', a') = (pan, a))) as [[= -> ->]|Hn].
  - rewrite decide_True by done. destruct b; split; try done; [by left|by intros []].
  - rewrite decide_False by congruence. destruct b; split; tauto.
Qed.

Lemma poll_marked cx t d : cpt_ok t -> marked (snd (CPT.poll_action cx t)) d <-> marked t d.
Proof.
  intros I.
  assert (forall T (E : EqDecision T) (C : Countable T) (st : PT.PendingTable T) r st', pt_inv 8 st ->
    PT.poll_update cx st = (r, st') -> PT.values st' = PT.values st) as Hv.
  { intros T E C st r st' Ist Ep. pose proof (poll_spec 8 st cx Ist) as [_ A]. rewrite Ep in A.
    exact (f_equal lru_set A). }
  unfold CPT.poll_action. destruct (CPT.initializing t); [by destruct d as [[? []]|]|].
  destruct (CPT.is_initialized t); [|by destruct d as [[? []]|]]. cbn [negb].
  destruct (PT.poll_update cx (CPT.short t)) as [[u|] s] eqn:E1.
  - apply Hv in E1; [|apply I]. destruct d as [[? []]|]; cbn; by rewrite ?E1.
  - apply Hv in E1; [|apply I]. destruct (PT.poll_update cx (CPT.extended t)) as [[u|] e] eqn:E2;
      (apply Hv in E2; [|apply I]); destruct d as [[? []]|]; cbn; by rewrite ?E1, ?E2.
Qed.

Lemma report_init_marked k b t d : marked (CPT.report_init_result k b t) d <-> marked t d.
Proof.
  unfold CPT.report_init_result. case_decide; [|done].
  destruct b; by destruct d as [[? []]|].
Qed.

Lemma report_update_marked k b t t' d :
  cpt_ok t -> CPT.report_update_result k b t = Ok t' -> marked t' d <-> marked t d.
Proof.
  intros I. unfold CPT.report_update_result.
  destruct (report_spec 8 _ k b (co_short t I)) as (s & -> & _ & A1).
  destruct (report_spec 8 _ k b (co_ext t I)) as (e & -> & _ & A2). cbn. intros [= <-].
  apply (f_equal lru_set) in A1, A2. cbn in A1, A2.
  destruct d as [[? []]|]; cbn; by rewrite ?A1, ?A2.
Qed.

(** ** The invariant *)

Section invariant.
Context {M : Type} `{!BiMap mcps.MsduHandle UniqueKey M, !BiMapLaws mcps.MsduHandle UniqueKey M}.
Implicit Types (s : DataService M) (qs : queue_map).

Definition queued qs (k : UniqueKey) : Prop := exists d q, qs !! d = Some q /\ k ∈ keys q.
Definition reported qs (d : dest) : Prop :=
  exists q, qs !! d = Some q /\ DQ.last_pending_reported q = Some true.

Record ds_inv s : Prop := {
  ds_queues d q : queues s !! d = Some q -> dq_inv q;
  ds_apart d d' q q' k : queues s !! d = Some q -> queues s !! d' = Some q' ->
    k ∈ keys q -> k ∈ keys q' -> d = d';
  ds_handles h k : bm_get (msdu_handles s) h = Some k -> queued (queues s) k;
  ds_table : cpt_ok (pending_table s);
  ds_marked d : exact d -> marked (pending_table s) d <-> reported (queues s) d;
}.

Lemma ds_new_inv : ds_inv new.
Proof.
  split; cbn.
  - intros d q. by rewrite lookup_empty.
  - intros d d' q q' k. by rewrite lookup_empty.
  - intros h k. by rewrite bm_get_new.
  - split; cbn; try done; try apply pt_new_inv; try (by apply woken_parked_ok);
      try (by intros []); by intros [[]|[]].
  - intros d Hd. split.
    + destruct d as [[pan [a|a]]|]; cbn; [by intros ?%not_elem_of_empty|done|done].
    + intros (q & Hq & _). by rewrite lookup_empty in Hq.
Qed.

(** Replacing queues by queues with the same requests. *)
Lemma all_same_lookup qs qs' d q' :
  all_same qs qs' -> qs' !! d = Some q' -> exists q, qs !! d = Some q /\ same q q'.
Proof. intros Ha Hq. specialize (Ha d). rewrite Hq in Ha. inversion Ha; subst; eauto. Qed.

Lemma all_same_lookup_l qs qs' d q :
  all_same qs qs' -> qs !! d = Some q -> exists q', qs' !! d = Some q' /\ same q q'.
Proof. intros Ha Hq. specialize (Ha d). rewrite Hq in Ha. inversion Ha; subst; eauto. Qed.

Lemma all_same_queued qs qs' k : all_same qs qs' -> queued qs k <-> queued qs' k.
Proof.
  intros Ha. split; intros (d & q & Hq & Hk).
  - destruct (all_same_lookup_l _ _ _ _ Ha Hq) as (q' & Hq' & Hs). exists d, q'.
    by rewrite (same_keys _ _ Hs).
  - destruct (all_same_lookup _ _ _ _ Ha Hq) as (q' & Hq' & Hs). exists d, q'.
    by rewrite <- (same_keys _ _ Hs).
Qed.

Lemma all_same_reported qs qs' d : all_same qs qs' -> reported qs d <-> reported qs' d.
Proof.
  intros Ha. split; intros (q & Hq & Hr).
  - destruct (all_same_lookup_l _ _ _ _ Ha Hq) as (q' & Hq' & (_ & E & _)). exists q'.
    by rewrite E.
  - destruct (all_same_lookup _ _ _ _ Ha Hq) as (q' & Hq' & (_ & E & _)). exists q'.
    by rewrite <- E.
Qed.

Lemma inv_all_same s qs : all_same (queues s) qs -> ds_inv s -> ds_inv (set_queues qs s).
Proof.
  intros Ha [I1 I2 I3 I4 I5]. split; cbn.
  - intros d q Hq. destruct (all_same_lookup _ _ _ _ Ha Hq) as (q0 & Hq0 & (_ & _ & Hi)). eauto.
  - intros d d' q q' k Hq Hq' Hk Hk'.
    destruct (all_same_lookup _ _ _ _ Ha Hq) as (q0 & Hq0 & Hs).
    destruct (all_same_lookup _ _ _ _ Ha Hq') as (q0' & Hq0' & Hs').
    rewrite (same_keys _ _ Hs) in Hk. rewrite (same_keys _ _ Hs') in Hk'. eauto.
  - intros h k Hh. apply (all_same_queued _ _ _ Ha). eauto.
  - done.
  - intros d Hd. rewrite <- (all_same_reported _ _ _ Ha). eauto.
Qed.

(** Replacing one queue: its keys shrink or stay, its reported bit does not change. *)
Lemma inv_one_queue s d q q' :
  ds_inv s -> queues s !! d = Some q -> dq_inv q' -> (forall k, k ∈ keys q' -> k ∈ keys q) ->
  DQ.last_pending_reported q' = DQ.last_pending_reported q ->
  (forall h k, bm_get (msdu_handles s) h = Some k -> k ∈ keys q -> k ∈ keys q') ->
  ds_inv (set_queues (<[d := q']> (queues s)) s).
Proof.
  intros [I1 I2 I3 I4 I5] Hd Iq Hk Hl Hh. split; cbn.
  - intros e x [[<- <-]|[Hn Hx]]%lookup_insert_Some; eauto.
  - intros e e' x x' k [[<- <-]|[Hn Hx]]%lookup_insert_Some [[<- <-]|[Hn' Hx']]%lookup_insert_Some;
      eauto.
  - intros h k Hg. destruct (I3 h k Hg) as (e & x & Hx & Hkx).
    destruct (decide (d = e)) as [->|Hn].
    + exists e, q'. rewrite lookup_insert_eq. split; [done|]. eapply Hh; [done|]. congruence.
    + exists e, x. by rewrite lookup_insert_ne.
  - done.
  - intros e He. rewrite (I5 e He). unfold reported. destruct (decide (d = e)) as [->|Hn].
    + rewrite lookup_insert_eq, Hd. split; intros (x & [= <-] & Hr); eexists; (split; [done|]);
        congruence.
    + by rewrite lookup_insert_ne.
Qed.

Lemma inv_delete s d q :
  ds_inv s -> queues s !! d = Some q -> keys q = [] ->
  DQ.last_pending_reported q <> Some true -> ds_inv (set_queues (delete d (queues s)) s).
Proof.
  intros [I1 I2 I3 I4 I5] Hd Hk Hl. split; cbn.
  - intros e x [_ Hx]%lookup_delete_Some. eauto.
  - intros e e' x x' k [_ Hx]%lookup_delete_Some [_ Hx']%lookup_delete_Some. eauto.
  - intros h k Hg. destruct (I3 h k Hg) as (e & x & Hx & Hkx). exists e, x.
    rewrite lookup_delete_ne; [done|]. intros ->. rewrite Hd in Hx. injection Hx as ->.
    rewrite Hk in Hkx. by apply not_elem_of_nil in Hkx.
  - done.
  - intros e He. rewrite (I5 e He). unfold reported. destruct (decide (d = e)) as [->|Hn].
    + rewrite lookup_delete_eq, Hd. split; intros (x & Hx & Hr); [congruence|done].
    + by rewrite lookup_delete_ne.
Qed.

Lemma inv_table s t :
  ds_inv s -> cpt_ok t -> (forall d, marked t d <-> marked (pending_table s) d) ->
  ds_inv (set_table t s).
Proof.
  intros [I1 I2 I3 I4 I5] It Hm. split; cbn; try done. intros d Hd. rewrite Hm. by apply I5.
Qed.

Lemma inv_waker s w : ds_inv s -> ds_inv (set_waker w s).
Proof. by intros []; split. Qed.

(** Reporting a pending bit: the queue remembers it and the table is told. *)
Lemma inv_set_pending s d q b t :
  ds_inv s -> queues s !! d = Some q -> CPT.set d b (pending_table s) = Ok t ->
  ds_inv (set_table t (set_queues (<[d := DQ.set_last_pending (Some b) q]> (queues s)) s)).
Proof.
  intros [I1 I2 I3 I4 I5] Hd Ht.
  destruct (cpt_set_ok d b (pending_table s) I4) as (t' & E & It). rewrite Ht in E. injection E as <-.
  split; cbn.
  - intros e x [[<- <-]|[_ Hx]]%lookup_insert_Some; [|eauto]. by destruct (I1 d q Hd); split.
  - intros e e' x x' k [[<- <-]|[_ Hx]]%lookup_insert_Some [[<- <-]|[_ Hx']]%lookup_insert_Some Hk Hk';
      [done|by eapply I2|by eapply I2|by eapply I2].
  - intros h k Hg. destruct (I3 h k Hg) as (e & x & Hx & Hkx).
    destruct (decide (d = e)) as [->|Hn].
    + exists e, (DQ.set_last_pending (Some b) q). rewrite lookup_insert_eq. split; [done|].
      rewrite Hd in Hx. by injection Hx as <-.
    + exists e, x. by rewrite lookup_insert_ne.
  - done.
  - intros e He. rewrite (cpt_set_marked d b _ t e I4 Ht He). unfold reported.
    destruct (decide (e = d)) as [->|Hn].
    + rewrite lookup_insert_eq. split; [intros ->; by eexists|]. intros (x & [= <-] & Hr). cbn in Hr.
      congruence.
    + rewrite lookup_insert_ne by done. by apply I5.
Qed.

Lemma inv_handles s m :
  ds_inv s -> (forall h k, bm_get m h = Some k -> bm_get (msdu_handles s) h = Some k) ->
  ds_inv (set_handles m s).
Proof. intros [I1 I2 I3 I4 I5] Hm. split; cbn; try done. intros h k Hg. eapply I3. by apply Hm. Qed.

(** ** The loop of [poll_action] *)

Lemma poll_report_facts p cx q k r p' q' :
  dq_inv q -> DQ.poll_next_action p cx q = (Ready (DQ.ReportResult k r), p', q') ->
  keys q ≡ₚ k :: keys q' /\ DQ.last_pending_reported q' = DQ.last_pending_reported q /\ dq_inv q'.
Proof.
  intros I Hp. pose proof (step_conserves (QPoll p cx) q I) as Hc. pose proof (dq_poll_inv p cx q I) as I'.
  pose proof (poll_cases p cx q) as Ho. cbn [dq_step] in Hc. rewrite Hp in Hc, I', Ho.
  split; [exact Hc|]. split; [|done]. inversion Ho as [| | | | |q0 i e Hw]; subst; [done|].
  apply waits_data in Hw as [_ Hl]. by case_decide.
Qed.

Lemma poll_send_facts p cx q k f p' q' :
  dq_inv q -> DQ.poll_next_action p cx q = (Ready (DQ.SendFrame k f), p', q') ->
  keys q' = keys q /\ DQ.last_pending_reported q' = DQ.last_pending_reported q /\ dq_inv q'.
Proof.
  intros I Hp. pose proof (dq_poll_inv p cx q I) as I'. pose proof (poll_cases p cx q) as Ho.
  rewrite Hp in I', Ho. inversion Ho; by subst.
Qed.

Lemma poll_empty_facts p cx q p' q' :
  DQ.poll_next_action p cx q = (Ready DQ.Empty, p', q') ->
  keys q = [] /\ keys q' = [] /\ DQ.last_pending_reported q' = Some false.
Proof.
  intros Hp. pose proof (poll_cases p cx q) as Ho. rewrite Hp in Ho.
  inversion Ho as [|Ee| | | |]; subst. split; [by apply keys_nil|]. split; [by apply keys_nil|].
  cbn. erewrite poll_reported; [|exact Hp|done]. unfold should_be_pending. by rewrite Ee.
Qed.

Lemma poll_set_pending_facts p cx q b p' q' :
  DQ.poll_next_action p cx q = (Ready (DQ.SetPending b), p', q') ->
  DQ.last_pending_reported q <> Some b /\ b = should_be_pending q /\ q' = DQ.set_last_pending (Some b) q.
Proof.
  intros Hp. pose proof (poll_cases p cx q) as Ho. rewrite Hp in Ho. inversion Ho; by subst.
Qed.

Lemma report_work q k q' :
  keys q ≡ₚ k :: keys q' -> (queue_work q' < queue_work q)%nat.
Proof.
  intros Hk. apply Permutation_length in Hk. cbn in Hk. unfold keys in Hk. rewrite !length_fmap in Hk.
  unfold queue_work.
  pose proof (bit_le (bool_decide (DQ.last_pending_reported q' <> Some (should_be_pending q')))). lia.
Qed.

(** What a poll did to the handles: a confirm takes its own away, and nothing else. *)
Definition handles_after (r : Poll DataServiceAction) (m m' : M) : Prop :=
  match r with
  | Ready (Confirm (mcps.ConfData c)) =>
      is_Some (bm_get m (mcps.confirm_handle c)) /\
      forall h, bm_get m' h = if decide (h = mcps.confirm_handle c) then None else bm_get m h
  | Ready (Confirm (mcps.ConfPurge _)) => False
  | _ => forall h, bm_get m' h = bm_get m h
  end.

Definition all_reported qs : Prop :=
  forall d q, qs !! d = Some q -> DQ.last_pending_reported q = Some (should_be_pending q).

Definition poll_result s (r : Poll DataServiceAction) s' : Prop :=
  ds_inv s' /\ handles_after r (msdu_handles s) (msdu_handles s') /\
  (r = Pending -> all_reported (queues s')).

Lemma poll_result_handles s1 s r s' :
  (forall h, bm_get (msdu_handles s1) h = bm_get (msdu_handles s) h) ->
  poll_result s1 r s' -> poll_result s r s'.
Proof.
  intros Hm (I & Hh & Hp). split; [done|]. split; [|done]. unfold handles_after in *.
  destruct r as [[| | | |[c|]]|]; try (by intros h; rewrite Hh); try done.
  destruct Hh as [Hi Hh]. rewrite Hm in Hi. split; [done|]. intros h. by rewrite Hh, Hm.
Qed.

(** A queue's report, with the handle that waited for it taken out of the map. *)
Lemma inv_report s d q q' k :
  ds_inv s -> queues s !! d = Some q -> keys q ≡ₚ k :: keys q' ->
  DQ.last_pending_reported q' = DQ.last_pending_reported q -> dq_inv q' ->
  ds_inv (set_handles (snd (bm_remove_by_right k (msdu_handles s)))
            (set_queues (<[d := q']> (queues s)) s)).
Proof.
  intros I Hd Hk Hl Iq.
  assert (ds_inv (set_handles (snd (bm_remove_by_right k (msdu_handles s))) s)) as I1.
  { apply inv_handles; [done|]. intros h k'. rewrite bm_get_remove_right. by case_decide. }
  refine (inv_one_queue _ d q q' I1 Hd Iq _ Hl _).
  - intros k' Hk'. rewrite Hk. by right.
  - intros h k'. cbn. rewrite bm_get_remove_right. case_decide as Hn; [done|]. intros Hg.
    rewrite Hk. intros [->|?]%elem_of_cons; done.
Qed.

Lemma remove_right_none (m : M) k :
  fst (bm_remove_by_right k m) = None -> forall h, bm_get (snd (bm_remove_by_right k m)) h = bm_get m h.
Proof.
  intros Hn h. rewrite bm_get_remove_right. case_decide as Hg; [|done].
  by rewrite (proj2 (bm_remove_right_pair m h k) Hg) in Hn.
Qed.

Lemma remove_right_some (m : M) k h k' :
  fst (bm_remove_by_right k m) = Some (h, k') ->
  bm_get m h = Some k /\
  forall h', bm_get (snd (bm_remove_by_right k m)) h' = if decide (h' = h) then None else bm_get m h'.
Proof.
  intros Hs. pose proof (bm_remove_right_key m h k k' Hs) as ->.
  apply bm_remove_right_pair in Hs. split; [done|]. intros h'. rewrite bm_get_remove_right.
  destruct (decide (h' = h)) as [->|Hn]; [by rewrite decide_True|].
  rewrite decide_False; [done|]. intros Hg. apply Hn. by eapply bm_get_inj.
Qed.

Lemma destinations_elem s (ord : IterOrder dest) n d q :
  queues s !! d = Some q -> d ∈ ord n (destinations s).
Proof.
  intros Hd. rewrite (iter_order_perm dest ord). unfold destinations.
  apply elem_of_elements. by eapply elem_of_dom_2.
Qed.

Lemma poll_action_result fuel ord cx p s :
  ds_inv s -> (total_work (queues s) < fuel)%nat ->
  exists r p' s', poll_action fuel ord cx p s = Ok (r, p', s') /\ poll_result s r s'.
Proof.
  revert p s. induction fuel as [|fuel IH]; intros p s I Hf; [lia|]. cbn [poll_action].
  pose proof (cpt_poll_ok cx _ (ds_table s I)) as It.
  pose proof (fun d => poll_marked cx (pending_table s) d (ds_table s I)) as Hm.
  destruct (CPT.poll_action cx (pending_table s)) as [[x|] t]; cbn [snd] in It, Hm.
  { do 3 eexists. split; [reflexivity|]. split; [by apply inv_table|].
    split; [by destruct x|done]. }
  assert (ds_inv (set_table t s)) as I0 by by apply inv_table.
  pose proof (poll_queues_spec cx (ord fuel (destinations (set_table t s))) p
    (queues (set_table t s))) as Hq.
  destruct (poll_queues cx _ p _) as [[r p1] qs1]. destruct Hq as (qs0 & Ha & Hr).
  pose proof (inv_all_same _ qs0 Ha I0) as I1. pose proof (all_same_work _ _ Ha) as Hw.
  cbn [queues set_table] in Hw.
  destruct r as [[d x]|].
  2:{ destruct Hr as [-> Hr]. cbn [ws_pend]. do 3 eexists. split; [reflexivity|].
      split; [by apply inv_waker|]. split; [done|]. intros _ d q Hd. cbn in Hd. eapply Hr; [|exact Hd].
      destruct (all_same_lookup _ _ _ _ Ha Hd) as (q0 & Hq0 & _). by eapply destinations_elem. }
  destruct Hr as (p0 & q & q' & Hd & Hp & ->).
  set (s1 := set_queues qs0 (set_table t s)) in *.
  pose proof (ds_queues s1 I1 d q Hd) as Iq.
  pose proof (sum_over_insert queue_work qs0 d q q' Hd) as Hw1. fold (total_work (<[d := q']> qs0)) (total_work qs0) in Hw1.
  destruct x as [|b|k f|k res].
  - destruct (poll_empty_facts _ _ _ _ _ Hp) as (Hk & Hk' & Hl).
    pose proof (poll_reported _ _ _ _ _ _ Hp ltac:(done)) as Hlq.
    assert (ds_inv (set_queues (delete d (<[d := q']> qs0)) s1)) as I2.
    { rewrite delete_insert_eq. apply (inv_delete s1 d q I1 Hd Hk).
      rewrite Hlq. apply keys_nil in Hk. unfold should_be_pending. by rewrite Hk. }
    destruct (IH p1 _ I2) as (r & p2 & s2 & E & Hres).
    { cbn. rewrite delete_insert_eq. pose proof (sum_over_delete queue_work qs0 d q Hd) as Hdel.
      fold (total_work (delete d qs0)) (total_work qs0) in Hdel.
      unfold queue_work in Hdel. lia. }
    exists r, p2, s2. split; [exact E|]. by eapply poll_result_handles; [|exact Hres].
  - destruct (poll_set_pending_facts _ _ _ _ _ _ Hp) as (Hl & -> & ->).
    destruct (cpt_set_ok d (should_be_pending q) (pending_table s1) (ds_table s1 I1)) as (t' & Et & _).
    cbn in Et. cbn [pending_table set_queues set_table]. rewrite Et. cbn.
    pose proof (inv_set_pending s1 d q (should_be_pending q) t' I1 Hd Et) as I2.
    destruct (IH p1 _ I2) as (r & p2 & s2 & E & Hres).
    { cbn. unfold queue_work, should_be_pending in Hw1. cbn in Hw1.
      unfold should_be_pending in *. rewrite (bool_decide_true _ Hl) in Hw1.
      rewrite bool_decide_false in Hw1 by tauto. cbn in Hw1. lia. }
    exists r, p2, s2. split; [exact E|]. by eapply poll_result_handles; [|exact Hres].
  - destruct (poll_send_facts _ _ _ _ _ _ _ Iq Hp) as (Hk & Hl & Iq').
    do 3 eexists. split; [reflexivity|]. split; [|split; [done|done]].
    apply (inv_one_queue s1 d q q' I1 Hd Iq'); [by rewrite Hk|done|by rewrite Hk].
  - destruct (poll_report_facts _ _ _ _ _ _ _ Iq Hp) as (Hk & Hl & Iq').
    pose proof (inv_report s1 d q q' k I1 Hd Hk Hl Iq') as I2.
    change (msdu_handles s1) with (msdu_handles s) in I2.
    cbn [msdu_handles set_queues set_table].
    destruct (bm_remove_by_right k (msdu_handles s)) as [removed m] eqn:Er. cbn [snd] in I2.
    destruct removed as [[h k']|].
    + do 3 eexists. split; [reflexivity|]. split; [exact I2|]. split; [|done]. cbn.
      destruct (remove_right_some (msdu_handles s) k h k') as [Hg Hh]; [by rewrite Er|].
      rewrite Er in Hh. split; [by eexists|exact Hh].
    + destruct (IH p1 _ I2) as (r & p2 & s2 & E & Hres).
      { cbn. pose proof (report_work q k q' Hk). lia. }
      exists r, p2, s2. split; [exact E|]. eapply poll_result_handles; [|exact Hres].
      pose proof (remove_right_none (msdu_handles s) k) as Hn. rewrite Er in Hn. by apply Hn.
Qed.

(** ** The other operations *)

Lemma remove_absent k q : k ∉ keys q -> DQ.remove k q = (false, q).
Proof.
  intros Hk. pose proof (remove_result k q) as Hr. rewrite bool_decide_false in Hr by done.
  assert (filter (fun e => DQ.entry_key e <> k) (DQ.entries q) = DQ.entries q) as E.
  { unfold keys in Hk. clear Hr. induction (DQ.entries q) as [|e es IH]; [done|].
    rewrite fmap_cons in Hk. apply not_elem_of_cons in Hk as [? ?].
    rewrite filter_cons, decide_True by congruence. by rewrite IH. }
  unfold DQ.remove in *. rewrite E in *.
  destruct (match head (DQ.entries q) with Some _ => _ | None => _ end); cbn [orb fst] in *; [done|].
  match goal with |- context [if ?b then (true, _) else _] => destruct b end; [done|].
  by destruct q.
Qed.

Lemma remove_loop_true k ds qs : remove_loop k ds true qs = (true, qs).
Proof. induction ds as [|d ds IH]; [done|]. cbn. by destruct (qs !! d). Qed.

Lemma remove_loop_spec k ds qs :
  (remove_loop k ds false qs = (false, qs) /\ forall d q, d ∈ ds -> qs !! d = Some q -> k ∉ keys q) \/
  (exists d q, qs !! d = Some q /\ k ∈ keys q /\
     remove_loop k ds false qs = (true, <[d := snd (DQ.remove k q)]> qs)).
Proof.
  induction ds as [|d ds IH]; [left; split; [done|by intros ? ? ?%not_elem_of_nil]|].
  cbn [remove_loop]. destruct (qs !! d) as [q|] eqn:Hd.
  - destruct (decide (k ∈ keys q)) as [Hk|Hk].
    + right. exists d, q. split; [done|]. split; [done|].
      pose proof (remove_result k q) as Hr. rewrite bool_decide_true in Hr by done.
      destruct (DQ.remove k q) as [b q']. cbn in *. subst b. apply remove_loop_true.
    + rewrite remove_absent by done. rewrite insert_id by done.
      destruct IH as [[-> Hn]|?]; [left|by right]. split; [done|].
      intros d' q' [->|Hin]%elem_of_cons Hq'; [congruence|by eapply Hn].
  - destruct IH as [[-> Hn]|?]; [left|by right]. split; [done|].
    intros d' q' [->|Hin]%elem_of_cons Hq'; [congruence|by eapply Hn].
Qed.

Lemma remove_last k q : DQ.last_pending_reported (snd (DQ.remove k q)) = DQ.last_pending_reported q.
Proof. unfold DQ.remove. repeat case_match; done. Qed.

(** Removing a key that no handle waits for any more. *)
Lemma inv_remove s ord k :
  ds_inv s -> (forall h, bm_get (msdu_handles s) h <> Some k) ->
  ds_inv (snd (remove ord k s)) /\ ~ queued (queues (snd (remove ord k s))) k.
Proof.
  intros I Hh. unfold remove.
  destruct (remove_loop_spec k (ord 0%nat (destinations s)) (queues s)) as [[-> Hn]|(d & q & Hd & Hk & ->)];
    cbn [snd].
  - split; [by destruct I; split|]. intros (d & q & Hq & Hk). eapply Hn; [|exact Hq|done].
    by eapply destinations_elem.
  - pose proof (keys_remove k q) as Ek. split.
    + apply (inv_one_queue s d q); try done.
      * apply remove_inv. by eapply ds_queues.
      * intros k'. rewrite Ek. by intros [_ ?]%list_elem_of_filter.
      * apply remove_last.
      * intros h k' Hg Hk'. rewrite Ek. apply list_elem_of_filter. split; [|done].
        intros ->. by eapply Hh.
    + intros (d' & q' & Hq & Hk'). cbn in Hq.
      apply lookup_insert_Some in Hq as [[<- <-]|[Hne Hq']].
      * rewrite Ek in Hk'. by apply list_elem_of_filter in Hk' as [? _].
      * apply Hne. by eapply (ds_apart s I).
Qed.

Lemma inv_fmap s (f : DQ.DeviceQueue -> DQ.DeviceQueue) :
  ds_inv s -> (forall q, same q (f q)) -> ds_inv (set_queues (f <$> queues s) s).
Proof.
  intros I Hf. apply inv_all_same; [|done]. intros d. rewrite lookup_fmap.
  destruct (queues s !! d); constructor. apply Hf.
Qed.

Lemma send_result_same t k b q : same q (DQ.process_send_result t k b q).
Proof.
  split; [|split; [|intros I; exact (dq_step_inv (QSendResult t k b) q I)]];
    unfold DQ.process_send_result; destruct (DQ.state q); try done; case_decide; try done;
    destruct b; try (by destruct ack_requested); destruct (DQ.entries q) as [|e rest] eqn:Ee;
    cbn; rewrite ?Ee; try done; destruct (DQ.indirect e); cbn; rewrite ?Ee; try done;
    case_decide; cbn; by rewrite ?Ee.
Qed.

Lemma acknowledge_same sq pl q : same q (DQ.process_acknowledge sq pl q).
Proof.
  split; [|split; [|intros I; exact (dq_step_inv (QAck sq pl) q I)]].
  - by rewrite (proj1 (acknowledge_keys sq pl q)).
  - unfold DQ.process_acknowledge. repeat case_match; done.
Qed.

Lemma datarequest_same q : same q (DQ.process_datarequest q).
Proof.
  split; [|split; [|intros I; exact (dq_step_inv QDataRequest q I)]];
    unfold DQ.process_datarequest; by destruct (DQ.state q).
Qed.

Lemma inv_process_frame s p f : ds_inv s -> ds_inv (process_frame p f s).
Proof.
  intros I. unfold process_frame. destruct (frame_type f) as [| |pl|c| | | |]; try done.
  - apply inv_fmap; [done|]. intros q. apply acknowledge_same.
  - destruct c; try done. unfold process_frame_data_request. case_decide; [|done].
    destruct (queues s !! source f) as [q|] eqn:Hq; [|done].
    apply inv_all_same; [|done]. by apply all_same_insert with q, datarequest_same.
Qed.

Lemma insert_fresh p t r q :
  dr_key r ∉ keys q ->
  dq_inv q -> dq_inv (snd (DQ.insert p t r q)) /\
  keys (snd (DQ.insert p t r q)) = keys q ++ [dr_key r] /\
  DQ.last_pending_reported (snd (DQ.insert p t r q)) = DQ.last_pending_reported q.
Proof.
  intros Hk I. split; [by apply insert_inv|]. unfold DQ.insert.
  rewrite contains_spec, bool_decide_false by done. cbn. split; [|done].
  unfold keys; cbn. by rewrite fmap_app.
Qed.

(** Queueing a request with a key that is not waiting anywhere. *)
Lemma inv_insert s p t r :
  ds_inv s -> ~ queued (queues s) (dr_key r) ->
  ds_inv (insert p t r s) /\ queued (queues (insert p t r s)) (dr_key r) /\
  msdu_handles (insert p t r s) = msdu_handles s.
Proof.
  intros I Hf. unfold insert. set (d := dr_destination r).
  assert (exists q0, (queues s !! d = Some q0 \/ queues s !! d = None /\ q0 = DQ.new)) as (q0 & Hq0).
  { destruct (queues s !! d) as [q|]; [exists q; by left|exists DQ.new; by right]. }
  assert (dr_key r ∉ keys q0) as Hk.
  { destruct Hq0 as [Hq|[_ ->]]; [|by apply not_elem_of_nil]. intros Hk. apply Hf. by exists d, q0. }
  assert (dq_inv q0) as I0.
  { destruct Hq0 as [Hq|[_ ->]]; [by eapply ds_queues|]. split; [constructor|done]. }
  destruct (insert_fresh p t r q0 Hk I0) as (Iq & Ek & El).
  set (q' := snd (DQ.insert p t r q0)) in *.
  assert (ds_inv (set_queues (<[d := q']> (queues s)) s)) as Hi.
  { destruct I as [I1 I2 I3 I4 I5]. split; cbn.
    - intros e x [[<- <-]|[_ Hx]]%lookup_insert_Some; eauto.
    - assert (forall e x k, queues s !! e = Some x -> k ∈ keys x -> k ∈ keys q' -> d = e) as Hx.
      { intros e x k Hx Hkx Hkq. rewrite Ek in Hkq. apply elem_of_app in Hkq as [Hkq|Hkq].
        - destruct Hq0 as [Hq|[_ ->]]; [by eapply I2|by apply not_elem_of_nil in Hkq].
        - apply list_elem_of_singleton in Hkq as ->. destruct Hf. by exists e, x. }
      intros e e' x x' k [[<- <-]|[_ Hx1]]%lookup_insert_Some [[<- <-]|[_ Hx2]]%lookup_insert_Some Hk1 Hk2;
        [done|by eapply Hx|symmetry; by eapply Hx|by eapply I2].
    - intros h k Hg. destruct (I3 h k Hg) as (e & x & Hx & Hkx). destruct (decide (d = e)) as [<-|Hn].
      + exists d, q'. rewrite lookup_insert_eq, Ek. split; [done|]. apply elem_of_app. left.
        destruct Hq0 as [Hq|[Hq _]]; congruence.
      + exists e, x. by rewrite lookup_insert_ne.
    - done.
    - intros e He. rewrite (I5 e He). unfold reported. destruct (decide (d = e)) as [<-|Hn].
      + rewrite lookup_insert_eq. split; intros (x & Hx & Hr).
        * exists q'. split; [done|]. rewrite El. destruct Hq0 as [Hq|[Hq _]]; congruence.
        * injection Hx as <-. rewrite El in Hr. destruct Hq0 as [Hq|[_ ->]]; [by exists q0|done].
      + by rewrite lookup_insert_ne. }
  assert (queued (<[d := q']> (queues s)) (dr_key r)) as Hq'.
  { exists d, q'. rewrite lookup_insert_eq, Ek. split; [done|]. apply elem_of_app. right.
    by apply list_elem_of_singleton. }
  destruct Hq0 as [Hq|[Hq ->]]; rewrite Hq; split; try done. by apply inv_waker.
Qed.

Lemma inv_data_request s p key t r :
  ds_inv s -> ~ queued (queues s) key -> ds_inv (snd (process_mcps_data_request p key t r s)).
Proof.
  intros I Hf. unfold process_mcps_data_request. cbn [snd].
  match goal with |- context [insert p t ?r' s] =>
    destruct (inv_insert s p t r' I Hf) as (I' & Hq & Hm); set (s' := insert p t r' s) in * end.
  cbn in Hq. destruct I' as [I1 I2 I3 I4 I5]. split; try done. cbn. intros h k.
  rewrite bm_get_insert. case_decide; [by intros [= <-]|]. case_decide; [done|apply I3].
Qed.

Lemma purge_spec s ord r :
  ds_inv s ->
  let '(c, s') := process_mcps_purge_request ord r s in
  ds_inv s' /\
  (forall h, bm_get (msdu_handles s') h =
     if decide (h = mcps.purge_handle r) then None else bm_get (msdu_handles s) h) /\
  match bm_get (msdu_handles s) (mcps.purge_handle r) with
  | Some k => c = mcps.ConfPurge (mcps.MkPurgeConfirm (mcps.purge_handle r) (Ok tt)) /\
      ~ queued (queues s') k
  | None => c = mcps.ConfPurge (mcps.MkPurgeConfirm (mcps.purge_handle r) (Err InvalidHandle)) /\
      queues s' = queues s
  end.
Proof.
  intros I. unfold process_mcps_purge_request. set (h := mcps.purge_handle r).
  pose proof (bm_remove_left_pair (msdu_handles s) h) as Hp.
  pose proof (bm_get_remove_left (msdu_handles s) h) as Hg.
  destruct (bm_remove_by_left h (msdu_handles s)) as [removed m]. cbn [fst snd] in Hp, Hg. subst removed.
  assert (ds_inv (set_handles m s)) as I1.
  { apply inv_handles; [done|]. intros h' k. rewrite Hg. by case_decide. }
  destruct (bm_get (msdu_handles s) h) as [k|] eqn:Ek; cbn.
  - destruct (inv_remove (set_handles m s) ord k I1) as [I2 Hn].
    { cbn. intros h'. rewrite Hg. case_decide; [done|]. intros Hk. by eapply (bm_get_inj _ h' h) in Hk. }
    split; [done|]. split; [|done]. intros h'. unfold remove.
    destruct (remove_loop _ _ _ _). cbn. apply Hg.
  - split; [done|]. split; [|done]. apply Hg.
Qed.

(** ** Runs of the data service *)

(** One operation; the unique keys that requests come with are fresh. *)
Inductive ds_step : DataService M -> DataService M -> Prop :=
| step_insert p t r s :
    ~ queued (queues s) (dr_key r) -> ds_step s (insert p t r s)
| step_poll fuel ord cx p s r p' s' :
    poll_action fuel ord cx p s = Ok (r, p', s') -> (total_work (queues s) < fuel)%nat ->
    ds_step s s'
| step_init_result k b s : ds_step s (process_init_pending_table_result k b s)
| step_set_pending_result k b s s' :
    process_set_pending_result k b s = Ok s' -> ds_step s s'
| step_send_result t k b s : ds_step s (process_send_result t k b s)
| step_frame p f s : ds_step s (process_frame p f s)
| step_mcps_request p ord key t r s :
    ~ queued (queues s) key -> ds_step s (snd (process_mcps_request p ord key t r s)).

Lemma ds_step_inv s s' : ds_step s s' -> ds_inv s -> ds_inv s'.
Proof.
  destruct 1 as [p t r s Hf|fuel ord cx p s r p' s' Hp Hw|k b s|k b s s' Hs|t k b s|p f s|p ord key t r s Hf];
    intros I.
  - by apply inv_insert.
  - destruct (poll_action_result fuel ord cx p s I Hw) as (r1 & p1 & s1 & E & Hr & _).
    rewrite E in Hp. by injection Hp as <- <- <-.
  - apply inv_table; [done| |].
    + apply cpt_report_init_ok, I.
    + intros d. apply report_init_marked.
  - unfold process_set_pending_result in Hs.
    destruct (cpt_report_update_ok k b _ (ds_table s I)) as (t & E & It). rewrite E in Hs.
    cbn in Hs. injection Hs as <-. apply inv_table; [done|done|].
    intros d. eapply report_update_marked; [apply I|exact E].
  - apply inv_fmap; [done|]. intros q. apply send_result_same.
  - by apply inv_process_frame.
  - destruct r as [r|r]; cbn [process_mcps_request].
    + by apply inv_data_request.
    + pose proof (purge_spec s ord r I) as Hp.
      destruct (process_mcps_purge_request ord r s) as [c s']. by destruct Hp.
Qed.

Definition ds_reachable (s : DataService M) : Prop := rtc ds_step new s.

Lemma ds_reachable_inv s : ds_reachable s -> ds_inv s.
Proof.
  unfold ds_reachable. intros Hr. pose proof ds_new_inv as I. revert I.
  induction Hr as [s|s s1 s2 Hs _ IH]; [done|]. intros I. apply IH. by eapply ds_step_inv.
Qed.

(** ** The properties *)

(** C31: From every reachable state [poll_action] terminates within as many rounds as
    twice the queued requests and two per queue, never panics, and answers each
    confirm to exactly one outstanding handle, which is no longer outstanding then;
    no handle goes otherwise.  Holds for every iteration order of the queues. *)
Theorem data_poll_total (fuel : nat) (ord : IterOrder dest) (cx : Context) (p : PIB) s :
  ds_reachable s -> (total_work (queues s) < fuel)%nat ->
  exists r p' s', poll_action fuel ord cx p s = Ok (r, p', s') /\
    handles_after r (msdu_handles s) (msdu_handles s').
Proof.
  intros Hr Hf. apply ds_reachable_inv in Hr.
  destruct (poll_action_result fuel ord cx p s Hr Hf) as (r & p' & s' & E & _ & Hh & _). eauto.
Qed.

(** The frame of every outstanding handle is still waiting in a queue: no request
    is forgotten without a confirm. *)
Theorem outstanding_requests_queued s h k :
  ds_reachable s -> bm_get (msdu_handles s) h = Some k -> queued (queues s) k.
Proof. intros Hr%ds_reachable_inv. by apply ds_handles. Qed.

(** C32: When a poll has nothing left to do, the radio is to answer data requests of
    exactly the devices with a short address whose next frame is indirect. *)
Theorem idle_pending_bits (fuel : nat) (ord : IterOrder dest) (cx : Context) (p : PIB) s p' s' pan a :
  ds_reachable s -> (total_work (queues s) < fuel)%nat ->
  poll_action fuel ord cx p s = Ok (Pending, p', s') ->
  (pan, a) ∈ PT.values (CPT.short (pending_table s')) <->
  exists q e rest, queues s' !! Some (FullAddr pan (AddrShort a)) = Some q /\
    DQ.entries q = e :: rest /\ DQ.indirect e = true.
Proof.
  intros Hr Hf Hp. apply ds_reachable_inv in Hr.
  destruct (poll_action_result fuel ord cx p s Hr Hf) as (r & p1 & s1 & E & I & _ & Ha).
  rewrite E in Hp. injection Hp as -> <- <-. specialize (Ha eq_refl).
  etransitivity; [exact (ds_marked s1 I (Some (FullAddr pan (AddrShort a))) Logic.I)|].
  unfold reported. split.
  - intros (q & Hq & Hl). exists q. rewrite (Ha _ q Hq) in Hl. unfold should_be_pending in Hl.
    destruct (DQ.entries q) as [|e rest]; [done|]. injection Hl as Hl. by exists e, rest.
  - intros (q & e & rest & Hq & Ee & Hi). exists q. split; [done|]. rewrite (Ha _ q Hq).
    unfold should_be_pending. rewrite Ee. cbn. by rewrite Hi.
Qed.

(** Purging an outstanding handle succeeds and its frame is in no queue any more;
    purging any other handle is refused and changes no queue; either way the handle
    is not outstanding afterwards and the others are as they were. *)
Theorem purge_removes (ord : IterOrder dest) (r : mcps.PurgeRequest) s :
  ds_reachable s ->
  let '(c, s') := process_mcps_purge_request ord r s in
  (forall h, bm_get (msdu_handles s') h =
     if decide (h = mcps.purge_handle r) then None else bm_get (msdu_handles s) h) /\
  match bm_get (msdu_handles s) (mcps.purge_handle r) with
  | Some k => c = mcps.ConfPurge (mcps.MkPurgeConfirm (mcps.purge_handle r) (Ok tt)) /\
      ~ queued (queues s') k
  | None => c = mcps.ConfPurge (mcps.MkPurgeConfirm (mcps.purge_handle r) (Err InvalidHandle)) /\
      queues s' = queues s
  end.
Proof.
  intros Hr%ds_reachable_inv. pose proof (purge_spec s ord r Hr) as Hp.
  destruct (process_mcps_purge_request ord r s). by destruct Hp.
Qed.

(** ** Every request is answered *)

(** Polls left when every timer has run out: those of the queues, and the requests
    that the pending tables can still make without hearing of the last ones. *)
Definition drain_work (qs : queue_map) : nat := sum_over (fun q => S (work q)) qs.
Definition table_work (t : CPT.CombinedPendingTable) : nat :=
  bit (bool_decide (CPT.initializing t = None)) +
  bit (bool_decide (PT.updating (CPT.short t) = None)) +
  bit (bool_decide (PT.updating (CPT.extended t) = None)).
Definition serve_work (s : DataService M) : nat :=
  drain_work (queues s) + table_work (pending_table s).

Lemma total_drain qs : (total_work qs <= drain_work qs)%nat.
Proof. apply sum_over_le. intros q. unfold queue_work, work. lia. Qed.

Lemma set_updating {T} `{Countable T} (st st' : PT.PendingTable T) v b :
  PT.set v b st = Ok st' -> PT.updating st' = PT.updating st.
Proof. intros Hs. exact (proj1 (set_only_dirtied _ _ _ _ Hs)). Qed.

Lemma cpt_set_work d b t t' : CPT.set d b t = Ok t' -> table_work t' = table_work t.
Proof.
  intros Hs. destruct d as [[pan [a|a]]|]; cbn in Hs; bind_inv; try done;
    match goal with H : PT.set _ _ _ = Ok _ |- _ => apply set_updating in H end;
    unfold table_work; cbn; by match goal with H : PT.updating _ = _ |- _ => rewrite H end.
Qed.

Lemma pt_poll_work {T} `{Countable T} cx (st : PT.PendingTable T) r st' :
  PT.poll_update cx st = (r, st') ->
  match r with
  | Ready _ => PT.updating st = None /\ PT.updating st' <> None
  | Pending => PT.updating st' = PT.updating st
  end.
Proof.
  destruct (poll_update_cases cx st) as [[-> _]|(i & e & Hu & _ & _ & ->)]; by intros [= <- <-].
Qed.

Lemma cpt_poll_work cx t r t' :
  CPT.poll_action cx t = (r, t') ->
  match r with
  | Ready _ => (table_work t' < table_work t)%nat
  | Pending => table_work t' = table_work t
  end.
Proof.
  unfold CPT.poll_action, table_work. destruct (CPT.initializing t) eqn:Ei;
    [cbn; intros [= <- <-]; cbn; by rewrite Ei|].
  destruct (CPT.is_initialized t); cbn [negb].
  2:{ intros [= <- <-]. cbn. lia. }
  destruct (PT.poll_update cx (CPT.short t)) as [[u|] st] eqn:E1; apply pt_poll_work in E1.
  - destruct E1 as [E1 E2]. intros [= <- <-]. cbn. rewrite Ei, E1.
    rewrite (bool_decide_false _ E2). cbn. lia.
  - destruct (PT.poll_update cx (CPT.extended t)) as [[u|] st'] eqn:E2; apply pt_poll_work in E2.
    + destruct E2 as [E2 E3]. intros [= <- <-]. cbn. rewrite Ei, E1, E2.
      rewrite (bool_decide_false _ E3). cbn. lia.
    + intros [= <- <-]. cbn. by rewrite Ei, E1, E2.
Qed.

Lemma poll_queues_expired cx ds p qs :
  (forall t, cx_expired cx t = true) ->
  match poll_queues cx ds p qs with
  | (None, _, qs') => qs' = qs /\ forall d, d ∈ ds -> qs !! d = None
  | (Some (d, x), _, qs') => exists q q', qs !! d = Some q /\ qs' = <[d := q']> qs /\
      (x = DQ.Empty \/ x <> DQ.Empty /\ (work q' < work q)%nat)
  end.
Proof.
  intros Hx. induction ds as [|d ds IH]; cbn [poll_queues].
  { split; [done|]. by intros ? ?%not_elem_of_nil. }
  destruct (qs !! d) as [q|] eqn:Hd.
  - pose proof (poll_expired_work p cx q Hx) as Hw.
    destruct (DQ.poll_next_action p cx q) as [[[x|] p1] q1].
    + exists q, q1. split; [done|]. split; [done|].
      destruct Hw as [([= ->] & _)|(_ & Hn & Hw)]; [by left|right]. split; [congruence|done].
    + by destruct Hw as [[? _]|[? _]].
  - destruct (poll_queues cx ds p qs) as [[[[d' x]|] p'] qs']; [done|].
    destruct IH as [-> IH]. split; [done|]. intros d' [->|Hin]%elem_of_cons; [done|by apply IH].
Qed.

Lemma drain_work_insert qs d q q' :
  qs !! d = Some q -> (work q' < work q)%nat -> (drain_work (<[d := q']> qs) < drain_work qs)%nat.
Proof.
  intros Hd Hw. pose proof (sum_over_insert (fun q => S (work q)) qs d q q' Hd) as E.
  unfold drain_work. cbn beta in E. lia.
Qed.

Lemma drain_work_delete qs d q :
  qs !! d = Some q -> (drain_work (delete d qs) < drain_work qs)%nat.
Proof.
  intros Hd. pose proof (sum_over_delete (fun q => S (work q)) qs d q Hd) as E.
  unfold drain_work. cbn beta in E. lia.
Qed.

Lemma poll_action_expired fuel ord cx p s r p' s' :
  (forall t, cx_expired cx t = true) ->
  poll_action fuel ord cx p s = Ok (r, p', s') ->
  match r with
  | Pending => queues s' = ∅
  | Ready _ => (serve_work s' < serve_work s)%nat
  end.
Proof.
  intros Hx. revert p s. induction fuel as [|fuel IH]; intros p s; cbn [poll_action]; [done|].
  destruct (CPT.poll_action cx (pending_table s)) as [[x|] t] eqn:Et; apply cpt_poll_work in Et.
  { intros [= <- <- <-]. unfold serve_work. cbn. lia. }
  pose proof (poll_queues_expired cx (ord fuel (destinations (set_table t s))) p
    (queues (set_table t s)) Hx) as Hq.
  destruct (poll_queues cx _ p _) as [[r1 p1] qs1]. cbn [queues set_table] in Hq.
  assert (forall s1, (serve_work s1 < serve_work s)%nat ->
    poll_action fuel ord cx p1 s1 = Ok (r, p', s') ->
    match r with Pending => queues s' = ∅ | Ready _ => (serve_work s' < serve_work s)%nat end) as Hk.
  { intros s1 Hs1 E. specialize (IH _ _ E). destruct r; [lia|done]. }
  destruct r1 as [[d x]|].
  2:{ destruct Hq as [-> Hn]. cbn. intros [= <- <- <-]. cbn. apply map_eq. intros d.
      rewrite lookup_empty. destruct (queues s !! d) eqn:Hd; [|done]. rewrite <- Hd. apply Hn.
      by eapply (destinations_elem (set_table t s)). }
  destruct Hq as (q & q' & Hd & -> & Hw).
  destruct x as [|b|k f|k res].
  - apply Hk. unfold serve_work. cbn. rewrite Et, delete_insert_eq.
    pose proof (drain_work_delete (queues s) d q Hd). lia.
  - destruct Hw as [?|[_ Hw]]; [done|]. intros E. apply result_bind_Ok in E as (t' & E1 & E2).
    apply (Hk _) in E2; [done|]. apply cpt_set_work in E1. cbn in E1. unfold serve_work. cbn.
    pose proof (drain_work_insert (queues s) d q q' Hd Hw). lia.
  - destruct Hw as [?|[_ Hw]]; [done|]. intros [= <- <- <-]. unfold serve_work. cbn.
    pose proof (drain_work_insert (queues s) d q q' Hd Hw). lia.
  - destruct Hw as [?|[_ Hw]]; [done|]. pose proof (drain_work_insert (queues s) d q q' Hd Hw) as Hlt.
    cbn [msdu_handles set_queues set_table].
    destruct (bm_remove_by_right k (msdu_handles s)) as [[[h k']|] m].
    + intros [= <- <- <-]. unfold serve_work. cbn. lia.
    + apply Hk. unfold serve_work. cbn. lia.
Qed.

(** Poll until there is nothing to do; the handles that are confirmed, in order. *)
Fixpoint serve (n fuel : nat) (ord : nat -> IterOrder dest) (cx : Context) (p : PIB) s :
    exec (list mcps.MsduHandle * DataService M) :=
  match n with
  | O => Err OutOfFuel
  | S n =>
      '(r, p, s) ← poll_action fuel (ord n) cx p s;
      match r with
      | Pending => Ok ([], s)
      | Ready (Confirm (mcps.ConfData c)) =>
          '(hs, s) ← serve n fuel ord cx p s; Ok (mcps.confirm_handle c :: hs, s)
      | Ready _ => serve n fuel ord cx p s
      end
  end.

(** C2: Every request is answered once: when the time of every frame has run out,
    polling until there is nothing left to do empties all the queues and confirms
    exactly the outstanding handles, each once, whatever the radio answers to the
    pending tables' requests meanwhile or not. *)
Theorem every_request_confirmed (n fuel : nat) (ord : nat -> IterOrder dest) (cx : Context) (p : PIB) s :
  ds_reachable s -> (forall t, cx_expired cx t = true) ->
  (serve_work s < n)%nat -> (serve_work s < fuel)%nat ->
  exists hs s', serve n fuel ord cx p s = Ok (hs, s') /\ queues s' = ∅ /\ NoDup hs /\
    forall h, h ∈ hs <-> is_Some (bm_get (msdu_handles s) h).
Proof.
  intros I%ds_reachable_inv Hx. revert p s I.
  induction n as [|n IH]; intros p s I Hn Hf; [lia|]. cbn [serve].
  pose proof (total_drain (queues s)) as Ht.
  destruct (poll_action_result fuel (ord n) cx p s I) as (r & p' & s' & E & I' & Hh & _);
    [unfold serve_work in Hf; lia|].
  pose proof (poll_action_expired _ _ _ _ _ _ _ _ Hx E) as Hw. rewrite E. cbn.
  destruct r as [a|].
  - destruct (IH p' s' I' ltac:(lia) ltac:(lia)) as (hs & s2 & E2 & Hq & Hnd & Hhs).
    destruct a as [k|k i v|k i v|k f|[c|c]]; cbn in Hh; try done;
      try (exists hs, s2; rewrite E2; split; [done|]; split; [done|]; split; [done|];
           intros h; by rewrite Hhs, Hh).
    destruct Hh as [Hi Hh]. exists (mcps.confirm_handle c :: hs), s2. rewrite E2. cbn.
    split; [done|]. split; [done|]. split.
    + apply NoDup_cons. split; [|done]. rewrite Hhs, Hh, decide_True by done. by intros [].
    + intros h. rewrite elem_of_cons, Hhs, Hh. case_decide; [subst; split; auto|].
      split; [by intros [?|?]|by right].
  - exists [], s'. split; [done|]. split; [done|]. split; [constructor|].
    intros h. split; [by intros ?%not_elem_of_nil|]. rewrite <- Hh. intros [k Hk].
    destruct (ds_handles s' I' h k Hk) as (d & q & Hq & _). rewrite Hw in Hq.
    by rewrite lookup_empty in Hq.
Qed.
End invariant.

(** ** Witnesses *)

Abbreviation handle_map := (ref_map mcps.MsduHandle UniqueKey).
Definition example_handle : mcps.MsduHandle := mcps.MkHandle (MkKey 5).
Definition example_data_request : mcps.DataRequest := {|
  mcps.source_addressing_mode := AM_Short;
  mcps.destination := Some (FullAddr (PanId 0x1234) (AddrShort (ShortAddr 0x5678)));
  mcps.msdu := [1%Z; 2%Z];
  mcps.msdu_handle := example_handle;
  mcps.ack_tx := true;
  mcps.indirect_tx := true;
|}.
Definition example_order : IterOrder dest := iter_identity dest.

(** A service with one indirect request, whose pending tables have asked for their
    initialisation. *)
Definition requested_service : DataService handle_map :=
  snd (process_mcps_request example_pib example_order (MkKey 10) 1
    (mcps.ReqData example_data_request) new).
Definition initializing_service : DataService handle_map :=
  match poll_action 6 example_order (poll_context 20 no_timer) example_pib requested_service with
  | Ok (_, _, s) => s
  | Err _ => requested_service
  end.

Lemma requested_reachable : ds_reachable requested_service.
Proof.
  apply rtc_once. apply step_mcps_request. intros (d & q & Hq & _). cbn in Hq.
  by rewrite lookup_empty in Hq.
Qed.

Lemma initializing_reachable : ds_reachable initializing_service.
Proof.
  eapply rtc_r; [apply requested_reachable|].
  pose proof (step_poll 6 example_order (poll_context 20 no_timer) example_pib requested_service) as Hs.
  unfold initializing_service.
  destruct (poll_action 6 example_order (poll_context 20 no_timer) example_pib requested_service)
    as [[[r p'] s']|e] eqn:E; [|by vm_compute in E].
  eapply Hs; [exact eq_refl|]. vm_compute. lia.
Qed.

Lemma data_poll_total_witness :
  exists r p' s', poll_action 6 example_order (poll_context 20 no_timer) example_pib
      requested_service = Ok (r, p', s') /\
    handles_after r (msdu_handles requested_service) (msdu_handles s').
Proof.
  refine (data_poll_total 6 example_order (poll_context 20 no_timer) example_pib
    requested_service _ _).
  - exact requested_reachable.
  - vm_compute. lia.
Defined.

Lemma outstanding_requests_queued_witness :
  bm_get (msdu_handles requested_service) example_handle = Some (MkKey 10) /\
  queued (queues requested_service) (MkKey 10).
Proof.
  split; [vm_compute; reflexivity|].
  refine (outstanding_requests_queued requested_service example_handle (MkKey 10) _ _).
  - exact requested_reachable.
  - vm_compute. reflexivity.
Defined.

Lemma idle_pending_bits_witness :
  exists p' s', poll_action 6 example_order (poll_context 21 no_timer) example_pib
      initializing_service = Ok (Pending, p', s') /\
  ((PanId 0x1234, ShortAddr 0x5678) ∈ PT.values (CPT.short (pending_table s')) <->
   exists q e rest,
     queues s' !! Some (FullAddr (PanId 0x1234) (AddrShort (ShortAddr 0x5678))) = Some q /\
     DQ.entries q = e :: rest /\ DQ.indirect e = true).
Proof.
  do 2 eexists. split; [vm_compute; reflexivity|].
  refine (idle_pending_bits 6 example_order (poll_context 21 no_timer) example_pib
    initializing_service _ _ _ _ _ _ _).
  - exact initializing_reachable.
  - vm_compute. lia.
  - vm_compute. reflexivity.
Defined.

Lemma purge_removes_witness :
  let '(c, s') := process_mcps_purge_request example_order (mcps.MkPurgeRequest example_handle)
    requested_service in
  c = mcps.ConfPurge (mcps.MkPurgeConfirm example_handle (Ok tt)) /\ ~ queued (queues s') (MkKey 10).
Proof.
  refine (proj2 (purge_removes example_order (mcps.MkPurgeRequest example_handle)
    requested_service _)).
  exact requested_reachable.
Defined.

Lemma every_request_confirmed_witness :
  exists hs s', serve 20 20 (fun _ => example_order) (poll_context 22 (fun _ => true)) example_pib
      requested_service = Ok (hs, s') /\ queues s' = ∅ /\ NoDup hs /\
    forall h, h ∈ hs <-> is_Some (bm_get (msdu_handles requested_service) h).
Proof.
  refine (every_request_confirmed 20 20 (fun _ => example_order) (poll_context 22 (fun _ => true))
    example_pib requested_service _ _ _ _).
  - exact requested_reachable.
  - reflexivity.
  - vm_compute. lia.
  - vm_compute. lia.
Defined.
