(* ===== verification/RadioRaw.v ===== *)
(** * The raw radio protocol ([radio/raw.rs])

    Messages to and from the radio's serial port: a magic prefix, a command, a
    request id, a length and the data, all big-endian.  The sink buffers messages
    until the port takes their bytes; the stream looks for the prefix in what the
    port delivers and cuts messages out of it.

    Reading uses the streaming parsers of the [nom] crate and writing the
    serializers of [cookie_factory]; both are parameters of the model, with the
    laws their documentation gives.

    Shown in [RadioRawTheory.v]: whatever the port's chunks are, and whatever noise
    lies between the messages, the stream delivers the messages that were sent, in
    order; the sink loses and repeats nothing; and where the stream panics. *)

From Stdlib Require Import ZArith Lia.
From S2P Require Import Prelude Pack PackDerive Async.

#[local] Open Scope Z_scope.

(** ** [nom::*::streaming] *)

Inductive IResult (A : Type) := Done (rest : list Z) (a : A) | Incomplete | NomError.
Arguments Done {A} rest a.
Arguments Incomplete {A}.
Arguments NomError {A}.

Class Nom := {
  nom_tag : list Z -> list Z -> IResult (list Z);
  nom_be_u8 : list Z -> IResult Z;
  nom_be_u16 : list Z -> IResult Z;
  nom_take : nat -> list Z -> IResult (list Z);
}.

Class NomLaws `{Nom} := {
  nom_tag_done t rest : nom_tag t (t ++ rest) = Done rest t;
  nom_tag_incomplete t input :
    input `prefix_of` t -> input <> t -> nom_tag t input = Incomplete;
  nom_tag_error t input :
    ~ t `prefix_of` input -> ~ input `prefix_of` t -> nom_tag t input = NomError;
  nom_be_u8_spec input :
    nom_be_u8 input =
      match input with x :: rest => Done rest x | [] => Incomplete end;
  nom_be_u16_spec input :
    nom_be_u16 input =
      match input with x :: y :: rest => Done rest (from_be_bytes [x; y]) | _ => Incomplete end;
  nom_take_spec n input :
    nom_take n input =
      if decide (n <= length input)%nat then Done (drop n input) (take n input) else Incomplete;
}.

(** ** [cookie_factory] *)

(** A serializer that writes into a [Vec]. *)
Definition SerializeFn := list Z -> exec (list Z).

Class CookieFactory := {
  cf_slice : list Z -> SerializeFn;
  cf_be_u8 : Z -> SerializeFn;
  cf_be_u16 : Z -> SerializeFn;
  cf_tuple : list SerializeFn -> SerializeFn;
  cf_gen : SerializeFn -> list Z -> exec (list Z);
}.

Class CookieFactoryLaws `{CookieFactory} := {
  cf_slice_spec bs w : cf_slice bs w = Ok (w ++ bs);
  cf_be_u8_spec x w : in_width 8 x -> cf_be_u8 x w = Ok (w ++ [x]);
  cf_be_u16_spec x w : in_width 16 x -> cf_be_u16 x w = Ok (w ++ to_be_bytes 2 x);
  cf_tuple_nil w : cf_tuple [] w = Ok w;
  cf_tuple_cons f fs w : cf_tuple (f :: fs) w = (w ← f w; cf_tuple fs w);
  cf_gen_spec f w : cf_gen f w = f w;
}.

(** ** Messages *)

Definition RADIO_MAGIC_PREFIX : list Z := [0x5A; 0x50; 0x42].

Inductive RawRadioCommand :=
| CmdPrepare | CmdTransmit | CmdSend | CmdChannelClear | CmdOn | CmdOff | CmdGetValue
| CmdSetValue | CmdGetObject | CmdSetObject | CmdInitPendingTable | CmdSetPending | CmdOk
| CmdErr | CmdOnPacket.
#[export] Instance RawRadioCommand_eq_dec : EqDecision RawRadioCommand.
Proof. solve_decision. Defined.

(** [#[derive(ExtEnum)] #[tag_type(u8)] enum RawRadioCommand] *)
Definition RawRadioCommand_tags : list (u8 * RawRadioCommand) :=
  [(Uint 0, CmdPrepare); (Uint 1, CmdTransmit); (Uint 2, CmdSend); (Uint 3, CmdChannelClear);
   (Uint 4, CmdOn); (Uint 5, CmdOff); (Uint 6, CmdGetValue); (Uint 7, CmdSetValue);
   (Uint 8, CmdGetObject); (Uint 9, CmdSetObject); (Uint 10, CmdInitPendingTable);
   (Uint 11, CmdSetPending); (Uint 0x80, CmdOk); (Uint 0x81, CmdErr); (Uint 0xC0, CmdOnPacket)].
#[export] Instance RawRadioCommand_ExtEnum : ExtEnum u8 RawRadioCommand :=
  derive_ext_enum (Uint 0) RawRadioCommand_tags.

Record RawRadioMessage := {
  command_id : RawRadioCommand;
  request_id : u16;
  data : list Z;
}.
#[export] Instance RawRadioMessage_eq_dec : EqDecision RawRadioMessage.
Proof. solve_decision. Defined.

Inductive RawRadioParam :=
| PowerMode | Channel | PanId | ShortAddress | RxMode | TxMode | TxPower | CcaThreshold | Rssi
| LastRssi | LastLinkQuality | LongAddress | LastPacketTimestamp | ChannelMin | ChannelMax
| TxPowerMin | TxPowerMax.
#[export] Instance RawRadioParam_eq_dec : EqDecision RawRadioParam.
Proof. solve_decision. Defined.

(** [param as u16] *)
Definition param_as_u16 (p : RawRadioParam) : Z :=
  match p with
  | PowerMode => 0 | Channel => 1 | PanId => 2 | ShortAddress => 3 | RxMode => 4 | TxMode => 5
  | TxPower => 6 | CcaThreshold => 7 | Rssi => 8 | LastRssi => 9 | LastLinkQuality => 10
  | LongAddress => 11 | LastPacketTimestamp => 12 | ChannelMin => 13 | ChannelMax => 14
  | TxPowerMin => 15 | TxPowerMax => 16
  end.

(** [u16::max_value()] *)
Definition u16_max : nat := N.to_nat 65535.

Section protocol.
Context `{Nom, CookieFactory}.

Definition gen_raw_radio_message (msg : RawRadioMessage) : SerializeFn :=
  let len := if decide (u16_max < length (data msg))%nat then u16_max else length (data msg) in
  cf_tuple [
    cf_slice RADIO_MAGIC_PREFIX;
    cf_be_u8 (uint_val (into_tag (command_id msg) : u8));
    cf_be_u16 (uint_val (request_id msg));
    cf_be_u16 (Z.of_nat len);
    cf_slice (take len (data msg))].

(** [Into<Vec<u8>>] *)
Definition into_vec (msg : RawRadioMessage) : exec (list Z) :=
  cf_gen (gen_raw_radio_message msg) [].

(** [nom::sequence::tuple] and the [?] operator on parsers. *)
Definition nom_bind {A B} (r : IResult A) (f : list Z -> A -> exec (IResult B)) : exec (IResult B) :=
  match r with
  | Done rest a => f rest a
  | Incomplete => Ok Incomplete
  | NomError => Ok NomError
  end.

(** [Result::unwrap] *)
Definition unwrap_result {E A} (r : result E A) : exec A :=
  match r with Ok a => Ok a | Err _ => Err Panic end.

Definition parse_raw_radio_message (input : list Z) : exec (IResult RawRadioMessage) :=
  nom_bind (nom_tag RADIO_MAGIC_PREFIX input) (fun input _ =>
  nom_bind (nom_be_u8 input) (fun input command_id =>
  nom_bind (nom_be_u16 input) (fun input request_id =>
  nom_bind (nom_be_u16 input) (fun input data_len =>
  command_id ← unwrap_result (try_from_tag (Uint command_id : u8));
  nom_bind (nom_take (Z.to_nat data_len) input) (fun input data =>
  Ok (Done input {| command_id := command_id; request_id := Uint request_id; data := data |})))))).

(** ** The sink

    What the port does with the bytes it is offered: it takes up to a number of
    them, is not ready, or fails. *)
Inductive write_event := WAccept (n : nat) | WPending | WError.

(** [written_out] is what the port has taken so far. *)
Record RawRadioSink := {
  sink_buffer : list Z;
  written : nat;
  written_out : list Z;
}.

Definition sink_new : RawRadioSink := {| sink_buffer := []; written := 0; written_out := [] |}.

(** [poll_ready]: writes until the buffer is empty; the events are the answers of
    [poll_write]. *)
Fixpoint poll_ready (events : list write_event) (s : RawRadioSink) :
    Poll (result unit unit) * list write_event * RawRadioSink :=
  if decide (written s < length (sink_buffer s))%nat then
    match events with
    | [] => (Pending, [], s)
    | WPending :: events => (Pending, events, s)
    | WError :: events => (Ready (Err tt), events, s)
    | WAccept n :: events =>
        let taken := take n (drop (written s) (sink_buffer s)) in
        poll_ready events {| sink_buffer := sink_buffer s;
                             written := written s + length taken;
                             written_out := written_out s ++ taken |}
    end
  else (Ready (Ok tt), events, {| sink_buffer := []; written := 0; written_out := written_out s |}).

Definition start_send (item : RawRadioMessage) (s : RawRadioSink) : exec RawRadioSink :=
  bytes ← into_vec item;
  Ok {| sink_buffer := sink_buffer s ++ bytes; written := written s; written_out := written_out s |}.

(** [poll_flush] and [poll_close]: once everything is written, the port's own
    ([target_poll]) is the answer. *)
Definition poll_flush (events : list write_event) (target_poll : Poll (result unit unit))
    (s : RawRadioSink) : Poll (result unit unit) * list write_event * RawRadioSink :=
  match poll_ready events s with
  | (Ready (Ok _), events, s) => (target_poll, events, s)
  | r => r
  end.
Definition poll_close := poll_flush.

(** ** The stream *)

(** [haystack.windows(needle.len()).position(|window| window == needle)] *)
Fixpoint find_subsequence (haystack needle : list Z) : option nat :=
  if decide (take (length needle) haystack = needle) then Some 0%nat
  else match haystack with
       | [] => None
       | _ :: haystack => S <$> find_subsequence haystack needle
       end.

(** [rotate_left] and [rotate_right] of slices. *)
Definition rotate_left (n : nat) (l : list Z) : list Z := drop n l ++ take n l.
Definition rotate_right (n : nat) (l : list Z) : list Z :=
  drop (length l - n) l ++ take (length l - n) l.

(** [pop_raw_message]: the new length, the message and the buffer as it is left. *)
Definition pop_raw_message (buffer : list Z) : exec (nat * option RawRadioMessage * list Z) :=
  if decide (length buffer < length RADIO_MAGIC_PREFIX)%nat then Ok (length buffer, None, buffer)
  else
    match find_subsequence buffer RADIO_MAGIC_PREFIX with
    | None =>
        Ok (length RADIO_MAGIC_PREFIX, None, rotate_right (length RADIO_MAGIC_PREFIX) buffer)
    | Some index =>
        let buffer := rotate_left index buffer in
        let new_len := (length buffer - index)%nat in
        let tail := drop new_len buffer in
        let buffer := take new_len buffer in
        r ← parse_raw_radio_message buffer;
        match r with
        | Done remaining message =>
            let remaining_len := length remaining in
            Ok (remaining_len, Some message, rotate_right remaining_len buffer ++ tail)
        | Incomplete => Ok (length buffer, None, buffer ++ tail)
        | NomError => Err Panic
        end
    end.

(** What the port delivers to a read: bytes that are there, of which a read takes as
    many as fit, nothing yet, or an error. *)
Inductive read_event := RData (bs : list Z) | RPending | RError.

(** [poll_next]; [buffer] holds the bytes up to [buffer_filled], those behind it are
    written before they are read.  A read into the [room] left takes what fits of
    the bytes there are. *)
Fixpoint poll_next (fuel : nat) (events : list read_event) (buffer : list Z) :
    exec (Poll (option RawRadioMessage) * list read_event * list Z) :=
  match fuel with
  | O => Err OutOfFuel
  | S fuel =>
      '(new_length, message, buffer) ← pop_raw_message buffer;
      let buffer := take new_length buffer in
      match message with
      | Some message => Ok (Ready (Some message), events, buffer)
      | None =>
          let room := (u16_max - length buffer)%nat in
          if decide (room = 0%nat) then Ok (Ready None, events, buffer)
          else
            match events with
            | [] => Ok (Pending, [], buffer)
            | RPending :: events => Ok (Pending, events, buffer)
            | RError :: events => Ok (Ready None, events, buffer)
            | RData bs :: events =>
                let events := match drop room bs with [] => events | bs => RData bs :: events end in
                poll_next fuel events (buffer ++ take room bs)
            end
      end
  end.
End protocol.
