(* ===== verification/RadioRawTheory.v ===== *)
(** * Theory of the raw radio protocol

    The wire format, its parsing from any prefix, the stream and the sink. *)

From Stdlib Require Import ZArith Lia.
From S2P Require Import Prelude Pack PackDerive Async RadioRaw.

#[local] Open Scope Z_scope.

(** ** The wire format *)

Definition command_byte (c : RawRadioCommand) : Z := uint_val (into_tag c : u8).

Definition wire (m : RawRadioMessage) : list Z :=
  RADIO_MAGIC_PREFIX ++ [command_byte (command_id m)] ++
  to_be_bytes 2 (uint_val (request_id m)) ++ to_be_bytes 2 (Z.of_nat (length (data m))) ++ data m.

(** A message whose bytes fit the stream's buffer. *)
Definition msg_fits (m : RawRadioMessage) : Prop :=
  in_width 16 (uint_val (request_id m)) /\ (length (wire m) <= u16_max)%nat.

Lemma command_byte_width c : in_width 8 (command_byte c).
Proof. destruct c; (split; [by vm_compute|reflexivity]). Qed.

Lemma command_byte_parses c : try_from_tag (Uint (command_byte c) : u8) = Ok c.
Proof. by destruct c. Qed.

Lemma command_byte_of x c : try_from_tag (Uint x : u8) = Ok c -> command_byte c = x.
Proof.
  intros E. apply try_from_tag_Ok in E.
  assert (Forall (fun tc : u8 * RawRadioCommand => command_byte (snd tc) = uint_val (fst tc))
    RawRadioCommand_tags) as Ht by (repeat constructor).
  by eapply Forall_forall in Ht; [|exact E].
Qed.

Lemma u16_max_Z : Z.of_nat u16_max = 65535.
Proof. unfold u16_max. rewrite N_nat_Z. done. Qed.

#[local] Opaque u16_max.

Lemma be_bytes_2 x : exists a b, to_be_bytes 2 x = [a; b].
Proof. unfold to_be_bytes. cbn. eauto. Qed.

Lemma length_wire m : length (wire m) = (8 + length (data m))%nat.
Proof.
  unfold wire. rewrite !length_app, !length_to_be_bytes. cbn. lia.
Qed.

Lemma data_length_width m : (length (data m) <= u16_max)%nat -> in_width 16 (Z.of_nat (length (data m))).
Proof. intros Hl. pose proof u16_max_Z. unfold in_width. change (2 ^ 16) with 65536. lia. Qed.

Section wire_theory.
Context `{!Nom, !NomLaws, !CookieFactory, !CookieFactoryLaws}.

(** The bytes that are sent: the data are cut after 65535 bytes. *)
Lemma into_vec_spec m :
  in_width 16 (uint_val (request_id m)) ->
  into_vec m = Ok (wire {| command_id := command_id m; request_id := request_id m;
                           data := take u16_max (data m) |}).
Proof.
  intros Hr. unfold into_vec, gen_raw_radio_message. rewrite cf_gen_spec.
  set (len := if decide _ then u16_max else _).
  assert (len = length (take u16_max (data m))) as El.
  { unfold len. rewrite length_take. case_decide; lia. }
  assert (take len (data m) = take u16_max (data m)) as Et.
  { unfold len. case_decide; [done|]. rewrite !take_ge; [done|lia|lia]. }
  assert (in_width 16 (Z.of_nat len)) as Hl.
  { rewrite El. pose proof u16_max_Z. rewrite length_take. unfold in_width.
    change (2 ^ 16) with 65536. lia. }
  rewrite cf_tuple_cons, cf_slice_spec. cbn [mbind result_bind].
  rewrite cf_tuple_cons, cf_be_u8_spec by apply command_byte_width. cbn [mbind result_bind].
  rewrite cf_tuple_cons, cf_be_u16_spec by done. cbn [mbind result_bind].
  rewrite cf_tuple_cons, cf_be_u16_spec by done. cbn [mbind result_bind].
  rewrite cf_tuple_cons, cf_slice_spec. cbn [mbind result_bind].
  rewrite cf_tuple_nil. unfold wire. cbn [command_id request_id data].
  rewrite Et, El. by rewrite <- !(assoc_L (++)).
Qed.

Lemma into_vec_fits m : msg_fits m -> into_vec m = Ok (wire m).
Proof.
  intros [Hr Hl]. rewrite into_vec_spec by done. rewrite length_wire in Hl.
  rewrite take_ge by lia. by destruct m.
Qed.

(** *** Parsing *)

Lemma parse_wire m rest :
  msg_fits m -> parse_raw_radio_message (wire m ++ rest) = Ok (Done rest m).
Proof.
  intros [Hr Hl]. rewrite length_wire in Hl. unfold parse_raw_radio_message, wire.
  rewrite <- !(assoc_L (++)). rewrite nom_tag_done. cbn [nom_bind app].
  rewrite nom_be_u8_spec. cbn [nom_bind].
  destruct (be_bytes_2 (uint_val (request_id m))) as (a & b & Eab). rewrite Eab.
  rewrite nom_be_u16_spec. cbn [app nom_bind].
  destruct (be_bytes_2 (Z.of_nat (length (data m)))) as (c & d & Ecd). rewrite Ecd.
  rewrite nom_be_u16_spec. cbn [app nom_bind].
  rewrite command_byte_parses. cbn [unwrap_result mbind result_bind].
  rewrite nom_take_spec, <- Ecd, from_to_be_bytes by by apply data_length_width; lia.
  rewrite Nat2Z.id, decide_True by (rewrite length_app; lia). cbn [nom_bind].
  rewrite drop_app_length, take_app_length, <- Eab, from_to_be_bytes by done.
  by destruct m as [? [] ?].
Qed.

(** Too few bytes of a message to tell. *)
Lemma parse_incomplete m c u :
  msg_fits m -> c ++ u = wire m -> u <> [] -> (3 <= length c)%nat ->
  parse_raw_radio_message c = Ok Incomplete.
Proof.
  intros [Hr Hl] E Hu Hc. rewrite length_wire in Hl. unfold wire in E.
  destruct (be_bytes_2 (uint_val (request_id m))) as (a & b & Eab).
  destruct (be_bytes_2 (Z.of_nat (length (data m)))) as (l1 & l2 & El). rewrite Eab, El in E.
  destruct c as [|x1 [|x2 [|x3 c]]]; cbn in Hc; try lia.
  cbn [app RADIO_MAGIC_PREFIX] in E. injection E as -> -> -> E. unfold parse_raw_radio_message.
  change (0x5A :: 0x50 :: 0x42 :: c) with (RADIO_MAGIC_PREFIX ++ c). rewrite nom_tag_done.
  cbn [nom_bind]. rewrite nom_be_u8_spec. destruct c as [|t c]; [done|]. cbn [nom_bind].
  cbn [app] in E. injection E as -> E. rewrite nom_be_u16_spec.
  destruct c as [|a' [|b' c]]; [done..|]. cbn [nom_bind]. cbn [app] in E. injection E as -> -> E.
  rewrite nom_be_u16_spec.
  destruct c as [|l1' [|l2' c]]; [done..|]. cbn [nom_bind]. cbn [app] in E. injection E as -> -> E.
  rewrite command_byte_parses. cbn [unwrap_result mbind result_bind].
  rewrite nom_take_spec, <- El, from_to_be_bytes by by apply data_length_width; lia.
  rewrite Nat2Z.id, decide_False; [done|]. rewrite <- E, length_app.
  destruct u; [done|]. cbn. lia.
Qed.
End wire_theory.

(** ** Looking for the prefix *)

(** Noise: bytes that are not the first of the prefix. *)
Definition noise (l : list Z) : Prop := Forall (fun x => x <> 0x5A) l.

Lemma find_noise l k :
  noise l -> find_subsequence (l ++ k) RADIO_MAGIC_PREFIX =
    (fun i => (length l + i)%nat) <$> find_subsequence k RADIO_MAGIC_PREFIX.
Proof.
  induction 1 as [|x l Hx _ IH]; cbn [app length].
  - by destruct (find_subsequence k _).
  - cbn [find_subsequence]. rewrite decide_False.
    + rewrite IH. by destruct (find_subsequence k _).
    + cbn. intros [= Ha _]. done.
Qed.

Lemma find_prefix k : find_subsequence (RADIO_MAGIC_PREFIX ++ k) RADIO_MAGIC_PREFIX = Some 0%nat.
Proof. cbn [app find_subsequence RADIO_MAGIC_PREFIX]. by rewrite decide_True. Qed.

Lemma length_rotate_right n l : length (rotate_right n l) = length l.
Proof. unfold rotate_right. rewrite length_app, Nat.add_comm, <- length_app. by rewrite take_drop. Qed.

Lemma rotate_right_keep n l : (n <= length l)%nat -> take n (rotate_right n l) = drop (length l - n) l.
Proof.
  intros Hn. unfold rotate_right.
  replace n with (length (drop (length l - n) l)) at 1 by (rewrite length_drop; lia).
  apply take_app_length.
Qed.

(** A prefix of noise followed by something either stops in the noise or passes it. *)
Lemma split_noise (c u l k : list Z) :
  c ++ u = l ++ k -> (exists l', l = c ++ l' /\ u = l' ++ k) \/ (exists c', c = l ++ c' /\ c' ++ u = k).
Proof.
  intros E. apply app_eq_inv in E as [(x & E1 & E2)|(x & E1 & E2)]; [right|left]; eauto.
Qed.

(** ** One message out of the buffer *)

Section stream_theory.
Context `{!Nom, !NomLaws, !CookieFactory, !CookieFactoryLaws}.

(** A short prefix of a message is no more than the beginning of the magic prefix. *)
Lemma find_short l c :
  noise l -> (length c < 3)%nat -> c `prefix_of` RADIO_MAGIC_PREFIX ->
  find_subsequence (l ++ c) RADIO_MAGIC_PREFIX = None.
Proof.
  intros Hl Hc [k Hk]. rewrite find_noise by done.
  destruct c as [|x [|y [|z c]]]; cbn in Hc; try lia; try done;
    cbn in Hk; injection Hk as; by subst.
Qed.

Lemma noise_app l k : noise (l ++ k) <-> noise l /\ noise k.
Proof. apply Forall_app. Qed.

(** What popping does to a buffer [c] of a stream of which [u] is still to come. *)
Definition popped (c u : list Z) (m : RawRadioMessage) (rest : list Z)
    (r : nat * option RawRadioMessage * list Z) : Prop :=
  let '(n, msg, b) := r in
  match msg with
  | Some m' => m' = m /\ take n b ++ u = rest
  | None => exists l, noise l /\ take n b ++ u = l ++ wire m ++ rest /\
      (length (take n b) < length (wire m))%nat
  end.

Lemma pop_message c u l m rest :
  msg_fits m -> noise l -> c ++ u = l ++ wire m ++ rest ->
  exists r, pop_raw_message c = Ok r /\ popped c u m rest r.
Proof.
  intros Hm Hl E. pose proof (length_wire m) as Hw. unfold pop_raw_message.
  case_decide as Hs.
  { eexists. split; [reflexivity|]. cbn. exists l. rewrite firstn_all.
    change (length RADIO_MAGIC_PREFIX) with 3%nat in Hs. split; [done|]. split; [done|]. lia. }
  change (length RADIO_MAGIC_PREFIX) with 3%nat in Hs |- *.
  apply split_noise in E as [(l' & -> & ->)|(c' & -> & E)].
  { (* only noise so far *)
    apply noise_app in Hl as [Hc Hl'].
    assert (find_subsequence c RADIO_MAGIC_PREFIX = None) as ->.
    { rewrite <- (app_nil_r c). by apply find_short; [|cbn; lia|apply prefix_nil]. }
    eexists. split; [reflexivity|]. cbn [popped]. rewrite rotate_right_keep by lia.
    exists (drop (length c - 3) c ++ l'). split; [apply noise_app; split; [by apply Forall_drop|done]|].
    split; [by rewrite <- (assoc_L (++))|]. rewrite length_drop. lia. }
  destruct (decide (length c' < 3)%nat) as [Hc|Hc].
  { (* the magic prefix is not complete *)
    assert (c' `prefix_of` RADIO_MAGIC_PREFIX) as Hp.
    { destruct c' as [|x [|y [|z c']]]; cbn in Hc; try lia; cbn in E.
      - apply prefix_nil.
      - injection E as -> _. by exists [0x50; 0x42].
      - injection E as -> -> _. by exists [0x42]. }
    rewrite find_short by done.
    eexists. split; [reflexivity|]. cbn [popped]. rewrite rotate_right_keep by lia.
    rewrite drop_app, length_app. replace (length l + length c' - 3 - length l)%nat with 0%nat by
      (rewrite length_app in Hs; lia).
    exists (drop (length l + length c' - 3) l). split; [by apply Forall_drop|].
    rewrite drop_0. split; [by rewrite <- (assoc_L (++)), E|].
    rewrite length_app, length_drop. rewrite length_app in Hs. lia. }
  (* the message has begun *)
  assert (exists c1, c' = RADIO_MAGIC_PREFIX ++ c1) as [c1 Ec1].
  { destruct c' as [|x [|y [|z c']]]; cbn in Hc; try lia. cbn in E. injection E as -> -> -> _.
    by exists c'. }
  rewrite find_noise by done. rewrite Ec1, find_prefix. cbn [fmap option_fmap option_map].
  rewrite <- Ec1. cbv zeta. rewrite Nat.add_0_r. unfold rotate_left. rewrite drop_app_length, take_app_length.
  assert (length (c' ++ l) - length l = length c')%nat as -> by (rewrite length_app; lia).
  rewrite take_app_length, drop_app_length.
  destruct (decide (length c' < length (wire m))%nat) as [Hlt|Hge].
  - assert (exists u', u' <> [] /\ c' ++ u' = wire m /\ u = u' ++ rest) as (u' & Hu' & Eu & ->).
    { apply app_eq_inv in E as [(k & E1 & E2)|(k & E1 & E2)].
      - exfalso. rewrite E1, length_app in Hlt. lia.
      - exists k. split; [|done]. intros ->. rewrite E1, app_nil_r in Hlt. lia. }
    rewrite (parse_incomplete m c' u') by (done || lia). cbn.
    eexists. split; [reflexivity|]. cbn [popped]. exists []. rewrite take_app_length.
    split; [constructor|]. split; [|done]. cbn. by rewrite (assoc_L (++)), Eu.
  - assert (exists k, c' = wire m ++ k /\ rest = k ++ u) as (k & -> & ->).
    { apply app_eq_inv in E as [(k & E1 & E2)|(k & E1 & E2)]; [eauto|].
      assert (k = []) as ->.
      { apply length_zero_iff_nil. rewrite E1, length_app in Hge. lia. }
      exists []. rewrite app_nil_r in *. by subst. }
    rewrite parse_wire by done. cbn [mbind result_bind]. eexists. split; [reflexivity|]. cbn [popped]. split; [done|].
    f_equal. rewrite take_app_le by (rewrite length_rotate_right, length_app; lia).
    rewrite rotate_right_keep by (rewrite length_app; lia). rewrite length_app.
    replace (length (wire m) + length k - length k)%nat with (length (wire m)) by lia.
    apply drop_app_length.
Qed.

(** Noise alone: nothing comes out of it, and at most three bytes of it are kept. *)
Lemma pop_noise c u :
  noise (c ++ u) -> exists n b, pop_raw_message c = Ok (n, None, b) /\
    noise (take n b ++ u) /\ (length (take n b) <= 3)%nat.
Proof.
  intros Hn. apply noise_app in Hn as [Hc Hu]. unfold pop_raw_message.
  case_decide as Hs; change (length RADIO_MAGIC_PREFIX) with 3%nat in Hs |- *.
  - do 2 eexists. split; [reflexivity|]. rewrite firstn_all. split; [by apply noise_app|lia].
  - assert (find_subsequence c RADIO_MAGIC_PREFIX = None) as ->.
    { rewrite <- (app_nil_r c). by apply find_short; [|cbn; lia|apply prefix_nil]. }
    do 2 eexists. split; [reflexivity|]. rewrite rotate_right_keep by lia.
    split; [apply noise_app; split; [by apply Forall_drop|done]|]. rewrite length_drop. lia.
Qed.

(** ** Reading *)

(** The bytes still to be read, and the number of reads they can take. *)
Definition available (events : list read_event) : list Z :=
  events ≫= fun e => match e with RData bs => bs | _ => [] end.
Definition event_size (e : read_event) : nat :=
  match e with RData bs => S (length bs) | _ => 1%nat end.
Definition size (events : list read_event) : nat := sum_list_with event_size events.
Definition no_error (events : list read_event) : Prop := Forall (fun e => e <> RError) events.

Lemma available_data room bs events :
  available match drop room bs with [] => events | bs => RData bs :: events end =
  drop room bs ++ available events.
Proof. by destruct (drop room bs). Qed.
Lemma no_error_data room bs events :
  no_error events -> no_error match drop room bs with [] => events | bs => RData bs :: events end.
Proof. intros Hn. destruct (drop room bs); [done|by constructor]. Qed.
Lemma size_data room bs events :
  (0 < room)%nat ->
  (size match drop room bs with [] => events | bs => RData bs :: events end < size (RData bs :: events))%nat.
Proof.
  intros Hroom. unfold size. cbn [sum_list_with event_size]. pose proof (length_drop bs room) as Ed.
  destruct (drop room bs) as [|x d]; cbn [sum_list_with event_size length] in *; lia.
Qed.

(** A poll while a message is on its way, of which [future] is not there yet. *)
Lemma poll_next_partial fuel events c future l m rest :
  msg_fits m -> noise l -> no_error events ->
  c ++ available events ++ future = l ++ wire m ++ rest -> (size events < fuel)%nat ->
  exists r ev c', poll_next fuel events c = Ok (r, ev, c') /\ no_error ev /\
    ((r = Ready (Some m) /\ c' ++ available ev ++ future = rest /\ (size ev <= size events)%nat) \/
     (r = Pending /\ (ev = [] \/ RPending ∈ events /\ (size ev < size events)%nat) /\
      (length c' < length (wire m))%nat /\
      exists l', noise l' /\ c' ++ available ev ++ future = l' ++ wire m ++ rest)).
Proof.
  intros Hm. revert events c l. induction fuel as [|fuel IH]; intros events c l Hl Hn E Hf; [lia|].
  cbn [poll_next].
  destruct (pop_message c (available events ++ future) l m rest Hm Hl E) as ([[n msg] b] & -> & Hp).
  cbn [mbind result_bind]. destruct msg as [m'|]; cbn [popped] in Hp.
  { destruct Hp as [-> Hp]. do 3 eexists. split; [reflexivity|]. split; [done|]. left. auto. }
  destruct Hp as (l' & Hl' & Hp & Hlen). set (c1 := take n b) in *.
  pose proof (proj2 Hm) as Hw. rewrite decide_False by lia.
  destruct events as [|[bs| |] events]; [|apply Forall_cons in Hn as [He Hn]..]; [| | |done].
  - do 3 eexists. split; [reflexivity|]. split; [done|]. right. eauto 8.
  - set (room := (u16_max - length c1)%nat) in *.
    assert (0 < room)%nat as Hroom by (unfold room; lia). pose proof (size_data room bs events Hroom) as Hsz.
    assert ((c1 ++ take room bs) ++
      available match drop room bs with [] => events | bs => RData bs :: events end ++ future
      = l' ++ wire m ++ rest) as E1.
    { rewrite <- Hp, available_data. cbn [available mbind list_bind].
      rewrite <- (take_drop room bs) at 3. by rewrite <- !(assoc_L (++)). }
    destruct (IH _ (c1 ++ take room bs) l' Hl' (no_error_data room bs events Hn) E1 ltac:(lia))
      as (r & ev' & c' & E2 & Hn' & Hr).
    exists r, ev', c'. split; [exact E2|]. split; [done|].
    destruct Hr as [(? & ? & ?)|(? & [?|[Hin ?]] & ?)]; [left|right..]; (split; [done|]); split; try done; [lia|auto|].
    right. split; [|lia]. right. destruct (drop room bs); [done|]. by apply elem_of_cons in Hin as [?|?].
  - do 3 eexists. split; [reflexivity|]. split; [done|]. right. split; [done|].
    split; [right; split; [by left|unfold size; cbn; lia]|]. eauto.
Qed.

(** The same when all of it is there. *)
Lemma poll_next_message fuel events c l m rest :
  msg_fits m -> noise l -> no_error events -> c ++ available events = l ++ wire m ++ rest ->
  (size events < fuel)%nat ->
  exists r ev c', poll_next fuel events c = Ok (r, ev, c') /\ no_error ev /\
    ((r = Ready (Some m) /\ c' ++ available ev = rest /\ (size ev <= size events)%nat) \/
     (r = Pending /\ ev <> [] /\ (size ev < size events)%nat /\
      exists l', noise l' /\ c' ++ available ev = l' ++ wire m ++ rest)).
Proof.
  intros Hm Hl Hn E Hf. rewrite <- (app_nil_r (available events)) in E.
  destruct (poll_next_partial fuel events c [] l m rest Hm Hl Hn E Hf) as (r & ev & c' & Ep & He & Hr).
  rewrite app_nil_r in Hr. exists r, ev, c'. split; [done|]. split; [done|].
  destruct Hr as [?|(-> & Hs & Hlen & l' & Hl' & E')]; [by left|right].
  assert (ev <> []) as Hne.
  { intros ->. change (available []) with (@nil Z) in E'. apply (f_equal length) in E'.
    rewrite !length_app in E'. change (length []) with 0%nat in E'. lia. }
  destruct Hs as [?|[_ ?]]; [done|]. eauto 6.
Qed.

Lemma poll_next_noise fuel events c :
  noise (c ++ available events) -> no_error events -> (size events < fuel)%nat ->
  exists ev c', poll_next fuel events c = Ok (Pending, ev, c') /\ no_error ev /\
    noise (c' ++ available ev) /\ (ev = [] \/ (size ev < size events)%nat).
Proof.
  revert events c. induction fuel as [|fuel IH]; intros events c Hc Hn Hf; [lia|].
  cbn [poll_next]. destruct (pop_noise c (available events) Hc) as (n & b & -> & Hp & Hlen).
  cbn [mbind result_bind]. set (c1 := take n b) in *.
  rewrite decide_False by (pose proof u16_max_Z; lia).
  destruct events as [|[bs| |] events].
  - do 2 eexists. split; [reflexivity|]. split; [done|]. split; [done|by left].
  - apply Forall_cons in Hn as [_ Hn]. set (room := (u16_max - length c1)%nat) in *.
    assert (0 < room)%nat as Hroom by (unfold room; pose proof u16_max_Z; lia).
    pose proof (size_data room bs events Hroom) as Hsz. clearbody room.
    assert (noise ((c1 ++ take room bs) ++
      available match drop room bs with [] => events | bs => RData bs :: events end)) as E1.
    { rewrite available_data, <- (assoc_L (++)), (assoc_L (++) (take room bs)), take_drop. exact Hp. }
    destruct (IH _ (c1 ++ take room bs) E1 (no_error_data room bs events Hn) ltac:(lia))
      as (ev' & c' & E2 & Hn' & Hc' & Hs).
    exists ev', c'. split; [exact E2|]. split; [done|]. split; [done|].
    destruct Hs; [by left|right; lia].
  - apply Forall_cons in Hn as [_ Hn]. do 2 eexists. split; [reflexivity|]. split; [done|].
    split; [done|]. right. unfold size. cbn. lia.
  - by apply Forall_cons in Hn as [? _].
Qed.

(** A task that polls the stream until it ends or the port has nothing more. *)
Fixpoint receive (fuel : nat) (events : list read_event) (buffer : list Z) :
    exec (list RawRadioMessage) :=
  match fuel with
  | O => Err OutOfFuel
  | S fuel' =>
      '(r, events, buffer) ← poll_next fuel events buffer;
      match r with
      | Ready (Some m) => ms ← receive fuel' events buffer; Ok (m :: ms)
      | Ready None => Ok []
      | Pending => match events with [] => Ok [] | _ => receive fuel' events buffer end
      end
  end.

(** Messages with noise before each of them. *)
Definition noisy (ms : list (list Z * RawRadioMessage)) : list Z :=
  ms ≫= fun lm => fst lm ++ wire (snd lm).

Lemma receive_noisy fuel ms events tail c :
  Forall (fun lm => noise (fst lm) /\ msg_fits (snd lm)) ms -> noise tail -> no_error events ->
  (size events + length ms < fuel)%nat -> c ++ available events = noisy ms ++ tail ->
  receive fuel events c = Ok (snd <$> ms).
Proof.
  revert ms events tail c.
  induction fuel as [|fuel IH]; intros ms events tail c Hms Ht Hn Hf E; [lia|].
  cbn [receive]. destruct ms as [|[l m] ms].
  - destruct (poll_next_noise (S fuel) events c) as (ev & c' & -> & Hn' & Hc' & Hs);
      [by rewrite E|done|cbn [length] in Hf; lia|]. cbn [mbind result_bind].
    destruct ev as [|e ev]; [done|]. destruct Hs as [?|Hs]; [done|].
    apply (IH [] (e :: ev) (c' ++ available (e :: ev))); try done. cbn [length] in Hf |- *. lia.
  - apply Forall_cons in Hms as [[Hl Hm] Hms]. cbn [fst snd] in *.
    assert (c ++ available events = l ++ wire m ++ noisy ms ++ tail) as E1.
    { rewrite E. unfold noisy. cbn. by rewrite <- !(assoc_L (++)). }
    cbn [length] in Hf.
    destruct (poll_next_message (S fuel) events c l m (noisy ms ++ tail) Hm Hl Hn E1)
      as (r & ev & c' & -> & Hn' & Hr); [lia|]. cbn [mbind result_bind].
    destruct Hr as [(-> & E2 & Hs)|(-> & He & Hs & l' & Hl' & E2)].
    + rewrite (IH ms ev tail) by (done || lia). done.
    + destruct ev as [|e ev]; [done|].
      apply (IH ((l', m) :: ms) (e :: ev) tail); [by constructor|done|done|cbn [length]; lia|].
      rewrite E2. unfold noisy. cbn. by rewrite <- !(assoc_L (++)).
Qed.

(** C13: Whatever pieces the port delivers the bytes in, and however they are
    interrupted, if its reads do not fail: the stream yields exactly the messages that were put on
    the wire, in order, if each fits the stream's buffer, skipping the bytes between them, none of
    which may be the first byte 0x5A of the magic prefix ([stream_breaks] says what another
    prefix there does).  It terminates, does not panic and does not run out of buffer. *)
Theorem stream_delivers (ms : list (list Z * RawRadioMessage)) (tail : list Z)
    (events : list read_event) (fuel : nat) :
  Forall (fun lm => noise (fst lm) /\ msg_fits (snd lm)) ms -> noise tail -> no_error events ->
  available events = noisy ms ++ tail -> (size events + length ms < fuel)%nat ->
  receive fuel events [] = Ok (snd <$> ms).
Proof.
  intros. by apply (receive_noisy fuel ms events tail []).
Qed.

(** ** Where the stream breaks *)

(** A buffer that begins with a header. *)
Definition headed (cmd a b l1 l2 : Z) (d : list Z) : list Z :=
  RADIO_MAGIC_PREFIX ++ [cmd; a; b; l1; l2] ++ d.

Lemma parse_headed cmd a b l1 l2 d :
  parse_raw_radio_message (headed cmd a b l1 l2 d) =
    match try_from_tag (Uint cmd : u8) with
    | Err _ => Err Panic
    | Ok c =>
        let n := Z.to_nat (from_be_bytes [l1; l2]) in
        Ok (if decide (n <= length d)%nat
            then Done (drop n d) {| command_id := c; request_id := Uint (from_be_bytes [a; b]);
                                    data := take n d |}
            else Incomplete)
    end.
Proof.
  unfold parse_raw_radio_message, headed. rewrite nom_tag_done. cbn [nom_bind app].
  rewrite nom_be_u8_spec. cbn [nom_bind]. rewrite nom_be_u16_spec. cbn [nom_bind].
  rewrite nom_be_u16_spec. cbn [nom_bind].
  destruct (try_from_tag _) as [c|e]; cbn [unwrap_result mbind result_bind]; [|done].
  rewrite nom_take_spec. by case_decide.
Qed.

Lemma pop_headed cmd a b l1 l2 d :
  pop_raw_message (headed cmd a b l1 l2 d) =
    r ← parse_raw_radio_message (headed cmd a b l1 l2 d);
    match r with
    | Done remaining message =>
        Ok (length remaining, Some message, rotate_right (length remaining) (headed cmd a b l1 l2 d))
    | Incomplete => Ok (length (headed cmd a b l1 l2 d), None, headed cmd a b l1 l2 d)
    | NomError => Err Panic
    end.
Proof.
  unfold pop_raw_message. rewrite decide_False by (unfold headed; rewrite length_app; cbn; lia).
  set (c := headed cmd a b l1 l2 d).
  assert (find_subsequence c RADIO_MAGIC_PREFIX = Some 0%nat) as -> by apply find_prefix.
  assert (rotate_left 0 c = c) as -> by (unfold rotate_left; apply app_nil_r).
  rewrite Nat.sub_0_r, firstn_all, drop_all.
  destruct (parse_raw_radio_message c) as [[rest m| |]|e]; cbn [mbind result_bind];
    by rewrite ?app_nil_r.
Qed.

(** Two messages the stream cannot survive: a command byte that is no command makes
    it panic as soon as the header is there, and a length that does not fit the
    buffer together with its header ends it once the buffer is full. *)
Theorem stream_breaks (fuel : nat) (events : list read_event) (cmd a b l1 l2 : Z) (d : list Z) :
  ((forall c, command_byte c <> cmd) ->
   poll_next (S fuel) events (headed cmd a b l1 l2 d) = Err Panic) /\
  ((exists c, command_byte c = cmd) ->
   length (headed cmd a b l1 l2 d) = u16_max -> Z.of_nat (length d) < from_be_bytes [l1; l2] ->
   poll_next (S fuel) events (headed cmd a b l1 l2 d) =
     Ok (Ready None, events, headed cmd a b l1 l2 d)).
Proof.
  cbn [poll_next]. rewrite pop_headed, parse_headed. split.
  - intros Hc. destruct (try_from_tag (Uint cmd : u8)) as [c|e] eqn:E; [|done].
    exfalso. apply (Hc c). by apply command_byte_of.
  - intros [c <-] Hl Hd. rewrite command_byte_parses.
    cbn [mbind result_bind]. rewrite decide_False by lia. cbn [mbind result_bind].
    rewrite firstn_all, Hl, Nat.sub_diag. done.
Qed.
End stream_theory.

(** ** The sink *)

Inductive sink_op := SinkSend (m : RawRadioMessage) | SinkPoll (events : list write_event).

Section sink_theory.
Context `{!Nom, !NomLaws, !CookieFactory, !CookieFactoryLaws}.

Fixpoint sink_run (ops : list sink_op) (s : RawRadioSink) : exec RawRadioSink :=
  match ops with
  | [] => Ok s
  | SinkSend m :: ops => s ← start_send m s; sink_run ops s
  | SinkPoll events :: ops => sink_run ops (snd (poll_ready events s))
  end.

Definition sink_messages (ops : list sink_op) : list RawRadioMessage :=
  omap (fun op => match op with SinkSend m => Some m | _ => None end) ops.

(** The bytes the sink still has to write. *)
Definition unwritten (s : RawRadioSink) : list Z := drop (written s) (sink_buffer s).

Record sink_ok (sent : list Z) (s : RawRadioSink) : Prop := {
  so_written : (written s <= length (sink_buffer s))%nat;
  so_bytes : written_out s ++ unwritten s = sent;
}.

Lemma poll_ready_ok sent events s :
  sink_ok sent s ->
  let '(r, _, s') := poll_ready events s in
  sink_ok sent s' /\ (forall x, r = Ready (Ok x) -> unwritten s' = []) /\
  (r = Ready (Err tt) -> WError ∈ events).
Proof.
  revert s. induction events as [|e events IH]; intros s [Hw Hb]; cbn [poll_ready]; case_decide as Hd;
    try (split; [split; [cbn; lia|]|done]; unfold unwritten in *; cbn;
         by rewrite drop_ge in Hb by lia).
  - by split.
  - destruct e as [n| |].
    + set (taken := take n (drop (written s) (sink_buffer s))).
      match goal with |- context [poll_ready events ?s1] => specialize (IH s1) end.
      assert (length taken <= length (sink_buffer s) - written s)%nat as Hl.
      { unfold taken. rewrite length_take, length_drop. lia. }
      match type of IH with sink_ok _ ?s1 -> _ => assert (sink_ok sent s1) as Hs end.
      { split; cbn; [lia|]. rewrite <- Hb. unfold unwritten; cbn. rewrite <- (assoc_L (++)). f_equal.
        rewrite <- drop_drop. unfold taken at 1 2.
        rewrite <- (take_drop n (drop (written s) (sink_buffer s))) at 4. f_equal.
        rewrite length_take. destruct (decide (n <= length (drop (written s) (sink_buffer s)))%nat).
        - by rewrite Nat.min_l.
        - rewrite Nat.min_r, !drop_ge by lia. done. }
      specialize (IH Hs). destruct (poll_ready events _) as [[r ev] s']. destruct IH as (? & ? & He).
      split; [done|]. split; [done|]. intros Hr. right. by apply He.
    + by split.
    + split; [by split|]. split; [done|]. intros _. by left.
Qed.

Lemma sink_run_ok ops sent s :
  sink_ok sent s -> Forall msg_fits (sink_messages ops) ->
  exists s', sink_run ops s = Ok s' /\ sink_ok (sent ++ (sink_messages ops ≫= wire)) s'.
Proof.
  revert sent s. induction ops as [|[m|events] ops IH]; intros sent s Hs Hm; cbn [sink_run].
  - exists s. cbn. by rewrite app_nil_r.
  - apply Forall_cons in Hm as [Hm Hms]. unfold start_send. rewrite into_vec_fits by done.
    cbn [mbind result_bind].
    destruct (IH (sent ++ wire m) {| sink_buffer := sink_buffer s ++ wire m; written := written s;
      written_out := written_out s |}) as (s' & E & Hs'); [|done|].
    + destruct Hs as [Hw Hb]. split; cbn; [rewrite length_app; lia|]. unfold unwritten in *; cbn.
      rewrite drop_app_le by done. by rewrite (assoc_L (++)), Hb.
    + exists s'. split; [exact E|]. change (sink_messages (SinkSend m :: ops)) with (m :: sink_messages ops).
      cbn [mbind list_bind]. by rewrite (assoc_L (++)).
  - pose proof (poll_ready_ok sent events s Hs) as Hp.
    destruct (poll_ready events s) as [[r ev] s1]. destruct Hp as [Hs1 _]. by apply IH.
Qed.

(** Over every run of the sink, whatever the port takes of what it is offered and
    however often it is not ready or fails: the bytes it took so far and those still
    buffered are the messages given to the sink, one after the other; nothing is
    lost, repeated or reordered. *)
Theorem sink_lossless (ops : list sink_op) :
  Forall msg_fits (sink_messages ops) ->
  exists s, sink_run ops sink_new = Ok s /\
    written_out s ++ unwritten s = sink_messages ops ≫= wire.
Proof.
  intros Hm. destruct (sink_run_ok ops [] sink_new) as (s & E & Hs); [by split|done|].
  exists s. split; [done|]. apply Hs.
Qed.

(** End to end: when the sink has written everything it was given and the other side
    reads these bytes, in whatever pieces, it gets exactly the messages that were
    sent, in order. *)
Theorem raw_link_roundtrip (ops : list sink_op) (s : RawRadioSink) (events : list read_event) (fuel : nat) :
  Forall msg_fits (sink_messages ops) -> sink_run ops sink_new = Ok s -> unwritten s = [] ->
  no_error events -> available events = written_out s ->
  (size events + length (sink_messages ops) < fuel)%nat ->
  receive fuel events [] = Ok (sink_messages ops).
Proof.
  intros Hm Hr Hu Hn Ha Hf. destruct (sink_run_ok ops [] sink_new) as (s' & E & Hs); [by split|done|].
  rewrite Hr in E. injection E as <-. destruct Hs as [_ Hb]. rewrite Hu, app_nil_r in Hb.
  rewrite (receive_noisy fuel (pair [] <$> sink_messages ops) events [] []).
  - rewrite <- list_fmap_compose. f_equal. apply list_fmap_id.
  - apply Forall_fmap. eapply Forall_impl; [exact Hm|]. intros m Hmf. split; [constructor|done].
  - constructor.
  - done.
  - by rewrite length_fmap.
  - cbn [app]. rewrite Ha, Hb, app_nil_r. cbn [app]. unfold noisy. generalize (sink_messages ops).
    intros l. induction l as [|m l IH]; [done|]. cbn. by rewrite IH.
Qed.
End sink_theory.

(** ** Reference implementations of the two crates' contracts *)

Definition Nom_reference : Nom := {|
  nom_tag t input :=
    if decide (take (length t) input = t) then Done (drop (length t) input) t
    else if decide (take (length input) t = input) then Incomplete else NomError;
  nom_be_u8 input := match input with x :: rest => Done rest x | [] => Incomplete end;
  nom_be_u16 input :=
    match input with x :: y :: rest => Done rest (from_be_bytes [x; y]) | _ => Incomplete end;
  nom_take n input :=
    if decide (n <= length input)%nat then Done (drop n input) (take n input) else Incomplete;
|}.

Lemma prefix_take (t l : list Z) : t `prefix_of` l <-> take (length t) l = t.
Proof.
  split; [intros [k ->]; apply take_app_length|].
  intros E. exists (drop (length t) l). by rewrite <- E at 1; rewrite take_drop.
Qed.

Lemma Nom_reference_laws : @NomLaws Nom_reference.
Proof.
  split; cbn; try done.
  - intros t rest. by rewrite take_app_length, drop_app_length, decide_True.
  - intros t input Hp Hne. rewrite decide_False, decide_True; [done|by apply prefix_take|].
    intros E. apply Hne. apply prefix_take in E. by apply (anti_symm prefix).
  - intros t input H1 H2. rewrite !decide_False; [done| |]; by rewrite <- prefix_take.
Qed.

Definition CookieFactory_reference : CookieFactory := {|
  cf_slice bs w := Ok (w ++ bs);
  cf_be_u8 x w := Ok (w ++ [x]);
  cf_be_u16 x w := Ok (w ++ to_be_bytes 2 x);
  cf_tuple fs w := foldl (fun r f => w ← r; f w) (Ok w) fs;
  cf_gen f w := f w;
|}.

Lemma foldl_Err fs e :
  foldl (fun (r : exec (list Z)) (f : SerializeFn) => w ← r; f w) (Err e) fs = Err e.
Proof. by induction fs. Qed.

Lemma CookieFactory_reference_laws : @CookieFactoryLaws CookieFactory_reference.
Proof.
  split; try done. intros f fs w. cbn. destruct (f w) as [w'|e]; [done|]. apply foldl_Err.
Qed.

(** ** Witnesses *)

#[local] Transparent u16_max.

Definition example_message : RawRadioMessage :=
  {| command_id := CmdOnPacket; request_id := Uint 7; data := [1; 2; 3] |}.

Lemma example_fits : msg_fits example_message.
Proof.
  split; [split; [by vm_compute|reflexivity]|]. pose proof u16_max_Z. rewrite length_wire. cbn. lia.
Qed.

(** The message with a byte of noise in front, delivered in three pieces. *)
Definition example_events : list read_event :=
  [RData (0 :: take 2 (wire example_message)); RPending; RData (take 4 (drop 2 (wire example_message)));
   RData (drop 6 (wire example_message))].

Lemma stream_delivers_witness :
  receive (H := Nom_reference) 30 example_events [] = Ok [example_message].
Proof.
  refine (@stream_delivers Nom_reference Nom_reference_laws [([0], example_message)] [] example_events 30 _ _ _ _ _).
  - apply Forall_singleton. split; [by apply Forall_singleton|exact example_fits].
  - constructor.
  - repeat constructor; done.
  - reflexivity.
  - vm_compute. lia.
Defined.

(** A header that announces 65535 bytes, and a full buffer. *)
Definition full_buffer : list Z := headed 0 0 0 0xFF 0xFF (replicate (u16_max - 8) 0).

Lemma stream_breaks_witness :
  poll_next (H := Nom_reference) 1 [] (headed 0x7F 0 0 0 0 []) = Err Panic /\
  poll_next (H := Nom_reference) 1 [] full_buffer = Ok (Ready None, [], full_buffer).
Proof.
  split.
  - refine (proj1 (@stream_breaks Nom_reference Nom_reference_laws 0 [] 0x7F 0 0 0 0 []) _).
    intros c. destruct c; by vm_compute.
  - refine (proj2 (@stream_breaks Nom_reference Nom_reference_laws 0 [] 0 0 0 0xFF 0xFF
      (replicate (u16_max - 8) 0)) _ _ _).
    + by exists CmdPrepare.
    + pose proof u16_max_Z. unfold headed. rewrite !length_app, length_replicate.
      change (length RADIO_MAGIC_PREFIX) with 3%nat. cbn [length]. lia.
    + pose proof u16_max_Z. rewrite length_replicate.
      change (from_be_bytes [0xFF; 0xFF]) with 65535. lia.
Defined.

(** The sink is given a message, the port takes four bytes, fails, then takes the rest. *)
Definition example_sink_ops : list sink_op :=
  [SinkSend example_message; SinkPoll [WAccept 4; WError]; SinkPoll [WAccept 100]].

Lemma sink_lossless_witness :
  exists s, sink_run (H1 := CookieFactory_reference) example_sink_ops sink_new = Ok s /\
    written_out s ++ unwritten s = wire example_message.
Proof.
  refine (@sink_lossless CookieFactory_reference CookieFactory_reference_laws example_sink_ops _).
  apply Forall_singleton. exact example_fits.
Defined.

Lemma raw_link_roundtrip_witness :
  receive (H := Nom_reference) 30 [RData (wire example_message)] [] = Ok [example_message].
Proof.
  refine (@raw_link_roundtrip Nom_reference Nom_reference_laws CookieFactory_reference
    CookieFactory_reference_laws example_sink_ops
    {| sink_buffer := []; written := 0; written_out := wire example_message |}
    [RData (wire example_message)] 30 _ _ _ _ _ _).
  - apply Forall_singleton. exact example_fits.
  - vm_compute. reflexivity.
  - reflexivity.
  - repeat constructor; done.
  - reflexivity.
  - vm_compute. lia.
Defined.
