(* ===== verification/Radio.v ===== *)
(** * The radio's requests and responses ([radio/mod.rs])

    Typed requests are turned into raw messages and the raw answers back into typed
    responses.  Each request gets an id that no other outstanding request has, and
    leaves the function that will read its answer in a map under that id; one task
    takes requests and sends them, another reads answers and applies the functions.
    The two tasks share the map behind a lock, and run in turns on one task
    ([select]): a step of the model is what one of them does between two [await]s.

    Shown in [RadioTheory.v]: which answers a parser accepts; that a request can be
    read back from its raw form; and that over every interleaving each request is
    answered at most once, with the answer to its own message. *)

From Stdlib Require Import ZArith Lia.
From S2P Require Import Prelude Pack PackDerive Async RadioRaw.

#[local] Open Scope Z_scope.

Module Radio.

(** ** Parameters *)

Abbreviation RadioParam := RawRadioParam.

Inductive RadioParamType := TypeU16 | TypeU32 | TypeU64.
Inductive RadioParamValue := ValueU16 (x : u16) | ValueU32 (x : u32) | ValueU64 (x : u64).

Inductive RadioError :=
| RawError (data : list Z)
| UnexpectedRetvalError (retval : u16) (data : list Z)
| UnexpectedResponse
| UnexpectedResponseSize.

#[global] Instance RadioParamType_eq_dec : EqDecision RadioParamType.
Proof. solve_decision. Defined.
#[global] Instance RadioParamValue_eq_dec : EqDecision RadioParamValue.
Proof. solve_decision. Defined.
#[global] Instance RadioError_eq_dec : EqDecision RadioError.
Proof. solve_decision. Defined.

(** [uN::from_be_bytes(data.try_into()?)]: the slice must have the array's length. *)
Definition array_from_be (n : nat) (data : list Z) : result RadioError Z :=
  if decide (length data = n) then Ok (from_be_bytes data) else Err UnexpectedResponseSize.

(** [TryFrom<(RadioParamType, &[u8])> for RadioParamValue] *)
Definition value_try_from (input : RadioParamType * list Z) : result RadioError RadioParamValue :=
  let '(param_type, data) := input in
  match param_type with
  | TypeU16 => (fun x => ValueU16 (Uint x)) <$> array_from_be 2 data
  | TypeU32 => (fun x => ValueU32 (Uint x)) <$> array_from_be 4 data
  | TypeU64 => (fun x => ValueU64 (Uint x)) <$> array_from_be 8 data
  end.

(** [TryInto<u16>], [TryInto<u32>] and [TryInto<u64>] *)
Definition value_try_into_u16 (v : RadioParamValue) : result RadioError u16 :=
  match v with ValueU16 x => Ok x | _ => Err UnexpectedResponseSize end.
Definition value_try_into_u32 (v : RadioParamValue) : result RadioError u32 :=
  match v with ValueU32 x => Ok x | _ => Err UnexpectedResponseSize end.
Definition value_try_into_u64 (v : RadioParamValue) : result RadioError u64 :=
  match v with ValueU64 x => Ok x | _ => Err UnexpectedResponseSize end.

Record RadioRxMode := {
  address_filter : bool;
  autoack : bool;
  poll_mode : bool;
}.

(** [From<RadioRxMode> for RadioParamValue] *)
Definition rx_mode_into (value : RadioRxMode) : RadioParamValue :=
  ValueU16 (Uint (Z.lor (Z.lor (bool_to_Z (address_filter value))
                               (Z.shiftl (bool_to_Z (autoack value)) 1))
                        (Z.shiftl (bool_to_Z (poll_mode value)) 2))).

(** [TryInto<RadioRxMode> for RadioParamValue]; the shift drops the bits beyond the
    sixteenth. *)
Definition rx_mode_try_from (v : RadioParamValue) : result RadioError RadioRxMode :=
  value ← value_try_into_u16 v;
  let value := uint_val value in
  if negb (Z.shiftl value 3 mod 2 ^ 16 =? 0) then Err UnexpectedResponse
  else Ok {| address_filter := negb (Z.land value 1 =? 0);
             autoack := negb (Z.land (Z.shiftr value 1) 1 =? 0);
             poll_mode := negb (Z.land (Z.shiftr value 2) 1 =? 0) |}.

(** ** Requests and responses *)

Inductive RadioRequest :=
| ReqSetParam (token : UniqueKey) (param : RawRadioParam) (param_value : RadioParamValue)
| ReqGetParam (token : UniqueKey) (param : RawRadioParam) (param_type : RadioParamType)
| ReqInitPendingDataTable (token : UniqueKey)
| ReqSetPower (token : UniqueKey) (power : bool)
| ReqSendPacket (token : UniqueKey) (packet : list Z)
| ReqSetPendingShort (token : UniqueKey) (index : nat) (address : option (u16 * u16))
| ReqSetPendingExtended (token : UniqueKey) (index : nat) (address : option u64).

Record RadioPacket := {
  packet_data : list Z;
  packet_rssi : Z;
  packet_link_quality : Z;
}.

Inductive RadioResponse :=
| RespSetParam (token : UniqueKey) (param : RadioParam) (r : result RadioError RadioParamValue)
| RespGetParam (token : UniqueKey) (param : RadioParam) (r : result RadioError RadioParamValue)
| RespInitPendingDataTable (token : UniqueKey) (r : result RadioError unit)
| RespSetPower (token : UniqueKey) (power : bool) (r : result RadioError unit)
| RespSendPacket (token : UniqueKey) (r : result RadioError unit)
| RespOnPacket (packet : RadioPacket)
| RespSetPendingShort (token : UniqueKey) (r : result RadioError unit)
| RespSetPendingExtended (token : UniqueKey) (r : result RadioError unit).

#[global] Instance RadioRequest_eq_dec : EqDecision RadioRequest.
Proof. solve_decision. Defined.

(** [RadioResponseParser] *)
Definition RadioResponseParser := result RadioError (list Z) -> RadioResponse.

(** ** Reading answers *)

Definition check_retval (expected_retval : Z) (data : list Z) : result RadioError (list Z) :=
  if decide (length data < 2)%nat then Err UnexpectedResponseSize
  else
    let retval := from_be_bytes (take 2 data) in
    if decide (retval = expected_retval) then Ok (drop 2 data)
    else Err (UnexpectedRetvalError (Uint retval) (drop 2 data)).

Definition unpack_result_get_param (param_type : RadioParamType)
    (response : result RadioError (list Z)) : result RadioError RadioParamValue :=
  data ← response;
  data ← check_retval 0 data;
  value_try_from (param_type, data).

Definition unpack_result_set_param (set_value : RadioParamValue)
    (response : result RadioError (list Z)) : result RadioError RadioParamValue :=
  data ← response;
  data ← check_retval 0 data;
  match data with [] => Ok set_value | _ => Err UnexpectedResponse end.

Definition unpack_result_only_retval (expected_retval : Z)
    (response : result RadioError (list Z)) : result RadioError unit :=
  data ← response;
  data ← check_retval expected_retval data;
  match data with [] => Ok tt | _ => Err UnexpectedResponse end.

(** [v.to_be_bytes()] *)
Definition value_be_bytes (v : RadioParamValue) : list Z :=
  match v with
  | ValueU16 x => to_be_bytes 2 (uint_val x)
  | ValueU32 x => to_be_bytes 4 (uint_val x)
  | ValueU64 x => to_be_bytes 8 (uint_val x)
  end.

Definition into_raw (r : RadioRequest) : RawRadioCommand * list Z * RadioResponseParser :=
  match r with
  | ReqSetParam token param param_value =>
      (match param_value with ValueU16 _ => CmdSetValue | _ => CmdSetObject end,
       to_be_bytes 2 (param_as_u16 param) ++ value_be_bytes param_value,
       fun response => RespSetParam token param (unpack_result_set_param param_value response))
  | ReqGetParam token param param_type =>
      (match param_type with TypeU16 => CmdGetValue | _ => CmdGetObject end,
       to_be_bytes 2 (param_as_u16 param) ++
       match param_type with
       | TypeU16 => []
       | TypeU32 => to_be_bytes 2 4
       | TypeU64 => to_be_bytes 2 8
       end,
       fun response => RespGetParam token param (unpack_result_get_param param_type response))
  | ReqInitPendingDataTable token =>
      (CmdInitPendingTable, [],
       fun response => RespInitPendingDataTable token (unpack_result_only_retval 0 response))
  | ReqSetPower token power =>
      (if power then CmdOn else CmdOff, [],
       fun response => RespSetPower token power (unpack_result_only_retval 1 response))
  | ReqSendPacket token packet =>
      (CmdSend, packet,
       fun response => RespSendPacket token (unpack_result_only_retval 0 response))
  | ReqSetPendingShort token index address =>
      (CmdSetPending,
       [Z.land (Z.of_nat index mod 2 ^ 8) 0x7F] ++
       match address with
       | Some (pan_id, short_address) =>
           to_le_bytes 2 (uint_val pan_id) ++ to_le_bytes 2 (uint_val short_address)
       | None => []
       end,
       fun response => RespSetPendingShort token (unpack_result_only_retval 0 response))
  | ReqSetPendingExtended token index address =>
      (CmdSetPending,
       [Z.lor (Z.of_nat index mod 2 ^ 8) 0x80] ++
       match address with Some address => to_le_bytes 8 (uint_val address) | None => [] end,
       fun response => RespSetPendingExtended token (unpack_result_only_retval 0 response))
  end.

(** ** The service

    What [radio_request_task] and [radio_response_task] are waiting for. *)
Inductive RequestTask :=
| NextRequest
| LockForRequest (command_id : RawRadioCommand) (data : list Z) (parser : RadioResponseParser)
| SinkReady (message : RawRadioMessage)
| SinkFlush
| RequestsDriedUp.

(** The response task holds the map's lock while it hands on an answer it found a
    parser for: the guard lives to the end of the [if let]. *)
Inductive ResponseTask :=
| NextMessage
| SendResponse (response : RadioResponse) (holds_lock : bool).

Abbreviation response_map := (gmap Z RadioResponseParser).

Record RadioService := {
  responsemap : response_map;
  request_task : RequestTask;
  sink : RawRadioSink;
  response_task : ResponseTask;
  stream_buffer : list Z;
}.

Definition service_new : RadioService :=
  {| responsemap := ∅; request_task := NextRequest; sink := sink_new;
     response_task := NextMessage; stream_buffer := [] |}.

Definition set_request_task (t : RequestTask) (s : RadioService) : RadioService :=
  {| responsemap := responsemap s; request_task := t; sink := sink s;
     response_task := response_task s; stream_buffer := stream_buffer s |}.
Definition set_sink (k : RawRadioSink) (s : RadioService) : RadioService :=
  {| responsemap := responsemap s; request_task := request_task s; sink := k;
     response_task := response_task s; stream_buffer := stream_buffer s |}.
Definition set_responsemap (m : response_map) (s : RadioService) : RadioService :=
  {| responsemap := m; request_task := request_task s; sink := sink s;
     response_task := response_task s; stream_buffer := stream_buffer s |}.
Definition set_response_task (t : ResponseTask) (s : RadioService) : RadioService :=
  {| responsemap := responsemap s; request_task := request_task s; sink := sink s;
     response_task := t; stream_buffer := stream_buffer s |}.
Definition set_stream_buffer (b : list Z) (s : RadioService) : RadioService :=
  {| responsemap := responsemap s; request_task := request_task s; sink := sink s;
     response_task := response_task s; stream_buffer := b |}.

Definition lock_held (s : RadioService) : bool :=
  match response_task s with SendResponse _ held => held | NextMessage => false end.

(** The loop that draws random ids until one is free. *)
Fixpoint pick_request_id (draws : list Z) (m : response_map) : exec Z :=
  match draws with
  | [] => Err OutOfFuel
  | potential_id :: draws =>
      if decide (m !! potential_id = None) then Ok potential_id else pick_request_id draws m
  end.

Section tasks.
Context `{Nom, CookieFactory}.

(** What the environment answers to the request task: the request stream's next
    item, the random numbers, the port's writes and its flush. *)
Record RequestEnv := {
  env_request : Poll (option RadioRequest);
  env_draws : list Z;
  env_writes : list write_event;
  env_flush : Poll (result unit unit);
}.

(** [radio_request_task] from one [await] to the next; [port.send] waits for the sink
    to be ready, gives it the message and flushes, and its errors are only printed. *)
Definition radio_request_task (e : RequestEnv) (s : RadioService) : exec RadioService :=
  match request_task s with
  | NextRequest =>
      match env_request e with
      | Pending => Ok s
      | Ready None => Ok (set_request_task RequestsDriedUp s)
      | Ready (Some request) =>
          let '(command_id, data, response_parser) := into_raw request in
          Ok (set_request_task (LockForRequest command_id data response_parser) s)
      end
  | LockForRequest command_id data response_parser =>
      if lock_held s then Ok s
      else
        request_id ← pick_request_id (env_draws e) (responsemap s);
        let message := {| command_id := command_id; request_id := Uint request_id; data := data |} in
        Ok (set_request_task (SinkReady message)
             (set_responsemap (<[request_id := response_parser]> (responsemap s)) s))
  | SinkReady message =>
      let '(r, _, k) := poll_ready (env_writes e) (sink s) in
      match r with
      | Pending => Ok (set_sink k s)
      | Ready (Err _) => Ok (set_request_task NextRequest (set_sink k s))
      | Ready (Ok _) =>
          k ← start_send message k;
          Ok (set_request_task SinkFlush (set_sink k s))
      end
  | SinkFlush =>
      let '(r, _, k) := poll_flush (env_writes e) (env_flush e) (sink s) in
      match r with
      | Pending => Ok (set_sink k s)
      | Ready _ => Ok (set_request_task NextRequest (set_sink k s))
      end
  | RequestsDriedUp => Ok s
  end.

(** The postfix of a packet: [data.pop().unwrap()], twice. *)
Definition pop_packet (data : list Z) : exec RadioPacket :=
  link_quality ← unwrap (last data);
  let data := removelast data in
  rssi ← unwrap (last data);
  Ok {| packet_data := removelast data; packet_rssi := rssi; packet_link_quality := link_quality |}.

(** What the response task does with a message: the response to hand on, if there is
    one, and whether the map stays locked meanwhile. *)
Definition process_message (msg : RawRadioMessage) (m : response_map) :
    exec (option (RadioResponse * bool) * response_map) :=
  let request_id := uint_val (request_id msg) in
  match command_id msg with
  | CmdOk =>
      match m !! request_id with
      | Some parser => Ok (Some (parser (Ok (data msg)), true), delete request_id m)
      | None => Ok (None, m)
      end
  | CmdErr =>
      match m !! request_id with
      | Some parser => Ok (Some (parser (Err (RawError (data msg))), true), delete request_id m)
      | None => Ok (None, m)
      end
  | CmdOnPacket =>
      if decide (length (data msg) < 2)%nat then Ok (None, m)
      else packet ← pop_packet (data msg); Ok (Some (RespOnPacket packet, false), m)
  | _ => Ok (None, m)
  end.

(** The port's reads and whether the responses' channel takes a response. *)
Record ResponseEnv := {
  env_reads : list read_event;
  env_sent : Poll (result unit unit);
}.

(** Enough fuel for a poll of the stream: every round of its loop uses up a read or
    a byte. *)
Definition stream_fuel (events : list read_event) : nat :=
  S (sum_list_with (fun e => match e with RData bs => S (length bs) | _ => 1%nat end) events).

(** [radio_response_task] from one [await] to the next, with the response that was
    handed over to the channel and the port's bytes that were not read.  The end of the
    stream is a panic. *)
Definition radio_response_task (e : ResponseEnv) (s : RadioService) :
    exec (option RadioResponse * list read_event * RadioService) :=
  match response_task s with
  | NextMessage =>
      '(r, reads, buffer) ← poll_next (stream_fuel (env_reads e)) (env_reads e) (stream_buffer s);
      let s := set_stream_buffer buffer s in
      match r with
      | Pending => Ok (None, reads, s)
      | Ready message =>
          message ← unwrap message;
          '(response, m) ← process_message message (responsemap s);
          let s := set_responsemap m s in
          match response with
          | Some (response, held) =>
              Ok (None, reads, set_response_task (SendResponse response held) s)
          | None => Ok (None, reads, s)
          end
      end
  | SendResponse response _ =>
      match env_sent e with
      | Pending => Ok (None, env_reads e, s)
      | Ready r =>
          Ok (if is_ok r then Some response else None, env_reads e,
              set_response_task NextMessage s)
      end
  end.
End tasks.

End Radio.
