(* ===== verification/RadioTheory.v ===== *)
(** * Theory of the radio's requests and responses

    Parameters and their answers, the raw form of a request, and the two tasks. *)

From Stdlib Require Import ZArith Lia.
From S2P Require Import Prelude Pack PackDerive Async RadioRaw RadioRawTheory Radio.

#[local] Open Scope Z_scope.

Import Radio.

(** ** Answers *)

Definition type_of (v : RadioParamValue) : RadioParamType :=
  match v with ValueU16 _ => TypeU16 | ValueU32 _ => TypeU32 | ValueU64 _ => TypeU64 end.

(** A parameter value is within its type. *)
Definition value_ok (v : RadioParamValue) : Prop :=
  match v with
  | ValueU16 x => in_width 16 (uint_val x)
  | ValueU32 x => in_width 32 (uint_val x)
  | ValueU64 x => in_width 64 (uint_val x)
  end.

Lemma array_from_be_Ok n data x :
  array_from_be n data = Ok x <-> length data = n /\ from_be_bytes data = x.
Proof.
  unfold array_from_be. case_decide; split; try done.
  - by intros [= <-].
  - by intros [_ ->].
  - by intros [? _].
Qed.

Lemma be_bytes_iff n data x :
  bytes_ok data ->
  (length data = n /\ from_be_bytes data = x) <->
  (in_width (8 * Z.of_nat n) x /\ data = to_be_bytes n x).
Proof.
  intros Hd. split.
  - intros [<- <-]. split; [by apply from_be_bytes_range|by rewrite to_from_be_bytes].
  - intros [Hx ->]. by rewrite length_to_be_bytes, from_to_be_bytes.
Qed.

Lemma value_try_from_Ok t data v :
  bytes_ok data ->
  value_try_from (t, data) = Ok v <-> type_of v = t /\ value_ok v /\ data = value_be_bytes v.
Proof.
  intros Hd.
  assert (forall n (C : Z -> RadioParamValue), (forall x y, C x = C y -> x = y) ->
    C <$> array_from_be n data = Ok v <->
    exists x, v = C x /\ in_width (8 * Z.of_nat n) x /\ data = to_be_bytes n x) as H.
  { intros n C HC. split.
    - destruct (array_from_be n data) as [x|] eqn:E; [|done]. intros [= <-].
      apply array_from_be_Ok, (be_bytes_iff n data x Hd) in E. eauto.
    - intros (x & -> & Hx). apply (be_bytes_iff n data x Hd), array_from_be_Ok in Hx. by rewrite Hx. }
  destruct t; cbn [value_try_from]; (rewrite H; [|by intros ?? [= ->]]); split;
    try (by intros (x & -> & Hx & ->));
    destruct v as [[x]|[x]|[x]]; cbn; intros (? & ? & ?); try done; eauto.
Qed.

Lemma check_retval_Ok r data rest :
  in_width 16 r -> bytes_ok data ->
  check_retval r data = Ok rest <-> data = to_be_bytes 2 r ++ rest.
Proof.
  intros Hr Hd. unfold check_retval. case_decide as Hl.
  - split; [done|]. intros ->. rewrite length_app, length_to_be_bytes in Hl. lia.
  - assert (length (take 2 data) = 2%nat) as Ht by (rewrite length_take; lia).
    pose proof (be_bytes_iff 2 (take 2 data) r (Forall_take _ _ _ Hd)) as He.
    case_decide as Hx; split; try done.
    + intros [= <-]. destruct (proj1 He (conj Ht Hx)) as [_ <-]. by rewrite take_drop.
    + intros ->. by rewrite drop_app_length' by by rewrite length_to_be_bytes.
    + intros ->. destruct Hx. rewrite take_app_length' by by rewrite length_to_be_bytes.
      by apply from_to_be_bytes.
Qed.

(** A parameter is read from exactly one answer: the return value zero followed by the
    value's bytes, as many as the type has; every other answer is an error, and so is
    a failure the radio reports. *)
Theorem get_param_answer (t : RadioParamType) (response : result RadioError (list Z))
    (v : RadioParamValue) :
  (forall data, response = Ok data -> bytes_ok data) ->
  unpack_result_get_param t response = Ok v <->
    type_of v = t /\ value_ok v /\ response = Ok (to_be_bytes 2 0 ++ value_be_bytes v).
Proof.
  intros Hd. unfold unpack_result_get_param. destruct response as [data|e]; cbn [mbind result_bind].
  2: { split; [done|]. by intros (_ & _ & ?). }
  specialize (Hd data eq_refl). split.
  - destruct (check_retval 0 data) as [rest|] eqn:E; [|done]. cbn [mbind result_bind].
    apply check_retval_Ok in E as ->; [|done..]. apply Forall_app in Hd as [_ Hd].
    by intros (? & ? & ->)%(value_try_from_Ok t rest v Hd).
  - intros (Ht & Hv & [= ->]). rewrite (proj2 (check_retval_Ok 0 _ (value_be_bytes v) ltac:(done) Hd) eq_refl).
    cbn [mbind result_bind]. apply value_try_from_Ok; [|done].
    destruct v; apply to_be_bytes_ok.
Qed.

Definition empty_mode : RadioRxMode :=
  {| address_filter := false; autoack := false; poll_mode := false |}.

(** The mode register a mode is turned into is read back as that mode only when
    nothing in it is set: the check of the unused bits shifts the wrong way, so every
    other mode is refused, and of the register's values exactly the multiples of 8192
    are accepted, all as the empty mode. *)
Theorem rx_mode_not_read_back (x : Z) (m : RadioRxMode) :
  in_width 16 x ->
  (rx_mode_try_from (ValueU16 (Uint x)) = Ok m <->
     x mod 8192 = 0 /\ m = empty_mode) /\
  (rx_mode_try_from (rx_mode_into m) = Ok m <->
     m = empty_mode).
Proof.
  intros Hx. split; [|by destruct m as [[] [] []]; vm_compute; split].
  unfold rx_mode_try_from. cbn [value_try_into_u16 mbind result_bind uint_val].
  assert (Z.shiftl x 3 mod 2 ^ 16 = 8 * (x mod 8192)) as ->.
  { rewrite Z.shiftl_mul_pow2 by lia. change (2 ^ 3) with 8. change (2 ^ 16) with (8 * 8192).
    rewrite (Z.mul_comm x), Z.mul_mod_distr_l by lia. done. }
  pose proof (Z.mod_pos_bound x 8192 ltac:(lia)).
  destruct (8 * (x mod 8192) =? 0) eqn:E; cbn [negb].
  - apply Z.eqb_eq in E. assert (x mod 8192 = 0) as Em by lia.
    assert (forall k, 0 <= k < 13 -> (Z.land (Z.shiftr x k) 1 =? 0) = true) as Hb.
    { intros k Hk. apply Z.eqb_eq. change 1 with (Z.ones 1). rewrite Z.land_ones by lia.
      rewrite Z.shiftr_div_pow2 by lia.
      assert (x = 2 ^ k * (2 * (2 ^ (12 - k) * (x / 8192)))) as ->.
      { rewrite (Z.div_mod x 8192) at 1 by lia. rewrite Em.
        replace 8192 with (2 ^ k * (2 * 2 ^ (12 - k))) at 1; [lia|].
        replace (2 * 2 ^ (12 - k)) with (2 ^ (13 - k)).
        - rewrite <- Z.pow_add_r by lia. by replace (k + (13 - k)) with 13 by lia.
        - replace (13 - k) with (1 + (12 - k)) by lia. by rewrite Z.pow_add_r by lia. }
      rewrite Z.mul_comm, Z.div_mul by (apply Z.pow_nonzero; lia).
      change (2 ^ 1) with 2. rewrite Z.mul_comm. apply Z.mod_mul. lia. }
    pose proof (Hb 0 ltac:(lia)) as H0. rewrite Z.shiftr_0_r in H0.
    rewrite H0, (Hb 1), (Hb 2) by lia. cbn [negb]. split; [by intros [= <-]|by intros [_ ->]].
  - apply Z.eqb_neq in E. split; [done|]. intros [? _]. lia.
Qed.

(** ** The raw form of a request *)

Definition with_token (k : UniqueKey) (r : RadioRequest) : RadioRequest :=
  match r with
  | ReqSetParam _ p v => ReqSetParam k p v
  | ReqGetParam _ p t => ReqGetParam k p t
  | ReqInitPendingDataTable _ => ReqInitPendingDataTable k
  | ReqSetPower _ b => ReqSetPower k b
  | ReqSendPacket _ d => ReqSendPacket k d
  | ReqSetPendingShort _ i a => ReqSetPendingShort k i a
  | ReqSetPendingExtended _ i a => ReqSetPendingExtended k i a
  end.

(** Integers within their types, and indexes of pending tables that fit seven bits. *)
Definition request_ok (r : RadioRequest) : Prop :=
  match r with
  | ReqSetParam _ _ v => value_ok v
  | ReqSetPendingShort _ i a =>
      (i < 128)%nat /\
      forall x, a = Some x -> in_width 16 (uint_val (fst x)) /\ in_width 16 (uint_val (snd x))
  | ReqSetPendingExtended _ i a =>
      (i < 128)%nat /\ forall x, a = Some x -> in_width 64 (uint_val x)
  | _ => True
  end.

Lemma param_as_u16_inj p q : param_as_u16 p = param_as_u16 q -> p = q.
Proof. by destruct p, q. Qed.

Lemma param_in_width p : in_width 16 (param_as_u16 p).
Proof. by destruct p; vm_compute. Qed.

Lemma to_be_bytes_inj n x y :
  in_width (8 * Z.of_nat n) x -> in_width (8 * Z.of_nat n) y ->
  to_be_bytes n x = to_be_bytes n y -> x = y.
Proof. intros Hx Hy E. apply (f_equal from_be_bytes) in E. by rewrite !from_to_be_bytes in E. Qed.

Lemma to_le_bytes_inj n x y :
  in_width (8 * Z.of_nat n) x -> in_width (8 * Z.of_nat n) y ->
  to_le_bytes n x = to_le_bytes n y -> x = y.
Proof. intros Hx Hy E. apply (f_equal from_le_bytes) in E. by rewrite !from_to_le_bytes in E. Qed.

Lemma uint_eq {n} (x y : uint n) : uint_val x = uint_val y -> x = y.
Proof. destruct x, y. cbn. by intros ->. Qed.

Lemma value_be_bytes_inj v w :
  value_ok v -> value_ok w -> type_of v = type_of w -> value_be_bytes v = value_be_bytes w -> v = w.
Proof.
  intros Hv Hw Ht E. destruct v, w; try discriminate Ht; cbn [value_ok value_be_bytes] in Hv, Hw, E;
    f_equal; apply uint_eq;
    [exact (to_be_bytes_inj 2 _ _ Hv Hw E)|exact (to_be_bytes_inj 4 _ _ Hv Hw E)
    |exact (to_be_bytes_inj 8 _ _ Hv Hw E)].
Qed.

Lemma length_value_be_bytes v :
  length (value_be_bytes v) = match type_of v with TypeU16 => 2 | TypeU32 => 4 | TypeU64 => 8 end%nat.
Proof. by destruct v; cbn [value_be_bytes type_of]; rewrite length_to_be_bytes. Qed.

(** The index byte: short addresses in the lower half, extended ones in the upper. *)
Lemma short_index_byte i : (i < 128)%nat -> Z.land (Z.of_nat i mod 2 ^ 8) 0x7F = 0 + Z.of_nat i.
Proof.
  intros Hi. change (2 ^ 8) with 256. rewrite Z.mod_small by lia. change 0x7F with (Z.ones 7).
  rewrite Z.land_ones by lia. apply Z.mod_small. change (2 ^ 7) with 128. lia.
Qed.

Lemma extended_index_byte i : (i < 128)%nat -> Z.lor (Z.of_nat i mod 2 ^ 8) 0x80 = Z.of_nat i + 128.
Proof.
  intros Hi. change (2 ^ 8) with 256. rewrite Z.mod_small by lia.
  assert (Forall (fun n => Z.lor (Z.of_nat n) 128 = Z.of_nat n + 128) (seq 0 128)) as Hall.
  { apply Forall_forall. intros n Hn.
    assert (forallb (fun n => Z.lor (Z.of_nat n) 128 =? Z.of_nat n + 128) (seq 0 128) = true) as Hc
      by by vm_compute.
    rewrite forallb_forall in Hc. apply Z.eqb_eq, Hc. by apply list_elem_of_In. }
  rewrite Forall_forall in Hall. apply Hall, elem_of_seq. lia.
Qed.

Lemma set_param_inj k k1 k2 p1 p2 v1 v2 :
  value_ok v1 -> value_ok v2 ->
  fst (into_raw (ReqSetParam k1 p1 v1)) = fst (into_raw (ReqSetParam k2 p2 v2)) ->
  ReqSetParam k p1 v1 = ReqSetParam k p2 v2.
Proof.
  intros H1 H2 E. cbn [into_raw fst] in E. apply (f_equal snd) in E. cbn [snd] in E.
  apply app_inj_1 in E as [Ep Ev]; [|by rewrite !length_to_be_bytes].
  apply to_be_bytes_inj in Ep; [|apply param_in_width..]. apply param_as_u16_inj in Ep as ->.
  f_equal. apply value_be_bytes_inj; try done.
  apply (f_equal length) in Ev. rewrite !length_value_be_bytes in Ev.
  by destruct (type_of v1), (type_of v2).
Qed.

Lemma get_param_inj k k1 k2 p1 p2 t1 t2 :
  fst (into_raw (ReqGetParam k1 p1 t1)) = fst (into_raw (ReqGetParam k2 p2 t2)) ->
  ReqGetParam k p1 t1 = ReqGetParam k p2 t2.
Proof.
  intros E. cbn [into_raw fst] in E. apply (f_equal snd) in E. cbn [snd] in E.
  apply app_inj_1 in E as [Ep Ev]; [|by rewrite !length_to_be_bytes].
  apply to_be_bytes_inj in Ep; [|apply param_in_width..]. apply param_as_u16_inj in Ep as ->.
  by destruct t1, t2.
Qed.

Lemma index_address_inj (c : RawRadioCommand) o i1 i2 (l1 l2 : list Z) :
  (c, [o + Z.of_nat i1] ++ l1) = (c, [o + Z.of_nat i2] ++ l2) -> i1 = i2 /\ l1 = l2.
Proof. intros [= E ->]. split; [lia|done]. Qed.

Lemma pending_short_inj k k1 k2 i1 i2 a1 a2 :
  request_ok (ReqSetPendingShort k1 i1 a1) -> request_ok (ReqSetPendingShort k2 i2 a2) ->
  fst (into_raw (ReqSetPendingShort k1 i1 a1)) = fst (into_raw (ReqSetPendingShort k2 i2 a2)) ->
  ReqSetPendingShort k i1 a1 = ReqSetPendingShort k i2 a2.
Proof.
  intros [Hi1 Ha1] [Hi2 Ha2] E. cbn [into_raw fst] in E. rewrite !short_index_byte in E by done.
  apply index_address_inj in E as [-> E]. f_equal.
  destruct a1 as [[x1 y1]|], a2 as [[x2 y2]|]; try done.
  destruct (Ha1 _ eq_refl), (Ha2 _ eq_refl). cbn [fst snd] in *.
  apply app_inj_1 in E as [Ex Ey]; [|by rewrite !length_to_le_bytes].
  apply to_le_bytes_inj in Ex, Ey; try done. by apply uint_eq in Ex as ->, Ey as ->.
Qed.

Lemma pending_extended_inj k k1 k2 i1 i2 a1 a2 :
  request_ok (ReqSetPendingExtended k1 i1 a1) -> request_ok (ReqSetPendingExtended k2 i2 a2) ->
  fst (into_raw (ReqSetPendingExtended k1 i1 a1)) = fst (into_raw (ReqSetPendingExtended k2 i2 a2)) ->
  ReqSetPendingExtended k i1 a1 = ReqSetPendingExtended k i2 a2.
Proof.
  intros [Hi1 Ha1] [Hi2 Ha2] E. cbn [into_raw fst] in E. rewrite !extended_index_byte in E by done.
  rewrite !(Z.add_comm _ 128) in E. apply index_address_inj in E as [-> E]. f_equal.
  destruct a1 as [x1|], a2 as [x2|]; try done.
  specialize (Ha1 _ eq_refl). specialize (Ha2 _ eq_refl).
  apply to_le_bytes_inj in E; try done. by apply uint_eq in E as ->.
Qed.

Lemma pending_kinds_differ k1 k2 i1 i2 a1 a2 :
  (i1 < 128)%nat -> (i2 < 128)%nat ->
  fst (into_raw (ReqSetPendingShort k1 i1 a1)) <> fst (into_raw (ReqSetPendingExtended k2 i2 a2)).
Proof.
  intros H1 H2 E. cbn [into_raw fst] in E.
  rewrite short_index_byte, extended_index_byte in E by done. cbn [app] in E. injection E as E _. lia.
Qed.

(** A request can be read back from its raw form: two requests with the same command
    and data are the same but for their tokens. *)
Theorem into_raw_injective (r1 r2 : RadioRequest) (k : UniqueKey) :
  request_ok r1 -> request_ok r2 -> fst (into_raw r1) = fst (into_raw r2) ->
  with_token k r1 = with_token k r2.
Proof.
  intros H1 H2 E. destruct r1 as [k1 p1 v1|k1 p1 t1|k1|k1 b1|k1 d1|k1 i1 a1|k1 i1 a1],
    r2 as [k2 p2 v2|k2 p2 t2|k2|k2 b2|k2 d2|k2 i2 a2|k2 i2 a2]; cbn [with_token];
    try (apply (f_equal fst) in E; cbn in E; repeat case_match; discriminate E).
  - by eapply set_param_inj.
  - by eapply get_param_inj.
  - done.
  - by destruct b1, b2.
  - by injection E as ->.
  - by eapply pending_short_inj.
  - destruct H1, H2. by eapply pending_kinds_differ in E.
  - destruct H1, H2. symmetry in E. by eapply pending_kinds_differ in E.
  - by eapply pending_extended_inj.
Qed.

(** ** Request ids *)

Lemma pick_request_id_Ok draws m id :
  pick_request_id draws m = Ok id -> id ∈ draws /\ m !! id = None.
Proof.
  induction draws as [|d draws IH]; [done|]. cbn [pick_request_id]. case_decide as Hd.
  - intros [= <-]. split; [by left|done].
  - intros Hp. destruct (IH Hp). split; [by right|done].
Qed.

Lemma pick_request_id_cases draws m :
  (exists id, pick_request_id draws m = Ok id /\ id ∈ draws /\ m !! id = None) \/
  (pick_request_id draws m = Err OutOfFuel /\ forall id, id ∈ draws -> is_Some (m !! id)).
Proof.
  destruct (pick_request_id draws m) as [id|e] eqn:E.
  - left. exists id. split; [done|]. by apply pick_request_id_Ok.
  - right. revert E. induction draws as [|d draws IH]; cbn [pick_request_id].
    + intros [= <-]. split; [done|]. by intros id Hid%not_elem_of_nil.
    + case_decide as Hd; [done|]. intros E. destruct (IH E) as [-> Hall]. split; [done|].
      intros id [->|Hid]%elem_of_cons; [|by apply Hall]. by apply not_eq_None_Some.
Qed.

(** The loop that draws a request id ends as soon as a free id is drawn, with a free id;
    it goes on for ever exactly when every id is outstanding, and it does so holding the
    lock the answers need. *)
Theorem request_id_loop (m : response_map) :
  (forall draws id, in_width 16 id -> m !! id = None -> id ∈ draws ->
     exists id', pick_request_id draws m = Ok id' /\ id' ∈ draws /\ m !! id' = None) /\
  ((forall draws, Forall (in_width 16) draws -> pick_request_id draws m = Err OutOfFuel) <->
   (forall id, in_width 16 id -> is_Some (m !! id))).
Proof.
  split; [|split].
  - intros draws id Hid Hm Hin.
    destruct (pick_request_id_cases draws m) as [?|[_ Hall]]; [done|].
    apply Hall in Hin as [? ?]. congruence.
  - intros Hl id Hid. specialize (Hl [id] ltac:(by apply Forall_singleton)).
    cbn [pick_request_id] in Hl. case_decide as Hd; [done|]. by apply not_eq_None_Some.
  - intros Hall draws Hd.
    destruct (pick_request_id_cases draws m) as [(id & _ & Hin & Hm)|[? _]]; [|done].
    eapply Forall_forall in Hd; [|exact Hin]. destruct (Hall id Hd) as [? ?]. congruence.
Qed.

(** ** The two tasks together *)

Abbreviation answer := (result RadioError (list Z)).

Definition response_parser (r : RadioRequest) : RadioResponseParser := snd (into_raw r).
Definition raw_message (id : Z) (r : RadioRequest) : RawRadioMessage :=
  {| command_id := fst (fst (into_raw r)); request_id := Uint id; data := snd (fst (into_raw r)) |}.

Definition is_answer (r : RadioResponse) : Prop := match r with RespOnPacket _ => False | _ => True end.
#[global] Instance is_answer_dec r : Decision (is_answer r).
Proof. destruct r; cbn; apply _. Defined.

Inductive radio_event := RunRequests (e : RequestEnv) | RunResponses (e : ResponseEnv).

(** The requests taken, the messages given to the sink and the responses handed on. *)
Record traffic := {
  requests : list RadioRequest;
  messages : list RawRadioMessage;
  responses : list RadioResponse;
}.
Definition no_traffic : traffic := {| requests := []; messages := []; responses := [] |}.
Definition then_traffic (t u : traffic) : traffic :=
  {| requests := requests t ++ requests u; messages := messages t ++ messages u;
     responses := responses t ++ responses u |}.

Section tasks_theory.
Context `{!Nom, !CookieFactory}.

(** What a step of the request task takes and gives to the sink. *)
Definition request_traffic (e : RequestEnv) (s : RadioService) : traffic :=
  {| requests := match request_task s, env_request e with NextRequest, Ready (Some r) => [r] | _, _ => [] end;
     messages :=
       match request_task s with
       | SinkReady m => match fst (fst (poll_ready (env_writes e) (sink s))) with Ready (Ok _) => [m] | _ => [] end
       | _ => []
       end;
     responses := [] |}.

Definition radio_step (ev : radio_event) (s : RadioService) : exec (traffic * RadioService) :=
  match ev with
  | RunRequests e => s' ← radio_request_task e s; Ok (request_traffic e s, s')
  | RunResponses e =>
      '(response, _, s') ← radio_response_task e s;
      Ok ({| requests := []; messages := []; responses := option_list response |}, s')
  end.

Fixpoint radio_run (evs : list radio_event) (s : RadioService) : exec (traffic * RadioService) :=
  match evs with
  | [] => Ok (no_traffic, s)
  | ev :: evs =>
      '(t, s) ← radio_step ev s;
      '(u, s) ← radio_run evs s;
      Ok (then_traffic t u, s)
  end.

(** How the traffic so far is accounted for: [issued] pairs each request with its id,
    [answered] are those an answer came for, [g] those still outstanding. *)
Record accounted (t : traffic) (s : RadioService) (issued : list (Z * RadioRequest))
    (answered : list (Z * RadioRequest * answer)) (g : gmap Z RadioRequest)
    (waiting : list RadioRequest) : Prop := {
  ac_map : responsemap s = response_parser <$> g;
  ac_issued : issued ≡ₚ answered.*1 ++ map_to_list g;
  ac_requests : requests t ≡ₚ issued.*2 ++ waiting;
  ac_waiting : match request_task s with
    | LockForRequest c d p => exists r, waiting = [r] /\ into_raw r = (c, d, p)
    | _ => waiting = []
    end;
  ac_messages : messages t ++ match request_task s with SinkReady m => [m] | _ => [] end
    `sublist_of` (fun p => raw_message (fst p) (snd p)) <$> issued;
  ac_responses : filter is_answer (responses t ++
      match response_task s with SendResponse r _ => [r] | NextMessage => [] end)
    `sublist_of` (fun p => response_parser (snd (fst p)) (snd p)) <$> answered;
}.

Definition is_accounted (t : traffic) (s : RadioService) : Prop :=
  exists issued answered g waiting, accounted t s issued answered g waiting.

Lemma parser_answers r a : is_answer (response_parser r a).
Proof. by destruct r. Qed.

Lemma sublist_app_l {A} (l1 l2 k : list A) : l1 ++ l2 `sublist_of` k -> l1 `sublist_of` k.
Proof. intros Hl. etrans; [|exact Hl]. by apply sublist_inserts_r. Qed.

Lemma then_nil t : then_traffic t no_traffic = t.
Proof. destruct t. unfold then_traffic. cbn. by rewrite !app_nil_r. Qed.

Lemma request_step_accounted e t s s' :
  is_accounted t s -> radio_request_task e s = Ok s' ->
  is_accounted (then_traffic t (request_traffic e s)) s'.
Proof.
  intros (issued & answered & g & waiting & [Hm Hi Hq Hw Hs Hr]) E.
  unfold request_traffic, then_traffic, radio_request_task in *.
  destruct (request_task s) as [|c d p|m| |] eqn:Et.
  - destruct (env_request e) as [[r|]|].
    + destruct (into_raw r) as [[c d] p] eqn:Er. injection E as <-.
      exists issued, answered, g, [r]. subst waiting. split; cbn; rewrite ?app_nil_r in *; try done.
      * by rewrite Hq.
      * eauto.
    + injection E as <-. exists issued, answered, g, waiting.
      split; cbn; rewrite ?app_nil_r in *; done.
    + injection E as <-. exists issued, answered, g, waiting.
      split; cbn; rewrite ?Et, ?app_nil_r in *; done.
  - destruct (lock_held s).
    { injection E as <-. exists issued, answered, g, waiting.
      split; cbn; rewrite ?Et, ?app_nil_r in *; done. }
    destruct (pick_request_id (env_draws e) (responsemap s)) as [id|] eqn:Ep; [|done].
    cbn [mbind result_bind] in E. injection E as <-.
    apply pick_request_id_Ok in Ep as [_ Hid]. destruct Hw as (r & -> & Er).
    assert (g !! id = None) as Hg.
    { rewrite Hm, lookup_fmap in Hid. by apply fmap_None in Hid. }
    exists (issued ++ [(id, r)]), answered, (<[id := r]> g), []. split; cbn; rewrite ?app_nil_r.
    + rewrite Hm, fmap_insert. by unfold response_parser; rewrite Er.
    + rewrite Hi, map_to_list_insert by done. rewrite <- (assoc_L (++)). f_equiv.
      by rewrite Permutation_app_comm.
    + rewrite Hq, fmap_app. done.
    + done.
    + rewrite fmap_app. apply sublist_app; [by rewrite app_nil_r in Hs|].
      cbn. unfold raw_message. by rewrite Er.
    + done.
  - destruct (poll_ready (env_writes e) (sink s)) as [[[[u|err]|] ev] k] eqn:Ep; cbn [fst] in *.
    + destruct (start_send m k) as [k'|]; [|done]. cbn [mbind result_bind] in E. injection E as <-.
      exists issued, answered, g, waiting. split; cbn; rewrite ?app_nil_r in *; done.
    + injection E as <-. exists issued, answered, g, waiting.
      split; cbn; rewrite ?app_nil_r in *; try done. by apply sublist_app_l in Hs.
    + injection E as <-. exists issued, answered, g, waiting.
      split; cbn; rewrite ?Et, ?app_nil_r in *; done.
  - destruct (poll_flush _ _ _) as [[[u|] ev] k] eqn:Ep.
    + injection E as <-. exists issued, answered, g, waiting. split; cbn; rewrite ?app_nil_r in *; done.
    + injection E as <-. exists issued, answered, g, waiting.
      split; cbn; rewrite ?Et, ?app_nil_r in *; done.
  - injection E as <-. exists issued, answered, g, waiting.
    split; cbn; rewrite ?Et, ?app_nil_r in *; done.
Qed.

(** A message of the radio answers the request that is outstanding under its id, if it
    is an answer; a packet concerns no request. *)
Lemma process_message_cases msg (g : gmap Z RadioRequest) out m' :
  process_message msg (response_parser <$> g) = Ok (out, m') ->
  (m' = response_parser <$> g /\ (out = None \/ exists p, out = Some (RespOnPacket p, false))) \/
  exists r a, g !! uint_val (request_id msg) = Some r /\
    out = Some (response_parser r a, true) /\
    m' = response_parser <$> delete (uint_val (request_id msg)) g.
Proof.
  unfold process_message. rewrite fmap_delete.
  destruct (command_id msg); try (intros [= <- <-]; left; eauto; fail).
  - rewrite lookup_fmap. destruct (g !! _) as [r|]; cbn; intros [= <- <-]; [right; eauto|left; eauto].
  - rewrite lookup_fmap. destruct (g !! _) as [r|]; cbn; intros [= <- <-]; [right; eauto|left; eauto].
  - case_decide; [intros [= <- <-]; left; eauto|].
    destruct (pop_packet (data msg)) as [p|]; [|done]. cbn. intros [= <- <-]. left. eauto.
Qed.

Lemma response_step_accounted e t s o rd s' :
  is_accounted t s -> radio_response_task e s = Ok (o, rd, s') ->
  is_accounted (then_traffic t {| requests := []; messages := []; responses := option_list o |}) s'.
Proof.
  intros (issued & answered & g & waiting & [Hm Hi Hq Hw Hs Hr]) E.
  unfold then_traffic, radio_response_task in *. destruct (response_task s) as [|r held] eqn:Et.
  - destruct (poll_next _ _ _) as [[[[msg|] rd'] b]|]; [| |done]; cbn [mbind result_bind] in E.
    2: { injection E as <- <- <-. exists issued, answered, g, waiting.
         split; cbn; rewrite ?Et, ?app_nil_r in *; done. }
    destruct msg as [msg|]; [|done]. cbn [unwrap mbind result_bind set_stream_buffer responsemap] in E.
    rewrite Hm in E.
    destruct (process_message msg _) as [[out m']|] eqn:Ep; [|done].
    cbn [mbind result_bind] in E. apply process_message_cases in Ep.
    destruct Ep as [[-> [->|[p ->]]]|(r & a & Hg & -> & ->)]; cbv iota beta zeta in E; injection E as <- <- <-.
    + exists issued, answered, g, waiting. split; cbn; rewrite ?Et, ?app_nil_r in *; done.
    + exists issued, answered, g, waiting. split; cbn; rewrite ?app_nil_r in *; try done.
      by rewrite filter_app, app_nil_r.
    + exists issued, (answered ++ [(uint_val (request_id msg), r, a)]),
        (delete (uint_val (request_id msg)) g), waiting.
      split; cbn; rewrite ?app_nil_r in *; try done.
      * rewrite Hi, fmap_app. rewrite <- (map_to_list_delete g _ _ Hg).
        by rewrite <- (assoc_L (++)).
      * rewrite filter_app, fmap_app. apply sublist_app; [done|]. rewrite filter_cons.
        rewrite decide_True by apply parser_answers. done.
  - destruct (env_sent e) as [[u|err]|]; cbn [is_ok] in E; injection E as <- <- <-;
      exists issued, answered, g, waiting; split; cbn; rewrite ?Et, ?app_nil_r in *; try done.
    rewrite filter_app in Hr. by apply sublist_app_l in Hr.
Qed.

Lemma radio_run_accounted evs t s u s' :
  is_accounted t s -> radio_run evs s = Ok (u, s') -> is_accounted (then_traffic t u) s'.
Proof.
  revert t s u s'. induction evs as [|ev evs IH]; intros t s u s' Ht; cbn [radio_run].
  - intros [= <- <-]. by rewrite then_nil.
  - destruct (radio_step ev s) as [[t1 s1]|] eqn:E1; [|done]. cbn [mbind result_bind].
    destruct (radio_run evs s1) as [[u1 s2]|] eqn:E2; [|done]. cbn [mbind result_bind].
    intros [= <- <-].
    assert (then_traffic t (then_traffic t1 u1) = then_traffic (then_traffic t t1) u1) as ->
      by (unfold then_traffic; cbn; by rewrite !(assoc_L (++))).
    eapply IH; [|exact E2]. destruct ev as [e|e]; cbn [radio_step] in E1.
    + destruct (radio_request_task e s) as [sx|] eqn:Er; [|done]. cbn in E1. injection E1 as <- <-.
      by apply request_step_accounted.
    + destruct (radio_response_task e s) as [[[o rd] sx]|] eqn:Er; [|done]. cbn in E1.
      injection E1 as <- <-. by eapply response_step_accounted.
Qed.

(** Over every interleaving of the two tasks, whatever the ports, the channels and the
    random numbers do: the requests taken are those that have been given an id and at
    most one that waits for the lock; those with an id are the ones that were answered,
    each once, and the ones still in the map; the sink was given their messages, in
    order and with these ids; and the responses handed on, packets apart, are what the
    answered requests' own parsers made of their answers, in order. *)
Theorem radio_answers_match (evs : list radio_event) (t : traffic) (s : RadioService) :
  radio_run evs service_new = Ok (t, s) ->
  exists (issued : list (Z * RadioRequest)) (answered : list (Z * RadioRequest * answer))
         (outstanding : gmap Z RadioRequest) (waiting : list RadioRequest),
    requests t ≡ₚ issued.*2 ++ waiting /\ (length waiting <= 1)%nat /\
    issued ≡ₚ answered.*1 ++ map_to_list outstanding /\
    responsemap s = response_parser <$> outstanding /\
    messages t `sublist_of` (fun p => raw_message (fst p) (snd p)) <$> issued /\
    filter is_answer (responses t) `sublist_of`
      (fun p => response_parser (snd (fst p)) (snd p)) <$> answered.
Proof.
  intros E. destruct (radio_run_accounted evs no_traffic service_new t s) as
    (issued & answered & g & waiting & [Hm Hi Hq Hw Hs Hr]).
  - exists [], [], ∅, []. by split.
  - done.
  - exists issued, answered, g, waiting. split_and!; try done.
    + destruct (request_task s); try (subst; cbn; lia).
      destruct Hw as (r & -> & _). cbn. lia.
    + by apply sublist_app_l in Hs.
    + rewrite filter_app in Hr. by apply sublist_app_l in Hr.
Qed.

(** *** When the tasks fail *)

Lemma pop_raw_message_fails b f : pop_raw_message b = Err f -> f = Panic.
Proof.
  unfold pop_raw_message. case_decide; [done|].
  destruct (find_subsequence _ _) as [i|]; [|done]. cbv zeta.
  generalize (take (length (rotate_left i b) - i) (rotate_left i b)). intros c.
  unfold parse_raw_radio_message, nom_bind. repeat case_match; cbn; try congruence;
    unfold unwrap_result; repeat case_match; cbn; congruence.
Qed.

Lemma poll_next_fuel fuel events b :
  (size events < fuel)%nat -> poll_next fuel events b <> Err OutOfFuel.
Proof.
  revert events b. induction fuel as [|fuel IH]; intros events b Hf; [lia|]. cbn [poll_next].
  destruct (pop_raw_message b) as [[[n msg] c]|f] eqn:E; cbn [mbind result_bind].
  2: { apply pop_raw_message_fails in E as ->. done. }
  destruct msg; [done|]. case_decide as Hr; [done|].
  destruct events as [|[bs| |] events]; try done. apply IH.
  unfold size in *. cbn [sum_list_with event_size] in Hf.
  pose proof (length_drop bs (u16_max - length (take n c))) as Hl.
  destruct (drop _ bs); cbn [sum_list_with event_size length] in *; lia.
Qed.

Lemma stream_fuel_enough events : (size events < stream_fuel events)%nat.
Proof. unfold stream_fuel. apply Nat.lt_succ_diag_r. Qed.

Definition drying (draws : list Z) (s : RadioService) : Prop :=
  forall id, id ∈ draws -> is_Some (responsemap s !! id).

Lemma process_message_total msg m : exists r, process_message msg m = Ok r.
Proof.
  unfold process_message. destruct (command_id msg); eauto.
  - destruct (m !! _); eauto.
  - destruct (m !! _); eauto.
  - case_decide; eauto. unfold pop_packet.
    destruct (data msg) as [|x l _] using rev_ind; [cbn in *; lia|].
    rewrite last_snoc, removelast_last. cbn [unwrap mbind result_bind].
    destruct l as [|y l _] using rev_ind; [cbn in *; lia|].
    rewrite last_snoc. cbn. eauto.
Qed.

Lemma response_task_fails e s f :
  radio_response_task e s = Err f ->
  f = Panic /\ response_task s = NextMessage /\
  (poll_next (stream_fuel (env_reads e)) (env_reads e) (stream_buffer s) = Err Panic \/
   exists rd b, poll_next (stream_fuel (env_reads e)) (env_reads e) (stream_buffer s) =
     Ok (Ready None, rd, b)).
Proof.
  unfold radio_response_task. destruct (response_task s); [|by destruct (env_sent e)].
  pose proof (poll_next_fuel _ (env_reads e) (stream_buffer s) (stream_fuel_enough (env_reads e))) as Hf.
  destruct (poll_next _ _ _) as [[[[[msg|]|] rd] b]|f']; cbn [mbind result_bind unwrap].
  - destruct (process_message_total msg (responsemap (set_stream_buffer b s))) as [[out m'] ->].
    cbn [mbind result_bind]. by destruct out as [[]|].
  - intros [= <-]. eauto 6.
  - done.
  - intros [= <-]. destruct f'; [|done]. auto.
Qed.
End tasks_theory.

Section tasks_fail.
Context `{!Nom, !CookieFactory, !CookieFactoryLaws}.

Definition draws_ok (ev : radio_event) : Prop :=
  match ev with RunRequests e => Forall (in_width 16) (env_draws e) | RunResponses _ => True end.

(** The id of the message that waits for the sink. *)
Definition message_ok (s : RadioService) : Prop :=
  forall m, request_task s = SinkReady m -> in_width 16 (uint_val (request_id m)).

Lemma request_step_message_ok e s s' :
  draws_ok (RunRequests e) -> message_ok s -> radio_request_task e s = Ok s' -> message_ok s'.
Proof.
  cbn [draws_ok]. intros Hd Hs. unfold radio_request_task, message_ok in *.
  destruct (request_task s) as [|c d p|m| |] eqn:Et.
  - destruct (env_request e) as [[r|]|]; [destruct (into_raw r) as [[c d] p]|..];
      intros [= <-] m; cbn; congruence.
  - destruct (lock_held s); [intros [= <-] m; congruence|].
    destruct (pick_request_id _ _) as [id|] eqn:Ep; [|done]. intros [= <-] m. cbn. intros [= <-].
    apply pick_request_id_Ok in Ep as [Hin _]. by eapply Forall_forall in Hd.
  - destruct (poll_ready _ _) as [[[[u|err]|] ev] k].
    + destruct (start_send m k); [|done]. intros [= <-] m'. cbn. congruence.
    + intros [= <-] m'. cbn. congruence.
    + intros [= <-] m'. cbn. rewrite Et. intros [= <-]. by apply Hs.
  - destruct (poll_flush _ _ _) as [[[u|] ev] k]; intros [= <-] m'; cbn; congruence.
  - intros [= <-] m'. congruence.
Qed.

Lemma response_step_message_ok e s o rd s' :
  message_ok s -> radio_response_task e s = Ok (o, rd, s') -> message_ok s'.
Proof.
  unfold message_ok, radio_response_task. intros Hs E.
  assert (request_task s' = request_task s) as ->; [|done].
  destruct (response_task s).
  - destruct (poll_next _ _ _) as [[[[msg|] rd'] b]|]; [| |done]; cbn [mbind result_bind] in E.
    2: { by injection E as <- <- <-. }
    destruct msg as [msg|]; [|done]. cbn [unwrap mbind result_bind] in E.
    destruct (process_message _ _) as [[[[r held]|] m']|]; [..|done]; by injection E as <- <- <-.
  - destruct (env_sent e); by injection E as <- <- <-.
Qed.

Lemma request_task_fails e s f :
  message_ok s -> radio_request_task e s = Err f -> f = OutOfFuel /\ drying (env_draws e) s.
Proof.
  unfold message_ok, radio_request_task. intros Hs. destruct (request_task s) as [|c d p|m| |] eqn:Et.
  - destruct (env_request e) as [[r|]|]; [destruct (into_raw r) as [[c d] p]|..]; done.
  - destruct (lock_held s); [done|].
    destruct (pick_request_id_cases (env_draws e) (responsemap s)) as [(id & -> & _)|[-> Hd]]; [done|].
    by intros [= <-].
  - destruct (poll_ready _ _) as [[[[u|err]|] ev] k]; [|done..].
    unfold start_send. rewrite into_vec_spec by by apply Hs. done.
  - by destruct (poll_flush _ _ _) as [[[u|] ev] k].
  - done.
Qed.

Lemma radio_run_fails_from evs s f :
  message_ok s -> Forall draws_ok evs -> radio_run evs s = Err f ->
  exists evs1 ev evs2 t s1, evs = evs1 ++ ev :: evs2 /\ radio_run evs1 s = Ok (t, s1) /\
    match ev with
    | RunRequests e => f = OutOfFuel /\ drying (env_draws e) s1
    | RunResponses e => f = Panic /\
        (poll_next (stream_fuel (env_reads e)) (env_reads e) (stream_buffer s1) = Err Panic \/
         exists rd b, poll_next (stream_fuel (env_reads e)) (env_reads e) (stream_buffer s1) =
           Ok (Ready None, rd, b))
    end.
Proof.
  intros Hs Hd. revert s Hs. induction Hd as [|ev evs Hev _ IH]; intros s Hs; [done|].
  cbn [radio_run]. destruct (radio_step ev s) as [[t1 s1]|f1] eqn:E1; cbn [mbind result_bind].
  - destruct (radio_run evs s1) as [[u1 s2]|f2] eqn:E2; [done|]. cbn [mbind result_bind].
    intros [= ->].
    assert (message_ok s1) as Hs1.
    { destruct ev as [e|e]; cbn [radio_step] in E1.
      - destruct (radio_request_task e s) eqn:E; [|done]. injection E1 as _ <-.
        by eapply request_step_message_ok.
      - destruct (radio_response_task e s) as [[[o rd] sx]|] eqn:E; [|done]. injection E1 as _ <-.
        by eapply response_step_message_ok. }
    destruct (IH s1 Hs1 E2) as (evs1 & ev' & evs2 & t & sf & -> & Er & Hf).
    exists (ev :: evs1), ev', evs2, (then_traffic t1 t), sf. split; [done|]. split; [|exact Hf].
    cbn [radio_run]. rewrite E1. cbn [mbind result_bind]. by rewrite Er.
  - intros [= ->]. exists [], ev, evs, no_traffic, s. split; [done|]. split; [done|].
    destruct ev as [e|e]; cbn [radio_step] in E1.
    + destruct (radio_request_task e s) eqn:E; [done|]. injection E1 as ->.
      by apply request_task_fails in E.
    + destruct (radio_response_task e s) as [[[o rd] sx]|] eqn:E; [done|]. injection E1 as ->.
      apply response_task_fails in E. tauto.
Qed.

(** C37: The two tasks fail in two ways only: the request task draws ids for ever, all of the
    ids drawn being outstanding, or the response task panics because the stream has
    ended or itself panics.  Every other step of every interleaving succeeds. *)
Theorem radio_run_fails (evs : list radio_event) (f : failure) :
  Forall draws_ok evs -> radio_run evs service_new = Err f ->
  exists evs1 ev evs2 t s, evs = evs1 ++ ev :: evs2 /\ radio_run evs1 service_new = Ok (t, s) /\
    match ev with
    | RunRequests e => f = OutOfFuel /\ drying (env_draws e) s
    | RunResponses e => f = Panic /\
        (poll_next (stream_fuel (env_reads e)) (env_reads e) (stream_buffer s) = Err Panic \/
         exists rd b, poll_next (stream_fuel (env_reads e)) (env_reads e) (stream_buffer s) =
           Ok (Ready None, rd, b))
    end.
Proof. intros Hd E. by apply radio_run_fails_from. Qed.
End tasks_fail.

(** ** Witnesses *)

Definition example_key : UniqueKey := MkKey 1.

Lemma get_param_answer_witness :
  unpack_result_get_param TypeU16 (Ok [0; 0; 1; 2]) = Ok (ValueU16 (Uint 258)).
Proof.
  apply get_param_answer.
  - intros data [= <-]. repeat constructor; by vm_compute.
  - split; [done|]. split; [by vm_compute|]. reflexivity.
Defined.

Lemma rx_mode_not_read_back_witness :
  ~ (rx_mode_try_from (rx_mode_into {| address_filter := true; autoack := true; poll_mode := false |})
     = Ok {| address_filter := true; autoack := true; poll_mode := false |}).
Proof.
  intros E.
  apply (rx_mode_not_read_back 0 {| address_filter := true; autoack := true; poll_mode := false |}) in E;
    [discriminate E|by vm_compute].
Defined.

Lemma into_raw_injective_witness :
  with_token (MkKey 0) (ReqSetPendingShort (MkKey 1) 3 (Some (Uint 5, Uint 6))) =
  with_token (MkKey 0) (ReqSetPendingShort (MkKey 2) 3 (Some (Uint 5, Uint 6))).
Proof.
  apply (into_raw_injective (ReqSetPendingShort (MkKey 1) 3 (Some (Uint 5, Uint 6)))
    (ReqSetPendingShort (MkKey 2) 3 (Some (Uint 5, Uint 6))));
    [split; [lia|intros x [= <-]; by vm_compute]..|reflexivity].
Defined.

(** A parameter is asked for and answered, and a packet arrives in between. *)
Definition request_env (r : Poll (option RadioRequest)) : RequestEnv :=
  {| env_request := r; env_draws := [7]; env_writes := [WAccept 100]; env_flush := Ready (Ok tt) |}.
Definition response_env (bs : list Z) : ResponseEnv :=
  {| env_reads := [RData bs]; env_sent := Ready (Ok tt) |}.

Definition example_run : list radio_event :=
  [RunRequests (request_env (Ready (Some (ReqGetParam example_key Channel TypeU16))));
   RunRequests (request_env Pending); RunRequests (request_env Pending); RunRequests (request_env Pending);
   RunResponses (response_env [0x5A; 0x50; 0x42; 0xC0; 0; 0; 0; 3; 9; 8; 7]); RunResponses (response_env []);
   RunResponses (response_env [0x5A; 0x50; 0x42; 0x80; 0; 7; 0; 4; 0; 0; 0; 11]);
   RunResponses (response_env [])].

Lemma radio_answers_match_witness :
  exists (t : traffic) (s : RadioService),
    radio_run (H := Nom_reference) (H0 := CookieFactory_reference)
      example_run service_new = Ok (t, s) /\
    responses t = [RespOnPacket {| packet_data := [9]; packet_rssi := 8; packet_link_quality := 7 |};
                   RespGetParam example_key Channel (Ok (ValueU16 (Uint 11)))] /\
    exists issued answered outstanding waiting,
      requests t ≡ₚ issued.*2 ++ waiting /\ (length waiting <= 1)%nat /\
      issued ≡ₚ answered.*1 ++ map_to_list outstanding /\
      responsemap s = response_parser <$> outstanding /\
      messages t `sublist_of` (fun p => raw_message (fst p) (snd p)) <$> issued /\
      filter is_answer (responses t) `sublist_of`
        (fun p : Z * RadioRequest * answer => response_parser (snd (fst p)) (snd p)) <$> answered.
Proof.
  eexists _, _. split; [by vm_compute|]. split; [reflexivity|].
  apply (radio_answers_match (H := Nom_reference) (H0 := CookieFactory_reference) example_run).
  by vm_compute.
Defined.

(** The port fails. *)
Lemma radio_run_fails_witness :
  exists evs1 ev evs2 t s, [RunResponses {| env_reads := [RError]; env_sent := Pending |}] = evs1 ++ ev :: evs2 /\
    radio_run (H := Nom_reference) (H0 := CookieFactory_reference)
      evs1 service_new = Ok (t, s) /\
    match ev with
    | RunRequests e => Panic = OutOfFuel /\ drying (env_draws e) s
    | RunResponses e => Panic = Panic /\
        (poll_next (H := Nom_reference) (stream_fuel (env_reads e)) (env_reads e) (stream_buffer s)
           = Err Panic \/
         exists rd b, poll_next (H := Nom_reference) (stream_fuel (env_reads e)) (env_reads e)
           (stream_buffer s) = Ok (Ready None, rd, b))
    end.
Proof.
  apply (radio_run_fails (H := Nom_reference) (H0 := CookieFactory_reference)
    (H1 := CookieFactory_reference_laws)).
  - by repeat constructor.
  - by vm_compute.
Defined.
