(* ===== verification/RadioLinkTheory.v ===== *)
(** * Theory of the radio link

    The invariant that follows every request on its way (the lock, the sink, the line, the
    radio, the line back, the response task), and the contract that it gives. *)

From Stdlib Require Import ZArith Lia.
From S2P Require Import Prelude Pack PackDerive Async RadioRaw RadioRawTheory Radio RadioTheory.
From S2P Require Import RadioLink.

#[local] Open Scope Z_scope.

Import Radio Link.

(** ** Messages *)

(** A request with its id, and with its answer. *)
Abbreviation asked := (Z * RadioRequest)%type.
Abbreviation answered := (asked * reply)%type.

Definition asked_message (x : asked) : RawRadioMessage := raw_message (fst x) (snd x).
Definition asked_fits (x : asked) : Prop := in_width 16 (fst x) /\ request_fits (snd x).
Definition answer_log (x : answered) : RawRadioMessage * reply := (asked_message (fst x), snd x).
Definition answer_wire (x : answered) : RawRadioMessage := reply_message (asked_message (fst x)) (snd x).
Definition answer_response (x : answered) : RadioResponse :=
  response_parser (snd (fst x)) (reply_answer (snd x)).

Definition wires (xs : list asked) : list Z := xs ≫= fun x => wire (asked_message x).

Lemma wires_app xs ys : wires (xs ++ ys) = wires xs ++ wires ys.
Proof. apply bind_app. Qed.

Lemma asked_message_fits x : asked_fits x -> msg_fits (asked_message x).
Proof.
  intros [Hid Hr]. split; [exact Hid|]. rewrite length_wire. destruct x as [id r]. pose proof u16_max_Z.
  destruct r as [k p v|k p t|k|k b|k d|k i a|k i a]; cbn [asked_message raw_message into_raw fst snd data request_fits] in *.
  - rewrite length_app, length_to_be_bytes, length_value_be_bytes. destruct (type_of v); lia.
  - rewrite length_app, length_to_be_bytes. destruct t; rewrite ?length_to_be_bytes; cbn; lia.
  - cbn. lia.
  - cbn. lia.
  - lia.
  - destruct a as [[x y]|]; cbn [length app]; rewrite ?length_app, ?length_to_le_bytes; cbn; lia.
  - destruct a as [x|]; cbn [length app]; rewrite ?length_to_le_bytes; cbn; lia.
Qed.

Lemma wire_nonempty m : wire m <> [].
Proof. done. Qed.

Lemma response_is_answer x : is_answer (answer_response x).
Proof. apply parser_answers. Qed.

(** The answer the response task has found and not yet handed on. *)
Definition in_hand (s : RadioService) : list RadioResponse :=
  match response_task s with SendResponse r _ => [r] | NextMessage => [] end.
(** The message that waits for the sink. *)
Definition at_sink (s : RadioService) : list RawRadioMessage :=
  match request_task s with SinkReady m => [m] | _ => [] end.

(** ** The invariant *)

Section theory.
Context `{!Nom, !NomLaws, !CookieFactory, !CookieFactoryLaws}.

Lemma wire_inj m1 m2 k1 k2 :
  msg_fits m1 -> msg_fits m2 -> wire m1 ++ k1 = wire m2 ++ k2 -> m1 = m2 /\ k1 = k2.
Proof.
  intros Hm1 Hm2 E. pose proof (parse_wire m1 k1 Hm1) as P1. rewrite E, (parse_wire m2 k2 Hm2) in P1.
  injection P1 as -> ->. done.
Qed.

(** Where the requests are: [waiting] for the lock, [flying] to the radio, [queued] there,
    [returning] with an answer, or [delivered]; [down] is what the line back carries. *)
Record stages := MkStages {
  waiting : list RadioRequest;
  issued : list asked;
  flying : list asked;
  queued : list asked;
  returning : list answered;
  delivered : list answered;
  down : list (list Z * RawRadioMessage);
  tail : list Z;
}.

Record linked (L : RadioLink) (h : history) (g : gmap Z RadioRequest) (x : stages) : Prop := {
  lk_map : responsemap (service L) = response_parser <$> g;
  lk_outstanding : (returning x).*1 ++ queued x ++ flying x ≡ₚ map_to_list g;
  lk_fits : Forall asked_fits (issued x);
  lk_issued : issued x ≡ₚ (delivered x).*1 ++ (returning x).*1 ++ queued x ++ flying x;
  lk_taken : taken h = (issued x).*2 ++ waiting x;
  lk_waiting : match request_task (service L) with
    | LockForRequest c d p => exists r, waiting x = [r] /\ request_fits r /\ into_raw r = (c, d, p)
    | _ => waiting x = []
    end;
  lk_received : received h ++ (asked_message <$> flying x) = asked_message <$> issued x;
  lk_queue : radio_queue L = asked_message <$> queued x;
  lk_written : (written (sink (service L)) <= length (sink_buffer (sink (service L))))%nat;
  lk_consumed : (consumed L <= length (written_out (sink (service L))))%nat;
  lk_wire : unread L ++ unwritten (sink (service L)) ++ (at_sink (service L) ≫= wire) = wires (flying x);
  lk_flushed : match request_task (service L) with
    | SinkReady _ | SinkFlush => True
    | _ => unwritten (sink (service L)) = []
    end;
  lk_at_sink : Forall msg_fits (at_sink (service L));
  lk_replies : replies h = answer_log <$> delivered x ++ returning x;
  lk_handed : filter is_answer (handed h ++ in_hand (service L)) = answer_response <$> delivered x;
  lk_down : stream_buffer (service L) ++ downlink L = noisy (down x) ++ tail x;
  lk_down_fits : Forall (fun lm => noise (fst lm) /\ msg_fits (snd lm)) (down x);
  lk_tail : noise (tail x);
  lk_returning : filter is_reply (down x).*2 = answer_wire <$> returning x;
  lk_packets : omap packet_of (sent h) =
    omap response_packet (handed h ++ in_hand (service L)) ++ omap packet_of (down x).*2;
}.

Definition is_linked (c : RadioLink * history) : Prop := exists g x, linked (fst c) (snd c) g x.

Lemma linked_start : is_linked (start_radio, no_history).
Proof.
  exists ∅, (MkStages [] [] [] [] [] [] [] []). split; try done; cbn; lia || constructor.
Qed.

(** *** The radio's steps *)

Lemma noisy_app xs ys : noisy (xs ++ ys) = noisy xs ++ noisy ys.
Proof. apply bind_app. Qed.

(** The line back, with one more message on it *)
Lemma down_snoc b d ms t l m :
  b ++ d = noisy ms ++ t -> b ++ d ++ l ++ wire m = noisy (ms ++ [(t ++ l, m)]) ++ [].
Proof.
  intros E. rewrite noisy_app, app_nil_r, (assoc_L (++)), E. cbn. rewrite app_nil_r.
  by rewrite <- !(assoc_L (++)).
Qed.

Lemma linked_receive m rest L h g x :
  msg_fits m -> unread L = wire m ++ rest -> linked L h g x ->
  is_linked (MkLink (service L) (consumed L + length (wire m)) (radio_queue L ++ [m]) (downlink L),
    MkHistory (taken h) (received h ++ [m]) (replies h) (handed h) (sent h)).
Proof.
  intros Hm Hu Hk. pose proof (lk_wire _ _ _ _ Hk) as Hw. rewrite Hu, <- (assoc_L (++)) in Hw.
  destruct (flying x) as [|y ys] eqn:Ef; [done|]. change (wires (y :: ys)) with (wire (asked_message y) ++ wires ys) in Hw.
  assert (asked_fits y) as Hy.
  { pose proof (lk_fits _ _ _ _ Hk) as Hall. rewrite (lk_issued _ _ _ _ Hk), Ef, !Forall_app in Hall.
    destruct Hall as (_ & _ & _ & Hall). by apply Forall_cons in Hall as [? _]. }
  apply wire_inj in Hw as [-> Hw]; [|done|by apply asked_message_fits].
  exists g, (MkStages (waiting x) (issued x) ys (queued x ++ [y]) (returning x) (delivered x) (down x) (tail x)).
  destruct Hk. rewrite Ef in *. split; cbn [fst snd service consumed radio_queue downlink taken received
    replies handed sent waiting issued flying queued returning delivered down tail]; try done.
  - by rewrite <- (assoc_L (++)).
  - by rewrite <- (assoc_L (++)).
  - by rewrite <- (assoc_L (++)).
  - by rewrite fmap_app, lk_queue0.
  - apply (f_equal length) in Hu. unfold unread in Hu. rewrite length_drop, length_app in Hu. lia.
  - unfold unread in *. cbn [service consumed]. by rewrite <- drop_drop, Hu, drop_app_length.
Qed.

Lemma fmap_split {A B} (f : A -> B) l q1 m q2 :
  f <$> l = q1 ++ m :: q2 -> exists l1 y l2, l = l1 ++ y :: l2 /\ q1 = f <$> l1 /\ m = f y /\ q2 = f <$> l2.
Proof.
  intros (l1 & l2' & -> & E & ->)%fmap_app_inv. symmetry in E.
  apply fmap_cons_inv in E as (y & l2 & -> & -> & ->). eauto 8.
Qed.

Lemma reply_is_reply m a : is_reply (reply_message m a).
Proof. unfold is_reply. destruct a as [[] d]; cbn; auto. Qed.

Lemma filter_snoc_down (ds : list (list Z * RawRadioMessage)) l m :
  filter is_reply (ds ++ [(l, m)]).*2 = filter is_reply ds.*2 ++ filter is_reply [m].
Proof. by rewrite fmap_app, filter_app. Qed.

Lemma reply_no_packet m a : packet_of (reply_message m a) = None.
Proof. by destruct a as [[] d]. Qed.
Lemma answer_no_packet y : response_packet (answer_response y) = None.
Proof. unfold answer_response. by destruct (snd (fst y)). Qed.

Lemma linked_reply q1 m q2 a l L h g x :
  radio_queue L = q1 ++ m :: q2 -> noise l -> msg_fits (reply_message m a) -> linked L h g x ->
  is_linked (MkLink (service L) (consumed L) (q1 ++ q2) (downlink L ++ l ++ wire (reply_message m a)),
    MkHistory (taken h) (received h) (replies h ++ [(m, a)]) (handed h) (sent h)).
Proof.
  intros Hq Hl Hm []. rewrite lk_queue0 in Hq. apply fmap_split in Hq as (l1 & y & l2 & Eq & -> & -> & ->).
  exists g, (MkStages (waiting x) (issued x) (flying x) (l1 ++ l2) (returning x ++ [(y, a)]) (delivered x)
    (down x ++ [(tail x ++ l, reply_message (asked_message y) a)]) []).
  rewrite Eq in *. split; cbn [fst snd service consumed radio_queue downlink taken received
    replies handed sent waiting issued flying queued returning delivered down tail]; try done.
  - rewrite <- lk_outstanding0, fmap_app. cbn. solve_Permutation.
  - rewrite lk_issued0, fmap_app. cbn. solve_Permutation.
  - by rewrite fmap_app.
  - by rewrite lk_replies0, (assoc_L (++)), !fmap_app.
  - by apply down_snoc.
  - apply Forall_app. split; [done|]. apply Forall_singleton. split; [by apply noise_app|done].
  - constructor.
  - rewrite filter_snoc_down, filter_cons_True by apply reply_is_reply.
    by rewrite lk_returning0, fmap_app.
  - rewrite lk_packets0, fmap_app, (omap_app _ (down x).*2). cbn [omap list_omap fmap list_fmap snd].
    by rewrite reply_no_packet, app_nil_r.
Qed.

Lemma linked_send m l L h g x :
  ~ is_reply m -> noise l -> msg_fits m -> linked L h g x ->
  is_linked (MkLink (service L) (consumed L) (radio_queue L) (downlink L ++ l ++ wire m),
    MkHistory (taken h) (received h) (replies h) (handed h) (sent h ++ [m])).
Proof.
  intros Hm Hl Hf [].
  exists g, (MkStages (waiting x) (issued x) (flying x) (queued x) (returning x) (delivered x)
    (down x ++ [(tail x ++ l, m)]) []).
  split; cbn [fst snd service consumed radio_queue downlink sent handed waiting issued flying queued returning
    delivered down tail]; try done.
  - by apply down_snoc.
  - apply Forall_app. split; [done|]. apply Forall_singleton. split; [by apply noise_app|done].
  - constructor.
  - by rewrite filter_snoc_down, filter_cons_False, app_nil_r.
  - rewrite (omap_app _ (sent h)), lk_packets0, fmap_app, (omap_app _ (down x).*2).
    by rewrite <- (assoc_L (++)).
Qed.

Lemma linked_noise l L h g x :
  noise l -> linked L h g x ->
  is_linked (MkLink (service L) (consumed L) (radio_queue L) (downlink L ++ l), h).
Proof.
  intros Hl []. exists g, (MkStages (waiting x) (issued x) (flying x) (queued x) (returning x) (delivered x)
    (down x) (tail x ++ l)).
  split; cbn [fst snd service consumed radio_queue downlink waiting issued flying queued returning
    delivered down tail]; try done.
  - by rewrite !(assoc_L (++)), lk_down0.
  - by apply noise_app.
Qed.

(** *** The request task *)

(** A sink that has gone on writing *)
Record sink_follows (s k : RawRadioSink) : Prop := {
  sf_written : (written k <= length (sink_buffer k))%nat;
  sf_line : written_out k ++ unwritten k = written_out s ++ unwritten s;
  sf_grows : (length (written_out s) <= length (written_out k))%nat;
}.

Lemma poll_ready_grows events s :
  (length (written_out s) <= length (written_out (snd (poll_ready events s))))%nat.
Proof.
  revert s. induction events as [|[n| |] events IH]; intros s; cbn [poll_ready]; case_decide; cbn; try lia.
  etrans; [|apply IH]. cbn. rewrite length_app. lia.
Qed.

Lemma poll_ready_follows events s :
  WError ∉ events -> (written s <= length (sink_buffer s))%nat ->
  exists r ev k, poll_ready events s = (r, ev, k) /\ sink_follows s k /\
    (r = Pending \/ r = Ready (Ok tt) /\ unwritten k = []).
Proof.
  intros He Hw. pose proof (poll_ready_ok (written_out s ++ unwritten s) events s ltac:(by split)) as Hp.
  pose proof (poll_ready_grows events s) as Hg. destruct (poll_ready events s) as [[r ev] k].
  destruct Hp as ([Hk Hb] & Hr & Herr). exists r, ev, k. split; [done|]. split; [by split|].
  destruct r as [[[]|[]]|]; [right; by eauto|exfalso; by apply He, Herr|by left].
Qed.

Lemma unread_follows n s k :
  (n <= length (written_out s))%nat -> sink_follows s k ->
  drop n (written_out k) ++ unwritten k = drop n (written_out s) ++ unwritten s.
Proof.
  intros Hn [_ E Hg]. rewrite <- (drop_app_le (written_out k)) by lia.
  rewrite <- (drop_app_le (written_out s)) by lia. by rewrite E.
Qed.

(** The sink has gone on writing, and the message that waited for it may be in it. *)
Lemma linked_sink k task L h g x :
  linked L h g x -> sink_follows (sink (service L)) k ->
  match task with
  | SinkReady m => at_sink (service L) = [m]
  | LockForRequest _ _ _ => False
  | _ => at_sink (service L) = []
  end ->
  match request_task (service L) with LockForRequest _ _ _ => False | _ => True end ->
  match task with SinkReady _ | SinkFlush => True | _ => unwritten k = [] end ->
  is_linked (MkLink (set_request_task task (set_sink k (service L))) (consumed L) (radio_queue L) (downlink L), h).
Proof.
  intros Hk Hf Ht Hs Hu. exists g, x.
  assert (waiting x = []) as Hw.
  { pose proof (lk_waiting _ _ _ _ Hk) as Hw. by destruct (request_task (service L)). }
  assert (at_sink (set_request_task task (set_sink k (service L))) = at_sink (service L)) as Ea.
  { unfold at_sink at 1. cbn. by destruct task; [rewrite Ht|destruct Ht|rewrite Ht..]. }
  destruct Hk. split; cbn [fst snd service consumed radio_queue downlink set_request_task set_sink
    responsemap request_task sink stream_buffer in_hand response_task]; try done.
  - by destruct task.
  - apply Hf.
  - pose proof (sf_grows _ _ Hf). lia.
  - rewrite Ea, <- lk_wire0. unfold unread. cbn [service consumed set_request_task set_sink sink].
    rewrite !(assoc_L (++)). f_equal. by apply unread_follows.
  - by rewrite Ea.
Qed.

(** The message that waited for the sink is put into it. *)
Lemma linked_start_send m k L h g x :
  linked L h g x -> request_task (service L) = SinkReady m -> sink_follows (sink (service L)) k ->
  exists k', start_send m k = Ok k' /\
    is_linked (MkLink (set_request_task SinkFlush (set_sink k' (service L))) (consumed L) (radio_queue L) (downlink L), h).
Proof.
  intros Hk Et Hf. assert (at_sink (service L) = [m]) as Ea by (unfold at_sink; by rewrite Et).
  destruct Hk. rewrite Ea in lk_at_sink0, lk_wire0. pose proof (proj1 (Forall_singleton _ _) lk_at_sink0) as Hm.
  unfold start_send. rewrite into_vec_fits by done. eexists. split; [reflexivity|].
  exists g, x. rewrite Et in lk_waiting0. pose proof (sf_written _ _ Hf).
  split; cbn [fst snd service consumed radio_queue downlink set_request_task set_sink at_sink
    responsemap request_task sink stream_buffer in_hand response_task written sink_buffer written_out]; try done.
  - rewrite length_app. lia.
  - pose proof (sf_grows _ _ Hf). lia.
  - rewrite <- lk_wire0. unfold unread, unwritten. cbn [service consumed set_request_task set_sink sink
      written sink_buffer written_out mbind list_bind]. rewrite !app_nil_r, drop_app_le by done.
    rewrite !(assoc_L (++)). f_equal. by apply unread_follows.
Qed.

Lemma history_nil h : MkHistory (taken h ++ []) (received h) (replies h) (handed h) (sent h) = h.
Proof. destruct h. cbn. by rewrite app_nil_r. Qed.

(** A request is given an id and waits for the sink. *)
Lemma linked_issue r id L h g x :
  linked L h g x -> waiting x = [r] -> request_fits r -> in_width 16 id ->
  responsemap (service L) !! id = None -> at_sink (service L) = [] ->
  is_linked (MkLink (set_request_task (SinkReady (raw_message id r))
      (set_responsemap (<[id := response_parser r]> (responsemap (service L))) (service L)))
    (consumed L) (radio_queue L) (downlink L), h).
Proof.
  intros Hk Hw Hr Hid Hm Ha.
  exists (<[id := r]> g), (MkStages [] (issued x ++ [(id, r)]) (flying x ++ [(id, r)]) (queued x)
    (returning x) (delivered x) (down x) (tail x)).
  assert (asked_fits (id, r)) as Hf by by split. destruct Hk. rewrite lk_map0, lookup_fmap in Hm.
  apply fmap_None in Hm.
  split; cbn [fst snd service consumed radio_queue downlink waiting issued flying queued returning
    delivered down tail set_request_task set_responsemap responsemap request_task sink stream_buffer]; try done.
  - by rewrite lk_map0, fmap_insert.
  - rewrite map_to_list_insert, <- lk_outstanding0 by done. solve_Permutation.
  - apply Forall_app. split; [done|]. by apply Forall_singleton.
  - rewrite lk_issued0. solve_Permutation.
  - by rewrite lk_taken0, Hw, fmap_app, app_nil_r.
  - by rewrite !fmap_app, (assoc_L (++)), lk_received0.
  - rewrite wires_app, <- lk_wire0, Ha. unfold unread. cbn. rewrite !app_nil_r. by rewrite <- (assoc_L (++)).
  - apply Forall_singleton. by apply (asked_message_fits (id, r)).
Qed.

Lemma linked_request_step e s' L h g x :
  request_env_ok e -> radio_request_task e (service L) = Ok s' -> linked L h g x ->
  is_linked (MkLink s' (consumed L) (radio_queue L) (downlink L),
    MkHistory (taken h ++ requests (request_traffic e (service L))) (received h) (replies h) (handed h) (sent h)).
Proof.
  intros (Hd & Hwr & Hreq) E Hk. unfold radio_request_task, request_traffic in *.
  pose proof (lk_waiting _ _ _ _ Hk) as Hw. pose proof (lk_written _ _ _ _ Hk) as Hwl.
  assert (forall k, request_task (service L) = SinkFlush -> sink_follows (sink (service L)) k ->
    is_linked (MkLink (set_sink k (service L)) (consumed L) (radio_queue L) (downlink L), h)) as Hflush.
  { intros k Et Hf. pose proof (linked_sink k SinkFlush L h g x Hk Hf) as Hl. unfold at_sink in Hl.
    rewrite Et in Hl. specialize (Hl eq_refl I I). unfold set_request_task in Hl. cbn in Hl.
    unfold set_sink. by rewrite Et. }
  destruct (request_task (service L)) as [|c d p|m| |] eqn:Et; cbn [requests].
  - destruct (env_request e) as [[r|]|] eqn:Er.
    + destruct (into_raw r) as [[c d] p] eqn:Ei. injection E as <-.
      exists g, (MkStages [r] (issued x) (flying x) (queued x) (returning x) (delivered x) (down x) (tail x)).
      destruct Hk. split; try done; cbn [fst snd service taken issued waiting set_request_task request_task].
      * by rewrite lk_taken0, Hw, app_nil_r.
      * eauto.
      * unfold unread, at_sink in *. by rewrite Et in lk_wire0.
      * by rewrite Et in lk_flushed0.
    + injection E as <-. rewrite history_nil. exists g, x. destruct Hk. split; try done.
      * unfold unread, at_sink in *. by rewrite Et in lk_wire0.
      * by rewrite Et in lk_flushed0.
    + injection E as <-. rewrite history_nil. exists g, x. by destruct L.
  - rewrite history_nil. destruct (lock_held (service L)); [injection E as <-; exists g, x; by destruct L|].
    destruct (pick_request_id _ _) as [id|] eqn:Ep; [|done]. cbn [mbind result_bind] in E. injection E as <-.
    apply pick_request_id_Ok in Ep as [Hin Hid]. destruct Hw as (r & Hx & Hr & Ei).
    pose proof (linked_issue r id L h g x Hk Hx Hr) as Hl. unfold raw_message, response_parser in Hl.
    rewrite Ei in Hl. apply Hl; [by eapply Forall_forall in Hd|done|]. unfold at_sink. by rewrite Et.
  - rewrite history_nil.
    destruct (poll_ready_follows (env_writes e) _ Hwr Hwl) as (r & ev & k & Ep & Hf & Hr). rewrite Ep in E.
    destruct Hr as [->|[-> Hu]].
    + injection E as <-. pose proof (linked_sink k (SinkReady m) L h g x Hk Hf) as Hl.
      unfold at_sink in Hl. rewrite Et in Hl. specialize (Hl eq_refl I I). unfold set_request_task in Hl. cbn in Hl.
      unfold set_sink. by rewrite Et.
    + destruct (linked_start_send m k L h g x Hk Et Hf) as (k' & Es & Hl). rewrite Es in E.
      by injection E as <-.
  - rewrite history_nil. unfold poll_flush in E.
    destruct (poll_ready_follows (env_writes e) _ Hwr Hwl) as (r & ev & k & Ep & Hf & Hr). rewrite Ep in E.
    assert (unwritten k = [] -> is_linked (MkLink (set_request_task NextRequest (set_sink k (service L))) (consumed L)
      (radio_queue L) (downlink L), h)) as Hnext.
    { intros Hu. apply (linked_sink k NextRequest L h g x); try done; [unfold at_sink|]; by rewrite Et. }
    destruct Hr as [->|[-> Hu]]; [injection E as <-; by apply Hflush|].
    destruct (env_flush e) as [[u|u]|]; injection E as <-; [by apply Hnext..|by apply Hflush].
  - rewrite history_nil. injection E as <-. exists g, x. by destruct L.
Qed.

(** *** The response task *)

Abbreviation down_fits := (Forall (fun lm : list Z * RawRadioMessage => noise (fst lm) /\ msg_fits (snd lm))).

(** A poll of the stream: the next message, or nothing yet. *)
Definition poll_outcome (r : Poll (option RawRadioMessage)) (bytes : list Z)
    (ds : list (list Z * RawRadioMessage)) (t : list Z) : Prop :=
  (exists l m ds', ds = (l, m) :: ds' /\ r = Ready (Some m) /\ bytes = noisy ds' ++ t) \/
  (r = Pending /\ exists ds' t', ds'.*2 = ds.*2 /\ down_fits ds' /\ noise t' /\ bytes = noisy ds' ++ t').

Lemma poll_next_noisy fuel events c future ds t :
  down_fits ds -> noise t -> no_error events -> c ++ available events ++ future = noisy ds ++ t ->
  (size events < fuel)%nat ->
  exists r ev c', poll_next fuel events c = Ok (r, ev, c') /\ no_error ev /\
    poll_outcome r (c' ++ available ev ++ future) ds t /\
    (future = [] -> RPending ∉ events -> r = Pending -> ds = []).
Proof.
  intros Hds Ht Hn E Hf. destruct ds as [|[l m] ds].
  - cbn [noisy mbind list_bind app] in E. assert (noise (c ++ available events)) as Hc.
    { rewrite <- E, (assoc_L (++)) in Ht. by apply noise_app in Ht as [? _]. }
    destruct (poll_next_noise fuel events c Hc Hn Hf) as (ev & c' & -> & Hev & Hc' & _).
    do 3 eexists. split; [reflexivity|]. split; [done|]. split; [|done]. right. split; [done|].
    exists [], (c' ++ available ev ++ future). split_and!; try done.
    rewrite (assoc_L (++)). apply noise_app. split; [done|]. rewrite <- E in Ht.
    rewrite (assoc_L (++)) in Ht. by apply noise_app in Ht as [_ ?].
  - apply Forall_cons in Hds as [[Hl Hm] Hds]. cbn [fst snd] in *.
    change (noisy ((l, m) :: ds)) with ((l ++ wire m) ++ noisy ds) in E. rewrite <- !(assoc_L (++)) in E.
    destruct (poll_next_partial fuel events c future l m _ Hm Hl Hn E Hf) as (r & ev & c' & -> & Hev & Hr).
    do 3 eexists. split; [reflexivity|]. split; [done|].
    destruct Hr as [(-> & Hb & _)|(-> & Hs & Hlen & l' & Hl' & Hb)].
    + split; [left; eauto 8|done].
    + split.
      * right. split; [done|]. exists ((l', m) :: ds), t. split; [done|]. split; [by constructor|].
        split; [done|]. rewrite Hb. change (noisy ((l', m) :: ds)) with ((l' ++ wire m) ++ noisy ds).
        by rewrite <- !(assoc_L (++)).
      * intros -> Hp _. exfalso. destruct Hs as [->|[? _]]; [|done]. apply (f_equal length) in Hb.
        rewrite !length_app in Hb. change (length (available [])) with 0%nat in Hb.
        change (length (@nil Z)) with 0%nat in Hb. lia.
Qed.

(** What the message means to the service: the answer to an outstanding request, or something
    that concerns none. *)
Lemma process_reply (y : answered) (g : gmap Z RadioRequest) :
  g !! fst (fst y) = Some (snd (fst y)) ->
  process_message (answer_wire y) (response_parser <$> g) =
  Ok (Some (answer_response y, true), response_parser <$> delete (fst (fst y)) g).
Proof.
  intros Hg. unfold process_message, answer_response, reply_answer. rewrite fmap_delete.
  destruct y as [[id r] [[] d]]; cbn [answer_wire reply_message asked_message raw_message command_id request_id
    data reply_ok reply_data fst snd uint_val] in *; by rewrite lookup_fmap, Hg.
Qed.

Lemma pop_packet_of m :
  command_id m = CmdOnPacket ->
  (if decide (length (data m) < 2)%nat then Ok None else Some <$> pop_packet (data m)) = Ok (packet_of m).
Proof.
  destruct m as [c id d]. cbn [command_id data]. intros ->. unfold packet_of. cbn [command_id data].
  destruct d as [|q d _] using rev_ind; [done|]. destruct d as [|r d _] using rev_ind; [done|].
  rewrite !rev_app_distr. cbn [rev app]. rewrite rev_involutive, decide_False.
  - unfold pop_packet. rewrite last_snoc, removelast_last. cbn [unwrap mbind result_bind].
    by rewrite last_snoc, removelast_last.
  - rewrite !length_app. cbn. lia.
Qed.

Lemma process_other m g :
  ~ is_reply m ->
  process_message m (response_parser <$> g) =
  Ok ((fun p => (RespOnPacket p, false)) <$> packet_of m, response_parser <$> g).
Proof.
  intros Hm. pose proof (pop_packet_of m) as Hp. unfold is_reply, process_message, packet_of in *.
  destruct (command_id m); try done; try (by exfalso; auto). specialize (Hp eq_refl).
  case_decide; [by injection Hp as <-|]. destruct (pop_packet (data m)) as [p|]; [|done].
  cbn [mbind result_bind]. by injection Hp as <-.
Qed.

(** Bytes have come in, without a message among them. *)
Lemma linked_bytes b d ds t L h g x :
  linked L h g x -> ds.*2 = (down x).*2 -> down_fits ds -> noise t -> b ++ d = noisy ds ++ t ->
  is_linked (MkLink (set_stream_buffer b (service L)) (consumed L) (radio_queue L) d, h).
Proof.
  intros [] Ed Hds Ht E.
  exists g, (MkStages (waiting x) (issued x) (flying x) (queued x) (returning x) (delivered x) ds t).
  split; try done; cbn [fst snd returning down]; by rewrite Ed.
Qed.

(** A message that answers nothing: a packet is in hand, if it is one. *)
Lemma linked_other b d l m ds L h g x :
  linked L h g x -> down x = (l, m) :: ds -> ~ is_reply m -> response_task (service L) = NextMessage ->
  b ++ d = noisy ds ++ tail x ->
  let s := set_responsemap (response_parser <$> g) (set_stream_buffer b (service L)) in
  is_linked (MkLink match packet_of m with Some p => set_response_task (SendResponse (RespOnPacket p) false) s
    | None => s end (consumed L) (radio_queue L) d, h).
Proof.
  intros [] Ed Hm Et E s. rewrite Ed in lk_down_fits0, lk_returning0, lk_packets0.
  apply Forall_cons in lk_down_fits0 as [_ Hds]. cbn [fmap list_fmap snd omap list_omap] in lk_returning0, lk_packets0.
  rewrite filter_cons_False in lk_returning0 by done. unfold in_hand in lk_handed0, lk_packets0. rewrite Et in *.
  rewrite app_nil_r in lk_handed0, lk_packets0.
  exists g, (MkStages (waiting x) (issued x) (flying x) (queued x) (returning x) (delivered x) ds (tail x)).
  destruct (packet_of m) as [p|]; split; try done; unfold in_hand, s;
    cbn [fst snd service set_stream_buffer set_responsemap set_response_task response_task delivered down];
    rewrite ?Et, ?app_nil_r; try done.
  - by rewrite filter_app, filter_cons_False, app_nil_r by auto.
  - by rewrite omap_app, <- (assoc_L (++)).
Qed.

(** A message that answers a request: its response is in hand. *)
Lemma linked_answer b d l m ds L h g x :
  linked L h g x -> down x = (l, m) :: ds -> is_reply m -> response_task (service L) = NextMessage ->
  b ++ d = noisy ds ++ tail x ->
  exists y g', process_message m (response_parser <$> g) = Ok (Some (answer_response y, true), g') /\
  is_linked (MkLink (set_response_task (SendResponse (answer_response y) true)
    (set_responsemap g' (set_stream_buffer b (service L)))) (consumed L) (radio_queue L) d, h).
Proof.
  intros [] Ed Hm Et E. rewrite Ed in lk_down_fits0, lk_returning0.
  apply Forall_cons in lk_down_fits0 as [_ Hds]. cbn [fmap list_fmap snd] in lk_returning0.
  rewrite filter_cons_True in lk_returning0 by done. unfold in_hand in lk_handed0, lk_packets0. rewrite Et, app_nil_r in lk_handed0, lk_packets0.
  destruct (returning x) as [|y ys] eqn:Ey; [done|]. cbn [fmap list_fmap] in *. injection lk_returning0 as -> Hys.
  assert (g !! fst (fst y) = Some (snd (fst y))) as Hg.
  { apply elem_of_map_to_list. rewrite <- lk_outstanding0. destruct y as [[id r] a]. by left. }
  exists y, (response_parser <$> delete (fst (fst y)) g). split; [by apply process_reply|].
  exists (delete (fst (fst y)) g), (MkStages (waiting x) (issued x) (flying x) (queued x) ys
    (delivered x ++ [y]) ds (tail x)).
  split; try done; unfold in_hand; cbn [fst snd service set_stream_buffer set_responsemap set_response_task
    response_task delivered returning queued flying issued].
  - eapply Permutation_cons_inv. rewrite (map_to_list_delete g _ _ Hg), <- lk_outstanding0.
    by destruct y as [[id r] a].
  - rewrite lk_issued0, fmap_app. cbn. solve_Permutation.
  - by rewrite lk_replies0, <- (assoc_L (++)).
  - rewrite filter_app, lk_handed0, filter_cons_True by apply response_is_answer. by rewrite fmap_app.
  - rewrite lk_packets0, Ed, omap_app. cbn [omap list_omap fmap list_fmap snd]. unfold answer_wire.
    by rewrite answer_no_packet, app_nil_r, reply_no_packet.
Qed.

Lemma linked_response_step reads rest send L h g x :
  no_error reads -> downlink L = available reads ++ rest -> send <> Ready (Err tt) -> linked L h g x ->
  exists o unused s',
    radio_response_task {| env_reads := reads; env_sent := send |} (service L) = Ok (o, unused, s') /\
    is_linked (MkLink s' (consumed L) (radio_queue L) (available unused ++ rest),
      MkHistory (taken h) (received h) (replies h) (handed h ++ option_list o) (sent h)).
Proof.
  intros Hn Hd Hs Hk. unfold radio_response_task. cbn [env_reads env_sent].
  assert (MkHistory (taken h) (received h) (replies h) (handed h ++ option_list None) (sent h) = h) as Hh
    by (destruct h; cbn; by rewrite app_nil_r).
  destruct (response_task (service L)) as [|r held] eqn:Et.
  - pose proof (lk_down _ _ _ _ Hk) as Hb. rewrite Hd in Hb.
    destruct (poll_next_noisy (stream_fuel reads) reads (stream_buffer (service L)) rest (down x) (tail x)
      (lk_down_fits _ _ _ _ Hk) (lk_tail _ _ _ _ Hk) Hn Hb (stream_fuel_enough reads))
      as (r & unused & b & -> & _ & Hr & _). cbn [mbind result_bind].
    destruct Hr as [(l & m & ds & Ed & -> & E)|(-> & ds & t & Ed & Hds & Ht & E)].
    2: { do 3 eexists. split; [reflexivity|]. rewrite Hh. by eapply linked_bytes. }
    cbn [unwrap mbind result_bind set_stream_buffer responsemap]. rewrite (lk_map _ _ _ _ Hk).
    destruct (decide (is_reply m)) as [Hm|Hm].
    + destruct (linked_answer b _ l m ds L h g x Hk Ed Hm Et E) as (y & g' & -> & Hl).
      cbn [mbind result_bind]. do 3 eexists. split; [reflexivity|]. by rewrite Hh.
    + rewrite process_other by done. cbn [mbind result_bind].
      pose proof (linked_other b _ l m ds L h g x Hk Ed Hm Et E) as Hl. cbv zeta in Hl.
      destruct (packet_of m); do 3 eexists; (split; [reflexivity|]); by rewrite Hh.
  - destruct send as [[[]|[]]|]; [|done|]; (do 3 eexists; split; [reflexivity|]).
    + exists g, x. destruct Hk. unfold in_hand in lk_handed0, lk_packets0. rewrite Et in lk_handed0, lk_packets0.
      split; try done; cbn [fst snd service downlink handed is_ok option_list option_rect].
      * unfold in_hand. cbn. by rewrite app_nil_r.
      * rewrite <- lk_down0. cbn. by rewrite Hd.
      * unfold in_hand. cbn. by rewrite app_nil_r.
    + rewrite Hh, <- Hd. exists g, x. by destruct L.
Qed.

(** *** Reachable links *)

Lemma linked_step c c' : is_linked c -> link_step c c' -> is_linked c'.
Proof.
  intros (g & x & Hk) Hs. destruct Hs as [e t s' L h He E|reads rest send o unused s' L h _ Hn Hd Hs E|
    m rest L h Hm Hu|q1 m q2 a l L h Hq Hl Hm|m l L h Hr Hl Hm|l L h Hl]; cbn [fst snd] in Hk.
  - unfold radio_service in E. destruct (quit (service L)); cbn [radio_step] in E.
    + injection E as <- <-. cbn [requests no_traffic]. rewrite history_nil. exists g, x. by destruct L.
    + destruct (radio_request_task e (service L)) as [s1|] eqn:Er; [|done]. injection E as <- <-.
      by eapply linked_request_step.
  - destruct (linked_response_step reads rest send L h g x Hn Hd Hs Hk) as (o' & unused' & s1 & E' & Hl).
    rewrite E in E'. by injection E' as <- <- <-.
  - by eapply linked_receive.
  - by eapply linked_reply.
  - by eapply linked_send.
  - by eapply linked_noise.
Qed.

Lemma linked_reachable c : link_reachable c -> is_linked c.
Proof.
  intros Hr. unfold link_reachable in Hr. pose proof linked_start as Hs. revert Hs. generalize (start_radio, no_history) Hr.
  clear Hr. intros c0 Hr. induction Hr as [c|c1 c2 c3 Hs _ IH]; [done|]. intros Hc. by apply IH, (linked_step c1).
Qed.

Lemma radio_service_total e L h g x :
  linked L h g x -> (exists id, id ∈ env_draws e /\ responsemap (service L) !! id = None) ->
  exists t s', radio_service (RunRequests e) (service L) = Ok (t, s').
Proof.
  intros Hk (id & Hin & Hid). unfold radio_service. destruct (quit (service L)); [eauto|]. cbn [radio_step].
  destruct (radio_request_task e (service L)) as [s'|f] eqn:E; [cbn; eauto|]. exfalso.
  apply request_task_fails in E as [_ Hd].
  - destruct (Hd id Hin) as [p Hp]. congruence.
  - intros m Et. pose proof (lk_at_sink _ _ _ _ Hk) as Ha. unfold at_sink in Ha. rewrite Et in Ha.
    by apply Forall_singleton in Ha as [? _].
Qed.

Lemma linked_waiting L h g x : linked L h g x -> (length (waiting x) <= 1)%nat.
Proof.
  intros Hk. pose proof (lk_waiting _ _ _ _ Hk) as Hw.
  destruct (request_task (service L)); try (by rewrite Hw; cbn; lia).
  destruct Hw as (r & -> & _). done.
Qed.

Lemma noisy_noise ds t : noise (noisy ds ++ t) -> ds = [].
Proof.
  destruct ds as [|[l m] ds]; [done|]. unfold noisy, noise, wire. cbn. intros Hn. exfalso.
  rewrite !Forall_app in Hn. destruct Hn as [[[_ Hn] _] _]. by apply Forall_cons in Hn as [? _].
Qed.

Lemma linked_drained L h g x : linked L h g x -> drained L ->
  waiting x = [] /\ flying x = [] /\ queued x = [] /\ returning x = [] /\ omap packet_of (down x).*2 = [] /\
  in_hand (service L) = [] /\ responsemap (service L) = ∅.
Proof.
  intros [] (Et & Er & Hu & Huw & Hq & Hn). rewrite Et in lk_waiting0. unfold at_sink in lk_wire0.
  rewrite Hu, Huw, Et in lk_wire0. rewrite lk_down0 in Hn. apply noisy_noise in Hn. rewrite Hn in *.
  assert (flying x = []) as Hf by (by destruct (flying x)).
  assert (queued x = []) as Hqx by (rewrite Hq in lk_queue0; by destruct (queued x)).
  assert (returning x = []) as Hrx by (by destruct (returning x)).
  split_and!; try done; [unfold in_hand; by rewrite Er|].
  rewrite Hf, Hqx, Hrx in lk_outstanding0. symmetry in lk_outstanding0. apply Permutation_nil_r in lk_outstanding0.
  apply map_to_list_empty_iff in lk_outstanding0 as ->. by rewrite lk_map0, fmap_empty.
Qed.

(** C12: The service and a radio at the two ends of a serial port that does not fail, over every
    interleaving of their steps and whatever the pieces the bytes come in, the ids drawn and the order and
    content of the radio's answers. The requests made are those that were given an id and at
    most one that waits; the radio takes in exactly their messages, in the order of the
    requests, and what it has not taken in is on its way. Each answer of the radio answers
    one of the requests, no request is answered twice, and the responses handed on are, in
    the order of the answers, what the own parser of each request makes of the answer to that
    very request; the packets are handed on once each and in order. The next step of the
    request task succeeds if an id that is not outstanding is among those it draws (with every id
    outstanding it would draw for ever), and the next step of the response task if the port's
    reads give no error and what has arrived is all they give, and the responses' channel is
    open. *)
Theorem radio_link_contract (L : RadioLink) (h : history) : link_reachable (L, h) ->
  (exists (waiting : list RadioRequest) (issued flying queued : list asked) (returning delivered : list answered)
      (packets : list RadioPacket),
    taken h = issued.*2 ++ waiting /\ (length waiting <= 1)%nat /\
    received h ++ (asked_message <$> flying) = asked_message <$> issued /\
    radio_queue L = asked_message <$> queued /\
    replies h = answer_log <$> delivered ++ returning /\
    issued ≡ₚ delivered.*1 ++ returning.*1 ++ queued ++ flying /\
    filter is_answer (handed h ++ in_hand (service L)) = answer_response <$> delivered /\
    omap packet_of (sent h) = omap response_packet (handed h ++ in_hand (service L)) ++ packets /\
    (drained L -> waiting = [] /\ flying = [] /\ queued = [] /\ returning = [] /\ packets = [] /\
      in_hand (service L) = [] /\ responsemap (service L) = ∅)) /\
  (forall e, (exists id, id ∈ env_draws e /\ responsemap (service L) !! id = None) ->
    exists t s', radio_service (RunRequests e) (service L) = Ok (t, s')) /\
  (forall reads rest send, no_error reads -> downlink L = available reads ++ rest -> send <> Ready (Err tt) ->
    exists o unused s',
      radio_response_task {| env_reads := reads; env_sent := send |} (service L) = Ok (o, unused, s')).
Proof.
  intros (g & x & Hk)%linked_reachable. cbn [fst snd] in Hk. split; [|split].
  - exists (waiting x), (issued x), (flying x), (queued x), (returning x), (delivered x), (omap packet_of (down x).*2).
    pose proof (linked_drained _ _ _ _ Hk) as Hd. pose proof (linked_waiting _ _ _ _ Hk). by destruct Hk.
  - intros e. by eapply radio_service_total.
  - intros reads rest send Hn Hd Hs.
    destruct (linked_response_step reads rest send L h g x Hn Hd Hs Hk) as (o & unused & s' & E & _). eauto.
Qed.
End theory.
