(* ===== verification/RadioLinkDrains.v ===== *)
(** * The radio link comes to rest

    From every state that can be reached, and whatever the radio answers, the link gets rid
    of what is on its way without a further request: there is always a step to take, and a
    measure that it decreases. *)

From Stdlib Require Import ZArith Lia.
From S2P Require Import Prelude Pack PackDerive Async RadioRaw RadioRawTheory Radio RadioTheory.
From S2P Require Import RadioLink RadioLinkTheory.

#[local] Open Scope Z_scope.

Import Radio Link.

(** How far the request task is from its next request. *)
Definition stage (t : RequestTask) : nat :=
  match t with NextRequest => 0 | SinkFlush => 1 | SinkReady _ => 2 | LockForRequest _ _ _ => 3 | RequestsDriedUp => 0 end.

(** Messages to take in and to answer, and steps of the request task; then bytes to read, and
    responses to hand on. *)
Definition outstanding (c : RadioLink * history) : nat :=
  (length (taken (snd c)) - length (received (snd c))) + (length (taken (snd c)) - length (replies (snd c)))
  + stage (request_task (service (fst c))).
Definition unprocessed (c : RadioLink * history) : nat :=
  2 * length (stream_buffer (service (fst c)) ++ downlink (fst c)) + length (in_hand (service (fst c))).

Definition closer (c c' : RadioLink * history) : Prop :=
  (outstanding c' < outstanding c)%nat \/
  (outstanding c' <= outstanding c)%nat /\ (unprocessed c' < unprocessed c)%nat.

(** A port that takes everything, and no further request. *)
Definition eager_env (s : RadioService) : RequestEnv :=
  {| env_request := Pending; env_draws := [0]; env_writes := [WAccept (length (sink_buffer (sink s)))];
     env_flush := Ready (Ok tt) |}.

Section drains.
Context `{!Nom, !NomLaws, !CookieFactory, !CookieFactoryLaws}.
Context (answer_of : RawRadioMessage -> reply).
Context (answers_fit : forall m, msg_fits m -> msg_fits (reply_message m (answer_of m))).

(** A step towards rest: no further request, and the radio answers as given. *)
Definition drain_step (c c' : RadioLink * history) : Prop :=
  link_step c c' /\ taken (snd c') = taken (snd c) /\ quit (service (fst c')) = false /\
  (replies (snd c') = replies (snd c) \/
   exists m, replies (snd c') = replies (snd c) ++ [(m, answer_of m)]).

Lemma eager_env_ok s : request_env_ok (eager_env s).
Proof.
  split; [|split]; cbn; [by repeat constructor| |done]. by intros [?|?%elem_of_nil]%elem_of_cons.
Qed.

Lemma poll_ready_accepts s :
  (written s <= length (sink_buffer s))%nat ->
  exists ev k, poll_ready [WAccept (length (sink_buffer s))] s = (Ready (Ok tt), ev, k).
Proof.
  intros Hw. cbn [poll_ready]. case_decide; [|eauto].
  cbn [sink_buffer written]. rewrite decide_False; [eauto|]. rewrite length_take, length_drop. lia.
Qed.

Lemma linked_counts L h g x : linked L h g x ->
  (length (received h) + length (flying x) = length (issued x))%nat /\
  (length (issued x) + length (waiting x) = length (taken h))%nat /\
  (length (replies h) + length (queued x) + length (flying x) = length (issued x))%nat.
Proof.
  intros Hk. pose proof (f_equal length (lk_received _ _ _ _ Hk)) as Hr.
  pose proof (f_equal length (lk_taken _ _ _ _ Hk)) as Ht. pose proof (f_equal length (lk_replies _ _ _ _ Hk)) as Ha.
  pose proof (Permutation_length (lk_issued _ _ _ _ Hk)) as Hi.
  rewrite ?length_app, ?length_fmap, ?length_app in *. lia.
Qed.

(** The request task's step, when it is not waiting for a request. *)
Lemma drain_request L h s' :
  quit (service L) = false -> (stage (request_task s') < stage (request_task (service L)))%nat ->
  radio_request_task (eager_env (service L)) (service L) = Ok s' -> quit s' = false ->
  request_task (service L) <> NextRequest ->
  exists c', drain_step (L, h) c' /\ closer (L, h) c'.
Proof.
  intros Hq Hs E Hq' Hn.
  assert (requests (request_traffic (eager_env (service L)) (service L)) = []) as Hr
    by (unfold request_traffic; cbn; by destruct (request_task (service L))).
  eexists. split; [split; [eapply (step_requests (eager_env (service L)));
    [apply eager_env_ok|unfold radio_service; rewrite Hq; cbn [radio_step]; by rewrite E]|]|].
  - cbn [fst snd taken service]. rewrite Hr, app_nil_r. split; [done|]. split; [done|by left].
  - left. unfold outstanding. cbn [fst snd taken received replies service]. rewrite Hr, app_nil_r. lia.
Qed.

Lemma drain_send L h r held :
  response_task (service L) = SendResponse r held -> quit (service L) = false ->
  exists c', drain_step (L, h) c' /\ closer (L, h) c'.
Proof.
  intros Et Hq. eexists. split; [split; [eapply (step_responses [] (downlink L) (Ready (Ok tt)));
    [done|constructor|done|done|unfold radio_response_task; by rewrite Et]|]|].
  - cbn. split; [done|]. split; [done|by left].
  - right. unfold outstanding, unprocessed, in_hand. cbn. rewrite Et. cbn. lia.
Qed.

Lemma drain_read L h g x :
  linked L h g x -> response_task (service L) = NextMessage -> down x <> [] -> quit (service L) = false ->
  exists c', drain_step (L, h) c' /\ closer (L, h) c'.
Proof.
  intros Hk Et Hd Hq. set (reads := [RData (downlink L)]).
  assert (available reads = downlink L) as Ha by (unfold reads; cbn; by rewrite app_nil_r).
  pose proof (lk_down _ _ _ _ Hk) as Hb. rewrite <- Ha, <- (app_nil_r (available reads)) in Hb.
  assert (no_error reads) as Hn by (by repeat constructor).
  destruct (poll_next_noisy (stream_fuel reads) reads (stream_buffer (service L)) [] (down x) (tail x)
    (lk_down_fits _ _ _ _ Hk) (lk_tail _ _ _ _ Hk) Hn Hb (stream_fuel_enough reads))
    as (r & unused & b & Ep & _ & Hr & Hne).
  destruct Hr as [(l & m & ds & Ed & -> & E)|(-> & _)].
  2: { exfalso. apply Hd, Hne; [done| |done]. unfold reads. by intros [?|?%elem_of_nil]%elem_of_cons. }
  destruct (process_message_total m (responsemap (service L))) as [[out m'] Em].
  assert (length (b ++ available unused) < length (stream_buffer (service L) ++ downlink L))%nat as Hlen.
  { rewrite app_nil_r in E. rewrite E, (lk_down _ _ _ _ Hk), Ed.
    change (noisy ((l, m) :: ds)) with ((l ++ wire m) ++ noisy ds). rewrite !length_app, length_wire. lia. }
  destruct (linked_response_step reads [] Pending L h g x Hn ltac:(by rewrite app_nil_r) ltac:(done) Hk)
    as (o & un & s' & Er & _).
  assert (un = unused /\ o = None /\ request_task s' = request_task (service L) /\ stream_buffer s' = b /\
    (length (in_hand s') <= 1)%nat) as (-> & -> & Ert & Eb & Hh).
  { unfold radio_response_task in Er. rewrite Et in Er. cbn [env_reads] in Er. rewrite Ep in Er.
    cbn [mbind result_bind unwrap set_stream_buffer responsemap] in Er. rewrite Em in Er. cbn [mbind result_bind] in Er.
    destruct out as [[resp held]|]; injection Er as <- <- <-; split_and!; try done; unfold in_hand; cbn;
      rewrite ?Et; cbn; lia. }
  eexists. split; [split; [eapply (step_responses reads [] Pending); [done|done|by rewrite app_nil_r|done|exact Er]|]|].
  - cbn. unfold quit in *. rewrite Ert. split; [done|]. split; [done|by left].
  - right. unfold outstanding, unprocessed. cbn [fst snd service downlink taken received replies].
    rewrite Ert, Eb, app_nil_r. split; [lia|]. lia.
Qed.

Lemma drain_reply L h g x :
  linked L h g x -> queued x <> [] -> quit (service L) = false ->
  exists c', drain_step (L, h) c' /\ closer (L, h) c'.
Proof.
  intros Hk Hd Hq. destruct (linked_counts _ _ _ _ Hk) as (_ & Ht & Hr).
  pose proof (lk_queue _ _ _ _ Hk) as Eq. pose proof (lk_fits _ _ _ _ Hk) as Hall.
  rewrite (lk_issued _ _ _ _ Hk), !Forall_app in Hall. destruct Hall as (_ & _ & Hall & _).
  destruct (queued x) as [|y ys]; [done|]. apply Forall_cons in Hall as [Hy _]. cbn [length] in Hr.
  eexists. split; [split; [eapply (step_reply [] (asked_message y) _ (answer_of (asked_message y)) []);
    [exact Eq|constructor|by apply answers_fit, asked_message_fits]|]|].
  - cbn. split; [done|]. split; [done|]. right. eauto.
  - left. unfold outstanding. cbn [fst snd taken received replies service]. rewrite length_app. cbn [length]. lia.
Qed.

Lemma drain_receive L h g x :
  linked L h g x -> flying x <> [] -> unwritten (sink (service L)) = [] -> at_sink (service L) = [] ->
  quit (service L) = false ->
  exists c', drain_step (L, h) c' /\ closer (L, h) c'.
Proof.
  intros Hk Hf Hu Ha Hq. destruct (linked_counts _ _ _ _ Hk) as (Hr & Ht & _).
  pose proof (lk_wire _ _ _ _ Hk) as Hw. rewrite Hu, Ha in Hw.
  cbn [mbind list_bind app] in Hw. rewrite app_nil_r in Hw. pose proof (lk_fits _ _ _ _ Hk) as Hall.
  rewrite (lk_issued _ _ _ _ Hk), !Forall_app in Hall. destruct Hall as (_ & _ & _ & Hall).
  destruct (flying x) as [|y ys]; [done|]. apply Forall_cons in Hall as [Hy _]. cbn [length] in Hr.
  eexists. split; [split; [eapply (step_receive (asked_message y)); [by apply asked_message_fits|exact Hw]|]|].
  - cbn. split; [done|]. split; [done|by left].
  - left. unfold outstanding. cbn [fst snd taken received replies service]. rewrite length_app. cbn [length]. lia.
Qed.

Lemma drain_task L h g x :
  linked L h g x -> quit (service L) = false -> lock_held (service L) = false ->
  match request_task (service L) with
  | NextRequest => False
  | LockForRequest _ _ _ => responsemap (service L) = ∅
  | _ => True
  end ->
  exists c', drain_step (L, h) c' /\ closer (L, h) c'.
Proof.
  intros Hk Hq Hl Ht. pose proof (lk_written _ _ _ _ Hk) as Hw.
  destruct (poll_ready_accepts _ Hw) as (ev & k & Ep).
  assert (forall s', radio_request_task (eager_env (service L)) (service L) = Ok s' -> quit s' = false ->
    (stage (request_task s') < stage (request_task (service L)))%nat ->
    exists c', drain_step (L, h) c' /\ closer (L, h) c') as Hgo.
  { intros s' E Hq' Hs. apply (drain_request L h s'); try done. by destruct (request_task (service L)). }
  unfold quit in Hq. destruct (request_task (service L)) as [|c d p|m| |] eqn:Et; [done| | | |done].
  - eapply Hgo.
    + unfold radio_request_task. rewrite Et, Hl, Ht. cbn. reflexivity.
    + done.
    + cbn. lia.
  - pose proof (lk_at_sink _ _ _ _ Hk) as Ha. unfold at_sink in Ha. rewrite Et in Ha.
    destruct (linked_start_send m k L h g x Hk Et) as (k' & Es & _).
    { destruct (poll_ready_follows _ _ (proj1 (proj2 (eager_env_ok (service L)))) Hw) as (r' & ev' & k1 & E & Hf & _).
      cbn [eager_env env_writes] in E. rewrite Ep in E. by injection E as _ _ <-. }
    eapply Hgo.
    + unfold radio_request_task. rewrite Et. cbn [eager_env env_writes]. rewrite Ep, Es. reflexivity.
    + done.
    + cbn. lia.
  - eapply Hgo.
    + unfold radio_request_task, poll_flush. rewrite Et. cbn [eager_env env_writes env_flush]. rewrite Ep. reflexivity.
    + done.
    + cbn. lia.
Qed.

(** There is always a step to take, until nothing is on its way. *)
Lemma drain_progress L h :
  is_linked (L, h) -> quit (service L) = false ->
  drained L \/ exists c', drain_step (L, h) c' /\ closer (L, h) c'.
Proof.
  intros (g & x & Hk) Hq. cbn [fst snd] in Hk.
  destruct (response_task (service L)) as [|r held] eqn:Er; [|right; by eapply drain_send].
  destruct (decide (down x = [])) as [Hd|]; [|right; by eapply drain_read].
  destruct (decide (queued x = [])) as [Hx|]; [|right; by eapply drain_reply].
  assert (lock_held (service L) = false) as Hl by (unfold lock_held; by rewrite Er).
  assert (forall P : Prop, (match request_task (service L) with SinkReady _ | SinkFlush => False | _ => True end -> P) ->
    (match request_task (service L) with SinkReady _ | SinkFlush => True | _ => False end \/ P)) as Hcase.
  { intros P HP. destruct (request_task (service L)); auto. }
  destruct (Hcase (unwritten (sink (service L)) = [] /\ at_sink (service L) = [])) as [Ht|[Hu Ha]].
  { pose proof (lk_flushed _ _ _ _ Hk) as Hf. unfold at_sink. by destruct (request_task (service L)). }
  { right. eapply drain_task; try done. by destruct (request_task (service L)). }
  destruct (decide (flying x = [])) as [Hf|]; [|right; by eapply drain_receive].
  assert (responsemap (service L) = ∅) as Hm.
  { pose proof (lk_returning _ _ _ _ Hk) as Hr. pose proof (lk_outstanding _ _ _ _ Hk) as Ho. rewrite Hd in Hr.
    assert (returning x = []) as Hrx by (by destruct (returning x)). rewrite Hrx, Hx, Hf in Ho.
    symmetry in Ho. apply Permutation_nil_r, map_to_list_empty_iff in Ho as ->.
    by rewrite (lk_map _ _ _ _ Hk), fmap_empty. }
  destruct (decide (stage (request_task (service L)) = 0%nat)) as [Hs|Hs].
  2: { right. eapply drain_task; try done. by destruct (request_task (service L)). }
  left. pose proof (lk_wire _ _ _ _ Hk) as Hw. rewrite Hu, Ha, Hf in Hw. cbn in Hw. rewrite app_nil_r in Hw.
  pose proof (lk_queue _ _ _ _ Hk) as Hqq. rewrite Hx in Hqq.
  pose proof (lk_down _ _ _ _ Hk) as Hb. rewrite Hd in Hb. pose proof (lk_tail _ _ _ _ Hk) as Htail.
  unfold drained. rewrite Hb. unfold quit in Hq. by destruct (request_task (service L)).
Qed.

Lemma drain_step_linked c c' : is_linked c -> drain_step c c' -> is_linked c'.
Proof. intros Hc [Hs _]. by eapply linked_step. Qed.

Lemma drains c :
  is_linked c -> quit (service (fst c)) = false -> exists c', rtc drain_step c c' /\ drained (fst c').
Proof.
  remember (outstanding c) as a eqn:Ea. revert c Ea. induction a as [a IHa] using lt_wf_ind. intros c Ea.
  remember (unprocessed c) as b eqn:Eb. revert c Ea Eb. induction b as [b IHb] using lt_wf_ind. intros c Ea Eb Hc Hq.
  destruct c as [L h]. destruct (drain_progress L h Hc Hq) as [Hd|(c' & Hs & Hm)].
  { exists (L, h). split; [done|exact Hd]. }
  pose proof (drain_step_linked _ _ Hc Hs) as Hc'. pose proof (proj1 (proj2 (proj2 Hs))) as Hq'.
  assert (exists c2, rtc drain_step c' c2 /\ drained (fst c2)) as (c2 & Hr & Hd).
  { destruct Hm as [Hlt|[Hle Hlt]]; [by eapply (IHa (outstanding c')); [lia|..]|].
    destruct (decide (outstanding c' < a)%nat) as [?|?]; [by eapply (IHa (outstanding c'))|].
    eapply (IHb (unprocessed c')); [lia|lia|done..]. }
  exists c2. split; [by eapply rtc_l|done].
Qed.

(** C38: Unless the service has quit, what has been requested can always be brought to its end,
    without a further request and whatever the radio answers: there are steps after which
    nothing is on its way and every request that was made has been answered, once, by what its
    own parser makes of the radio's answer to it. *)
Theorem radio_link_drains (L : RadioLink) (h : history) :
  link_reachable (L, h) -> quit (service L) = false ->
  exists L' h' answers, rtc drain_step (L, h) (L', h') /\ drained L' /\ taken h' = taken h /\
    answers.*1.*2 ≡ₚ taken h /\ replies h' = answer_log <$> answers /\
    filter is_answer (handed h') = answer_response <$> answers.
Proof.
  intros Hr Hq. destruct (drains (L, h) (linked_reachable _ Hr) Hq) as ([L' h'] & Hs & Hd). cbn [fst] in Hd.
  assert (is_linked (L', h') /\ taken h' = taken h) as [(g & x & Hk) Ht].
  { pose proof (linked_reachable _ Hr) as Hc. clear Hr Hq Hd. remember (L, h) as c eqn:Ec. remember (L', h') as c' eqn:Ec'.
    revert L h L' h' Ec Ec' Hc. induction Hs as [c|c1 [L2 h2] c3 Hs1 _ IH]; intros L h L' h' -> E Hc;
      [by injection E as <- <-|]. subst.
    destruct (IH L2 h2 L' h' eq_refl eq_refl (drain_step_linked _ _ Hc Hs1)) as [? ->].
    split; [done|]. apply Hs1. }
  cbn [fst snd] in Hk. destruct (linked_drained _ _ _ _ Hk Hd) as (Hw & Hf & Hqq & Hre & _ & Hh & _).
  exists L', h', (delivered x). split; [done|]. split; [done|]. split; [done|].
  rewrite <- Ht, (lk_taken _ _ _ _ Hk), Hw, app_nil_r, (lk_issued _ _ _ _ Hk), Hf, Hqq, Hre, !app_nil_r.
  split; [done|]. pose proof (lk_replies _ _ _ _ Hk) as Hl. pose proof (lk_handed _ _ _ _ Hk) as Hd'.
  rewrite Hre, app_nil_r in Hl. by rewrite Hh, app_nil_r in Hd'.
Qed.
End drains.

(** ** Witnesses

    A parameter is asked for; the radio sends a packet, takes the message in, and answers. *)

Definition example_request : RadioRequest := ReqGetParam example_key Channel TypeU16.
Definition example_packet : RawRadioMessage :=
  {| command_id := CmdOnPacket; request_id := Uint 0; data := [9; 8; 7] |}.
Definition example_reply (m : RawRadioMessage) : reply := MkReply true [0; 0; 0; 11].

Lemma request_env_fits r :
  (forall q, r = Ready (Some q) -> request_fits q) -> request_env_ok (request_env r).
Proof.
  intros Hr. split; [|split]; [by repeat constructor|by intros [?|?%elem_of_nil]%elem_of_cons|exact Hr].
Qed.

Lemma example_reply_fits m : msg_fits m -> msg_fits (reply_message m (example_reply m)).
Proof. intros [Hm _]. split; [exact Hm|]. rewrite length_wire. cbn. pose proof u16_max_Z. lia. Qed.

#[local] Existing Instance Nom_reference.
#[local] Existing Instance CookieFactory_reference.
#[local] Existing Instance Nom_reference_laws.
#[local] Existing Instance CookieFactory_reference_laws.

(** What the radio sends, and the response task's view of it. *)
Definition example_bytes1 : list Z := [1; 2; 3; 0x5A; 0x50; 0x42; 0xC0; 0; 0; 0; 3; 9; 8; 7; 0x5A].
Definition example_bytes2 : list Z := [0x50; 0x42; 0x80; 0; 7; 0; 4; 0; 0; 0; 11].

Lemma example_reads :
  poll_next (stream_fuel [RData example_bytes1]) [RData example_bytes1] [] =
    Ok (Ready (Some example_packet), [], [0x5A]) /\
  poll_next (stream_fuel [RData example_bytes2]) [RData example_bytes2] [0x5A] =
    Ok (Ready (Some (reply_message (raw_message 7 example_request) (example_reply example_packet))), [], []).
Proof. split; vm_compute; reflexivity. Qed.

(** The states on the way *)
Definition example_state (m : response_map) (t : RequestTask) (k : RawRadioSink) : RadioService :=
  {| responsemap := m; request_task := t; sink := k; response_task := NextMessage; stream_buffer := [] |}.
Definition example_map : response_map := <[7 := response_parser example_request]> ∅.
Definition example_bytes : list Z := wire (raw_message 7 example_request).
Definition example_lock : RequestTask :=
  LockForRequest CmdGetValue (to_be_bytes 2 (param_as_u16 Channel)) (response_parser example_request).
Definition example_states : list RadioService :=
  [example_state ∅ example_lock sink_new;
   example_state example_map (SinkReady (raw_message 7 example_request)) sink_new;
   example_state example_map SinkFlush {| sink_buffer := example_bytes; written := 0; written_out := [] |};
   example_state example_map NextRequest {| sink_buffer := []; written := 0; written_out := example_bytes |}].

Lemma example_step i s s' r :
  (service_new :: example_states) !! i = Some s -> example_states !! i = Some s' ->
  (i = 0%nat /\ r = Ready (Some example_request)) \/ (i = 1 \/ i = 2 \/ i = 3)%nat /\ r = Pending ->
  exists t, radio_service (RunRequests (request_env r)) s = Ok (t, s').
Proof.
  intros Hs Hs' Hi. destruct Hi as [[-> ->]|[[->|[->| ->]] ->]];
    injection Hs as <-; injection Hs' as <-; eexists; reflexivity.
Qed.

Lemma example_answered : exists h,
  link_reachable (MkLink (example_state example_map NextRequest
    {| sink_buffer := []; written := 0; written_out := example_bytes |}) (length example_bytes) []
    (example_bytes1 ++ example_bytes2), h) /\ handed h = [].
Proof.
  assert (request_env_ok (request_env Pending)) as Hp by (by apply request_env_fits).
  assert (request_env_ok (request_env (Ready (Some example_request)))) as Hq
    by (apply request_env_fits; by intros q [= <-]).
  destruct (example_step 0 _ _ _ eq_refl eq_refl ltac:(auto)) as [t0 E0].
  destruct (example_step 1 _ _ _ eq_refl eq_refl ltac:(auto)) as [t1 E1].
  destruct (example_step 2 _ _ _ eq_refl eq_refl ltac:(auto)) as [t2 E2].
  destruct (example_step 3 _ _ _ eq_refl eq_refl ltac:(auto)) as [t3 E3].
  eexists. split.
  - unfold link_reachable, start_radio, no_history.
    eapply rtc_l; [exact (step_requests _ _ _ (MkLink _ 0 [] []) _ Hq E0)|].
    eapply rtc_l; [exact (step_requests _ _ _ (MkLink _ 0 [] []) _ Hp E1)|].
    eapply rtc_l; [eapply (step_send example_packet [1; 2; 3]); [by intros [?|?]|by repeat constructor|
      split; [done|rewrite length_wire; cbn; pose proof u16_max_Z; lia]]|].
    eapply rtc_l; [exact (step_requests _ _ _ (MkLink _ 0 [] _) _ Hp E2)|].
    eapply rtc_l; [exact (step_requests _ _ _ (MkLink _ 0 [] _) _ Hp E3)|].
    eapply rtc_l; [eapply (step_receive (raw_message 7 example_request) []);
      [split; [done|rewrite length_wire; cbn; pose proof u16_max_Z; lia]|reflexivity]|].
    eapply rtc_l; [eapply (step_reply [] (raw_message 7 example_request) [] (example_reply example_packet) []);
      [reflexivity|constructor|split; [done|rewrite length_wire; cbn; pose proof u16_max_Z; lia]]|].
    cbn [consumed radio_queue downlink service app]. apply rtc_refl.
  - reflexivity.
Qed.

Lemma example_run_reachable : exists L h, link_reachable (L, h) /\
  handed h = [RespOnPacket {| packet_data := [9]; packet_rssi := 8; packet_link_quality := 7 |};
              RespGetParam example_key Channel (Ok (ValueU16 (Uint 11)))].
Proof.
  destruct example_answered as (h & Hr & Eh). destruct example_reads as [E1 E2].
  do 2 eexists. split.
  - unfold link_reachable in *. etrans; [exact Hr|].
    eapply rtc_l; [eapply (step_responses [RData example_bytes1] example_bytes2 Pending);
      [done|by repeat constructor|reflexivity|done|]|].
    { unfold radio_response_task. cbn [service response_task example_state stream_buffer env_reads].
      rewrite E1. reflexivity. }
    eapply rtc_l; [eapply (step_responses [] example_bytes2 (Ready (Ok tt)));
      [done|by repeat constructor|reflexivity|done|reflexivity]|].
    eapply rtc_l; [eapply (step_responses [RData example_bytes2] [] Pending);
      [done|by repeat constructor|reflexivity|done|]|].
    { unfold radio_response_task. cbn [service response_task set_response_task stream_buffer set_responsemap
        set_stream_buffer env_reads]. rewrite E2. reflexivity. }
    eapply rtc_l; [eapply (step_responses [] [] (Ready (Ok tt)));
      [done|by repeat constructor|reflexivity|done|reflexivity]|].
    apply rtc_refl.
  - cbn [handed]. rewrite Eh. vm_compute. reflexivity.
Qed.

Lemma radio_link_contract_witness :
  exists (L : RadioLink) (h : history), link_reachable (L, h) /\
    handed h = [RespOnPacket {| packet_data := [9]; packet_rssi := 8; packet_link_quality := 7 |};
                RespGetParam example_key Channel (Ok (ValueU16 (Uint 11)))] /\
    exists (waiting : list RadioRequest) (issued flying queued : list asked) (returning delivered : list answered)
      (packets : list RadioPacket),
    taken h = issued.*2 ++ waiting /\ (length waiting <= 1)%nat /\
    received h ++ (asked_message <$> flying) = asked_message <$> issued /\
    radio_queue L = asked_message <$> queued /\
    replies h = answer_log <$> delivered ++ returning /\
    issued ≡ₚ delivered.*1 ++ returning.*1 ++ queued ++ flying /\
    filter is_answer (handed h ++ in_hand (service L)) = answer_response <$> delivered /\
    omap packet_of (sent h) = omap response_packet (handed h ++ in_hand (service L)) ++ packets /\
    (drained L -> waiting = [] /\ flying = [] /\ queued = [] /\ returning = [] /\ packets = [] /\
      in_hand (service L) = [] /\ responsemap (service L) = ∅).
Proof.
  destruct example_run_reachable as (L & h & Hr & Hh).
  exists L, h. split; [exact Hr|]. split; [exact Hh|]. exact (proj1 (radio_link_contract L h Hr)).
Defined.

Lemma radio_link_drains_witness :
  exists L h L' h' answers, taken h = [example_request] /\
    rtc (drain_step example_reply) (L, h) (L', h') /\ drained L' /\ taken h' = taken h /\
    answers.*1.*2 ≡ₚ taken h /\ replies h' = answer_log <$> answers /\
    filter is_answer (handed h') = answer_response <$> answers.
Proof.
  assert (exists L h, link_reachable (L, h) /\ taken h = [example_request] /\ quit (service L) = false)
    as (L & h & Hr & Ht & Hq).
  { do 2 eexists. split.
    - unfold link_reachable, start_radio, no_history.
      eapply rtc_l; [eapply (step_requests (request_env (Ready (Some example_request))));
        [by apply request_env_fits; intros q [= <-]|reflexivity]|].
      apply rtc_refl.
    - by split. }
  exists L, h. destruct (radio_link_drains example_reply example_reply_fits L h Hr Hq) as (L' & h' & answers & Hd).
  exists L', h', answers. split; [exact Ht|exact Hd].
Defined.
