(* ===== verification/Management.v ===== *)
(** * The management service ([mac/management.rs])

    MLME requests and responses, the commands of the devices that concern
    management, beacons to be sent, and the parameters of the radio that follow the
    PIB: each with the value last asked for, whether that has changed since it was
    last sent ([dirty]) and the key of the update that is under way ([updating]).

    Shown in [ManagementTheory.v]: over every interleaving of requests, frames, polls and
    the radio's answers, resets included, an idle radio has the parameters the PIB
    asks for; they settle; and what the handlers do on every branch. *)

From Stdlib Require Import ZArith Lia.
From S2P Require Import RadioRaw Radio.
From S2P Require Import Prelude Pack Frame Async Pib Services DeviceQueue BiMap DataService.

#[local] Open Scope Z_scope.

#[export] Instance RawRadioParam_countable : Countable RawRadioParam.
Proof.
  refine (inj_countable' (fun p => Z.to_N (param_as_u16 p))
    (fun n => nth (N.to_nat n)
       [PowerMode; Channel; RadioRaw.PanId; RadioRaw.ShortAddress; RxMode; TxMode; TxPower;
        CcaThreshold; Rssi; LastRssi; LastLinkQuality; LongAddress; LastPacketTimestamp; ChannelMin;
        ChannelMax; TxPowerMin; TxPowerMax] PowerMode) _).
  by intros [].
Defined.

Module MGMT.

Inductive ManagementServiceAction :=
| SetParam (key : UniqueKey) (param : Radio.RadioParam) (value : Radio.RadioParamValue)
| SendFrame (f : Frame).

Record RadioParamInfo := {
  requested_value : Radio.RadioParamValue;
  updating : option UniqueKey;
  dirty : bool;
}.

Record ManagementService := {
  outgoing : list Frame;
  waker : WakerStore;
  radio_params : gmap RawRadioParam RadioParamInfo;
}.

Definition set_outgoing (fs : list Frame) (s : ManagementService) : ManagementService :=
  {| outgoing := fs; waker := waker s; radio_params := radio_params s |}.
Definition set_waker (w : WakerStore) (s : ManagementService) : ManagementService :=
  {| outgoing := outgoing s; waker := w; radio_params := radio_params s |}.
Definition set_radio_params (m : gmap RawRadioParam RadioParamInfo) (s : ManagementService) :
    ManagementService :=
  {| outgoing := outgoing s; waker := waker s; radio_params := m |}.
Definition wake (s : ManagementService) : ManagementService := set_waker (ws_wake (waker s)) s.

Definition update_radio_parameter (parameter : Radio.RadioParam) (value : Radio.RadioParamValue)
    (s : ManagementService) : ManagementService :=
  match radio_params s !! parameter with
  | Some current =>
      if decide (requested_value current <> value) then
        wake (set_radio_params
          (<[parameter := {| requested_value := value; updating := updating current; dirty := true |}]>
             (radio_params s)) s)
      else s
  | None =>
      wake (set_radio_params
        (<[parameter := {| requested_value := value; updating := None; dirty := true |}]>
           (radio_params s)) s)
  end.

(** The mode the MAC wants the radio to receive in. *)
Definition mac_rx_mode : Radio.RadioRxMode :=
  {| Radio.address_filter := true; Radio.autoack := true; Radio.poll_mode := false |}.

Definition update_radio_parameters (p : PIB) (s : ManagementService) : ManagementService :=
  let s := update_radio_parameter Channel (Radio.ValueU16 (phy_current_channel p)) s in
  let s := update_radio_parameter RadioRaw.PanId (Radio.ValueU16 (Uint (panid (mac_pan_id p)))) s in
  let s := update_radio_parameter RadioRaw.ShortAddress
             (Radio.ValueU16 (Uint (short_address (mac_short_address p)))) s in
  let s := update_radio_parameter RxMode (Radio.rx_mode_into mac_rx_mode) s in
  update_radio_parameter TxPower (Radio.ValueU16 (phy_tx_power p)) s.

Definition new (p : PIB) : ManagementService :=
  update_radio_parameters p {| outgoing := []; waker := ws_new; radio_params := ∅ |}.

(** ** Polling *)

Fixpoint poll_params (key : UniqueKey) (ps : list RawRadioParam)
    (m : gmap RawRadioParam RadioParamInfo) :
    Poll ManagementServiceAction * gmap RawRadioParam RadioParamInfo :=
  match ps with
  | [] => (Pending, m)
  | param :: ps =>
      match m !! param with
      | Some info =>
          if dirty info && bool_decide (updating info = None) then
            (Ready (SetParam key param (requested_value info)),
             <[param := {| requested_value := requested_value info; updating := Some key;
                           dirty := false |}]> m)
          else poll_params key ps m
      | None => poll_params key ps m
      end
  end.

Definition params (s : ManagementService) : list RawRadioParam := elements (dom (radio_params s)).

Definition poll_radio_param_update (ord : IterOrder RawRadioParam) (cx : Context)
    (s : ManagementService) : Poll ManagementServiceAction * ManagementService :=
  let '(r, m) := poll_params (cx_key cx) (ord 0%nat (params s)) (radio_params s) in
  (r, set_radio_params m s).

Definition poll_action (ord : IterOrder RawRadioParam) (cx : Context) (s : ManagementService) :
    Poll ManagementServiceAction * ManagementService :=
  match poll_radio_param_update ord cx s with
  | (Ready action, s) => (Ready action, s)
  | (Pending, s) =>
      match outgoing s with
      | frame :: rest => (Ready (SendFrame frame), set_outgoing rest s)
      | [] => let '(r, w) := ws_pend (cx_waker cx) (waker s) in (r, set_waker w s)
      end
  end.

(** [process_set_param_result]: what becomes of one parameter, and whether anyone has
    to be woken for it. *)
Definition param_result (key : UniqueKey) (result : bool) (info : RadioParamInfo) : RadioParamInfo :=
  if decide (updating info = Some key) then
    {| requested_value := requested_value info; updating := None;
       dirty := if result then dirty info else true |}
  else info.
Definition param_result_wakes (key : UniqueKey) (result : bool) (info : RadioParamInfo) : bool :=
  bool_decide (updating info = Some key) && dirty (param_result key result info).

Definition process_set_param_result (key : UniqueKey) (result : bool) (s : ManagementService) :
    ManagementService :=
  let should_wake :=
    existsb (fun pi => param_result_wakes key result (snd pi)) (map_to_list (radio_params s)) in
  let s := set_radio_params (param_result key result <$> radio_params s) s in
  if should_wake then wake s else s.

(** ** MLME requests *)

Definition process_mlme_beacon_request (p : PIB) (request : mlme.BeaconRequest)
    (s : ManagementService) : result Error unit * PIB * ManagementService :=
  if negb (Nat.eqb (mlme.beacon_superframe_order request) 15)
     || negb (bool_decide (mlme.channel request = phy_current_channel p))
     || negb (uint_val (mlme.channel_page request) =? 0)
  then (Err InvalidParameter, p, s)
  else
    let beacon := {|
      beacon_order := 15;
      superframe_order := Z.of_nat (mlme.beacon_superframe_order request);
      final_cap_slot := 15;
      battery_life_extension := false;
      pan_coordinator :=
        bool_decide (mac_associated_pan_coord p = Some (mac_extended_address p, mac_short_address p));
      association_permit := mac_association_permit p;
      beacon_payload := MkPayload (mac_beacon_payload p);
    |} in
    let '(sequence_nr, p) := next_beacon_sequence_nr p in
    let frame := {|
      frame_pending := false;
      acknowledge_request := false;
      sequence_number := Some (uint_val sequence_nr);
      destination := None;
      source := Some (get_full_short_address p);
      frame_type := FTBeacon beacon;
    |} in
    (Ok tt, p, set_outgoing (outgoing s ++ [frame]) s).

Section management.
Context {M : Type} `{!BiMap mcps.MsduHandle UniqueKey M}.

(** [process_mlme_reset_request], given the sequence numbers [PIB::reset] would draw. *)
Definition process_mlme_reset_request (random_bsn random_dsn : u8) (p : PIB)
    (request : mlme.ResetRequest) : result Error unit * PIB * ManagementService * DS.DataService M :=
  let p := if mlme.set_default_pib request then PIB_reset random_bsn random_dsn p else p in
  (Ok tt, p, new p, DS.new).

Definition process_mlme_get_request (p : PIB) (request : mlme.GetRequest) : result Error PIBValue :=
  map_err (fun _ => UnsupportedAttribute) (PIB_get p (mlme.get_attribute request)).

Definition process_mlme_set_request (p : PIB) (request : mlme.SetRequest) (s : ManagementService) :
    result Error unit * PIB * ManagementService :=
  let '(res, p) := PIB_set (mlme.set_attribute request) (mlme.set_value request) p in
  (res, p, update_radio_parameters p s).

Definition process_mlme_start_request (p : PIB) (request : mlme.StartRequest) (s : ManagementService) :
    result Error unit * PIB * ManagementService :=
  if decide (mac_short_address p = ShortAddr 0xFFFF) then (Err NoShortAddress, p, s)
  else if negb (uint_val (mlme.start_channel_page request) =? 0)
          || negb (uint_val (mlme.start_time request) =? 0)
          || negb (uint_val (mlme.beacon_order request) =? 15)
          || negb (uint_val (mlme.superframe_order request) =? 15)
          || negb (mlme.pan_coordinator request)
          || mlme.battery_life_extension request
  then (Err InvalidParameter, p, s)
  else
    let p := set_phy_current_channel (mlme.channel_number request) p in
    let p := set_mac_pan_id (mlme.start_pan_id request) p in
    let p := if mlme.pan_coordinator request
             then set_mac_associated_pan_coord (Some (mac_extended_address p, mac_short_address p)) p
             else p in
    (Ok tt, p, update_radio_parameters p s).

Definition process_mlme_request (random_bsn random_dsn : u8) (p : PIB) (d : DS.DataService M)
    (request : mlme.Request) (s : ManagementService) :
    option mlme.Confirm * PIB * DS.DataService M * ManagementService :=
  match request with
  | mlme.ReqBeacon request =>
      let '(r, p, s) := process_mlme_beacon_request p request s in
      (Some (mlme.ConfBeacon r), p, d, s)
  | mlme.ReqReset request =>
      let '(r, p, s, d) := process_mlme_reset_request random_bsn random_dsn p request in
      (Some (mlme.ConfReset r), p, d, s)
  | mlme.ReqStart request =>
      let '(r, p, s) := process_mlme_start_request p request s in
      (Some (mlme.ConfStart r), p, d, s)
  | mlme.ReqGet request =>
      (Some (mlme.ConfGet (mlme.get_attribute request) (process_mlme_get_request p request)), p, d, s)
  | mlme.ReqSet request =>
      let '(r, p, s) := process_mlme_set_request p request s in
      (Some (mlme.ConfSet (mlme.set_attribute request) r), p, d, s)
  end.

(** ** MLME responses *)

(** [process_mlme_associate_response], given the unique key and the timer of the queue. *)
Definition process_mlme_associate_response (key : UniqueKey) (timer : N) (p : PIB)
    (device_address : ExtendedAddress) (fast_association : bool)
    (status : result AssociationError (option ShortAddress)) (d : DS.DataService M) :
    DS.DataService M :=
  let status := default ShortAddress_none_assigned <$> status in
  let command := AssociationResponseCommand
    {| ar_fast_association := fast_association; ar_status := status |} in
  let entry := {|
    dr_key := key;
    dr_destination := Some (FullAddr (mac_pan_id p) (AddrExtended device_address));
    dr_source_mode := AM_Extended;
    dr_acknowledge_request := true;
    dr_indirect := negb fast_association;
    dr_content := FTCommand command;
  |} in
  DS.insert p timer entry d.

Definition process_mlme_response (key : UniqueKey) (timer : N) (p : PIB) (response : mlme.Response)
    (d : DS.DataService M) : DS.DataService M :=
  match response with
  | mlme.RespAssociate device_address fast_association status =>
      process_mlme_associate_response key timer p device_address fast_association status d
  end.
End management.

(** ** Frames *)

Definition process_frame_beacon_request (p : PIB) (f : Frame) (s : ManagementService) :
    option mlme.Indication * PIB * ManagementService :=
  if mac_beacon_auto_respond p then
    let request := {|
      mlme.beacon_type := mlme.BTBeacon;
      mlme.channel := phy_current_channel p;
      mlme.channel_page := Uint 0;
      mlme.beacon_superframe_order := 15;
      mlme.dst_addr := source f;
    |} in
    let '(_, p, s) := process_mlme_beacon_request p request s in
    (None, p, s)
  else
    (Some (mlme.IndBeaconRequest mlme.BTBeacon (source f)
       (from_option pan_id PANID_broadcast (destination f))), p, s).

Definition process_frame_association_request (p : PIB) (f : Frame)
    (capability_information : CapabilityInformation) : option mlme.Indication :=
  if negb (mac_association_permit p) then None
  else if decide (destination f <> Some (get_full_short_address p)) then None
  else
    match source f with
    | Some (FullAddr _ (AddrExtended device_address)) =>
        Some (mlme.IndAssociate device_address capability_information)
    | _ => None
    end.

Definition process_frame (p : PIB) (f : Frame) (s : ManagementService) :
    option mlme.Indication * PIB * ManagementService :=
  match frame_type f with
  | FTCommand BeaconRequest => process_frame_beacon_request p f s
  | FTCommand (AssociationRequest req) => (process_frame_association_request p f req, p, s)
  | _ => (None, p, s)
  end.

End MGMT.
