(* ===== verification/ManagementTheory.v ===== *)
(** * Theory of the management service

    The radio's parameters against the PIB, and what the handlers do. *)

From Stdlib Require Import ZArith Lia.
From S2P Require Import RadioRaw Radio.
From S2P Require Import Prelude Pack BitField Frame FrameTheory Async Pib Services.
From S2P Require Import DeviceQueue DeviceQueueTheory BiMap DataService DataServiceTheory Management.

#[local] Open Scope Z_scope.

Import MGMT.

(** ** What the service asks for *)

(** The parameters the PIB asks for. *)
Definition pib_param (p : PIB) (q : RawRadioParam) : option Radio.RadioParamValue :=
  match q with
  | Channel => Some (Radio.ValueU16 (phy_current_channel p))
  | RadioRaw.PanId => Some (Radio.ValueU16 (Uint (panid (mac_pan_id p))))
  | RadioRaw.ShortAddress => Some (Radio.ValueU16 (Uint (short_address (mac_short_address p))))
  | RxMode => Some (Radio.rx_mode_into mac_rx_mode)
  | TxPower => Some (Radio.ValueU16 (phy_tx_power p))
  | _ => None
  end.

Definition requested (s : ManagementService) (q : RawRadioParam) : option Radio.RadioParamValue :=
  requested_value <$> radio_params s !! q.

Definition follows (p : PIB) (s : ManagementService) : Prop := forall q, requested s q = pib_param p q.

Lemma requested_update q v s q' :
  requested (update_radio_parameter q v s) q' = if decide (q' = q) then Some v else requested s q'.
Proof.
  unfold requested, update_radio_parameter.
  destruct (radio_params s !! q) as [info|] eqn:E.
  - destruct (decide (requested_value info <> v)) as [Hv|Hv]; cbn.
    + destruct (decide (q' = q)) as [->|Hn]; [by rewrite lookup_insert_eq|by rewrite lookup_insert_ne].
    + destruct (decide (q' = q)) as [->|Hn]; [|done]. rewrite E. cbn. f_equal.
      by destruct (decide (requested_value info = v)).
  - cbn. destruct (decide (q' = q)) as [->|Hn]; [by rewrite lookup_insert_eq|by rewrite lookup_insert_ne].
Qed.

Lemma requested_updates p s q :
  requested (update_radio_parameters p s) q =
    match pib_param p q with Some v => Some v | None => requested s q end.
Proof. unfold update_radio_parameters. cbv zeta. rewrite !requested_update. by destruct q. Qed.

Lemma updates_follow p p' s : follows p s -> follows p' (update_radio_parameters p' s).
Proof.
  intros Hf q. rewrite requested_updates. specialize (Hf q). destruct (pib_param p' q) eqn:E; [done|].
  rewrite Hf. by destruct q.
Qed.

Lemma new_follows p : follows p (new p).
Proof.
  intros q. unfold new. rewrite requested_updates. destruct (pib_param p q) eqn:E; [done|].
  unfold requested. cbn. done.
Qed.

Lemma update_outgoing q v s : outgoing (update_radio_parameter q v s) = outgoing s.
Proof. unfold update_radio_parameter. repeat case_match; done. Qed.

Lemma updates_outgoing p s : outgoing (update_radio_parameters p s) = outgoing s.
Proof. unfold update_radio_parameters. by rewrite !update_outgoing. Qed.

(** ** Changes that only make parameters dirty *)

Definition only_dirtied (m m' : gmap RawRadioParam RadioParamInfo) : Prop :=
  forall q info', m' !! q = Some info' ->
    m !! q = Some info' \/
    dirty info' = true /\
    (updating info' = None \/ exists info, m !! q = Some info /\ updating info = updating info').

#[export] Instance only_dirtied_preorder : PreOrder only_dirtied.
Proof.
  split; [by intros m q info; left|]. intros a b c Hab Hbc q info Hc.
  destruct (Hbc q info Hc) as [Hb|(Hd & [Hu|(info1 & Hb & Hu)])]; [by apply Hab|right; auto|].
  right. split; [done|]. destruct (Hab q info1 Hb) as [Ha|(_ & [Hn|(info2 & Ha & Hu2)])].
  - right. eauto.
  - left. congruence.
  - right. exists info2. split; [done|congruence].
Qed.

Lemma only_dirtied_insert m q info :
  dirty info = true ->
  (updating info = None \/ exists info0, m !! q = Some info0 /\ updating info0 = updating info) ->
  only_dirtied m (<[q := info]> m).
Proof.
  intros Hd Hu q' info' Hl. destruct (decide (q = q')) as [->|Hn].
  - rewrite lookup_insert_eq in Hl. injection Hl as <-. by right.
  - rewrite lookup_insert_ne in Hl by done. by left.
Qed.

Lemma update_only_dirties q v s :
  only_dirtied (radio_params s) (radio_params (update_radio_parameter q v s)).
Proof.
  unfold update_radio_parameter. destruct (radio_params s !! q) as [info|] eqn:E.
  - case_decide; [|reflexivity]. apply only_dirtied_insert; [done|]. right. by exists info.
  - apply only_dirtied_insert; [done|]. by left.
Qed.

Lemma updates_only_dirty p s :
  only_dirtied (radio_params s) (radio_params (update_radio_parameters p s)).
Proof. unfold update_radio_parameters. cbv zeta. by do 5 (etrans; [|apply update_only_dirties]). Qed.

Lemma new_only_dirties m p : only_dirtied m (radio_params (new p)).
Proof.
  intros q info Hq. destruct (updates_only_dirty p
    {| outgoing := []; waker := ws_new; radio_params := ∅ |} q info Hq) as [He|(Hd & [Hu|(i & He & _)])];
    [done|right; auto|done].
Qed.

(** ** Polling the parameters *)

Definition due (info : RadioParamInfo) : bool := dirty info && bool_decide (updating info = None).

Lemma poll_params_cases key ps m :
  (exists q info, q ∈ ps /\ m !! q = Some info /\ dirty info = true /\ updating info = None /\
     poll_params key ps m = (Ready (SetParam key q (requested_value info)),
       <[q := {| requested_value := requested_value info; updating := Some key; dirty := false |}]> m)) \/
  (poll_params key ps m = (Pending, m) /\
   forall q info, q ∈ ps -> m !! q = Some info -> due info = false).
Proof.
  induction ps as [|q ps IH]; cbn [poll_params].
  - right. split; [done|]. by intros ? ? ?%not_elem_of_nil.
  - assert ((exists info, m !! q = Some info /\ due info = true) \/
      (forall info, m !! q = Some info -> due info = false)) as [(info & Hq & Hd)|Hn].
    { destruct (m !! q) as [info|]; [|by right]. destruct (due info) eqn:E; [left; eauto|].
      right. by intros ? [= <-]. }
    + rewrite Hq. unfold due in Hd. rewrite Hd. apply andb_true_iff in Hd as [? ?%bool_decide_eq_true].
      left. exists q, info. split; [by left|done].
    + assert (match m !! q with
        | Some info =>
            if dirty info && bool_decide (updating info = None) then
              (Ready (SetParam key q (requested_value info)),
               <[q := {| requested_value := requested_value info; updating := Some key; dirty := false |}]> m)
            else poll_params key ps m
        | None => poll_params key ps m
        end = poll_params key ps m) as ->.
      { destruct (m !! q) as [info|]; [|done]. specialize (Hn info eq_refl). unfold due in Hn. by rewrite Hn. }
      destruct IH as [(q' & info & Hin & Hr)|[-> Hall]].
      * left. exists q', info. split; [by right|done].
      * right. split; [done|]. intros q' info [->|Hin]%elem_of_cons Hl; [by apply Hn|by eapply Hall].
Qed.

(** Parameters to be set by the answer of a poll. *)
Definition sent (r : Poll ManagementServiceAction) : list (UniqueKey * RawRadioParam * Radio.RadioParamValue) :=
  match r with Ready (SetParam k q v) => [(k, q, v)] | _ => [] end.

Lemma poll_action_cases ord cx s r s' :
  poll_action ord cx s = (r, s') ->
  (exists q info, radio_params s !! q = Some info /\ dirty info = true /\ updating info = None /\
     r = Ready (SetParam (cx_key cx) q (requested_value info)) /\ outgoing s' = outgoing s /\
     radio_params s' = <[q := {| requested_value := requested_value info;
       updating := Some (cx_key cx); dirty := false |}]> (radio_params s)) \/
  (sent r = [] /\ radio_params s' = radio_params s /\
   (forall q info, radio_params s !! q = Some info -> due info = false) /\
   match outgoing s with
   | f :: fs => r = Ready (SendFrame f) /\ outgoing s' = fs
   | [] => r = Pending /\ outgoing s' = []
   end).
Proof.
  unfold poll_action, poll_radio_param_update.
  destruct (poll_params_cases (cx_key cx) (ord 0%nat (params s)) (radio_params s))
    as [(q & info & _ & Hq & Hd & Hu & ->)|[-> Hall]].
  - intros [= <- <-]. left. exists q, info. done.
  - assert (forall q info, radio_params s !! q = Some info -> due info = false) as Hn.
    { intros q info Hq. apply (Hall q); [|done]. rewrite (iter_order_perm _ ord).
      unfold params. apply elem_of_elements. by eapply elem_of_dom_2. }
    intros E. right. cbn [set_radio_params outgoing] in E.
    destruct (outgoing s) as [|f fs] eqn:Eo; cbn in E; injection E as <- <-; cbn; by rewrite ?Eo.
Qed.

(** ** The handlers keep following the PIB *)

(** What every operation but a poll and a report does to the parameters. *)
Definition keeps (p p' : PIB) (s s' : ManagementService) : Prop :=
  (follows p s -> follows p' s') /\ only_dirtied (radio_params s) (radio_params s').

Lemma keeps_refl p s : keeps p p s s.
Proof. by split. Qed.

Lemma keeps_updates p p' s : keeps p p' s (update_radio_parameters p' s).
Proof. split; [apply updates_follow|apply updates_only_dirty]. Qed.

(** Changes to the PIB that no parameter depends on. *)
Lemma keeps_outgoing p p' s fs :
  (forall q, pib_param p' q = pib_param p q) -> keeps p p' s (set_outgoing fs s).
Proof. intros Hp. split; [|reflexivity]. intros Hf q. rewrite Hp. apply Hf. Qed.

Lemma pib_param_next_bsn p q : pib_param (snd (next_beacon_sequence_nr p)) q = pib_param p q.
Proof. by destruct p, q. Qed.
Lemma pib_param_next_dsn p q : pib_param (snd (next_data_sequence_nr p)) q = pib_param p q.
Proof. by destruct p, q. Qed.

Lemma beacon_request_keeps p r s :
  let '(_, p', s') := process_mlme_beacon_request p r s in keeps p p' s s'.
Proof.
  unfold process_mlme_beacon_request. destruct (_ || _); [apply keeps_refl|].
  destruct (next_beacon_sequence_nr p) as [sq p'] eqn:E. apply keeps_outgoing. intros q.
  rewrite <- (pib_param_next_bsn p). by rewrite E.
Qed.

Lemma process_frame_keeps p f s :
  let '(_, p', s') := process_frame p f s in keeps p p' s s'.
Proof.
  unfold process_frame, process_frame_beacon_request.
  destruct (frame_type f) as [| | |[| | |]| | | |]; try apply keeps_refl.
  destruct (mac_beacon_auto_respond p); [|apply keeps_refl].
  match goal with |- context [process_mlme_beacon_request p ?r s] =>
    pose proof (beacon_request_keeps p r s) as Hk; destruct (process_mlme_beacon_request p r s) as [[? ?] ?] end.
  exact Hk.
Qed.

Section system.
Context {M : Type} `{!BiMap mcps.MsduHandle UniqueKey M}.

Lemma mlme_request_keeps bsn dsn p (d : DS.DataService M) r s :
  let '(_, p', _, s') := process_mlme_request bsn dsn p d r s in keeps p p' s s'.
Proof.
  destruct r as [r|r|r|r|r]; cbn [process_mlme_request].
  - cbn. split; [intros _; apply new_follows|apply new_only_dirties].
  - unfold process_mlme_start_request. case_decide; [apply keeps_refl|].
    destruct (_ || _); [apply keeps_refl|]. apply keeps_updates.
  - pose proof (beacon_request_keeps p r s) as Hk.
    by destruct (process_mlme_beacon_request p r s) as [[? ?] ?].
  - apply keeps_refl.
  - unfold process_mlme_set_request. destruct (PIB_set _ _ p) as [res p']. apply keeps_updates.
Qed.

(** ** The service, the radio, and what is between them

    The radio takes the requests in the order they are sent and answers in that
    order; it may refuse any of them. *)
Record system := {
  pib : PIB;
  service : ManagementService;
  in_flight : list (UniqueKey * RawRadioParam * Radio.RadioParamValue);
  results : list (UniqueKey * bool);
  radio : gmap RawRadioParam Radio.RadioParamValue;
}.

Definition flight_keys (y : system) : list UniqueKey := (in_flight y).*1.*1 ++ (results y).*1.

Inductive step : system -> system -> Prop :=
| step_request bsn dsn (d d' : DS.DataService M) r c p p' s s' fl rs rd :
    process_mlme_request bsn dsn p d r s = (c, p', d', s') ->
    step {| pib := p; service := s; in_flight := fl; results := rs; radio := rd |}
         {| pib := p'; service := s'; in_flight := fl; results := rs; radio := rd |}
| step_frame f i p p' s s' fl rs rd :
    process_frame p f s = (i, p', s') ->
    step {| pib := p; service := s; in_flight := fl; results := rs; radio := rd |}
         {| pib := p'; service := s'; in_flight := fl; results := rs; radio := rd |}
| step_data_frame p s fl rs rd :
    step {| pib := p; service := s; in_flight := fl; results := rs; radio := rd |}
         {| pib := snd (next_data_sequence_nr p); service := s; in_flight := fl; results := rs; radio := rd |}
| step_poll ord cx r p s s' fl rs rd :
    poll_action ord cx s = (r, s') -> cx_key cx ∉ fl.*1.*1 ++ rs.*1 ->
    step {| pib := p; service := s; in_flight := fl; results := rs; radio := rd |}
         {| pib := p; service := s'; in_flight := fl ++ sent r; results := rs; radio := rd |}
| step_apply k q v p s fl rs rd :
    step {| pib := p; service := s; in_flight := (k, q, v) :: fl; results := rs; radio := rd |}
         {| pib := p; service := s; in_flight := fl; results := rs ++ [(k, true)]; radio := <[q := v]> rd |}
| step_refuse k q v p s fl rs rd :
    step {| pib := p; service := s; in_flight := (k, q, v) :: fl; results := rs; radio := rd |}
         {| pib := p; service := s; in_flight := fl; results := rs ++ [(k, false)]; radio := rd |}
| step_report k b p s fl rs rd :
    step {| pib := p; service := s; in_flight := fl; results := (k, b) :: rs; radio := rd |}
         {| pib := p; service := process_set_param_result k b s; in_flight := fl; results := rs; radio := rd |}.

Definition reachable (y : system) : Prop :=
  exists p rd, rtc step {| pib := p; service := new p; in_flight := []; results := []; radio := rd |} y.

(** The last value on its way to a parameter. *)
Fixpoint last_value (q : RawRadioParam) (l : list (UniqueKey * RawRadioParam * Radio.RadioParamValue)) :
    option (UniqueKey * Radio.RadioParamValue) :=
  match l with
  | [] => None
  | (k, q', v) :: l =>
      match last_value q l with
      | Some x => Some x
      | None => if decide (q' = q) then Some (k, v) else None
      end
  end.

Lemma last_value_snoc q l k q' v :
  last_value q (l ++ [(k, q', v)]) = if decide (q' = q) then Some (k, v) else last_value q l.
Proof.
  induction l as [|[[k0 q0] v0] l IH]; [by cbn; case_decide|]. cbn [app last_value]. rewrite IH.
  by destruct (decide (q' = q)).
Qed.

Lemma last_value_key q l k v : last_value q l = Some (k, v) -> k ∈ l.*1.*1.
Proof.
  induction l as [|[[k0 q0] v0] l IH]; [done|]. cbn [last_value]. rewrite !fmap_cons. cbn [fst].
  destruct (last_value q l) as [x|]; [intros [= ->]; right; by apply IH|].
  case_decide; [|done]. intros [= -> ->]. by left.
Qed.

(** Where the value of a parameter that is not dirty is. *)
Definition on_its_way (y : system) (q : RawRadioParam) (info : RadioParamInfo) : Prop :=
  match last_value q (in_flight y) with
  | Some (k, v) => updating info = Some k /\ v = requested_value info
  | None =>
      match updating info with
      | Some k => k ∈ (results y).*1 /\ ((k, true) ∈ results y -> radio y !! q = Some (requested_value info))
      | None => radio y !! q = Some (requested_value info)
      end
  end.

Record tracked (y : system) : Prop := {
  tr_follows : follows (pib y) (service y);
  tr_keys : NoDup (flight_keys y);
  tr_updating q info k : radio_params (service y) !! q = Some info -> updating info = Some k ->
    k ∈ flight_keys y;
  tr_way q info : radio_params (service y) !! q = Some info -> dirty info = false ->
    on_its_way y q info;
}.

Lemma tracked_keeps p p' s s' fl rs rd :
  tracked {| pib := p; service := s; in_flight := fl; results := rs; radio := rd |} ->
  keeps p p' s s' ->
  tracked {| pib := p'; service := s'; in_flight := fl; results := rs; radio := rd |}.
Proof.
  intros [Hf Hn Hu Hw] [Hf' Hd]. split; cbn in *; [by apply Hf'|done| |].
  - intros q info k Hq Hk. destruct (Hd q info Hq) as [Ho|(_ & [Hx|(i & Ho & Hx)])];
      [by eapply Hu|congruence|]. eapply Hu; [exact Ho|congruence].
  - intros q info Hq Hk. destruct (Hd q info Hq) as [Ho|(Hx & _)]; [by apply Hw|congruence].
Qed.

Lemma tracked_poll ord cx r p s s' fl rs rd :
  tracked {| pib := p; service := s; in_flight := fl; results := rs; radio := rd |} ->
  poll_action ord cx s = (r, s') -> cx_key cx ∉ fl.*1.*1 ++ rs.*1 ->
  tracked {| pib := p; service := s'; in_flight := fl ++ sent r; results := rs; radio := rd |}.
Proof.
  intros [Hf Hn Hu Hw] Hp Hk. unfold flight_keys in *. cbn in *.
  destruct (poll_action_cases ord cx s r s' Hp) as
    [(q & info & Hq & Hd & Hi & -> & Ho & Hm)|(-> & Hm & _)].
  2: { rewrite app_nil_r. split; unfold flight_keys, follows, requested in *; cbn; rewrite ?Hm; done. }
  set (k := cx_key cx) in *. cbn [sent]. split; unfold flight_keys in *; cbn.
  - intros q'. specialize (Hf q'). unfold requested in *. rewrite Hm.
    destruct (decide (q = q')) as [<-|Hne]; [|by rewrite lookup_insert_ne].
    rewrite Hq in Hf. by rewrite lookup_insert_eq.
  - rewrite !fmap_app, <- (assoc_L (++)). cbn. rewrite <- Permutation_middle. by apply NoDup_cons.
  - intros q' info' k' Hq' Hk'. rewrite !fmap_app, !elem_of_app. rewrite Hm in Hq'. cbn.
    destruct (decide (q = q')) as [<-|Hne].
    + rewrite lookup_insert_eq in Hq'. injection Hq' as <-. cbn in Hk'. injection Hk' as <-.
      left. right. by apply list_elem_of_singleton.
    + rewrite lookup_insert_ne in Hq' by done. specialize (Hu q' info' k' Hq' Hk').
      apply elem_of_app in Hu. tauto.
  - intros q' info' Hq' Hd'. unfold on_its_way. cbn. rewrite last_value_snoc, Hm in *.
    destruct (decide (q = q')) as [<-|Hne].
    + rewrite lookup_insert_eq in Hq'. injection Hq' as <-. done.
    + rewrite lookup_insert_ne in Hq' by done. by specialize (Hw q' info' Hq' Hd').
Qed.

(** A key that is still on its way has no result. *)
Lemma flight_no_result k q v fl (rs : list (UniqueKey * bool)) b :
  NoDup (((k, q, v) :: fl : list (UniqueKey * RawRadioParam * Radio.RadioParamValue)).*1.*1 ++ rs.*1) ->
  (k, b) ∈ rs -> False.
Proof.
  cbn. intros Hn%NoDup_cons. intros Hin. apply Hn. apply elem_of_app. right.
  by apply (list_elem_of_fmap_2' fst _ (k, b)).
Qed.

Lemma tracked_answer k q v p s fl rs rd b :
  tracked {| pib := p; service := s; in_flight := (k, q, v) :: fl; results := rs; radio := rd |} ->
  tracked {| pib := p; service := s; in_flight := fl; results := rs ++ [(k, b)];
             radio := if b then <[q := v]> rd else rd |}.
Proof.
  intros [Hf Hn Hu Hw]. unfold flight_keys in *. cbn in *.
  assert (fl.*1.*1 ++ (rs ++ [(k, b)]).*1 ≡ₚ k :: fl.*1.*1 ++ rs.*1) as Hp.
  { rewrite fmap_app. cbn. rewrite (assoc_L (++)). by rewrite Permutation_app_comm. }
  split; unfold flight_keys; cbn; [done|by rewrite Hp| |].
  - intros q' info k' Hq Hk. rewrite Hp. by eapply Hu.
  - intros q' info Hq Hd. specialize (Hw q' info Hq Hd). unfold on_its_way in *. cbn in *.
    destruct (last_value q' fl) as [[k1 v1]|] eqn:El; [done|].
    assert (forall x, (k, x) ∈ rs -> False) as Hk.
    { intros x. by eapply (flight_no_result k q v fl). }
    destruct (decide (q = q')) as [<-|Hne].
    + destruct Hw as [-> ->]. split.
      * rewrite fmap_app. apply elem_of_app. right. by apply list_elem_of_singleton.
      * intros [Hin|Hin%list_elem_of_singleton]%elem_of_app; [by apply Hk in Hin|].
        injection Hin as <-. by rewrite lookup_insert_eq.
    + assert ((if b then <[q := v]> rd else rd) !! q' = rd !! q') as ->.
      { destruct b; [by rewrite lookup_insert_ne|done]. }
      destruct (updating info) as [k1|] eqn:Ek; [|done]. destruct Hw as [Hin Ht]. split.
      * rewrite fmap_app. apply elem_of_app. by left.
      * intros [Hin'|Hin'%list_elem_of_singleton]%elem_of_app; [by apply Ht|].
        injection Hin' as -> _. apply list_elem_of_fmap in Hin as ([k2 b2] & E & Hin). cbn in E. subst.
        by apply Hk in Hin.
Qed.

Lemma result_params k b s :
  radio_params (process_set_param_result k b s) = param_result k b <$> radio_params s.
Proof. unfold process_set_param_result. by destruct (existsb _ _). Qed.

Lemma tracked_report k b p s fl rs rd :
  tracked {| pib := p; service := s; in_flight := fl; results := (k, b) :: rs; radio := rd |} ->
  tracked {| pib := p; service := process_set_param_result k b s; in_flight := fl; results := rs; radio := rd |}.
Proof.
  intros [Hf Hn Hu Hw]. unfold flight_keys in *. cbn in *.
  rewrite <- Permutation_middle in Hn. apply NoDup_cons in Hn as [Hk Hn].
  split; unfold flight_keys; cbn; [|done| |].
  - intros q. specialize (Hf q). unfold requested in *. rewrite result_params, lookup_fmap, <- Hf.
    destruct (radio_params s !! q) as [info|]; [|done]. cbn. unfold param_result. by case_decide.
  - intros q info k' Hq Hk'. rewrite result_params, lookup_fmap in Hq.
    destruct (radio_params s !! q) as [info0|] eqn:Eq; [|done]. injection Hq as <-.
    unfold param_result in Hk'. case_decide as Hd; [done|]. specialize (Hu q info0 k' Eq Hk').
    rewrite <- Permutation_middle in Hu. apply elem_of_cons in Hu as [->|Hu]; [done|exact Hu].
  - intros q info Hq Hd. rewrite result_params, lookup_fmap in Hq.
    destruct (radio_params s !! q) as [info0|] eqn:Eq; [|done]. injection Hq as <-.
    unfold param_result in *. case_decide as Hu0; cbn in Hd |- *.
    + destruct b; [|done]. specialize (Hw q info0 Eq Hd). unfold on_its_way in *. cbn in *.
      destruct (last_value q fl) as [[k1 v1]|] eqn:El.
      * destruct Hw as [Hk1 _]. rewrite Hu0 in Hk1. injection Hk1 as <-. destruct Hk.
        apply elem_of_app. left. by eapply last_value_key.
      * rewrite Hu0 in Hw. destruct Hw as [_ Ht]. apply Ht. by left.
    + specialize (Hw q info0 Eq Hd). unfold on_its_way in *. cbn in *.
      destruct (last_value q fl) as [[k1 v1]|]; [done|].
      destruct (updating info0) as [k1|] eqn:E1; [|done]. destruct Hw as [Hin Ht]. split.
      * apply elem_of_cons in Hin as [->|Hin]; [done|exact Hin].
      * intros Hin'. apply Ht. by right.
Qed.

Lemma step_tracked y y' : step y y' -> tracked y -> tracked y'.
Proof.
  destruct 1 as [bsn dsn d d' r c p p' s s' fl rs rd E|f i p p' s s' fl rs rd E|p s fl rs rd
    |ord cx r p s s' fl rs rd Hp Hk|k q v p s fl rs rd|k q v p s fl rs rd|k b p s fl rs rd]; intros Ht.
  - pose proof (mlme_request_keeps bsn dsn p d r s) as Hk. rewrite E in Hk. by eapply tracked_keeps.
  - pose proof (process_frame_keeps p f s) as Hk. rewrite E in Hk. by eapply tracked_keeps.
  - eapply tracked_keeps; [exact Ht|]. split; [|reflexivity]. intros Hf q.
    rewrite pib_param_next_dsn. apply Hf.
  - by eapply tracked_poll.
  - exact (tracked_answer k q v p s fl rs rd true Ht).
  - exact (tracked_answer k q v p s fl rs rd false Ht).
  - by apply tracked_report.
Qed.

Lemma reachable_tracked y : reachable y -> tracked y.
Proof.
  intros (p & rd & Hr). assert (tracked {| pib := p; service := new p; in_flight := []; results := [];
    radio := rd |}) as Ht.
  { split; cbn; [apply new_follows|constructor| |].
    - intros q info k Hq Hk. destruct (new_only_dirties ∅ p q info Hq) as [He|(_ & [Hu|(i & He & _)])];
        [done|congruence|done].
    - intros q info Hq Hd. destruct (new_only_dirties ∅ p q info Hq) as [He|(Hx & _)];
        [done|congruence]. }
  revert Ht. induction Hr as [y|y y1 y2 Hs _ IH]; [done|]. intros Ht. apply IH. by eapply step_tracked.
Qed.

Lemma idle_radio_follows (y : system) (ord : IterOrder RawRadioParam) (cx : Context)
    (q : RawRadioParam) (v : Radio.RadioParamValue) :
  reachable y -> in_flight y = [] -> results y = [] ->
  sent (fst (poll_action ord cx (service y))) = [] ->
  pib_param (pib y) q = Some v -> radio y !! q = Some v.
Proof.
  intros Hr Hfl Hrs Hp Hv. destruct (reachable_tracked y Hr) as [Hf _ Hu Hw].
  specialize (Hf q). rewrite Hv in Hf. unfold requested in Hf.
  destruct (radio_params (service y) !! q) as [info|] eqn:Eq; [|done]. injection Hf as <-.
  destruct (updating info) as [k|] eqn:Ek.
  { specialize (Hu q info k Eq Ek). unfold flight_keys in Hu. rewrite Hfl, Hrs in Hu.
    by apply elem_of_nil in Hu. }
  destruct (poll_action ord cx (service y)) as [r s'] eqn:E.
  destruct (poll_action_cases ord cx _ r s' E) as [(? & ? & _ & _ & _ & -> & _)|(_ & _ & Hn & _)]; [done|].
  specialize (Hn q info Eq). unfold due in Hn. rewrite Ek in Hn. cbn in Hn. rewrite andb_true_r in Hn.
  specialize (Hw q info Eq Hn). unfold on_its_way in Hw. by rewrite Hfl, Ek in Hw.
Qed.

(** C9: Over every interleaving of MLME requests (resets included), received frames, frames
    sent, polls, the radio's taking or refusing of its requests and the reports of
    that: when nothing is on its way and a poll has no parameter to set, the radio has
    the channel, PAN, short address, receive mode and transmit power of the PIB. *)
Theorem radio_follows_pib (y : system) (ord : IterOrder RawRadioParam) (cx : Context)
    (q : RawRadioParam) (v : Radio.RadioParamValue) :
  reachable y -> in_flight y = [] -> results y = [] ->
  sent (fst (poll_action ord cx (service y))) = [] ->
  pib_param (pib y) q = Some v -> radio y !! q = Some v.
Proof. by apply idle_radio_follows. Qed.

(** ** Settling *)

(** A radio that takes what it is asked to set, and says so. *)
Fixpoint settle_params (n : nat) (ord : IterOrder RawRadioParam) (cx : nat -> Context)
    (s : ManagementService) (rd : gmap RawRadioParam Radio.RadioParamValue) :
    option (gmap RawRadioParam Radio.RadioParamValue) :=
  match poll_action ord (cx n) s, n with
  | (Ready (SetParam k q v), s), S n =>
      settle_params n ord cx (process_set_param_result k true s) (<[q := v]> rd)
  | (Ready (SetParam _ _ _), _), O => None
  | _, _ => Some rd
  end.

(** The parameters that are still to be set. *)
Definition dirty_in (m : gmap RawRadioParam RadioParamInfo) (q : RawRadioParam) : bool :=
  match m !! q with Some info => dirty info | None => false end.
Definition pib_params : list RawRadioParam :=
  [Channel; RadioRaw.PanId; RadioRaw.ShortAddress; RxMode; TxPower].
Definition dirty_params (m : gmap RawRadioParam RadioParamInfo) : nat :=
  length (filter (fun q => dirty_in m q = true) pib_params).

Lemma dirty_params_le m : (dirty_params m <= 5)%nat.
Proof. exact (length_filter _ pib_params). Qed.

Lemma filter_ext_iff {A} (P Q : A -> Prop) `{!forall x, Decision (P x), !forall x, Decision (Q x)}
    (l : list A) :
  (forall x, x ∈ l -> P x <-> Q x) -> filter P l = filter Q l.
Proof.
  induction l as [|x l IH]; [done|]. intros Hx. rewrite !filter_cons.
  rewrite IH by (intros y Hy; apply Hx; by right). pose proof (Hx x ltac:(by left)).
  do 2 case_decide; tauto.
Qed.

Lemma dirty_params_clean m m' q :
  q ∈ pib_params -> dirty_in m q = true -> dirty_in m' q = false ->
  (forall q', q' <> q -> dirty_in m' q' = dirty_in m q') -> S (dirty_params m') = dirty_params m.
Proof.
  intros Hq H1 H2 Hn. unfold dirty_params.
  assert (NoDup pib_params) as Hnd by (apply (bool_decide_eq_true_1 _); by vm_compute).
  revert Hq Hnd. generalize pib_params. intros l. induction l as [|x l IH]; [by intros ?%elem_of_nil|].
  intros Hin [Hx Hnd]%NoDup_cons. rewrite !filter_cons. apply elem_of_cons in Hin as [<-|Hin].
  - rewrite decide_False by congruence. rewrite (decide_True _ _ H1). cbn [length]. f_equal. f_equal.
    apply filter_ext_iff. intros y Hy. rewrite Hn; [done|by intros ->].
  - rewrite (Hn x) by (by intros ->). destruct (decide (dirty_in m x = true)); cbn [length];
      rewrite <- IH by done; done.
Qed.

(** One exchange with an idle radio. *)
Lemma exchange_step y ord cx k q v s' :
  in_flight y = [] -> results y = [] -> poll_action ord cx (service y) = (Ready (SetParam k q v), s') ->
  rtc step y {| pib := pib y; service := process_set_param_result k true s'; in_flight := [];
                results := []; radio := <[q := v]> (radio y) |}.
Proof.
  destruct y as [p s fl rs rd]. cbn. intros -> -> E.
  eapply rtc_l; [eapply step_poll; [exact E|apply not_elem_of_nil]|]. cbn.
  eapply rtc_l; [apply step_apply|]. cbn. apply rtc_once, step_report.
Qed.

Lemma exchange_cleans y ord cx k q v s' :
  reachable y -> poll_action ord cx (service y) = (Ready (SetParam k q v), s') ->
  S (dirty_params (radio_params (process_set_param_result k true s'))) =
    dirty_params (radio_params (service y)).
Proof.
  intros Hr E. destruct (reachable_tracked y Hr) as [Hf _ _ _].
  destruct (poll_action_cases ord cx _ _ s' E) as [(q' & info & Hq & Hd & Hu & [= Ek Eq Ev] & _ & Hm)|(Hs & _)];
    [|done]. subst k q' v. rewrite result_params, Hm. apply dirty_params_clean with q.
  - specialize (Hf q). unfold requested in Hf. rewrite Hq in Hf. clear -Hf. unfold pib_params.
    destruct q; try done; cbn; set_solver.
  - unfold dirty_in. by rewrite Hq.
  - unfold dirty_in. rewrite lookup_fmap, lookup_insert_eq. cbn. unfold param_result. cbn.
    by case_decide.
  - intros q' Hne. unfold dirty_in. rewrite lookup_fmap, lookup_insert_ne by done.
    destruct (radio_params (service y) !! q') as [i|]; [|done]. cbn. unfold param_result. by case_decide.
Qed.

Lemma settle_params_ok n ord cx y :
  reachable y -> in_flight y = [] -> results y = [] ->
  (dirty_params (radio_params (service y)) <= n)%nat ->
  exists rd, settle_params n ord cx (service y) (radio y) = Some rd /\
    forall q v, pib_param (pib y) q = Some v -> rd !! q = Some v.
Proof.
  revert y. induction n as [|n IH]; intros y Hr Hfl Hrs Hd; cbn [settle_params];
    pose proof (fun cx q v => idle_radio_follows y ord cx q v Hr Hfl Hrs) as Hend.
  - specialize (Hend (cx O)). destruct (poll_action ord (cx O) (service y)) as [[[k q v|f]|] s'] eqn:E; eauto.
    apply (exchange_cleans y _ _ _ _ _ _ Hr) in E. lia.
  - specialize (Hend (cx (S n))).
    destruct (poll_action ord (cx (S n)) (service y)) as [[[k q v|f]|] s'] eqn:E; eauto.
    pose proof (exchange_cleans y _ _ _ _ _ _ Hr E) as Hc.
    destruct Hr as (p0 & rd0 & Hr).
    refine (IH {| pib := pib y; service := process_set_param_result k true s'; in_flight := [];
                results := []; radio := <[q := v]> (radio y) |} _ eq_refl eq_refl _);
      [|cbn [service]; clear -Hc Hd; lia].
    exists p0, rd0. etrans; [exact Hr|]. by eapply exchange_step.
Qed.

(** C35: Left undisturbed with a radio that takes its requests, the parameters settle: from
    every reachable state with nothing on its way, at most five exchanges make the
    radio's parameters those of the PIB. *)
Theorem parameters_settle (y : system) (ord : IterOrder RawRadioParam) (cx : nat -> Context) :
  reachable y -> in_flight y = [] -> results y = [] ->
  exists rd, settle_params 5 ord cx (service y) (radio y) = Some rd /\
    forall q v, pib_param (pib y) q = Some v -> rd !! q = Some v.
Proof. intros. apply settle_params_ok; try done. apply dirty_params_le. Qed.
End system.

(** ** The handlers *)

(** MLME-START: exactly a device with a short address that is asked to be the
    coordinator of a PAN without beacons, now, on channel page zero, starts one; it is
    then its own coordinator on the PAN and channel asked for, and the radio is asked
    for them.  Every other request is refused without any change. *)
Theorem mlme_start_spec (p : PIB) (r : mlme.StartRequest) (s : ManagementService) :
  let '(res, p', s') := process_mlme_start_request p r s in
  (res = Ok tt /\ mac_short_address p <> ShortAddr 0xFFFF /\
   uint_val (mlme.start_channel_page r) = 0 /\ uint_val (mlme.start_time r) = 0 /\
   uint_val (mlme.beacon_order r) = 15 /\ uint_val (mlme.superframe_order r) = 15 /\
   mlme.pan_coordinator r = true /\ mlme.battery_life_extension r = false /\
   p' = set_mac_associated_pan_coord (Some (mac_extended_address p, mac_short_address p))
          (set_mac_pan_id (mlme.start_pan_id r) (set_phy_current_channel (mlme.channel_number r) p)) /\
   requested s' Channel = Some (Radio.ValueU16 (mlme.channel_number r)) /\
   requested s' RadioRaw.PanId = Some (Radio.ValueU16 (Uint (panid (mlme.start_pan_id r))))) \/
  (p' = p /\ s' = s /\
   ((res = Err NoShortAddress /\ mac_short_address p = ShortAddr 0xFFFF) \/
    (res = Err InvalidParameter /\ mac_short_address p <> ShortAddr 0xFFFF /\
     ~ (uint_val (mlme.start_channel_page r) = 0 /\ uint_val (mlme.start_time r) = 0 /\
        uint_val (mlme.beacon_order r) = 15 /\ uint_val (mlme.superframe_order r) = 15 /\
        mlme.pan_coordinator r = true /\ mlme.battery_life_extension r = false)))).
Proof.
  unfold process_mlme_start_request. case_decide as Hs.
  { right. split_and!; try done. left. done. }
  destruct (_ || _) eqn:E.
  - right. split_and!; try done. right. split_and!; try done.
    intros (E1 & E2 & E3 & E4 & E5 & E6). by rewrite E1, E2, E3, E4, E5, E6 in E.
  - left. repeat setoid_rewrite orb_false_iff in E. rewrite !negb_false_iff, !Z.eqb_eq in E.
    destruct E as (((((E1 & E2) & E3) & E4) & E5) & E6). rewrite E5, !requested_updates.
    split_and!; try done; by destruct p.
Qed.

(** The frame asks for permission to join, from the extended address, and this device
    lets it. *)
Definition may_join (p : PIB) (f : Frame) (a : ExtendedAddress) (c : CapabilityInformation) : Prop :=
  frame_type f = FTCommand (AssociationRequest c) /\ mac_association_permit p = true /\
  destination f = Some (get_full_short_address p) /\
  exists pan, source f = Some (FullAddr pan (AddrExtended a)).

(** A device's association request is passed on exactly when joining is permitted, the
    request is addressed to this device on its PAN and comes from an extended address;
    nothing changes, and the addresses and capabilities are the request's. *)
Theorem association_indicated_iff (p : PIB) (f : Frame) (s : ManagementService)
    (a : ExtendedAddress) (c : CapabilityInformation) :
  let '(i, p', s') := process_frame p f s in
  (i = Some (mlme.IndAssociate a c) <-> may_join p f a c) /\
  (forall x, i = Some (mlme.IndAssociate a x) -> p' = p /\ s' = s).
Proof.
  unfold may_join.
  unfold process_frame. destruct (frame_type f) as [| | |[req| | |]| | | |] eqn:Ef;
    try (split; [split; [done|by intros (? & _)]|done]).
  - unfold process_frame_association_request. split; [|done]. split.
    + destruct (mac_association_permit p) eqn:Ep; [|done]. cbn [negb]. case_decide as Hd; [done|].
      destruct (source f) as [[pan [sa|ea]]|]; try done. intros [= <- <-].
      split_and!; eauto.
    + intros ([= ->] & -> & Hd & pan & ->). cbn [negb]. by rewrite decide_False by (by intros []).
  - unfold process_frame_beacon_request. destruct (mac_beacon_auto_respond p).
    + by destruct (process_mlme_beacon_request _ _ _) as [[? ?] ?]; split; [split; [done|intros (? & _)]|].
    + by split; [split; [done|intros (? & _)]|].
Qed.

Section handlers.
Context `{BitRangeLaws}.

(** The numbers of the PIB that a beacon carries are within their types. *)
Definition pib_ok (p : PIB) : Prop :=
  in_width 8 (uint_val (mac_bsn p)) /\ in_width 16 (panid (mac_pan_id p)) /\
  in_width 16 (short_address (mac_short_address p)) /\
  in_width 64 (extended_address (mac_extended_address p)) /\ bytes_ok (mac_beacon_payload p).

(** A beacon that is asked for on the current channel is queued behind the frames that
    wait, with the next beacon sequence number; packed, it can be read back from the
    air as it was queued.  Other requests are refused without any change. *)
Theorem beacon_queued (p : PIB) (r : mlme.BeaconRequest) (s : ManagementService) :
  pib_ok p ->
  let '(res, p', s') := process_mlme_beacon_request p r s in
  (res = Ok tt /\ mlme.beacon_superframe_order r = 15%nat /\ mlme.channel r = phy_current_channel p /\
   uint_val (mlme.channel_page r) = 0 /\ p' = snd (next_beacon_sequence_nr p) /\
   exists f bs, outgoing s' = outgoing s ++ [f] /\ sequence_number f = Some (uint_val (mac_bsn p)) /\
     source f = Some (get_full_short_address p) /\ Frame_pack f vec_new = Ok (Vec bs) /\
     Frame_unpack bs = Ok (f, [])) \/
  (res = Err InvalidParameter /\ p' = p /\ s' = s /\
   ~ (mlme.beacon_superframe_order r = 15%nat /\ mlme.channel r = phy_current_channel p /\
      uint_val (mlme.channel_page r) = 0)).
Proof.
  intros (Hb & Hpan & Hs & He & Hp). unfold process_mlme_beacon_request. destruct (_ || _) eqn:E.
  - right. split_and!; try done. intros (E1 & E2 & E3).
    by rewrite E1, E3, bool_decide_true in E.
  - left. apply orb_false_iff in E as [E E3]. apply orb_false_iff in E as [E1 E2].
    apply negb_false_iff in E1, E2, E3. apply Nat.eqb_eq in E1. apply bool_decide_eq_true in E2.
    apply Z.eqb_eq in E3. unfold next_beacon_sequence_nr. cbn [snd].
    assert (get_full_short_address (set_mac_bsn (wrapping_succ (mac_bsn p)) p) =
      get_full_short_address p) as Ea by by destruct p.
    split_and!; try done. eexists _, _. split; [done|]. rewrite Ea. split; [done|]. split; [done|].
    match goal with |- Frame_pack ?f _ = _ /\ _ => assert (frame_wf f) as Hw end.
    { split; [|done]. split_and!; cbn; try done.
      - unfold get_full_short_address. by case_decide.
      - rewrite E1. by split_and!. }
    split; [by rewrite (Frame_pack_spec _ vec_new)|by apply Frame_unpack_encoding].
Qed.
End handlers.

Section associate.
Context {M : Type} `{!BiMap mcps.MsduHandle UniqueKey M, !BiMapLaws mcps.MsduHandle UniqueKey M}.

Lemma insert_queues_last (p : PIB) t r (d : DS.DataService M) :
  ~ queued (DS.queues d) (dr_key r) ->
  exists q e, DS.queues (DS.insert p t r d) !! dr_destination r = Some q /\
    last (DQ.entries q) = Some e /\ DQ.data e = r.
Proof.
  intros Hf. unfold DS.insert.
  assert (forall q, dr_key r ∉ keys q -> exists e,
    last (DQ.entries (snd (DQ.insert p t r q))) = Some e /\ DQ.data e = r) as Hi.
  { intros q Hk. unfold DQ.insert. rewrite contains_spec, bool_decide_false by done. cbn.
    rewrite last_snoc. eauto. }
  destruct (DS.queues d !! dr_destination r) as [q|] eqn:Eq; cbn; rewrite lookup_insert_eq.
  - destruct (Hi q) as (e & ? & ?); [|eauto]. intros Hk. apply Hf. by exists (dr_destination r), q.
  - destruct (Hi DQ.new) as (e & ? & ?); [by apply not_elem_of_nil|eauto].
Qed.

(** What the device is told: a device admitted without an address gets 0xFFFE. *)
Definition association_answer (fast : bool) (status : result AssociationError (option ShortAddress)) :
    FrameType :=
  FTCommand (AssociationResponseCommand
    {| ar_fast_association := fast;
       ar_status := match status with
                    | Ok (Some x) => Ok x
                    | Ok None => Ok (ShortAddr 0xFFFE)
                    | Err x => Err x
                    end |}).

(** The answer to an association request is queued last for the device's extended address
    on this PAN, to be acknowledged, directly only in a fast association and for the
    device to ask for otherwise; it holds the status, with the address 0xFFFE for a device that
    is admitted without one.  The data service stays consistent and no client's handle is
    touched. *)
Theorem associate_response_queued (key : UniqueKey) (timer : N) (p : PIB) (a : ExtendedAddress)
    (fast : bool) (status : result AssociationError (option ShortAddress)) (d : DS.DataService M) :
  ds_reachable d -> ~ queued (DS.queues d) key ->
  let d' := process_mlme_response key timer p (mlme.RespAssociate a fast status) d in
  ds_reachable d' /\ queued (DS.queues d') key /\ DS.msdu_handles d' = DS.msdu_handles d /\
  exists q e, DS.queues d' !! Some (FullAddr (mac_pan_id p) (AddrExtended a)) = Some q /\
    last (DQ.entries q) = Some e /\ DQ.indirect e = negb fast /\
    dr_acknowledge_request (DQ.data e) = true /\ dr_source_mode (DQ.data e) = AM_Extended /\
    dr_content (DQ.data e) = association_answer fast status.
Proof.
  intros Hr Hk. cbn [process_mlme_response]. unfold process_mlme_associate_response. cbv zeta.
  match goal with |- context [DS.insert p timer ?r d] =>
    destruct (inv_insert d p timer r (ds_reachable_inv d Hr) Hk) as (_ & Hq & Hm);
    destruct (insert_queues_last p timer r d Hk) as (q & e & E1 & E2 & E3) end.
  split_and!; [by eapply rtc_r, step_insert|done|done|].
  exists q, e. unfold DQ.indirect. rewrite E3. split_and!; try done. cbn. unfold association_answer.
  do 3 f_equal. by destruct status as [[x|]|x].
Qed.
End associate.

(** ** Witnesses *)

(** Up to [n] exchanges with a radio that takes its requests. *)
Fixpoint exchanges (n : nat) (ord : IterOrder RawRadioParam) (cx : nat -> Context) (y : system) : system :=
  match n with
  | O => y
  | S n' =>
      match poll_action ord (cx n) (service y) with
      | (Ready (SetParam k q v), s') =>
          exchanges n' ord cx {| pib := pib y; service := process_set_param_result k true s';
            in_flight := []; results := []; radio := <[q := v]> (radio y) |}
      | _ => y
      end
  end.

Lemma exchanges_reachable {M} `{!BiMap mcps.MsduHandle UniqueKey M} n ord cx y :
  reachable (M := M) y -> in_flight y = [] -> results y = [] ->
  reachable (M := M) (exchanges n ord cx y) /\ in_flight (exchanges n ord cx y) = [] /\
  results (exchanges n ord cx y) = [].
Proof.
  revert y. induction n as [|n IH]; intros y Hr Hf Hs; cbn [exchanges]; [done|].
  destruct (poll_action ord (cx (S n)) (service y)) as [[[k q v|f]|] s'] eqn:E; try done.
  apply IH; [|done|done]. destruct Hr as (p0 & rd0 & Hr). exists p0, rd0.
  etrans; [exact Hr|]. by eapply exchange_step.
Qed.

Definition param_order : IterOrder RawRadioParam := iter_identity RawRadioParam.
Definition start_system : system :=
  {| pib := example_pib; service := new example_pib; in_flight := []; results := []; radio := ∅ |}.
Definition settled_system : system := exchanges 5 param_order (fun n => poll_context (N.of_nat n) no_timer) start_system.

Lemma start_reachable : reachable (M := handle_map) start_system.
Proof. by exists example_pib, ∅. Qed.

Lemma radio_follows_pib_witness :
  radio settled_system !! Channel = Some (Radio.ValueU16 (phy_current_channel example_pib)).
Proof.
  destruct (exchanges_reachable 5 param_order (fun n => poll_context (N.of_nat n) no_timer) start_system
    start_reachable eq_refl eq_refl) as (Hr & Hf & Hs).
  exact (radio_follows_pib (M := handle_map) settled_system param_order (poll_context 9 no_timer) Channel _
    Hr Hf Hs ltac:(by vm_compute) eq_refl).
Defined.

Lemma parameters_settle_witness :
  exists rd, settle_params 5 param_order (fun n => poll_context (N.of_nat n) no_timer)
      (service start_system) (radio start_system) = Some rd /\
    forall q v, pib_param (pib start_system) q = Some v -> rd !! q = Some v.
Proof.
  exact (parameters_settle (M := handle_map) start_system param_order
    (fun n => poll_context (N.of_nat n) no_timer) start_reachable eq_refl eq_refl).
Defined.

Definition example_beacon_request : mlme.BeaconRequest := {|
  mlme.beacon_type := mlme.BTBeacon;
  mlme.channel := phy_current_channel example_pib;
  mlme.channel_page := Uint 0;
  mlme.beacon_superframe_order := 15;
  mlme.dst_addr := None;
|}.

Lemma beacon_queued_witness :
  let '(res, p', s') := process_mlme_beacon_request example_pib example_beacon_request (new example_pib) in
  res = Ok tt /\
  exists f bs, outgoing s' = outgoing (new example_pib) ++ [f] /\
    Frame_pack (H := BitRange_reference) f vec_new = Ok (Vec bs) /\
    Frame_unpack (H := BitRange_reference) bs = Ok (f, []).
Proof.
  pose proof (@beacon_queued BitRange_reference BitRange_reference_laws example_pib
    example_beacon_request (new example_pib)
    ltac:(repeat split; try (by vm_compute); apply Forall_nil_2)) as Hb.
  destruct Hb as [(Hr & _ & _ & _ & _ & f & bs & Ho & _ & _ & Hp & Hu)|(Hr & _)]; [|discriminate Hr].
  split; [exact Hr|]. by exists f, bs.
Defined.

Lemma associate_response_queued_witness :
  exists q e, DS.queues (process_mlme_response (MkKey 3) 1 example_pib
      (mlme.RespAssociate (ExtAddr 0x42) false (Ok None)) (DS.new (M := handle_map)))
      !! Some (FullAddr (mac_pan_id example_pib) (AddrExtended (ExtAddr 0x42))) = Some q /\
    last (DQ.entries q) = Some e /\ DQ.indirect e = true.
Proof.
  destruct (associate_response_queued (MkKey 3) 1 example_pib (ExtAddr 0x42) false (Ok None)
    (DS.new (M := handle_map)) ltac:(exact (rtc_refl _ _))
    ltac:(by intros (? & ? & Hx & _)))
    as (_ & _ & _ & q & e & Hq & He & Hi & _).
  by exists q, e.
Defined.
