(* ===== verification/MacService.v ===== *)
(** * The MAC service ([mac/service.rs])

    Starting up: the radio is asked for its address, power and channel, and put in its
    mode ([SyncRadio], [MacData_new]).  Then the event loop: management and data
    service are polled first, then the radio's responses and the clients' requests;
    whatever is ready is handled to the end before the next poll.

    The receiving ends of the MAC's channels may be dropped, its input streams may
    end, and the radio may deliver anything; each step gets what its environment
    does in a [MacEnv].  The channels to the clients are unbounded, so that sending on
    them is done at once; the one to the radio's service has no room at all
    ([mpsc::channel(0)], [radio/mod.rs]): a send is over when the service has taken the
    request, and until then the MAC does nothing else.  A step sends at most one request, as
    the last thing it does; whether the service takes it in the end is up to the
    environment, and if it never does the step never ends.  [RadioChannel.v] composes the MAC with
    that service and says when this happens.

    Shown in [MacServiceTheory.v]: what starting up does; all the ways in which a step
    can fail (a closed channel, an ended stream, a radio packet that is not a frame) and
    wait for ever; and what becomes of the clients' handles at every step. *)

From Stdlib Require Import ZArith Lia.
From S2P Require Import RadioRaw Radio.
From S2P Require Import Prelude Pack BitField Frame Async Pib Services DeviceQueue BiMap.
From S2P Require Import DataService Management.

#[local] Open Scope Z_scope.

Module MAC.

(** What the radio's service does with a request that is sent to it: it takes it, now or
    later; it leaves it in the channel for ever; or it is gone. *)
Inductive Receiver := Takes | TakesNever | Gone.

(** [sink.send(x).await.unwrap()] on a channel to it: over when the receiver has taken the item.
    [OutOfFuel] is waiting for ever. *)
Definition await_taken {A} (r : Receiver) (a : A) : exec A :=
  match r with Takes => Ok a | TakesNever => Err OutOfFuel | Gone => Err Panic end.

(** ** Starting up

    [SyncRadio]: the requests sent so far, what becomes of the one with a given token, the
    responses still to come (the stream may say that it has ended) and the number of the next
    unique key. *)
Record SyncRadio := {
  requests : list Radio.RadioRequest;
  receiver : UniqueKey -> Receiver;
  responses : list (option Radio.RadioResponse);
  next_key : N;
}.

Definition sync_send (request : UniqueKey -> Radio.RadioRequest) (s : SyncRadio) :
    exec (UniqueKey * SyncRadio) :=
  let token := MkKey (next_key s) in
  await_taken (receiver s token)
    (token, {| requests := requests s ++ [request token]; receiver := receiver s;
               responses := responses s; next_key := next_key s + 1 |}).

(** The loop that skips responses until [matches] takes one.  Running out of
    responses is waiting for ever. *)
Fixpoint wait_for {A} (matches : Radio.RadioResponse -> option A)
    (rs : list (option Radio.RadioResponse)) : exec (A * list (option Radio.RadioResponse)) :=
  match rs with
  | [] => Err OutOfFuel
  | Some r :: rs => match matches r with Some a => Ok (a, rs) | None => wait_for matches rs end
  | None :: rs => wait_for matches rs
  end.

Definition sync_call {A} (request : UniqueKey -> Radio.RadioRequest)
    (matches : UniqueKey -> Radio.RadioResponse -> option A) (s : SyncRadio) : exec (A * SyncRadio) :=
  '(token, s) ← sync_send request s;
  '(a, rs) ← wait_for (matches token) (responses s);
  Ok (a, {| requests := requests s; receiver := receiver s; responses := rs; next_key := next_key s |}).

Definition get_param (param : Radio.RadioParam) (param_type : Radio.RadioParamType) (s : SyncRadio) :
    exec (result Radio.RadioError Radio.RadioParamValue * SyncRadio) :=
  sync_call (fun token => Radio.ReqGetParam token param param_type)
    (fun token r => match r with
                    | Radio.RespGetParam response_token _ result =>
                        if decide (token = response_token) then Some result else None
                    | _ => None
                    end) s.

Definition get_param_u64 (param : Radio.RadioParam) (s : SyncRadio) :
    exec (result Radio.RadioError u64 * SyncRadio) :=
  '(r, s) ← get_param param Radio.TypeU64 s; Ok (r ≫= Radio.value_try_into_u64, s).
Definition get_param_u16 (param : Radio.RadioParam) (s : SyncRadio) :
    exec (result Radio.RadioError u16 * SyncRadio) :=
  '(r, s) ← get_param param Radio.TypeU16 s; Ok (r ≫= Radio.value_try_into_u16, s).

Definition set_param (param : Radio.RadioParam) (value : Radio.RadioParamValue) (s : SyncRadio) :
    exec (result Radio.RadioError unit * SyncRadio) :=
  sync_call (fun token => Radio.ReqSetParam token param value)
    (fun token r => match r with
                    | Radio.RespSetParam response_token _ result =>
                        if decide (token = response_token) then Some ((fun _ => tt) <$> result) else None
                    | _ => None
                    end) s.

Definition set_power (power : bool) (s : SyncRadio) : exec (result Radio.RadioError unit * SyncRadio) :=
  sync_call (fun token => Radio.ReqSetPower token power)
    (fun token r => match r with
                    | Radio.RespSetPower response_token _ result =>
                        if decide (token = response_token) then Some result else None
                    | _ => None
                    end) s.

(** [.await.unwrap()] *)
Definition await_unwrap {A} (x : exec (result Radio.RadioError A * SyncRadio)) : exec (A * SyncRadio) :=
  '(r, s) ← x; a ← unwrap_result r; Ok (a, s).

(** ** The MAC's state

    [radio_requests], [mlme_output] and [mcps_output] hold what was sent (and, by the radio's
    service, taken) so far. *)
Record MacData {M : Type} := {
  pib : PIB;
  radio_requests : list Radio.RadioRequest;
  mlme_output : list mlme.Output;
  mcps_output : list mcps.Output;
  management : MGMT.ManagementService;
  data : DS.DataService M;
}.
Arguments MacData : clear implicits.

(** Field updates. *)
Definition set_pib {M} (p : PIB) (m : MacData M) : MacData M :=
  {| pib := p; radio_requests := radio_requests m; mlme_output := mlme_output m;
     mcps_output := mcps_output m; management := management m; data := data m |}.
Definition set_management {M} (s : MGMT.ManagementService) (m : MacData M) : MacData M :=
  {| pib := pib m; radio_requests := radio_requests m; mlme_output := mlme_output m;
     mcps_output := mcps_output m; management := s; data := data m |}.
Definition set_data {M} (d : DS.DataService M) (m : MacData M) : MacData M :=
  {| pib := pib m; radio_requests := radio_requests m; mlme_output := mlme_output m;
     mcps_output := mcps_output m; management := management m; data := d |}.

Inductive MacInput :=
| InRadio (r : Radio.RadioResponse)
| InMlmeRequest (r : mlme.Request)
| InMlmeResponse (r : mlme.Response)
| InMcpsRequest (r : mcps.Request)
| InMcpsResponse (r : mcps.Response)
| InManagement (a : MGMT.ManagementServiceAction)
| InData (a : DS.DataServiceAction).

(** What the environment does during one step: the polling context and the orders the
    hash maps iterate in; the unique key, timer and random numbers handed out to the
    handler; what the input streams are polled with; what becomes of a request to the radio;
    and whether the clients' receiving ends are dropped. *)
Record MacEnv := {
  env_cx : Context;
  env_param_order : IterOrder RawRadioParam;
  env_dest_order : IterOrder (option FullAddress);
  env_fuel : nat;
  env_key : UniqueKey;
  env_timer : N;
  env_random_bsn : u8;
  env_random_dsn : u8;
  env_radio : Poll (option Radio.RadioResponse);
  env_mlme : Poll (option mlme.Input);
  env_mcps : Poll (option mcps.Input);
  env_radio_requests : Receiver;
  env_mlme_closed : bool;
  env_mcps_closed : bool;
}.

Section mac.
Context {M : Type} `{!BiMap mcps.MsduHandle UniqueKey M, !BitRange}.

(** [MacData::new], given the random sequence numbers of [PIB::new]. *)
Definition MacData_new (random_bsn random_dsn : u8) (radio : SyncRadio) :
    exec (MacData M * list (option Radio.RadioResponse)) :=
  '(extended_address, radio) ← await_unwrap (get_param_u64 LongAddress radio);
  '(max_tx_power, radio) ← await_unwrap (get_param_u16 TxPowerMax radio);
  '(current_channel, radio) ← await_unwrap (get_param_u16 Channel radio);
  '(_, radio) ← await_unwrap (set_param RxMode (Radio.rx_mode_into MGMT.mac_rx_mode) radio);
  '(_, radio) ← await_unwrap (set_power true radio);
  let pib := PIB_new random_bsn random_dsn (ExtAddr (uint_val extended_address)) current_channel
               max_tx_power in
  Ok ({| pib := pib; radio_requests := requests radio; mlme_output := []; mcps_output := [];
         management := MGMT.new pib; data := DS.new |}, responses radio).

(** [radio_requests.send(x).await.unwrap()] *)
Definition send_request (e : MacEnv) (r : Radio.RadioRequest) (m : MacData M) : exec (MacData M) :=
  await_taken (env_radio_requests e)
    {| pib := pib m; radio_requests := radio_requests m ++ [r]; mlme_output := mlme_output m;
       mcps_output := mcps_output m; management := management m; data := data m |}.
(** [sink.send(x).await.unwrap()] on an unbounded channel *)
Definition send_mlme (e : MacEnv) (o : mlme.Output) (m : MacData M) : exec (MacData M) :=
  if env_mlme_closed e then Err Panic
  else Ok {| pib := pib m; radio_requests := radio_requests m; mlme_output := mlme_output m ++ [o];
             mcps_output := mcps_output m; management := management m; data := data m |}.
Definition send_mcps (e : MacEnv) (o : mcps.Output) (m : MacData M) : exec (MacData M) :=
  if env_mcps_closed e then Err Panic
  else Ok {| pib := pib m; radio_requests := radio_requests m; mlme_output := mlme_output m;
             mcps_output := mcps_output m ++ [o]; management := management m; data := data m |}.

(** [poll_next_input] *)
Definition poll_next_input (e : MacEnv) (m : MacData M) : exec (Poll MacInput * MacData M) :=
  match MGMT.poll_action (env_param_order e) (env_cx e) (management m) with
  | (Ready x, s) => Ok (Ready (InManagement x), set_management s m)
  | (Pending, s) =>
      let m := set_management s m in
      '(r, p, d) ← DS.poll_action (env_fuel e) (env_dest_order e) (env_cx e) (pib m) (data m);
      let m := set_data d (set_pib p m) in
      match r with
      | Ready x => Ok (Ready (InData x), m)
      | Pending =>
          match env_radio e with
          | Ready x => x ← unwrap x; Ok (Ready (InRadio x), m)
          | Pending =>
              match env_mlme e with
              | Ready x =>
                  x ← unwrap x;
                  Ok (Ready (match x with
                             | mlme.InRequest x => InMlmeRequest x
                             | mlme.InResponse x => InMlmeResponse x
                             end), m)
              | Pending =>
                  match env_mcps e with
                  | Ready x =>
                      x ← unwrap x;
                      Ok (Ready (match x with
                                 | mcps.InRequest x => InMcpsRequest x
                                 | mcps.InResponse x => InMcpsResponse x
                                 end), m)
                  | Pending => Ok (Pending, m)
                  end
              end
          end
      end
  end.

(** ** The handlers *)

Definition send_frame (e : MacEnv) (key : UniqueKey) (f : Frame) (m : MacData M) : exec (MacData M) :=
  match Frame_pack f vec_new with
  | Ok t => send_request e (Radio.ReqSendPacket key (vec t)) m
  | Err _ => Err Panic
  end.

Definition process_management (e : MacEnv) (action : MGMT.ManagementServiceAction) (m : MacData M) :
    exec (MacData M) :=
  match action with
  | MGMT.SetParam k p v => send_request e (Radio.ReqSetParam k p v) m
  | MGMT.SendFrame f => send_frame e (env_key e) f m
  end.

Definition process_data (e : MacEnv) (action : DS.DataServiceAction) (m : MacData M) :
    exec (MacData M) :=
  match action with
  | DS.InitPendingTable key => send_request e (Radio.ReqInitPendingDataTable key) m
  | DS.SetPendingShort key index value =>
      send_request e (Radio.ReqSetPendingShort key index
        ((fun pa => (Uint (panid (fst pa)), Uint (short_address (snd pa)))) <$> value)) m
  | DS.SetPendingExtended key index value =>
      send_request e (Radio.ReqSetPendingExtended key index
        ((fun a => Uint (extended_address a)) <$> value)) m
  | DS.SendFrame key frame => send_frame e key frame m
  | DS.Confirm confirm => send_mcps e (mcps.OutConfirm confirm) m
  end.

Definition process_mlme_request (e : MacEnv) (request : mlme.Request) (m : MacData M) :
    exec (MacData M) :=
  let '(confirm, p, d, s) :=
    MGMT.process_mlme_request (env_random_bsn e) (env_random_dsn e) (pib m) (data m) request
      (management m) in
  let m := set_management s (set_data d (set_pib p m)) in
  match confirm with
  | Some confirm => send_mlme e (mlme.OutConfirm confirm) m
  | None => Ok m
  end.

Definition process_mcps_request (e : MacEnv) (request : mcps.Request) (m : MacData M) :
    exec (MacData M) :=
  let '(confirm, d) :=
    DS.process_mcps_request (pib m) (env_dest_order e) (env_key e) (env_timer e) request (data m) in
  let m := set_data d m in
  match confirm with
  | Some confirm => send_mcps e (mcps.OutConfirm confirm) m
  | None => Ok m
  end.

Definition process_mlme_response (e : MacEnv) (response : mlme.Response) (m : MacData M) : MacData M :=
  set_data (MGMT.process_mlme_response (env_key e) (env_timer e) (pib m) response (data m)) m.

Definition process_mcps_response (response : mcps.Response) (m : MacData M) : MacData M :=
  set_data (DS.process_mcps_response response (data m)) m.

Definition process_radio_packet (e : MacEnv) (packet : Radio.RadioPacket) (m : MacData M) :
    exec (MacData M) :=
  '(frame, _) ← unwrap_result (Frame_unpack (Radio.packet_data packet));
  let '(indication, p, s) := MGMT.process_frame (pib m) frame (management m) in
  let m := set_management s (set_pib p m) in
  m ← match indication with
      | Some indication => send_mlme e (mlme.OutIndication indication) m
      | None => Ok m
      end;
  Ok (set_data (DS.process_frame (pib m) frame (data m)) m).

Definition process_radio_send_result (e : MacEnv) (key : UniqueKey)
    (result : result Radio.RadioError unit) (m : MacData M) : MacData M :=
  set_data (DS.process_send_result (env_timer e) key (is_ok result) (data m)) m.

Definition process_radio_response (e : MacEnv) (response : Radio.RadioResponse) (m : MacData M) :
    exec (MacData M) :=
  match response with
  | Radio.RespInitPendingDataTable x r =>
      Ok (set_data (DS.process_init_pending_table_result x (is_ok r) (data m)) m)
  | Radio.RespSetPendingShort k r | Radio.RespSetPendingExtended k r =>
      d ← DS.process_set_pending_result k (is_ok r) (data m); Ok (set_data d m)
  | Radio.RespSetParam k _ r =>
      Ok (set_management (MGMT.process_set_param_result k (is_ok r) (management m)) m)
  | Radio.RespOnPacket packet => process_radio_packet e packet m
  | Radio.RespSendPacket k r => Ok (process_radio_send_result e k r m)
  | _ => Ok m
  end.

(** One round of the loop of [process]. *)
Definition process_input (e : MacEnv) (i : MacInput) (m : MacData M) : exec (MacData M) :=
  match i with
  | InManagement x => process_management e x m
  | InData x => process_data e x m
  | InMlmeRequest x => process_mlme_request e x m
  | InMlmeResponse x => Ok (process_mlme_response e x m)
  | InRadio x => process_radio_response e x m
  | InMcpsRequest x => process_mcps_request e x m
  | InMcpsResponse x => Ok (process_mcps_response x m)
  end.

(** A round of the loop of [process], with the wait for the radio's service if it sends a
    request; the input handled is part of the result. *)
Definition process_step (e : MacEnv) (m : MacData M) : exec (option MacInput * MacData M) :=
  '(r, m) ← poll_next_input e m;
  match r with
  | Pending => Ok (None, m)
  | Ready i => m ← process_input e i m; Ok (Some i, m)
  end.
End mac.

End MAC.
