(* ===== verification/MacServiceTheory.v ===== *)
(** * Theory of the MAC service

    What the queues hold, what can come of a step in any environment, and what becomes of
    the clients' handles. *)

From Stdlib Require Import ZArith Lia.
From S2P Require Import RadioRaw Radio.
From S2P Require Import Prelude Pack BitField Frame FrameTheory Async Pib Services.
From S2P Require Import PendingTable CombinedPendingTable CombinedPendingTableTheory.
From S2P Require Import DeviceQueue DeviceQueueTheory BiMap DataService DataServiceTheory.
From S2P Require Import Management ManagementTheory MacService.

#[local] Open Scope Z_scope.

Import MAC.

(** ** What the queues hold *)

Abbreviation queue_map := (gmap (option FullAddress) DQ.DeviceQueue).

(** Every queued request has the property, which may speak of its queue's destination. *)
Definition contents (P : option FullAddress -> DataRequest -> Prop) (qs : queue_map) : Prop :=
  forall d q r, qs !! d = Some q -> r ∈ DQ.data <$> DQ.entries q -> P d r.

Lemma not_queued_contents qs k : ~ queued qs k <-> contents (fun _ r => dr_key r <> k) qs.
Proof.
  split.
  - intros Hn d q r Hq Hr <-. apply Hn. exists d, q. split; [done|]. rewrite keys_data.
    by apply list_elem_of_fmap_2.
  - intros Hc (d & q & Hq & Hk). rewrite keys_data in Hk.
    apply list_elem_of_fmap in Hk as (r & -> & Hr). by eapply Hc.
Qed.

Lemma contents_same P qs qs' : all_same qs qs' -> contents P qs -> contents P qs'.
Proof.
  intros Ha Hc d q r Hq Hr. specialize (Ha d). rewrite Hq in Ha. inversion Ha as [q0 ? Hs E0|]; subst.
  destruct Hs as (Hs & _). rewrite Hs in Hr. by eapply Hc.
Qed.

Lemma contents_insert P qs d q :
  contents P qs -> (forall r, r ∈ DQ.data <$> DQ.entries q -> P d r) -> contents P (<[d := q]> qs).
Proof. intros Hc Hq d' q' r [[<- <-]|[_ Hl]]%lookup_insert_Some Hr; [by apply Hq|by eapply Hc]. Qed.

Lemma contents_delete P qs d : contents P qs -> contents P (delete d qs).
Proof. intros Hc d' q r [_ Hl]%lookup_delete_Some Hr. by eapply Hc. Qed.

Lemma contents_fmap P qs (f : DQ.DeviceQueue -> DQ.DeviceQueue) :
  (forall q, same q (f q)) -> contents P qs -> contents P (f <$> qs).
Proof.
  intros Hf. apply contents_same. intros d. rewrite lookup_fmap. destruct (qs !! d); constructor. apply Hf.
Qed.

Lemma poll_next_contents p cx q r p' q' :
  DQ.poll_next_action p cx q = (r, p', q') ->
  (forall x, x ∈ DQ.data <$> DQ.entries q' -> x ∈ DQ.data <$> DQ.entries q) /\
  (forall k f, r = Ready (DQ.SendFrame k f) ->
     exists x, x ∈ DQ.data <$> DQ.entries q /\ frame_type f = dr_content x).
Proof.
  intros Hp. pose proof (poll_cases p cx q) as Ho. rewrite Hp in Ho.
  inversion Ho as [b Hl Hb|Ee|e rest b a f Ee Es Hb Hd Hf|e rest x Ee Hs|q0 Hw Ht|q0 i e Hw He Hx];
    subst; cbn; split; try (by intros); try done.
  - intros k f' [= <- <-]. exists (DQ.data e). rewrite Ee. split; [by left|done].
  - intros x' Hin. rewrite Ee. by right.
  - apply waits_data in Hw as [-> _]. done.
  - apply waits_data in Hw as [Hw _]. intros x' Hin. rewrite <- Hw.
    assert (x' ∈ DQ.data <$> delete i (DQ.entries q0)) as (e' & -> & Hin')%list_elem_of_fmap.
    { by destruct (decide (i = 0%nat)). }
    apply list_elem_of_fmap_2. eapply elem_of_submseteq; [exact Hin'|].
    by apply sublist_submseteq, sublist_delete.
Qed.

Section contents_ops.
Context {M : Type} `{!BiMap mcps.MsduHandle UniqueKey M}.

Lemma poll_action_contents P fuel ord cx p (s : DS.DataService M) r p' s' :
  contents P (DS.queues s) -> DS.poll_action fuel ord cx p s = Ok (r, p', s') ->
  contents P (DS.queues s') /\
  (forall k f, r = Ready (DS.SendFrame k f) -> exists d x, P d x /\ frame_type f = dr_content x).
Proof.
  revert p s. induction fuel as [|fuel IH]; intros p s Hc; [done|]. cbn [DS.poll_action].
  destruct (CPT.poll_action cx (DS.pending_table s)) as [[x|] t].
  { intros [= <- <- <-]. split; [done|]. by destruct x. }
  pose proof (poll_queues_spec cx (ord fuel (DS.destinations (DS.set_table t s))) p
    (DS.queues (DS.set_table t s))) as Hq.
  destruct (DS.poll_queues cx _ p _) as [[o p1] qs1]. destruct Hq as (qs0 & Ha & Hr).
  pose proof (contents_same P _ _ Ha Hc) as Hc0.
  destruct o as [[d x]|].
  2:{ destruct Hr as [-> _]. cbn. by intros [= <- <- <-]. }
  destruct Hr as (p0 & q & q' & Hd & Hp & ->).
  destruct (poll_next_contents _ _ _ _ _ _ Hp) as [Hs Hf].
  assert (contents P (<[d := q']> qs0)) as Hc1.
  { apply contents_insert; [done|]. intros y Hy. eapply Hc0; [exact Hd|by apply Hs]. }
  destruct x as [|b|k f|k res].
  - apply IH. by apply contents_delete.
  - destruct (CPT.set _ _ _) as [t'|]; [|done]. by apply IH.
  - intros [= <- <- <-]. split; [done|]. intros k' f' [= <- <-].
    destruct (Hf k f eq_refl) as (y & Hy & ->). exists d, y. split; [by eapply Hc0|done].
  - cbn [DS.msdu_handles DS.set_queues]. destruct (bm_remove_by_right _ _) as [[[h k']|] m].
    + intros [= <- <- <-]. by split.
    + by apply IH.
Qed.

Lemma insert_contents P p t r (s : DS.DataService M) :
  contents P (DS.queues s) -> P (dr_destination r) r -> contents P (DS.queues (DS.insert p t r s)).
Proof.
  intros Hc Hr.
  assert (forall q x, x ∈ DQ.data <$> DQ.entries (snd (DQ.insert p t r q)) ->
    x = r \/ x ∈ DQ.data <$> DQ.entries q) as Hi.
  { intros q x. unfold DQ.insert. destruct (DQ.contains _ _); [by right|]. cbn.
    rewrite fmap_app, elem_of_app. intros [?|Hx]; [by right|]. left. by apply list_elem_of_singleton in Hx. }
  unfold DS.insert. destruct (DS.queues s !! dr_destination r) as [q|] eqn:Eq;
    cbn [DS.queues DS.set_queues DS.set_waker];
    apply contents_insert; try done; intros x [->|Hx]%Hi; try done.
  - by eapply Hc.
  - by apply elem_of_nil in Hx.
Qed.

Lemma remove_contents P ord k (s : DS.DataService M) :
  contents P (DS.queues s) -> contents P (DS.queues (snd (DS.remove ord k s))).
Proof.
  intros Hc. unfold DS.remove.
  destruct (remove_loop_spec k (ord 0%nat (DS.destinations s)) (DS.queues s)) as [[-> _]|(d & q & Hd & _ & ->)];
    cbn; [done|]. apply contents_insert; [done|]. intros x Hx. eapply Hc; [exact Hd|].
  revert Hx. unfold DQ.remove.
  assert (forall (b : bool) (y : DQ.DeviceQueue), DQ.entries (if b then DQ.set_state (DQ.Idle false) y else y)
    = DQ.entries y) as Hb by by intros [].
  destruct (_ || _); cbn; rewrite Hb; cbn; intros (e & -> & [_ He]%list_elem_of_filter)%list_elem_of_fmap;
    by apply list_elem_of_fmap_2.
Qed.

Lemma frame_contents P p f (s : DS.DataService M) :
  contents P (DS.queues s) -> contents P (DS.queues (DS.process_frame p f s)).
Proof.
  intros Hc. unfold DS.process_frame. destruct (frame_type f) as [| |pl|c| | | |]; try done.
  - cbn. apply contents_fmap; [|done]. intros q. apply acknowledge_same.
  - destruct c; try done. unfold DS.process_frame_data_request. case_decide; [|done].
    destruct (DS.queues s !! source f) as [q|] eqn:Hq; [|done]. cbn.
    eapply contents_same; [|exact Hc]. by apply all_same_insert with q, datarequest_same.
Qed.

Lemma mcps_contents P p ord key t r (s : DS.DataService M) :
  contents P (DS.queues s) ->
  (forall x, r = mcps.ReqData x -> forall y, dr_key y = key ->
     dr_content y = FTData (MkPayload (mcps.msdu x)) -> P (dr_destination y) y) ->
  contents P (DS.queues (snd (DS.process_mcps_request p ord key t r s))).
Proof.
  intros Hc Hr. destruct r as [r|r]; cbn [DS.process_mcps_request].
  - unfold DS.process_mcps_data_request. cbn [snd DS.set_handles DS.queues].
    apply insert_contents; [done|]. by eapply Hr.
  - unfold DS.process_mcps_purge_request.
    destruct (bm_remove_by_left _ _) as [[[h k]|] m]; cbn [snd]; [by apply remove_contents|done].
Qed.
End contents_ops.

(** ** The invariant *)

Definition in_range (f : Frame) : Prop := beacon_in_range (frame_type f) = true.
(** What a destination's queue may hold: frames for it that can be packed. *)
Definition fits_queue (d : option FullAddress) (r : DataRequest) : Prop :=
  beacon_in_range (dr_content r) = true /\ dr_destination r = d.

Section mac_theory.
Context {M : Type} `{!BiMap mcps.MsduHandle UniqueKey M, !BiMapLaws mcps.MsduHandle UniqueKey M}.
Context `{!BitRange}.

(** The data service is in a state it can reach, what waits to be sent can be packed, and it
    waits in the queue of its destination. *)
Record mac_inv (m : MacData M) : Prop := {
  mi_data : ds_reachable (data m);
  mi_frames : Forall in_range (MGMT.outgoing (management m));
  mi_contents : contents fits_queue (DS.queues (data m));
}.

(** The environment keeps the channels open, does not end the input streams, has the radio's
    service take the requests it is sent, gives the data service enough rounds, and hands
    out unique keys that are not in use. *)
Record env_ok (e : MacEnv) (m : MacData M) : Prop := {
  eo_radio : env_radio_requests e = Takes /\ env_radio e <> Ready None;
  eo_mlme : env_mlme_closed e = false /\ env_mlme e <> Ready None;
  eo_mcps : env_mcps_closed e = false /\ env_mcps e <> Ready None;
  eo_fuel : (total_work (DS.queues (data m)) < env_fuel e)%nat;
  eo_key : ~ queued (DS.queues (data m)) (env_key e);
}.

Definition handle_of (m : MacData M) (h : mcps.MsduHandle) : option UniqueKey :=
  bm_get (DS.msdu_handles (data m)) h.

(** *** Frames of the management service *)

Lemma beacon_request_frames p r s :
  Forall in_range (MGMT.outgoing s) ->
  Forall in_range (MGMT.outgoing (snd (MGMT.process_mlme_beacon_request p r s))).
Proof.
  intros Hs. unfold MGMT.process_mlme_beacon_request. destruct (_ || _) eqn:E; [done|]. cbn.
  apply Forall_app. split; [done|]. apply Forall_singleton.
  apply orb_false_iff in E as [[E%negb_false_iff%Nat.eqb_eq _]%orb_false_iff _].
  unfold in_range. cbn. by rewrite E.
Qed.

Lemma mlme_request_frames bsn dsn p (d : DS.DataService M) r s :
  Forall in_range (MGMT.outgoing s) ->
  Forall in_range (MGMT.outgoing (snd (MGMT.process_mlme_request bsn dsn p d r s))).
Proof.
  intros Hs. destruct r as [r|r|r|r|r]; cbn [MGMT.process_mlme_request].
  - cbn. unfold MGMT.new. by rewrite updates_outgoing.
  - unfold MGMT.process_mlme_start_request. case_decide; [done|]. destruct (_ || _); [done|]. cbn.
    by rewrite updates_outgoing.
  - pose proof (beacon_request_frames p r s Hs) as Hb.
    by destruct (MGMT.process_mlme_beacon_request p r s) as [[? ?] ?].
  - done.
  - unfold MGMT.process_mlme_set_request. destruct (PIB_set _ _ p). cbn. by rewrite updates_outgoing.
Qed.

Lemma process_frame_frames p f s :
  Forall in_range (MGMT.outgoing s) -> Forall in_range (MGMT.outgoing (snd (MGMT.process_frame p f s))).
Proof.
  intros Hs. unfold MGMT.process_frame, MGMT.process_frame_beacon_request.
  destruct (frame_type f) as [| | |[| | |]| | | |]; try done.
  destruct (mac_beacon_auto_respond p); [|done].
  match goal with |- context [MGMT.process_mlme_beacon_request p ?r s] =>
    pose proof (beacon_request_frames p r s Hs) as Hb;
    destruct (MGMT.process_mlme_beacon_request p r s) as [[? ?] ?] end.
  exact Hb.
Qed.

Lemma report_frames k b s :
  MGMT.outgoing (MGMT.process_set_param_result k b s) = MGMT.outgoing s.
Proof. unfold MGMT.process_set_param_result. by destruct (existsb _ _). Qed.

(** An MLME request leaves the data service alone or resets it. *)
Lemma mlme_request_data bsn dsn p (d : DS.DataService M) r s :
  snd (fst (MGMT.process_mlme_request bsn dsn p d r s)) =
    match r with mlme.ReqReset _ => DS.new | _ => d end.
Proof.
  destruct r as [r|r|r|r|r]; try done; cbn [MGMT.process_mlme_request].
  - by destruct (MGMT.process_mlme_start_request p r s) as [[? ?] ?].
  - by destruct (MGMT.process_mlme_beacon_request p r s) as [[? ?] ?].
  - by destruct (MGMT.process_mlme_set_request p r s) as [[? ?] ?].
Qed.

(** ** Polling *)

(** What is known of the input a poll delivers, beside the state it leaves. *)
Definition polled (e : MacEnv) (m : MacData M) (r : Poll MacInput) (m' : MacData M) : Prop :=
  mcps_output m' = mcps_output m /\ ~ queued (DS.queues (data m')) (env_key e) /\
  match r with
  | Ready (InData a) =>
      handles_after (Ready a) (DS.msdu_handles (data m)) (DS.msdu_handles (data m'))
  | _ => forall h, handle_of m' h = handle_of m h
  end /\
  match r with
  | Ready (InManagement (MGMT.SendFrame f)) => in_range f
  | Ready (InData (DS.SendFrame _ f)) => in_range f
  | Ready (InRadio x) => env_radio e = Ready (Some x)
  | _ => True
  end.

(** Every input but the first two comes with a data service that had nothing to do. *)
Lemma poll_next_input_safe e m :
  mac_inv m -> env_ok e m ->
  exists r m', poll_next_input e m = Ok (r, m') /\ mac_inv m' /\ polled e m r m'.
Proof.
  intros [Hd Hf Hc] [Hor Hol Hop Hfu Hk]. unfold poll_next_input.
  destruct (MGMT.poll_action (env_param_order e) (env_cx e) (management m)) as [r s] eqn:Em.
  assert (Forall in_range (MGMT.outgoing s) /\ forall f, r = Ready (MGMT.SendFrame f) -> in_range f)
    as [Hs Hrf].
  { destruct (poll_action_cases _ _ _ _ _ Em) as [(q & info & _ & _ & _ & -> & Ho & _)|(_ & _ & _ & Ho)].
    - by rewrite Ho.
    - destruct (MGMT.outgoing (management m)) as [|f fs]; destruct Ho as [-> Ho]; rewrite Ho; [done|].
      apply Forall_cons in Hf as [? ?]. split; [done|]. by intros f' [= <-]. }
  destruct r as [x|].
  { do 2 eexists. split; [reflexivity|]. split; [by split|]. split; [done|]. split; [done|].
    split; [done|]. destruct x; [done|]. by apply Hrf. }
  cbn [pib data set_management].
  destruct (poll_action_result (env_fuel e) (env_dest_order e) (env_cx e) (pib m) (data m)
    (ds_reachable_inv _ Hd) Hfu) as (r & p & d & E & _ & Hh & _).
  rewrite E. cbn [mbind result_bind].
  pose proof (poll_action_contents fits_queue _ _ _ _ _ _ _ _ Hc E) as [Hc' Hrc].
  apply not_queued_contents in Hk. pose proof (poll_action_contents _ _ _ _ _ _ _ _ _ Hk E) as [Hk' _].
  apply not_queued_contents in Hk'.
  assert (mac_inv (set_data d (set_pib p (set_management s m)))) as Hi.
  { split; [|done|done]. eapply rtc_r; [exact Hd|]. eapply DataServiceTheory.step_poll; [exact E|done]. }
  destruct r as [a|].
  { do 2 eexists. split; [reflexivity|]. split; [done|]. split; [done|]. split; [done|]. split; [done|].
    destruct a; try done. destruct (Hrc _ _ eq_refl) as (? & x & [Hx _] & Ef). unfold in_range. by rewrite Ef. }
  assert (forall r, match r with
    | Ready (InManagement (MGMT.SendFrame f)) => in_range f
    | Ready (InData (DS.SendFrame _ f)) => in_range f
    | Ready (InRadio x) => env_radio e = Ready (Some x)
    | _ => True
    end -> match r with Ready (InData _) => False | _ => True end ->
    polled e m r (set_data d (set_pib p (set_management s m)))) as Hp.
  { intros r H1 H2. split; [done|]. split; [done|]. split; [|done]. by destruct r as [[]|]. }
  destruct (env_radio e) as [[x|]|] eqn:Er; [|by destruct Hor|].
  { do 2 eexists. split; [reflexivity|]. split; [done|]. by apply Hp. }
  destruct (env_mlme e) as [[x|]|] eqn:El; [|by destruct Hol|].
  { do 2 eexists. split; [reflexivity|]. split; [done|]. by destruct x; apply Hp. }
  destruct (env_mcps e) as [[x|]|] eqn:Ep; [|by destruct Hop|].
  { do 2 eexists. split; [reflexivity|]. split; [done|]. by destruct x; apply Hp. }
  do 2 eexists. split; [reflexivity|]. split; [done|]. by apply Hp.
Qed.

(** ** Handling an input *)

(** The one thing no radio should do. *)
Definition malformed (i : MacInput) : Prop :=
  exists packet err, i = InRadio (Radio.RespOnPacket packet) /\
    Frame_unpack (Radio.packet_data packet) = Err err.

(** What handling an input does for the clients of the data service. *)
Definition handled (e : MacEnv) (i : MacInput) (m m' : MacData M) : Prop :=
  match i with
  | InData (DS.Confirm c) =>
      mcps_output m' = mcps_output m ++ [mcps.OutConfirm c] /\ forall h, handle_of m' h = handle_of m h
  | InMcpsRequest (mcps.ReqData r) =>
      mcps_output m' = mcps_output m /\
      forall h, handle_of m' h =
        if decide (h = mcps.msdu_handle r) then Some (env_key e) else handle_of m h
  | InMcpsRequest (mcps.ReqPurge r) =>
      mcps_output m' = mcps_output m ++ [mcps.OutConfirm (mcps.ConfPurge (mcps.MkPurgeConfirm
        (mcps.purge_handle r)
        (if handle_of m (mcps.purge_handle r) is Some _ then Ok tt else Err InvalidHandle)))] /\
      forall h, handle_of m' h = if decide (h = mcps.purge_handle r) then None else handle_of m h
  | InMlmeRequest (mlme.ReqReset _) =>
      mcps_output m' = mcps_output m /\ forall h, handle_of m' h = None
  | _ => mcps_output m' = mcps_output m /\ forall h, handle_of m' h = handle_of m h
  end.

Definition channels_open (e : MacEnv) : Prop :=
  env_radio_requests e = Takes /\ env_mlme_closed e = false /\ env_mcps_closed e = false.

Lemma send_frame_safe e k f (m : MacData M) :
  channels_open e -> in_range f ->
  exists m', send_frame e k f m = Ok m' /\ data m' = data m /\ management m' = management m /\
    mcps_output m' = mcps_output m.
Proof.
  intros (Ho & _) Hf. unfold send_frame. destruct (Frame_pack_vec_ok f Hf) as [bs ->].
  unfold send_request. rewrite Ho. eauto.
Qed.

Lemma inv_of_parts (m m' : MacData M) :
  data m' = data m -> management m' = management m -> mac_inv m -> mac_inv m'.
Proof. intros Hd Hm [? ? ?]. split; by rewrite ?Hd, ?Hm. Qed.

Lemma handles_of_data (m m' : MacData M) :
  data m' = data m -> forall h, handle_of m' h = handle_of m h.
Proof. intros Hd h. unfold handle_of. by rewrite Hd. Qed.

Lemma process_management_safe e a m :
  mac_inv m -> channels_open e -> (forall f, a = MGMT.SendFrame f -> in_range f) ->
  exists m', process_management e a m = Ok m' /\ mac_inv m' /\ handled e (InManagement a) m m'.
Proof.
  intros I Ho Hf. destruct a as [k q v|f]; cbn [process_management].
  - unfold send_request. destruct Ho as (-> & _). eexists. split; [done|]. split; [by apply (inv_of_parts m)|].
    by split.
  - destruct (send_frame_safe e (env_key e) f m Ho (Hf f eq_refl)) as (m' & -> & Hd & Hm & Hc).
    exists m'. split; [done|]. split; [by apply (inv_of_parts m)|]. split; [done|by apply handles_of_data].
Qed.

Lemma process_data_safe e a m :
  mac_inv m -> channels_open e -> (forall k f, a = DS.SendFrame k f -> in_range f) ->
  exists m', process_data e a m = Ok m' /\ mac_inv m' /\ handled e (InData a) m m'.
Proof.
  intros I Ho Hf. destruct a as [k|k i v|k i v|k f|c]; cbn [process_data].
  4: { destruct (send_frame_safe e k f m Ho (Hf k f eq_refl)) as (m' & -> & Hd & Hm & Hc).
       exists m'. split; [done|]. split; [by apply (inv_of_parts m)|]. split; [done|by apply handles_of_data]. }
  all: unfold send_request, send_mcps; destruct Ho as (Hr & _ & Hp);
    rewrite ?Hr, ?Hp; eexists; (split; [done|]);
    (split; [by apply (inv_of_parts m)|by split]).
Qed.

Lemma process_mlme_request_safe e r m :
  mac_inv m -> channels_open e ->
  exists m', process_mlme_request e r m = Ok m' /\ mac_inv m' /\ handled e (InMlmeRequest r) m m'.
Proof.
  intros [Hd Hf Hc] (_ & Ho & _). unfold process_mlme_request.
  pose proof (mlme_request_frames (env_random_bsn e) (env_random_dsn e) (pib m) (data m) r
    (management m) Hf) as Hf'.
  pose proof (mlme_request_data (env_random_bsn e) (env_random_dsn e) (pib m) (data m) r
    (management m)) as Hd'.
  destruct (MGMT.process_mlme_request _ _ _ _ _ _) as [[[c p] d] s]. cbn [snd fst] in *.
  set (m1 := set_management s (set_data d (set_pib p m))).
  assert (mac_inv m1 /\ handled e (InMlmeRequest r) m m1) as [I H1].
  { subst d. unfold handled, handle_of, m1. cbn. split.
    - split; cbn; [|done|].
      + destruct r; [apply rtc_refl|done..].
      + destruct r; [|done..]. intros d q x Hq. cbn in Hq. by rewrite lookup_empty in Hq.
    - destruct r; try (by split). split; [done|]. intros h. cbn. apply bm_get_new. }
  destruct c as [c|]; [|by eauto]. unfold send_mlme. rewrite Ho. eexists. split; [done|].
  split; [by apply (inv_of_parts m1)|exact H1].
Qed.

Lemma process_mlme_response_safe e r m :
  mac_inv m -> ~ queued (DS.queues (data m)) (env_key e) ->
  mac_inv (process_mlme_response e r m) /\ handled e (InMlmeResponse r) m (process_mlme_response e r m).
Proof.
  intros [Hd Hf Hc] Hk. destruct r as [a fast status]. unfold process_mlme_response.
  cbn [MGMT.process_mlme_response]. unfold MGMT.process_mlme_associate_response. cbv zeta.
  match goal with |- context [DS.insert (pib m) (env_timer e) ?r (data m)] =>
    destruct (inv_insert (data m) (pib m) (env_timer e) r (ds_reachable_inv _ Hd) Hk) as (_ & _ & Hm);
    pose proof (insert_contents fits_queue (pib m) (env_timer e) r (data m) Hc ltac:(done)) as Hi end.
  split.
  - split; [|done|done]. cbn. by eapply rtc_r, step_insert.
  - split; [done|]. intros h. unfold handle_of. cbn. by rewrite Hm.
Qed.

Lemma process_mcps_request_safe e r m :
  mac_inv m -> channels_open e -> ~ queued (DS.queues (data m)) (env_key e) ->
  exists m', process_mcps_request e r m = Ok m' /\ mac_inv m' /\ handled e (InMcpsRequest r) m m'.
Proof.
  intros [Hd Hf Hc] (_ & _ & Ho) Hk. unfold process_mcps_request.
  pose proof (step_mcps_request (pib m) (env_dest_order e) (env_key e) (env_timer e) r (data m) Hk) as Hst.
  pose proof (mcps_contents fits_queue (pib m) (env_dest_order e) (env_key e) (env_timer e) r (data m) Hc)
    as Hc'.
  assert (contents fits_queue (DS.queues (snd (DS.process_mcps_request (pib m) (env_dest_order e)
    (env_key e) (env_timer e) r (data m))))) as Hc''.
  { apply Hc'. intros x -> y _ Hy. unfold fits_queue. by rewrite Hy. }
  clear Hc'. pose proof (ds_reachable_inv _ Hd) as I.
  destruct r as [r|r]; cbn [DS.process_mcps_request] in *.
  - unfold DS.process_mcps_data_request in *. cbn [snd] in *.
    match goal with |- context [DS.insert (pib m) (env_timer e) ?x (data m)] =>
      destruct (inv_insert (data m) (pib m) (env_timer e) x I Hk) as (_ & _ & Hm) end.
    eexists. split; [reflexivity|]. split; [split; [by eapply rtc_r|done|done]|].
    split; [done|]. intros h. unfold handle_of. cbn [data set_data DS.msdu_handles DS.set_handles].
    rewrite bm_get_insert, Hm. case_decide; [done|]. case_decide as Hg; [|done].
    destruct Hk. by eapply ds_handles.
  - pose proof (purge_spec (data m) (env_dest_order e) r I) as Hp.
    destruct (DS.process_mcps_purge_request (env_dest_order e) r (data m)) as [c d]. cbn [snd] in *.
    destruct Hp as (_ & Hh & Hr). unfold send_mcps. rewrite Ho. eexists. split; [reflexivity|].
    split; [split; [by eapply rtc_r|done|done]|]. split; [|exact Hh].
    cbn [mcps_output set_data]. unfold handle_of.
    destruct (bm_get (DS.msdu_handles (data m)) (mcps.purge_handle r)); destruct Hr as [-> _]; done.
Qed.

Lemma fmap_contents_inv m d :
  mac_inv m -> ds_step (data m) d -> contents fits_queue (DS.queues d) -> mac_inv (set_data d m).
Proof. intros [Hd Hf Hc] Hs Hc'. split; [by eapply rtc_r|done|done]. Qed.

Lemma process_frame_handles p f (d : DS.DataService M) :
  DS.msdu_handles (DS.process_frame p f d) = DS.msdu_handles d.
Proof.
  unfold DS.process_frame, DS.process_frame_data_request. repeat case_match; done.
Qed.

Lemma process_radio_packet_safe e packet m :
  mac_inv m -> channels_open e ->
  (exists m', process_radio_packet e packet m = Ok m' /\ mac_inv m' /\
     handled e (InRadio (Radio.RespOnPacket packet)) m m') \/
  (process_radio_packet e packet m = Err Panic /\ malformed (InRadio (Radio.RespOnPacket packet))).
Proof.
  intros [Hd Hf Hc] (_ & Ho & _). unfold process_radio_packet.
  destruct (Frame_unpack (Radio.packet_data packet)) as [[f rest]|err] eqn:Eu.
  2: { right. split; [done|]. by exists packet, err. }
  left. cbn [unwrap_result mbind result_bind].
  pose proof (process_frame_frames (pib m) f (management m) Hf) as Hf'.
  destruct (MGMT.process_frame (pib m) f (management m)) as [[i p] s]. cbn [snd] in Hf'.
  set (m1 := set_management s (set_pib p m)).
  assert (exists m2, match i with Some i => send_mlme e (mlme.OutIndication i) m1 | None => Ok m1 end = Ok m2 /\
    data m2 = data m /\ management m2 = s /\ mcps_output m2 = mcps_output m) as (m2 & -> & E1 & E2 & E3).
  { destruct i; [|by eexists]. unfold send_mlme. rewrite Ho. by eexists. }
  cbn [mbind result_bind]. eexists. split; [reflexivity|].
  assert (mac_inv m2) as I2 by (split; rewrite ?E1, ?E2; done).
  split.
  - apply fmap_contents_inv; [done|apply DataServiceTheory.step_frame|]. by apply frame_contents; rewrite E1.
  - split; [done|]. intros h. unfold handle_of. cbn [data set_data]. by rewrite process_frame_handles, E1.
Qed.

Lemma process_radio_response_safe e r m :
  mac_inv m -> channels_open e ->
  (exists m', process_radio_response e r m = Ok m' /\ mac_inv m' /\ handled e (InRadio r) m m') \/
  (process_radio_response e r m = Err Panic /\ malformed (InRadio r)).
Proof.
  intros I Ho.
  assert (forall k b, exists d, DS.process_set_pending_result k b (data m) = Ok d /\
    DS.queues d = DS.queues (data m) /\ DS.msdu_handles d = DS.msdu_handles (data m)) as Hp.
  { intros k b. unfold DS.process_set_pending_result.
    destruct (cpt_report_update_ok k b _ (ds_table _ (ds_reachable_inv _ (mi_data m I)))) as (t & -> & _).
    by eexists. }
  destruct r as [k q r|k q r|k r|k b r|k r|packet|k r|k r]; cbn [process_radio_response].
  - left. eexists. split; [reflexivity|]. split; [|by split]. destruct I as [Hd Hf Hc].
    split; [done| |done]. cbn. by rewrite report_frames.
  - left. eexists. split; [reflexivity|]. by split.
  - left. eexists. split; [reflexivity|]. split; [|by split].
    apply fmap_contents_inv; [done|apply step_init_result|apply I].
  - left. eexists. split; [reflexivity|]. by split.
  - left. eexists. split; [reflexivity|]. split; [|by split].
    apply fmap_contents_inv; [done|apply step_send_result|].
    apply contents_fmap; [intros x; apply send_result_same|apply I].
  - by apply process_radio_packet_safe.
  - left. destruct (Hp k (is_ok r)) as (d & E & Hq & Hh). rewrite E. cbn [mbind result_bind].
    eexists. split; [reflexivity|]. split.
    + apply fmap_contents_inv; [done|by eapply step_set_pending_result|]. rewrite Hq. apply I.
    + split; [done|]. intros h. unfold handle_of. cbn. by rewrite Hh.
  - left. destruct (Hp k (is_ok r)) as (d & E & Hq & Hh). rewrite E. cbn [mbind result_bind].
    eexists. split; [reflexivity|]. split.
    + apply fmap_contents_inv; [done|by eapply step_set_pending_result|]. rewrite Hq. apply I.
    + split; [done|]. intros h. unfold handle_of. cbn. by rewrite Hh.
Qed.

Lemma process_input_safe e i m :
  mac_inv m -> channels_open e -> ~ queued (DS.queues (data m)) (env_key e) ->
  (forall f, i = InManagement (MGMT.SendFrame f) -> in_range f) ->
  (forall k f, i = InData (DS.SendFrame k f) -> in_range f) ->
  (exists m', process_input e i m = Ok m' /\ mac_inv m' /\ handled e i m m') \/
  (process_input e i m = Err Panic /\ malformed i).
Proof.
  intros I Ho Hk H1 H2. destruct i as [r|r|r|r|[]|a|a]; cbn [process_input].
  - by apply process_radio_response_safe.
  - left. by apply process_mlme_request_safe.
  - left. eexists. split; [reflexivity|]. by apply process_mlme_response_safe.
  - left. by apply process_mcps_request_safe.
  - left. apply process_management_safe; [done|done|]. intros f ->. by apply H1.
  - left. apply process_data_safe; [done|done|]. intros k f ->. by eapply H2.
Qed.

(** ** Runs *)

Definition mac_step (m m' : MacData M) : Prop :=
  exists e i, env_ok e m /\ process_step e m = Ok (i, m').

(** From whatever starting up made of the radio's answers. *)
Definition mac_reachable (m : MacData M) : Prop :=
  exists bsn dsn radio m0 rest, MacData_new bsn dsn radio = Ok (m0, rest) /\ rtc mac_step m0 m.

Lemma MacData_new_parts bsn dsn radio m rest :
  MacData_new bsn dsn radio = Ok (m, rest) -> data m = DS.new /\ management m = MGMT.new (pib m).
Proof. unfold MacData_new. intros E. bind_inv. done. Qed.

Lemma new_inv bsn dsn radio m rest : MacData_new bsn dsn radio = Ok (m, rest) -> mac_inv m.
Proof.
  intros (Hd & Hm)%MacData_new_parts. split; rewrite ?Hd, ?Hm.
  - apply rtc_refl.
  - unfold MGMT.new. by rewrite updates_outgoing.
  - intros d q x Hq. cbn in Hq. by rewrite lookup_empty in Hq.
Qed.

(** What a step does for the clients of the data service: only a confirm, a data request, a
    purge and a reset touch the outstanding handles. *)
Definition client_effect (e : MacEnv) (i : option MacInput) (m m' : MacData M) : Prop :=
  match i with
  | Some (InData (DS.Confirm c)) =>
      exists d, c = mcps.ConfData d /\ is_Some (handle_of m (mcps.confirm_handle d)) /\
        mcps_output m' = mcps_output m ++ [mcps.OutConfirm c] /\
        forall h, handle_of m' h = if decide (h = mcps.confirm_handle d) then None else handle_of m h
  | Some i => handled e i m m'
  | None => mcps_output m' = mcps_output m /\ forall h, handle_of m' h = handle_of m h
  end.

Lemma handled_after_poll e i m m1 m' :
  polled e m (Ready i) m1 -> handled e i m1 m' -> client_effect e (Some i) m m'.
Proof.
  intros (Ho & _ & Hh & _) Ha. destruct i as [r|r|r|r|[]|a|a]; cbn [client_effect].
  - cbn in Ha |- *. destruct Ha as [-> Ha]. split; [done|]. intros h. by rewrite Ha.
  - unfold handled in *. rewrite Ho in Ha. destruct r; (split; [apply Ha|intros h]); destruct Ha as [_ Ha];
      rewrite Ha; try apply Hh; done.
  - cbn in Ha |- *. destruct Ha as [-> Ha]. split; [done|]. intros h. by rewrite Ha.
  - unfold handled in *. rewrite Ho in Ha. destruct r as [r|r].
    + destruct Ha as [-> Ha]. split; [done|]. intros h. rewrite Ha. by rewrite Hh.
    + rewrite Hh in Ha. destruct Ha as [-> Ha]. split; [done|]. intros h. rewrite Ha. by rewrite Hh.
  - cbn in Ha |- *. destruct Ha as [-> Ha]. split; [done|]. intros h. by rewrite Ha.
  - destruct a as [k|k x v|k x v|k f|c]; cbn in Hh, Ha |- *; rewrite Ho in Ha; destruct Ha as [Ha1 Ha2];
      try (split; [done|]; intros h; rewrite Ha2; apply Hh).
    destruct c as [c|c]; [|done]. destruct Hh as [Hs Hh]. exists c. split_and!; try done.
    intros h. rewrite Ha2. apply Hh.
Qed.

Lemma process_step_safe e m :
  mac_inv m -> env_ok e m ->
  (exists i m', process_step e m = Ok (i, m') /\ mac_inv m' /\ client_effect e i m m') \/
  (process_step e m = Err Panic /\ exists packet err,
     env_radio e = Ready (Some (Radio.RespOnPacket packet)) /\
     Frame_unpack (Radio.packet_data packet) = Err err).
Proof.
  intros I He. unfold process_step.
  destruct (poll_next_input_safe e m I He) as (r & m1 & -> & I1 & Hp). cbn [mbind result_bind].
  destruct r as [i|].
  2: { left. exists None, m1. split; [done|]. split; [done|]. destruct Hp as (? & _ & ? & _). by split. }
  destruct He as [[H1 _] [H2 _] [H3 _] _ _]. pose proof Hp as (_ & Hk & _ & Hi).
  destruct (process_input_safe e i m1 I1 ltac:(by split_and!) Hk) as [(m' & -> & I' & Hh)|[-> Hm]].
  - intros f ->. exact Hi.
  - intros k f ->. exact Hi.
  - left. exists (Some i), m'. split; [done|]. split; [done|]. by eapply handled_after_poll.
  - right. split; [done|]. destruct Hm as (packet & err & -> & Hu). by exists packet, err.
Qed.

Lemma mac_reachable_inv m : mac_reachable m -> mac_inv m.
Proof.
  intros (bsn & dsn & radio & m0 & rest & E & Hr). pose proof (new_inv _ _ _ _ _ E) as I. clear E.
  induction Hr as [m|m m1 m2 (e & i & He & Hs) _ IH]; [done|]. apply IH.
  destruct (process_step_safe e m I He) as [(i' & m' & E & I' & _)|[E _]]; rewrite Hs in E; [|done].
  by injection E as <- <-.
Qed.

(** *** Environments that fail the MAC

    Every other way in which a step does not end well: a stream has ended, the other end of a
    channel is gone, or the radio's service does not take the request that is sent to it. *)
Definition failing (e : MacEnv) : Prop :=
  env_radio e = Ready None \/ env_mlme e = Ready None \/ env_mcps e = Ready None \/
  env_radio_requests e = Gone \/ env_mlme_closed e = true \/ env_mcps_closed e = true.

Definition still_open {A} (r : Poll (option A)) : Poll (option A) :=
  match r with Ready None => Pending | r => r end.
(** The same environment without its failures *)
Definition opened (e : MacEnv) : MacEnv := {|
  env_cx := env_cx e; env_param_order := env_param_order e; env_dest_order := env_dest_order e;
  env_fuel := env_fuel e; env_key := env_key e; env_timer := env_timer e;
  env_random_bsn := env_random_bsn e; env_random_dsn := env_random_dsn e;
  env_radio := still_open (env_radio e); env_mlme := still_open (env_mlme e);
  env_mcps := still_open (env_mcps e);
  env_radio_requests := Takes; env_mlme_closed := false; env_mcps_closed := false;
|}.

(** The model's share of [env_ok]: rounds enough, and a unique key. *)
Definition env_fair (e : MacEnv) (m : MacData M) : Prop :=
  (total_work (DS.queues (data m)) < env_fuel e)%nat /\ ~ queued (DS.queues (data m)) (env_key e).

Lemma opened_ok e (m : MacData M) : env_fair e m -> env_ok (opened e) m.
Proof.
  assert (forall A (r : Poll (option A)), still_open r <> Ready None) as Hs by by intros A [[]|].
  intros [Hf Hk]. split; [split; [done|apply Hs]..|exact Hf|exact Hk].
Qed.

(** A computation fares as with the opened environment, or fails for a reason. *)
Definition as_opened {A} (e : MacEnv) (x y : exec A) : Prop :=
  x = y \/ (x = Err Panic /\ failing e) \/ (x = Err OutOfFuel /\ env_radio_requests e = TakesNever).

Lemma send_request_opened e r (m : MacData M) : as_opened e (send_request e r m) (send_request (opened e) r m).
Proof. unfold as_opened, failing, send_request. destruct (env_radio_requests e); cbn; tauto. Qed.
Lemma send_mlme_opened e o (m : MacData M) : as_opened e (send_mlme e o m) (send_mlme (opened e) o m).
Proof. unfold as_opened, failing, send_mlme. destruct (env_mlme_closed e); cbn; tauto. Qed.
Lemma send_mcps_opened e o (m : MacData M) : as_opened e (send_mcps e o m) (send_mcps (opened e) o m).
Proof. unfold as_opened, failing, send_mcps. destruct (env_mcps_closed e); cbn; tauto. Qed.
Lemma send_frame_opened e k f (m : MacData M) : as_opened e (send_frame e k f m) (send_frame (opened e) k f m).
Proof. unfold send_frame. destruct (Frame_pack f vec_new); [apply send_request_opened|by left]. Qed.
Lemma as_opened_refl {A} e (x : exec A) : as_opened e x x.
Proof. by left. Qed.
Lemma as_opened_bind {A B} e (x y : exec A) (f g : A -> exec B) :
  as_opened e x y -> (forall a, as_opened e (f a) (g a)) -> as_opened e (x ≫= f) (y ≫= g).
Proof.
  intros [->|[[-> ?]|[-> ?]]] Hf; [|by right; left|by right; right].
  destruct y as [a|]; [exact (Hf a)|by left].
Qed.
Hint Resolve send_request_opened send_mlme_opened send_mcps_opened send_frame_opened
  as_opened_refl as_opened_bind : core.

Lemma poll_next_input_opened e (m : MacData M) :
  as_opened e (poll_next_input e m) (poll_next_input (opened e) m).
Proof.
  unfold poll_next_input. cbn [env_param_order env_cx opened].
  destruct (MGMT.poll_action (env_param_order e) (env_cx e) (management m)) as [[a|] s]; [done|].
  cbn [env_fuel env_dest_order env_cx opened]. apply as_opened_bind; [done|]. intros [[[a|] p] d]; [done|].
  unfold as_opened, failing. cbn [opened env_radio env_mlme env_mcps].
  destruct (env_radio e) as [[r|]|]; cbn; [tauto..|].
  destruct (env_mlme e) as [[r|]|]; cbn; [tauto..|].
  destruct (env_mcps e) as [[r|]|]; cbn; tauto.
Qed.

Lemma process_input_opened e i (m : MacData M) :
  as_opened e (process_input e i m) (process_input (opened e) i m).
Proof.
  destruct i as [r|r|r|r|r|a|a]; cbn [process_input]; try done.
  - destruct r; cbn [process_radio_response]; try done. unfold process_radio_packet.
    apply as_opened_bind; [done|]. intros [f rest]. destruct (MGMT.process_frame _ _ _) as [[i p] s].
    destruct i; eauto.
  - unfold process_mlme_request. cbn [opened env_random_bsn env_random_dsn].
    destruct (MGMT.process_mlme_request _ _ _ _ _ _) as [[[c p] d] s]. destruct c; auto.
  - unfold process_mcps_request. cbn [opened env_dest_order env_key env_timer].
    destruct (DS.process_mcps_request _ _ _ _ _ _) as [c d]. destruct c; auto.
  - destruct a; cbn; auto.
  - destruct a; cbn; auto.
Qed.

Lemma process_step_opened e (m : MacData M) : as_opened e (process_step e m) (process_step (opened e) m).
Proof.
  apply as_opened_bind; [apply poll_next_input_opened|]. intros [[i|] m1]; [|done].
  apply as_opened_bind; [apply process_input_opened|done].
Qed.

(** In any environment a step that succeeds leads to a reachable state. *)
Lemma step_reachable e i m m' :
  mac_reachable m -> env_fair e m -> process_step e m = Ok (i, m') -> mac_reachable m'.
Proof.
  intros (bsn & dsn & radio & m0 & rest & E & Hr) He Hs. exists bsn, dsn, radio, m0, rest. split; [done|].
  eapply rtc_r; [exact Hr|]. exists (opened e), i. split; [by apply opened_ok|].
  destruct (process_step_opened e m) as [<-|[[Hf _]|[Hf _]]]; congruence.
Qed.

(** What can come of a step, in any environment *)
Definition step_outcome (e : MacEnv) (m : MacData M) : Prop :=
  (exists i m', process_step e m = Ok (i, m') /\ mac_reachable m') \/
  (process_step e m = Err Panic /\
     (failing e \/ exists packet err,
        env_radio e = Ready (Some (Radio.RespOnPacket packet)) /\
        Frame_unpack (Radio.packet_data packet) = Err err)) \/
  (process_step e m = Err OutOfFuel /\ env_radio_requests e = TakesNever).

Lemma step_outcomes e m : mac_reachable m -> env_fair e m -> step_outcome e m.
Proof.
  intros Hr He. pose proof (mac_reachable_inv _ Hr) as I. unfold step_outcome.
  destruct (process_step_opened e m) as [E|[[E Hf]|[E Hf]]]; [|by auto..].
  destruct (process_step_safe (opened e) m I (opened_ok _ _ He)) as [(i & m' & E' & _)|[E' Hm]].
  - left. exists i, m'. rewrite <- E in E'. split; [done|]. by eapply step_reachable.
  - right. left. rewrite E. split; [done|]. right. destruct Hm as (packet & err & Hp & Hu).
    exists packet, err. split; [|done]. cbn in Hp. by destruct (env_radio e) as [[]|].
Qed.

(** C10: In every reachable state of the MAC and every environment, given that unique keys are
    unique (and the model's fuel is enough), the next step succeeds and leads to a reachable
    state, or it panics, because one of the MAC's input streams has ended, the other end of one of
    its channels is gone, or the radio delivers a packet that is not a frame, or it waits for
    ever, because the radio's service does not take the request it sends.  With open channels,
    streams that go on and a radio service that takes requests only the packet is left. *)
Theorem mac_never_panics_but (e : MacEnv) (m : MacData M) :
  mac_reachable m -> env_fair e m ->
  step_outcome e m /\
  (env_ok e m ->
     (exists i m', process_step e m = Ok (i, m')) \/
     (process_step e m = Err Panic /\ exists packet err,
        env_radio e = Ready (Some (Radio.RespOnPacket packet)) /\
        Frame_unpack (Radio.packet_data packet) = Err err)).
Proof.
  intros Hr Hf. split; [by apply step_outcomes|]. intros He.
  destruct (process_step_safe e m (mac_reachable_inv _ Hr) He) as [(i & m' & E & _)|E]; [|by right].
  left. by exists i, m'.
Qed.

(** C3: What every step of the MAC that succeeds does for its data clients, in any environment
    that hands out unique keys: a data request's handle becomes
    outstanding, and stays so until exactly one of these: its confirm, which is then
    sent, a purge of it, which is confirmed, or a reset, which drops every handle
    without a word.  A purge of another handle is refused, and no other step sends a
    confirm. *)
Theorem mac_client_contract (e : MacEnv) (m m' : MacData M) (i : option MacInput) :
  mac_reachable m -> env_fair e m -> process_step e m = Ok (i, m') -> client_effect e i m m'.
Proof.
  intros I%mac_reachable_inv He Hs.
  destruct (process_step_opened e m) as [E0|[[E0 _]|[E0 _]]]; rewrite Hs in E0; [|done..].
  destruct (process_step_safe (opened e) m I (opened_ok _ _ He)) as [(i' & m1 & E & _ & Hc)|[E _]];
    rewrite <- E0 in E; [|done].
  injection E as <- <-. exact Hc.
Qed.
End mac_theory.

Section starting.
Context {M : Type} `{!BiMap mcps.MsduHandle UniqueKey M, !BiMapLaws mcps.MsduHandle UniqueKey M}.
Context `{!BitRange}.

(** ** Starting up *)

Definition token_of (r : Radio.RadioResponse) : option UniqueKey :=
  match r with
  | Radio.RespSetParam k _ _ | Radio.RespGetParam k _ _ | Radio.RespInitPendingDataTable k _
  | Radio.RespSetPower k _ _ | Radio.RespSendPacket k _ | Radio.RespSetPendingShort k _
  | Radio.RespSetPendingExtended k _ => Some k
  | Radio.RespOnPacket _ => None
  end.

(** Responses that are for others than the holder of the key, packets, and reports of the end
    of the stream. *)
Definition unrelated (k : UniqueKey) (rs : list (option Radio.RadioResponse)) : Prop :=
  Forall (fun r => (r ≫= token_of) <> Some k) rs.

Lemma wait_for_unrelated {A} k (matches : Radio.RadioResponse -> option A) n r a rs :
  (forall r, token_of r <> Some k -> matches r = None) -> unrelated k n -> matches r = Some a ->
  wait_for matches (n ++ Some r :: rs) = Ok (a, rs).
Proof.
  intros Hm Hn Hr. induction Hn as [|x n Hx _ IH]; cbn [app wait_for].
  - by rewrite Hr.
  - destruct x as [x|]; [|done]. by rewrite Hm.
Qed.

(** Starting up asks for the address, the greatest power and the channel, sets the receive
    mode and turns the radio on, each request after the answer to the one before; answers
    to others and packets are passed over (and lost).  With a radio that takes all of it the
    MAC starts, with these values in the PIB, and reads on behind the last answer. *)
Theorem mac_starts (bsn dsn : u8) (key : N) (address : u64) (power channel : u16)
    (n1 n2 n3 n4 n5 rest : list (option Radio.RadioResponse)) p1 p2 p3 p4 v b :
  unrelated (MkKey key) n1 -> unrelated (MkKey (key + 1)) n2 -> unrelated (MkKey (key + 1 + 1)) n3 ->
  unrelated (MkKey (key + 1 + 1 + 1)) n4 -> unrelated (MkKey (key + 1 + 1 + 1 + 1)) n5 ->
  let rs :=
    n1 ++ Some (Radio.RespGetParam (MkKey key) p1 (Ok (Radio.ValueU64 address))) ::
    n2 ++ Some (Radio.RespGetParam (MkKey (key + 1)) p2 (Ok (Radio.ValueU16 power))) ::
    n3 ++ Some (Radio.RespGetParam (MkKey (key + 1 + 1)) p3 (Ok (Radio.ValueU16 channel))) ::
    n4 ++ Some (Radio.RespSetParam (MkKey (key + 1 + 1 + 1)) p4 (Ok v)) ::
    n5 ++ Some (Radio.RespSetPower (MkKey (key + 1 + 1 + 1 + 1)) b (Ok tt)) :: rest in
  exists m, MacData_new bsn dsn {| requests := []; receiver := fun _ => Takes; responses := rs; next_key := key |} = Ok (m, rest) /\
    pib m = PIB_new bsn dsn (ExtAddr (uint_val address)) channel power /\
    data m = DS.new /\ management m = MGMT.new (pib m) /\ mlme_output m = [] /\ mcps_output m = [] /\
    radio_requests m =
      [Radio.ReqGetParam (MkKey key) LongAddress Radio.TypeU64;
       Radio.ReqGetParam (MkKey (key + 1)) TxPowerMax Radio.TypeU16;
       Radio.ReqGetParam (MkKey (key + 1 + 1)) Channel Radio.TypeU16;
       Radio.ReqSetParam (MkKey (key + 1 + 1 + 1)) RxMode (Radio.rx_mode_into MGMT.mac_rx_mode);
       Radio.ReqSetPower (MkKey (key + 1 + 1 + 1 + 1)) true].
Proof.
  intros H1 H2 H3 H4 H5 rs. subst rs.
  assert (forall k r, token_of r <> Some k -> match r with
    | Radio.RespGetParam t _ result => if decide (k = t) then Some result else None
    | _ => None end = None) as Hg.
  { intros k []; try done. cbn. intros Hn. rewrite decide_False; congruence. }
  unfold MacData_new, get_param_u64, get_param_u16, get_param, set_param, set_power, sync_call, sync_send.
  cbn [responses requests receiver next_key await_taken mbind result_bind].
  erewrite (wait_for_unrelated (MkKey key)); [|apply Hg|exact H1|by rewrite decide_True].
  cbn [mbind result_bind await_unwrap unwrap_result Radio.value_try_into_u64 responses requests receiver next_key await_taken].
  erewrite (wait_for_unrelated (MkKey (key + 1))); [|apply Hg|exact H2|by rewrite decide_True].
  cbn [mbind result_bind await_unwrap unwrap_result Radio.value_try_into_u16 responses requests receiver next_key await_taken].
  erewrite (wait_for_unrelated (MkKey (key + 1 + 1))); [|apply Hg|exact H3|by rewrite decide_True].
  cbn [mbind result_bind await_unwrap unwrap_result Radio.value_try_into_u16 responses requests receiver next_key await_taken].
  erewrite (wait_for_unrelated (MkKey (key + 1 + 1 + 1)));
    [|intros []; try done; cbn; intros Hn; rewrite decide_False; congruence|exact H4|by rewrite decide_True].
  cbn [mbind result_bind await_unwrap unwrap_result fmap result_fmap responses requests receiver next_key await_taken].
  erewrite (wait_for_unrelated (MkKey (key + 1 + 1 + 1 + 1)));
    [|intros []; try done; cbn; intros Hn; rewrite decide_False; congruence|exact H5|by rewrite decide_True].
  eexists. split; [reflexivity|]. done.
Qed.
End starting.

(** ** Witnesses *)

(** A radio that answers what starting up asks; a packet comes in between. *)
Definition startup_radio : SyncRadio := {|
  requests := [];
  receiver := fun _ => Takes;
  responses :=
    [Some (Radio.RespGetParam (MkKey 0) LongAddress (Ok (Radio.ValueU64 (Uint 0x42))));
     Some (Radio.RespOnPacket {| Radio.packet_data := []; Radio.packet_rssi := 0;
                                 Radio.packet_link_quality := 0 |});
     Some (Radio.RespGetParam (MkKey 1) TxPowerMax (Ok (Radio.ValueU16 (Uint 7))));
     Some (Radio.RespGetParam (MkKey 2) Channel (Ok (Radio.ValueU16 (Uint 25))));
     Some (Radio.RespSetParam (MkKey 3) RxMode (Ok (Radio.ValueU16 (Uint 3))));
     Some (Radio.RespSetPower (MkKey 4) true (Ok tt))];
  next_key := 0;
|}.

Definition started_mac : MacData handle_map := {|
  pib := PIB_new (Uint 1) (Uint 2) (ExtAddr 0x42) (Uint 25) (Uint 7);
  radio_requests :=
    [Radio.ReqGetParam (MkKey 0) LongAddress Radio.TypeU64;
     Radio.ReqGetParam (MkKey 1) TxPowerMax Radio.TypeU16;
     Radio.ReqGetParam (MkKey 2) Channel Radio.TypeU16;
     Radio.ReqSetParam (MkKey 3) RxMode (Radio.rx_mode_into MGMT.mac_rx_mode);
     Radio.ReqSetPower (MkKey 4) true];
  mlme_output := []; mcps_output := [];
  management := MGMT.new (PIB_new (Uint 1) (Uint 2) (ExtAddr 0x42) (Uint 25) (Uint 7));
  data := DS.new;
|}.

Lemma mac_starts_witness :
  exists m : MacData handle_map, MacData_new (Uint 1) (Uint 2) startup_radio = Ok (m, []) /\
    pib m = PIB_new (Uint 1) (Uint 2) (ExtAddr 0x42) (Uint 25) (Uint 7).
Proof.
  destruct (mac_starts (M := handle_map) (Uint 1) (Uint 2) 0 (Uint 0x42) (Uint 7) (Uint 25) []
    [Some (Radio.RespOnPacket {| Radio.packet_data := []; Radio.packet_rssi := 0;
                                 Radio.packet_link_quality := 0 |})] [] [] [] []
    LongAddress TxPowerMax Channel RxMode (Radio.ValueU16 (Uint 3)) true
    ltac:(apply Forall_nil_2) ltac:(by apply Forall_singleton) ltac:(apply Forall_nil_2)
    ltac:(apply Forall_nil_2) ltac:(apply Forall_nil_2)) as (m & E & Hp & _).
  by exists m.
Defined.

Lemma started_reachable : mac_reachable (H := BitRange_reference) started_mac.
Proof. exists (Uint 1), (Uint 2), startup_radio, started_mac, []. split; [reflexivity|apply rtc_refl]. Qed.

Definition example_env : MacEnv := {|
  env_cx := poll_context 20 no_timer;
  env_param_order := param_order;
  env_dest_order := example_order;
  env_fuel := 4;
  env_key := MkKey 21;
  env_timer := 1;
  env_random_bsn := Uint 0;
  env_random_dsn := Uint 0;
  env_radio := Pending;
  env_mlme := Pending;
  env_mcps := Pending;
  env_radio_requests := Takes;
  env_mlme_closed := false;
  env_mcps_closed := false;
|}.

Lemma example_env_ok : env_ok example_env started_mac.
Proof.
  split; try done.
  - vm_compute. lia.
  - intros (d & q & Hq & _). cbn in Hq. by rewrite lookup_empty in Hq.
Qed.

(** The radio's response stream has ended, and the MAC has polled its way down to it; or its
    service leaves the first parameter in the channel. *)
Definition stuck_env : MacEnv := {|
  env_cx := poll_context 20 no_timer; env_param_order := param_order; env_dest_order := example_order;
  env_fuel := 4; env_key := MkKey 21; env_timer := 1; env_random_bsn := Uint 0; env_random_dsn := Uint 0;
  env_radio := Ready None; env_mlme := Pending; env_mcps := Pending;
  env_radio_requests := TakesNever; env_mlme_closed := false; env_mcps_closed := false;
|}.

Lemma mac_never_panics_but_witness :
  (exists i m', process_step (H := BitRange_reference) example_env started_mac = Ok (i, m')) /\
  step_outcome (H := BitRange_reference) stuck_env started_mac.
Proof.
  split.
  - destruct (mac_never_panics_but (H := BitRange_reference) example_env started_mac started_reachable
      (conj (eo_fuel _ _ example_env_ok) (eo_key _ _ example_env_ok))) as [_ Ho].
    destruct (Ho example_env_ok) as [E|(_ & packet & err & E & _)]; [exact E|discriminate E].
  - exact (proj1 (mac_never_panics_but (H := BitRange_reference) stuck_env started_mac started_reachable
      (conj (eo_fuel _ _ example_env_ok) (eo_key _ _ example_env_ok)))).
Defined.

(** Left with its first request the MAC waits for ever. *)
Example stuck_waits :
  match process_step (H := BitRange_reference) stuck_env started_mac with
  | Err OutOfFuel => true | _ => false end = true.
Proof. vm_compute. reflexivity. Qed.

Lemma mac_client_contract_witness :
  exists i m', process_step (H := BitRange_reference) example_env started_mac = Ok (i, m') /\
    client_effect example_env i started_mac m'.
Proof.
  eexists _, _. split; [vm_compute; reflexivity|].
  apply (mac_client_contract (H := BitRange_reference) example_env started_mac);
    [exact started_reachable|exact (conj (eo_fuel _ _ example_env_ok) (eo_key _ _ example_env_ok))|
     vm_compute; reflexivity].
Defined.
