(* ===== verification/MacActions.v ===== *)
(** * What the MAC can do by itself

    The actions the services have left when nothing is reported to them and nothing is asked of
    them: polling uses them up, and every input adds a bounded number. *)

From Stdlib Require Import ZArith Lia.
From S2P Require Import RadioRaw Radio.
From S2P Require Import Prelude Pack BitField Frame FrameTheory Async Pib Services.
From S2P Require Import PendingTable CombinedPendingTable CombinedPendingTableTheory.
From S2P Require Import DeviceQueue DeviceQueueTheory BiMap DataService DataServiceTheory.
From S2P Require Import Management ManagementTheory MacService MacServiceTheory.

#[local] Open Scope Z_scope.

Import MAC.

(** ** What the queues can still do by themselves *)

(** The actions of a queue that nobody reports anything to: every entry can be sent,
    reported, and change the pending bit; the front entry that is already being
    sent is not sent again. *)
Definition is_sending (q : DQ.DeviceQueue) : bool :=
  match DQ.state q with DQ.Sending _ _ _ => true | _ => false end.
Definition queue_actions (q : DQ.DeviceQueue) : nat :=
  3 * length (DQ.entries q) + 2 +
  bit (bool_decide (DQ.last_pending_reported q <> Some (should_be_pending q))) - bit (is_sending q).

Lemma queue_actions_pos q : (0 < queue_actions q)%nat.
Proof. unfold queue_actions. pose proof (bit_le (is_sending q)). lia. Qed.

Lemma fewer_actions q q' :
  (length (DQ.entries q') < length (DQ.entries q))%nat -> (queue_actions q' < queue_actions q)%nat.
Proof.
  intros Hl. unfold queue_actions. pose proof (bit_le (is_sending q)).
  pose proof (bit_le (bool_decide (DQ.last_pending_reported q' <> Some (should_be_pending q')))). lia.
Qed.

Lemma waits_sending_same cx q q0 : waits cx q q0 -> is_sending q0 = is_sending q.
Proof.
  unfold is_sending. intros []; cbn; try done; by match goal with H : DQ.state q = _ |- _ => rewrite H end.
Qed.

Lemma same_actions q q' : same q q' -> is_sending q' = is_sending q -> queue_actions q' = queue_actions q.
Proof.
  intros Hs E. pose proof (same_work _ _ Hs) as Hw. unfold queue_work, queue_actions in *. rewrite E. 
  destruct Hs as (Hl & _). apply (f_equal length) in Hl. rewrite !length_fmap in Hl. lia.
Qed.

Lemma queue_actions_bounds q :
  (3 * length (DQ.entries q) + 2 <= queue_actions q + bit (is_sending q) <= 3 * length (DQ.entries q) + 3)%nat.
Proof.
  unfold queue_actions. pose proof (bit_le (is_sending q)).
  pose proof (bit_le (bool_decide (DQ.last_pending_reported q <> Some (should_be_pending q)))). lia.
Qed.

Lemma poll_next_actions p cx q r p' q' :
  DQ.poll_next_action p cx q = (r, p', q') ->
  match r with
  | Ready DQ.Empty => True
  | Ready _ => (queue_actions q' < queue_actions q)%nat
  | Pending => (queue_actions q' <= queue_actions q)%nat
  end.
Proof.
  intros Hp. pose proof (poll_cases p cx q) as Ho. rewrite Hp in Ho.
  inversion Ho as [b Hl Eb|Ee|e rest b a f Ee Es Hi Hd Hf|e rest x Ee Hs|q0 Hw Ht|q0 i e Hw He Hx];
    [|done|..]; subst r q'.
  - subst b. apply poll_set_pending_facts in Hp as (_ & Eb & _). rewrite Eb in *. unfold queue_actions.
    rewrite (bool_decide_true _ Hl), bool_decide_false by (intros Hn; by apply Hn).
    pose proof (bit_le (is_sending q)). unfold is_sending in *. cbn in *. lia.
  - unfold queue_actions, is_sending. rewrite Es. cbn. unfold should_be_pending. cbn. lia.
  - apply fewer_actions. rewrite Ee. cbn. lia.
  - apply Nat.eq_le_incl, same_actions; [by eapply poll_pending_same|]. exact (waits_sending_same _ _ _ Hw).
  - apply fewer_actions. apply waits_data in Hw as [Hw _]. apply (f_equal length) in Hw.
    rewrite !length_fmap in Hw. apply length_delete_lt in He. case_decide; cbn; lia.
Qed.

(** ** All the queues *)

Abbreviation queue_map := (gmap (option FullAddress) DQ.DeviceQueue).

Definition all_actions (qs : queue_map) : nat := sum_over queue_actions qs.

Lemma all_actions_insert qs d q q' : qs !! d = Some q ->
  (all_actions (<[d := q']> qs) + queue_actions q = all_actions qs + queue_actions q')%nat.
Proof. apply sum_over_insert. Qed.

Lemma poll_queues_actions cx ds p qs :
  let '(r, p', qs') := DS.poll_queues cx ds p qs in
  match r with
  | Some (d, x) => exists p0 qs0 q q', qs0 !! d = Some q /\ qs' = <[d := q']> qs0 /\
      DQ.poll_next_action p0 cx q = (Ready x, p', q') /\ (all_actions qs0 <= all_actions qs)%nat
  | None => (all_actions qs' <= all_actions qs)%nat
  end.
Proof.
  revert p qs. induction ds as [|d ds IH]; intros p qs; cbn [DS.poll_queues]; [done|].
  destruct (qs !! d) as [q|] eqn:Hq; [|apply IH].
  destruct (DQ.poll_next_action p cx q) as [[[x|] p1] q1] eqn:Ep; [by exists p, qs, q, q1|].
  specialize (IH p1 (<[d := q1]> qs)). pose proof (all_actions_insert qs d q q1 Hq) as Hi.
  apply poll_next_actions in Ep.
  destruct (DS.poll_queues cx ds p1 (<[d := q1]> qs)) as [[[[d' x]|] p'] qs']; [|lia].
  destruct IH as (p0 & qs0 & q0 & q' & ? & ? & ? & ?). exists p0, qs0, q0, q'. split_and!; try done. lia.
Qed.

Lemma queue_action_less p cx qs d q q' x p' :
  qs !! d = Some q -> DQ.poll_next_action p cx q = (Ready x, p', q') ->
  match x with
  | DQ.Empty => (all_actions (delete d qs) < all_actions qs)%nat
  | _ => (all_actions (<[d := q']> qs) < all_actions qs)%nat
  end.
Proof.
  intros Hq Ep. apply poll_next_actions in Ep. pose proof (all_actions_insert qs d q q' Hq).
  destruct x; try lia. unfold all_actions. rewrite (sum_over_delete queue_actions qs d q Hq).
  pose proof (queue_actions_pos q). lia.
Qed.

(** ** The services *)

Section actions.
Context {M : Type} `{!BiMap mcps.MsduHandle UniqueKey M, !BiMapLaws mcps.MsduHandle UniqueKey M}.

Definition service_actions (s : DS.DataService M) : nat :=
  all_actions (DS.queues s) + table_work (DS.pending_table s).

Lemma service_polled fuel ord cx p (s : DS.DataService M) r p' s' :
  DS.poll_action fuel ord cx p s = Ok (r, p', s') ->
  match r with
  | Ready _ => (service_actions s' < service_actions s)%nat
  | Pending => (service_actions s' <= service_actions s)%nat
  end.
Proof.
  revert p s. induction fuel as [|fuel IH]; intros p s; [done|]. cbn [DS.poll_action].
  destruct (CPT.poll_action cx (DS.pending_table s)) as [[x|] t] eqn:Et; apply cpt_poll_work in Et.
  { intros [= <- <- <-]. unfold service_actions; cbn; lia. }
  pose proof (poll_queues_actions cx (ord fuel (DS.destinations (DS.set_table t s))) p
    (DS.queues (DS.set_table t s))) as Hq.
  destruct (DS.poll_queues cx _ p _) as [[[[d x]|] p1] qs1]; cbn [DS.queues DS.set_table] in Hq.
  2: { intros [= <- <- <-]. unfold service_actions. cbn. lia. }
  destruct Hq as (p0 & qs0 & q & q' & Hq & -> & Ep & Hw). pose proof (queue_action_less _ _ _ _ _ _ _ _ Hq Ep) as Hx.
  assert (forall s1, (all_actions (DS.queues s1) < all_actions qs0)%nat ->
    table_work (DS.pending_table s1) = table_work t -> DS.poll_action fuel ord cx p1 s1 = Ok (r, p', s') ->
    match r with
    | Ready _ => (service_actions s' < service_actions s)%nat
    | Pending => (service_actions s' <= service_actions s)%nat
    end) as Hk.
  { intros s1 H1 H2 E%IH. unfold service_actions in *. destruct r; lia. }
  destruct x as [|b|k f|k res].
  - apply Hk; cbn; by rewrite ?delete_insert_eq.
  - intros E. apply result_bind_Ok in E as (t' & E1 & E2). apply cpt_set_work in E1. by apply (Hk _) in E2.
  - intros [= <- <- <-]. unfold service_actions; cbn; lia.
  - cbn [DS.msdu_handles DS.set_queues DS.set_table].
    destruct (bm_remove_by_right k (DS.msdu_handles s)) as [[[h k']|] m].
    + intros [= <- <- <-]. unfold service_actions; cbn; lia.
    + by apply Hk.
Qed.

(** What the management service has to send: parameters and beacons. *)
Definition management_actions (s : MGMT.ManagementService) : nat :=
  size (filter (fun i => due i.2 = true) (MGMT.radio_params s)) + length (MGMT.outgoing s).

Lemma management_polled ord cx s r s' : MGMT.poll_action ord cx s = (r, s') ->
  match r with
  | Ready _ => (management_actions s' < management_actions s)%nat
  | Pending => management_actions s' = management_actions s
  end.
Proof.
  intros [(q & info & Hq & Hd & Hu & -> & Ho & Hm)|(_ & Hm & _ & Ho)]%poll_action_cases;
    unfold management_actions; rewrite Hm.
  - assert (filter (fun i => due i.2 = true) (MGMT.radio_params s) !! q = Some info) as Hf.
    { apply map_lookup_filter_Some. split; [done|]. cbn. unfold due. by rewrite Hd, bool_decide_true. }
    rewrite Ho, map_filter_insert_False, map_filter_delete, map_size_delete_Some by done.
    enough (size (filter (fun i => due i.2 = true) (MGMT.radio_params s)) <> 0%nat) by lia.
    apply map_size_non_empty_iff. intros E. by rewrite E, lookup_empty in Hf.
  - destruct (MGMT.outgoing s); destruct Ho as [-> ->]; cbn; lia.
Qed.

Definition mac_actions (m : MacData M) : nat :=
  management_actions (management m) + service_actions (data m).

(** An action of its own brings the MAC forward, and looking for an input costs nothing. *)
Lemma input_polled e (m : MacData M) r m1 :
  poll_next_input e m = Ok (r, m1) ->
  radio_requests m1 = radio_requests m /\ mcps_output m1 = mcps_output m /\
  match r with
  | Ready (InManagement _) | Ready (InData _) => (mac_actions m1 < mac_actions m)%nat
  | _ => (mac_actions m1 <= mac_actions m)%nat
  end.
Proof.
  unfold poll_next_input.
  destruct (MGMT.poll_action (env_param_order e) (env_cx e) (management m)) as [[a|] s] eqn:Em;
    apply management_polled in Em.
  { intros [= <- <-]. split_and!; try done. unfold mac_actions. cbn. lia. }
  cbn [data pib set_management].
  destruct (DS.poll_action _ _ _ _ _) as [[[r2 p] ds]|] eqn:Ed; [|done]. apply service_polled in Ed.
  cbn [mbind result_bind].
  assert (forall m', m' = set_data ds (set_pib p (set_management s m)) -> r2 = Pending ->
    (mac_actions m' <= mac_actions m)%nat) as Hp.
  { intros m' -> ->. unfold mac_actions. cbn. lia. }
  destruct r2 as [a|]; [intros [= <- <-]; split_and!; try done; unfold mac_actions; cbn; lia|].
  destruct (env_radio e) as [[x|]|]; [intros [= <- <-]; split_and!; by auto|done|].
  destruct (env_mlme e) as [[[x|x]|]|]; [intros [= <- <-]; split_and!; by auto..|done|].
  destruct (env_mcps e) as [[[x|x]|]|]; [intros [= <- <-]; split_and!; by auto..|done|].
  intros [= <- <-]; split_and!; by auto.
Qed.

(** *** What the handlers add *)

Lemma due_insert q info (m : gmap RawRadioParam MGMT.RadioParamInfo) :
  (size (filter (fun i => due i.2 = true) (<[q := info]> m)) <=
   S (size (filter (fun i => due i.2 = true) m)))%nat.
Proof.
  rewrite map_filter_insert. destruct (decide _).
  - rewrite map_size_insert. destruct (_ !! _); cbn; lia.
  - rewrite map_filter_delete, map_size_delete. destruct (_ !! _); cbn; lia.
Qed.

Lemma update_actions q v s :
  (management_actions (MGMT.update_radio_parameter q v s) <= S (management_actions s))%nat.
Proof.
  unfold management_actions. rewrite update_outgoing.
  enough (size (filter (fun i => due i.2 = true) (MGMT.radio_params (MGMT.update_radio_parameter q v s))) <=
    S (size (filter (fun i => due i.2 = true) (MGMT.radio_params s))))%nat by lia.
  unfold MGMT.update_radio_parameter. destruct (MGMT.radio_params s !! q) as [info|]; [case_decide|]; cbn;
    try apply due_insert. lia.
Qed.

Lemma updates_actions p s :
  (management_actions (MGMT.update_radio_parameters p s) <= 5 + management_actions s)%nat.
Proof.
  unfold MGMT.update_radio_parameters. cbv zeta.
  do 5 (etrans; [apply update_actions|]; apply le_n_S). done.
Qed.

Lemma new_actions p : (management_actions (MGMT.new p) <= 5)%nat.
Proof. unfold MGMT.new. etrans; [apply updates_actions|]. done. Qed.

Lemma beacon_actions p r s :
  (management_actions (snd (MGMT.process_mlme_beacon_request p r s)) <= S (management_actions s))%nat.
Proof.
  unfold MGMT.process_mlme_beacon_request. destruct (_ || _); cbn; [lia|].
  unfold management_actions. cbn. rewrite length_app. cbn. lia.
Qed.

Lemma insert_actions p t r (s : DS.DataService M) :
  (service_actions (DS.insert p t r s) <= 7 + service_actions s)%nat.
Proof.
  assert (forall q, (queue_actions (snd (DQ.insert p t r q)) <= 4 + queue_actions q)%nat) as Hq.
  { intros q. unfold DQ.insert. destruct (DQ.contains _ _); [cbn [snd]; lia|].
    cbn [snd]. pose proof (queue_actions_bounds q) as H1.
    match goal with |- (queue_actions ?q' <= _)%nat =>
      pose proof (queue_actions_bounds q') as H2;
      assert (length (DQ.entries q') = S (length (DQ.entries q))) as El by (cbn; rewrite length_app; cbn; lia);
      assert (is_sending q' = is_sending q) as Es by done; rewrite El, Es in H2 end. lia. }
  unfold DS.insert, service_actions. destruct (DS.queues s !! dr_destination r) as [q|] eqn:Eq;
    cbn [DS.queues DS.set_queues DS.set_waker DS.pending_table].
  - specialize (Hq q). pose proof (all_actions_insert (DS.queues s) _ q (snd (DQ.insert p t r q)) Eq). lia.
  - unfold all_actions.
    rewrite (sum_over_delete queue_actions _ (dr_destination r) _ ltac:(apply lookup_insert_eq)).
    rewrite delete_insert_id by done. specialize (Hq DQ.new). change (queue_actions DQ.new) with 3%nat in Hq. lia.
Qed.

Lemma remove_actions k q : (queue_actions (snd (DQ.remove k q)) <= queue_actions q)%nat.
Proof.
  destruct (decide (k ∈ keys q)) as [Hk|Hk]; [|by rewrite remove_absent].
  apply Nat.lt_le_incl, fewer_actions. pose proof (keys_remove k q) as E. apply (f_equal length) in E.
  pose proof (length_filter_lt (fun x => x <> k) (keys q) k Hk ltac:(by intros Hn; apply Hn)) as Hl.
  rewrite <- E in Hl. unfold keys in Hl. by rewrite !length_fmap in Hl.
Qed.

Lemma purge_actions ord r (s : DS.DataService M) :
  (service_actions (snd (DS.process_mcps_purge_request ord r s)) <= service_actions s)%nat.
Proof.
  unfold DS.process_mcps_purge_request. destruct (bm_remove_by_left _ _) as [[[h k]|] m]; cbn; [|done].
  unfold DS.remove, service_actions.
  destruct (remove_loop_spec k (ord 0%nat (DS.destinations (DS.set_handles m s))) (DS.queues (DS.set_handles m s)))
    as [[-> _]|(d & q & Hq & _ & ->)]; cbn [snd DS.queues DS.set_queues DS.set_handles DS.pending_table]; [done|].
  pose proof (all_actions_insert (DS.queues s) d q (snd (DQ.remove k q)) Hq).
  pose proof (remove_actions k q). lia.
Qed.

Context `{!BitRange}.

(** Outputs for the MCPS's client *)
Definition outputs_of (i : MacInput) : nat :=
  match i with InData _ | InMcpsRequest _ => 1%nat | _ => 0%nat end.

(** Requests to the radio and confirms are all that handling an action changes. *)
Lemma action_handled e i (m m' : MacData M) :
  match i with InManagement _ | InData _ => True | _ => False end -> process_input e i m = Ok m' ->
  data m' = data m /\ management m' = management m /\
  (length (mcps_output m') <= outputs_of i + length (mcps_output m))%nat /\
  forall k f, i = InData (DS.SendFrame k f) -> exists t, Frame_pack f vec_new = Ok t /\
    radio_requests m' = radio_requests m ++ [Radio.ReqSendPacket k (vec t)].
Proof.
  assert (forall r m', send_request e r m = Ok m' -> data m' = data m /\ management m' = management m /\
    mcps_output m' = mcps_output m /\ radio_requests m' = radio_requests m ++ [r]) as Hr.
  { intros r m1. unfold send_request. destruct (env_radio_requests e); [|done..]. by intros [= <-]. }
  assert (forall k f m', send_frame e k f m = Ok m' -> data m' = data m /\ management m' = management m /\
    mcps_output m' = mcps_output m /\ exists t, Frame_pack f vec_new = Ok t /\
      radio_requests m' = radio_requests m ++ [Radio.ReqSendPacket k (vec t)]) as Hs.
  { intros k f m1. unfold send_frame. destruct (Frame_pack f vec_new) as [t|]; [|done].
    intros (? & ? & ? & ?)%Hr. eauto 6. }
  destruct i as [| | | | |[k p v|f]|[k|k i v|k i v|k f|c]]; try done; intros _; cbn [process_input].
  - intros (? & ? & -> & _)%Hr. by split_and!.
  - intros (? & ? & -> & _)%Hs. by split_and!.
  - intros (? & ? & -> & _)%Hr. split_and!; try done. cbn. lia.
  - intros (? & ? & -> & _)%Hr. split_and!; try done. cbn. lia.
  - intros (? & ? & -> & _)%Hr. split_and!; try done. cbn. lia.
  - intros (? & ? & -> & ?)%Hs. split_and!; try done; [cbn; lia|]. by intros ? ? [= <- <-].
  - cbn. unfold send_mcps. destruct (env_mcps_closed e); [done|]. intros [= <-]. split_and!; try done.
    cbn. rewrite length_app. cbn. lia.
Qed.

Lemma mlme_request_actions e r (m m' : MacData M) : process_mlme_request e r m = Ok m' ->
  (mac_actions m' <= 8 + mac_actions m)%nat /\ mcps_output m' = mcps_output m.
Proof.
  unfold process_mlme_request.
  enough (forall c p d s, MGMT.process_mlme_request (env_random_bsn e) (env_random_dsn e) (pib m) (data m) r
    (management m) = (c, p, d, s) -> (management_actions s + service_actions d <= 8 + mac_actions m)%nat) as Hk.
  { destruct (MGMT.process_mlme_request _ _ _ _ _ _) as [[[c p] d] s]. specialize (Hk c p d s eq_refl).
    destruct c as [c|].
    - unfold send_mlme. destruct (env_mlme_closed e); [done|]. intros [= <-]. split; [exact Hk|done].
    - intros [= <-]. split; [exact Hk|done]. }
  intros c p d s. unfold mac_actions. destruct r as [r|r|r|r|r]; cbn [MGMT.process_mlme_request].
  - unfold MGMT.process_mlme_reset_request. intros [= <- <- <- <-].
    match goal with |- context [MGMT.new ?p] => pose proof (new_actions p) end.
    change (service_actions DS.new) with 3%nat. lia.
  - unfold MGMT.process_mlme_start_request. case_decide; [intros [= <- <- <- <-]; lia|].
    destruct (_ || _); intros [= <- <- <- <-]; [lia|].
    match goal with |- context [MGMT.update_radio_parameters ?p ?s] => pose proof (updates_actions p s) end. lia.
  - pose proof (beacon_actions (pib m) r (management m)) as Hb.
    destruct (MGMT.process_mlme_beacon_request (pib m) r (management m)) as [[? ?] ?].
    intros [= <- <- <- <-]. cbn [snd] in Hb. lia.
  - intros [= <- <- <- <-]. lia.
  - unfold MGMT.process_mlme_set_request. destruct (PIB_set _ _ _) as [res p1]. intros [= <- <- <- <-].
    pose proof (updates_actions p1 (management m)). lia.
Qed.

Lemma mcps_request_actions e r (m m' : MacData M) : process_mcps_request e r m = Ok m' ->
  (mac_actions m' <= 8 + mac_actions m)%nat /\ (length (mcps_output m') <= 1 + length (mcps_output m))%nat.
Proof.
  unfold process_mcps_request. destruct r as [r|r]; cbn [DS.process_mcps_request].
  - unfold DS.process_mcps_data_request. intros [= <-]. split; [|cbn; lia].
    match goal with |- context [DS.insert ?p ?t ?x (data m)] => pose proof (insert_actions p t x (data m)) as Hi end.
    unfold mac_actions, service_actions in *. cbn [management data set_data DS.queues DS.pending_table DS.set_handles].
    lia.
  - pose proof (purge_actions (env_dest_order e) r (data m)) as Hp.
    destruct (DS.process_mcps_purge_request (env_dest_order e) r (data m)) as [c d].
    unfold send_mcps. destruct (env_mcps_closed e); [done|]. intros [= <-].
    unfold mac_actions. cbn [management data set_data mcps_output snd] in *. rewrite length_app. cbn [length]. lia.
Qed.

(** Handling a request or response of a client adds at most eight actions. *)
Lemma input_actions e i (m m' : MacData M) : process_input e i m = Ok m' ->
  match i with
  | InRadio _ => True
  | InManagement _ | InData _ => mac_actions m' = mac_actions m /\
      (length (mcps_output m') <= outputs_of i + length (mcps_output m))%nat
  | _ => (mac_actions m' <= 8 + mac_actions m)%nat /\
      (length (mcps_output m') <= outputs_of i + length (mcps_output m))%nat
  end.
Proof.
  intros E. destruct i as [r|r|r|r|[]|a|a].
  - done.
  - by apply mlme_request_actions in E as [? ->].
  - injection E as <-. destruct r. split; [|done]. unfold process_mlme_response. cbn [MGMT.process_mlme_response].
    unfold MGMT.process_mlme_associate_response. cbv zeta.
    match goal with |- context [DS.insert ?p ?t ?x (data m)] => pose proof (insert_actions p t x (data m)) as Hi end.
    unfold mac_actions. cbn [management data set_data]. lia.
  - by apply mcps_request_actions in E.
  - apply action_handled in E as (Ed & Em & Hl & _); [|done]. unfold mac_actions. by rewrite Ed, Em.
  - apply action_handled in E as (Ed & Em & Hl & _); [|done]. unfold mac_actions. by rewrite Ed, Em.
Qed.
End actions.
