(* ===== verification/MacDelivery.v ===== *)
(** * Serving a sleeping device

    A device that sleeps asks for its frame with a data request; the frame waits in the
    queue of its address.  Here it is followed through the composed MAC: once the
    request is handled, nothing but a channel to the radio or to the data client that is gone or
    blocked keeps the frame from the radio. *)

From Stdlib Require Import ZArith Lia.
From S2P Require Import RadioRaw Radio.
From S2P Require Import Prelude Pack BitField Frame FrameTheory Async Pib Services.
From S2P Require Import PendingTable CombinedPendingTable CombinedPendingTableTheory.
From S2P Require Import DeviceQueue DeviceQueueTheory BiMap DataService DataServiceTheory.
From S2P Require Import Management ManagementTheory MacService MacServiceTheory MacActions.

#[local] Open Scope Z_scope.

Import MAC.

(** ** A frame that was asked for *)

(** Its device has asked for the indirect frame at the front, which is next to be sent. *)
Definition asked (q : DQ.DeviceQueue) (e : DQ.DeviceQueueEntry) : Prop :=
  DQ.state q = DQ.Idle true /\ head (DQ.entries q) = Some e /\ DQ.indirect e = true.

(** The frame made of the request. *)
Definition frame_of (r : DataRequest) (f : Frame) : Prop :=
  destination f = dr_destination r /\ frame_type f = dr_content r /\
  acknowledge_request f = dr_acknowledge_request r.

Lemma datarequest_asks q b e :
  DQ.state q = DQ.Idle b -> head (DQ.entries q) = Some e -> DQ.indirect e = true ->
  asked (DQ.process_datarequest q) e.
Proof. intros Es Ee Hi. unfold DQ.process_datarequest. by rewrite Es. Qed.

(** Its queue is never idle: it has its pending bit set or the frame sent. *)
Lemma poll_next_asked p cx q e r p' q' :
  asked q e -> DQ.poll_next_action p cx q = (r, p', q') ->
  (exists b, r = Ready (DQ.SetPending b) /\ asked q' e) \/
  (exists k f, r = Ready (DQ.SendFrame k f) /\ frame_of (DQ.data e) f).
Proof.
  intros (Es & Ee & Hi) Hp. pose proof (poll_cases p cx q) as Ho. rewrite Hp in Ho.
  inversion Ho as [b Hl Eb|En|e' rest b a f El Es' Hb Hd Hf Ha|e' rest x El Hs|q0 Hw Ht|q0 i e' Hw He Hx]; subst r q'.
  - left. by exists b.
  - by rewrite En in Ee.
  - right. rewrite El in Ee. injection Ee as ->. exists (cx_key cx), f. done.
  - destruct Hs as [Hs|(? & ? & Hs & _)]; by rewrite Es in Hs.
  - destruct Hw; congruence.
  - destruct Hw; congruence.
Qed.

(** ** Polling the data service *)

Definition asked_for (qs : queue_map) (d : option FullAddress) (e : DQ.DeviceQueueEntry) : Prop :=
  exists q, qs !! d = Some q /\ asked q e.

Lemma asked_for_insert qs d q q' d' e :
  asked_for qs d' e -> qs !! d = Some q -> (d' = d -> asked q e -> asked q' e) ->
  asked_for (<[d := q']> qs) d' e.
Proof.
  intros (q0 & H0 & Ha) Hq Hk. destruct (decide (d' = d)) as [->|Hn].
  - exists q'. split; [apply lookup_insert_eq|]. apply Hk; [done|]. by rewrite H0 in Hq; injection Hq as <-.
  - exists q0. by rewrite lookup_insert_ne.
Qed.

(** Among the queues one that has something to do is found, and the others keep the frame. *)
Lemma poll_queues_asked cx ds p qs d e :
  asked_for qs d e -> d ∈ ds ->
  exists d1 x p0 p' qs0 q q', DS.poll_queues cx ds p qs = (Some (d1, x), p', <[d1 := q']> qs0) /\
    qs0 !! d1 = Some q /\ DQ.poll_next_action p0 cx q = (Ready x, p', q') /\
    asked_for qs0 d e.
Proof.
  revert p qs. induction ds as [|d1 ds IH]; intros p qs Ha Hin; [by apply elem_of_nil in Hin|].
  cbn [DS.poll_queues]. destruct (qs !! d1) as [q|] eqn:Hq.
  - destruct (DQ.poll_next_action p cx q) as [[[x|] p1] q1] eqn:Ep.
    { exists d1, x, p, p1, qs, q, q1. done. }
    assert (asked_for (<[d1 := q1]> qs) d e) as Ha1.
    { eapply asked_for_insert; [done..|]. intros _ Hk.
      by destruct (poll_next_asked _ _ _ _ _ _ _ Hk Ep) as [(? & ? & _)|(? & ? & ? & _)]. }
    assert (d ∈ ds) as Hin1.
    { apply elem_of_cons in Hin as [->|?]; [|done]. destruct Ha as (q0 & H0 & Ha). rewrite Hq in H0.
      injection H0 as <-. by destruct (poll_next_asked _ _ _ _ _ _ _ Ha Ep) as [(? & ? & _)|(? & ? & ? & _)]. }
    destruct (IH p1 _ Ha1 Hin1) as (d2 & x & p0 & p2 & qs0 & q2 & q2' & E & H2 & Hp2 & Ha2).
    by exists d2, x, p0, p2, qs0, q2, q2'.
  - assert (d ∈ ds) as Hin1.
    { apply elem_of_cons in Hin as [->|?]; [|done]. destruct Ha as (q0 & H0 & Ha). congruence. }
    by apply IH.
Qed.

(** What one action of a queue makes of the frame: it stays asked for or is sent. *)
Lemma queue_action_asked p cx qs d1 q q' x p' d e :
  qs !! d1 = Some q -> DQ.poll_next_action p cx q = (Ready x, p', q') -> asked_for qs d e ->
  match x with
  | DQ.Empty => asked_for (delete d1 qs) d e
  | DQ.SendFrame k f => asked_for (<[d1 := q']> qs) d e \/ frame_of (DQ.data e) f
  | _ => asked_for (<[d1 := q']> qs) d e
  end.
Proof.
  intros Hq Ep Ha.
  pose proof (fun Hk => poll_next_asked _ _ _ e _ _ _ Hk Ep) as Hc.
  pose proof (fun H => asked_for_insert qs d1 q q' d e Ha Hq (fun _ => H)) as Hk.
  destruct x as [|b|k f|k res].
  - destruct Ha as (q0 & H0 & Ha). exists q0. split; [|done]. rewrite lookup_delete_ne; [done|]. intros ->.
    rewrite Hq in H0. injection H0 as <-. by destruct (Hc Ha) as [(? & ? & _)|(? & ? & ? & _)].
  - apply Hk. intros H1. by destruct (Hc H1) as [(? & _ & ?)|(? & ? & ? & _)].
  - destruct Ha as (q0 & H0 & Ha). destruct (decide (d1 = d)) as [->|Hn].
    + right. rewrite Hq in H0. injection H0 as <-.
      by destruct (Hc Ha) as [(? & ? & _)|(? & ? & [= <- <-] & ?)].
    + left. exists q0. by rewrite lookup_insert_ne.
  - apply Hk. intros H1. by destruct (Hc H1) as [(? & ? & _)|(? & ? & ? & _)].
Qed.

Section delivery.
Context {M : Type} `{!BiMap mcps.MsduHandle UniqueKey M, !BiMapLaws mcps.MsduHandle UniqueKey M}.

(** While a frame is asked for the data service has something to do. *)
Lemma poll_action_asked fuel ord cx p (s : DS.DataService M) r p' s' d e :
  asked_for (DS.queues s) d e -> DS.poll_action fuel ord cx p s = Ok (r, p', s') ->
  exists x, r = Ready x /\ (asked_for (DS.queues s') d e \/
    exists k f, x = DS.SendFrame k f /\ frame_of (DQ.data e) f).
Proof.
  revert p s. induction fuel as [|fuel IH]; intros p s Ha; [done|]. cbn [DS.poll_action].
  destruct (CPT.poll_action cx (DS.pending_table s)) as [[x|] t].
  { intros [= <- <- <-]. eexists. split; [done|]. by left. }
  assert (d ∈ ord fuel (DS.destinations (DS.set_table t s))) as Hin.
  { destruct Ha as (q & Hq & _). by eapply destinations_elem. }
  destruct (poll_queues_asked cx _ p (DS.queues (DS.set_table t s)) d e Ha Hin)
    as (d1 & x & p0 & p1 & qs0 & q & q' & -> & Hq & Ep & Ha0).
  pose proof (queue_action_asked _ _ _ _ _ _ _ _ d e Hq Ep Ha0) as Hx.
  destruct x as [|b|k f|k res].
  - apply IH. cbn. by rewrite delete_insert_eq.
  - intros E. apply result_bind_Ok in E as (t' & _ & E). by apply IH in E.
  - intros [= <- <- <-]. eexists. split; [done|]. cbn. destruct Hx as [?|?]; [by left|right]. by exists k, f.
  - cbn [DS.msdu_handles DS.set_queues DS.set_table].
    destruct (bm_remove_by_right k (DS.msdu_handles s)) as [[[h k']|] m]; [|by apply IH].
    intros [= <- <- <-]. eexists. split; [done|]. by left.
Qed.

(** ** Steps of the MAC *)

Context `{!BitRange}.

(** An action of the services, not an input from elsewhere *)
Definition own_action (i : MacInput) : Prop :=
  match i with InManagement _ | InData _ => True | _ => False end.

(** An action cannot be handled: whom it is sent to is gone. *)
Definition cut_off (e : MacEnv) : Prop := env_radio_requests e = Gone \/ env_mcps_closed e = true.

(** In any environment one of the next [n] steps is as described, and until then every step
    handles an action of the services; but for a step that panics, or waits for ever, because of a
    channel that it sends to. *)
Fixpoint inevitably (n : nat) (P : MacData M -> MacInput -> MacData M -> Prop) (m : MacData M) : Prop :=
  match n with
  | O => False
  | S n => forall e, env_fair e m ->
      (exists i m', process_step e m = Ok (Some i, m') /\ own_action i /\ (P m i m' \/ inevitably n P m')) \/
      (process_step e m = Err Panic /\ cut_off e) \/
      (process_step e m = Err OutOfFuel /\ env_radio_requests e = TakesNever)
  end.

(** An action comes before all input, and handling it depends on two channels only. *)
Lemma action_polled e (m : MacData M) i m1 :
  own_action i -> poll_next_input (opened e) m = Ok (Ready i, m1) -> poll_next_input e m = Ok (Ready i, m1).
Proof.
  intros Hi. unfold poll_next_input. cbn [env_param_order env_cx opened].
  destruct (MGMT.poll_action (env_param_order e) (env_cx e) (management m)) as [[a|] s]; [done|].
  cbn [env_fuel env_dest_order env_cx opened].
  destruct (DS.poll_action _ _ _ _ _) as [[[[a|] p] d]|]; [done| |done].
  cbn [mbind result_bind opened env_radio env_mlme env_mcps].
  destruct (env_radio e) as [[r|]|]; cbn; try (by intros [= <- _]);
  destruct (env_mlme e) as [[[r|r]|]|]; cbn; try (by intros [= <- _]);
  destruct (env_mcps e) as [[[r|r]|]|]; cbn; by intros [= <- _].
Qed.

Lemma action_sent e i (m : MacData M) :
  own_action i ->
  process_input e i m = process_input (opened e) i m \/
  (process_input e i m = Err Panic /\ cut_off e) \/
  (process_input e i m = Err OutOfFuel /\ env_radio_requests e = TakesNever).
Proof.
  assert (forall r (m : MacData M), send_request e r m = send_request (opened e) r m \/
    (send_request e r m = Err Panic /\ cut_off e) \/
    (send_request e r m = Err OutOfFuel /\ env_radio_requests e = TakesNever)) as Hr.
  { intros r m'. unfold send_request, cut_off. destruct (env_radio_requests e); cbn; tauto. }
  assert (forall k f (m : MacData M), send_frame e k f m = send_frame (opened e) k f m \/
    (send_frame e k f m = Err Panic /\ cut_off e) \/
    (send_frame e k f m = Err OutOfFuel /\ env_radio_requests e = TakesNever)) as Hs.
  { intros k f m'. unfold send_frame. destruct (Frame_pack f vec_new); [apply Hr|by left]. }
  destruct i as [| | | | |[k p v|f]|[k|k j v|k j v|k f|c]]; try done; intros _; cbn [process_input process_management process_data]; auto.
  unfold send_mcps, cut_off. destruct (env_mcps_closed e); cbn; tauto.
Qed.

(** The step sends the packed frame made of the request to the radio. *)
Definition sends (r : DataRequest) (m : MacData M) (i : MacInput) (m' : MacData M) : Prop :=
  exists k f t, i = InData (DS.SendFrame k f) /\ frame_of r f /\ Frame_pack f vec_new = Ok t /\
    radio_requests m' = radio_requests m ++ [Radio.ReqSendPacket k (vec t)].

(** While a frame is asked for no input is taken, so that nothing can take the frame away. *)
Lemma asked_input e m r m1 d x :
  poll_next_input e m = Ok (r, m1) -> asked_for (DS.queues (data m)) d x ->
  radio_requests m1 = radio_requests m /\ (mac_actions m1 < mac_actions m)%nat /\
  match r with
  | Ready (InManagement _) => asked_for (DS.queues (data m1)) d x
  | Ready (InData a) => asked_for (DS.queues (data m1)) d x \/
      exists k f, a = DS.SendFrame k f /\ frame_of (DQ.data x) f
  | _ => False
  end.
Proof.
  intros Ep Ha. pose proof (input_polled _ _ _ _ Ep) as (Hq & _ & Hw). revert Ep. unfold poll_next_input.
  destruct (MGMT.poll_action (env_param_order e) (env_cx e) (management m)) as [[a|] s].
  { by intros [= <- <-]. }
  cbn [data pib set_management].
  destruct (DS.poll_action _ _ _ _ _) as [[[r2 p] ds]|] eqn:Ed; [|done].
  apply (poll_action_asked _ _ _ _ _ _ _ _ d x Ha) in Ed as (a & -> & Hk).
  cbn [mbind result_bind]. by intros [= <- <-].
Qed.

Lemma asked_step e m d x :
  mac_inv m -> env_ok e m -> asked_for (DS.queues (data m)) d x ->
  exists i m', process_step e m = Ok (Some i, m') /\ own_action i /\ mac_inv m' /\
    (mac_actions m' < mac_actions m)%nat /\ (sends (DQ.data x) m i m' \/ asked_for (DS.queues (data m')) d x).
Proof.
  intros I He Ha. unfold process_step.
  destruct (poll_next_input_safe e m I He) as (r & m1 & Ep & I1 & _ & Hk & _ & Hi). rewrite Ep.
  apply (asked_input _ _ _ _ d x) in Ep as (Eq & Hw & Hr); [|done]. cbn [mbind result_bind].
  destruct r as [i|]; [|done]. destruct He as [[H1 _] [H2 _] [H3 _] _ _].
  assert (own_action i) as Hint by by destruct i.
  destruct (process_input_safe e i m1 I1 ltac:(by split_and!) Hk) as [(m' & E & I' & _)|[_ Hm]].
  - intros f ->. exact Hi.
  - intros k f ->. exact Hi.
  - rewrite E. cbn [mbind result_bind]. exists i, m'. split; [done|]. split; [done|]. split; [done|].
    apply action_handled in E as (Ed & Em & _ & Hs); [|done]. split; [unfold mac_actions in *; by rewrite Ed, Em|].
    rewrite Ed. destruct i as [| | | | |a|a]; try done; [by right|].
    destruct Hr as [?|(k & f & -> & Hf)]; [by right|left].
    destruct (Hs k f eq_refl) as (t & Et & Er). exists k, f, t. by rewrite Er, Eq.
  - by destruct Hm as (? & ? & -> & _).
Qed.

Lemma asked_inevitably n m d x :
  mac_inv m -> asked_for (DS.queues (data m)) d x -> (mac_actions m < n)%nat ->
  inevitably n (sends (DQ.data x)) m.
Proof.
  revert m. induction n as [|n IH]; intros m I Ha Hn; [lia|]. cbn [inevitably]. intros e He.
  destruct (asked_step (opened e) m d x I (opened_ok _ _ He) Ha) as (i & m' & E & Hi & I' & Hw & Hs).
  unfold process_step in E. apply result_bind_Ok in E as ([r m1] & Ep & E).
  destruct r as [j|]; [|done]. apply result_bind_Ok in E as (m2 & Eh & [= -> ->]).
  unfold process_step. rewrite (action_polled _ _ _ _ Hi Ep). cbn [mbind result_bind].
  destruct (action_sent e i m1 Hi) as [->|[[-> ?]|[-> ?]]]; [left|right; by left|right; by right].
  rewrite Eh. exists i, m'. split; [done|]. split; [done|]. destruct Hs as [Hs|Ha']; [by left|right].
  apply IH; [done|done|lia].
Qed.
End delivery.

Section served.
Context {M : Type} `{!BiMap mcps.MsduHandle UniqueKey M, !BiMapLaws mcps.MsduHandle UniqueKey M}.
Context `{!BitRange}.

(** C4: A device that asks for its frame gets it: when the MAC takes a data request for one of its
    two addresses from the radio, and the queue of the sender's address is idle with an indirect
    frame in front, then that step succeeds, and within as many more as the services have actions
    left that frame is packed and given to the radio's service for the device that asked.  Until
    then no input is taken: no purge, reset or time out gets ahead of it, and whether streams
    end or bring malformed packets does not matter.  What can stop it, at any of these steps, is only
    this: the receiving end of the requests to the radio or of the data client's confirms is gone,
    and the step panics; or the radio's service does not take a request sent to it, and the step
    never ends.  (Unique keys are unique, and the model's fuel is enough.) *)
Theorem data_request_served (e : MacEnv) (m m1 : MacData M) packet f rest q b x :
  mac_reachable m -> env_fair e m ->
  poll_next_input e m = Ok (Ready (InRadio (Radio.RespOnPacket packet)), m1) ->
  Frame_unpack (Radio.packet_data packet) = Ok (f, rest) ->
  frame_type f = FTCommand Frame.DataRequest ->
  destination f = Some (get_full_short_address (pib m1)) \/
    destination f = Some (get_full_extended_address (pib m1)) ->
  DS.queues (data m1) !! source f = Some q ->
  DQ.state q = DQ.Idle b -> head (DQ.entries q) = Some x -> DQ.indirect x = true ->
  exists m', process_step e m = Ok (Some (InRadio (Radio.RespOnPacket packet)), m') /\
    dr_destination (DQ.data x) = source f /\
    inevitably (S (mac_actions m')) (sends (DQ.data x)) m'.
Proof.
  intros Hm He Ep Eu Ef Hd Hq Es Ex Hi.
  assert (exists m', process_step e m = Ok (Some (InRadio (Radio.RespOnPacket packet)), m') /\
    asked_for (DS.queues (data m')) (source f) x) as (m' & E & Ha).
  { unfold process_step. rewrite Ep. cbn [mbind result_bind process_input process_radio_response].
    unfold process_radio_packet. rewrite Eu. cbn. unfold MGMT.process_frame. rewrite Ef. cbn.
    eexists. split; [reflexivity|]. unfold DS.process_frame. cbn. rewrite Ef. unfold DS.process_frame_data_request.
    rewrite decide_True by exact Hd. rewrite Hq. cbn. eexists. split; [apply lookup_insert_eq|].
    by eapply datarequest_asks. }
  pose proof (mac_reachable_inv _ (step_reachable _ _ _ _ Hm He E)) as I'.
  exists m'. split; [exact E|]. split.
  - destruct Ha as (q' & Hq' & _ & Hx & _). eapply (mi_contents m' I'); [exact Hq'|].
    destruct (DQ.entries q'); [done|]. injection Hx as ->. by left.
  - eapply asked_inevitably; [done|exact Ha|lia].
Qed.
End served.

(** ** A witness *)

Section reaching.
Context {M : Type} `{!BiMap mcps.MsduHandle UniqueKey M} `{!BitRange}.

(** Steps whose results are computed. *)
Definition step_to (e : MacEnv) (m : MacData M) : MacData M :=
  match process_step e m with Ok (_, m') => m' | Err _ => m end.
Definition free_key (k : UniqueKey) (qs : queue_map) : bool :=
  bool_decide (Forall (fun dq => k ∉ keys dq.2) (map_to_list qs)).
Definition env_fits (e : MacEnv) (m : MacData M) : bool :=
  (total_work (DS.queues (data m)) <? env_fuel e)%nat && free_key (env_key e) (DS.queues (data m)).
Definition polled_to (e : MacEnv) (m : MacData M) : MacData M :=
  match poll_next_input e m with Ok (_, m') => m' | Err _ => m end.
Definition polled_input (e : MacEnv) (m : MacData M) : option (Poll MacInput) :=
  match poll_next_input e m with Ok (r, _) => Some r | Err _ => None end.
Fixpoint steps_to (es : list MacEnv) (m : MacData M) : MacData M :=
  match es with [] => m | e :: es => steps_to es (step_to e m) end.
Fixpoint steps_fit (es : list MacEnv) (m : MacData M) : bool :=
  match es with
  | [] => true
  | e :: es => env_fits e m && is_ok (process_step e m) && steps_fit es (step_to e m)
  end.

Lemma polled_to_ok e m r : polled_input e m = Some r -> poll_next_input e m = Ok (r, polled_to e m).
Proof. unfold polled_input, polled_to. destruct (poll_next_input e m) as [[]|]; congruence. Qed.

Definition open_env (e : MacEnv) : Prop :=
  (env_radio_requests e = Takes /\ env_radio e <> Ready None) /\
  (env_mlme_closed e = false /\ env_mlme e <> Ready None) /\
  (env_mcps_closed e = false /\ env_mcps e <> Ready None).

Lemma env_fits_fair e m : env_fits e m = true -> env_fair e m.
Proof.
  intros [Hf%Nat.ltb_lt Hk]%andb_true_iff. split; [done|].
  apply bool_decide_eq_true in Hk. intros (d & q & Hq & Hin).
  rewrite Forall_forall in Hk. apply (Hk (d, q)); [by apply elem_of_map_to_list|done].
Qed.

Lemma env_fits_ok e m : open_env e -> env_fits e m = true -> env_ok e m.
Proof. intros (Hr & Hl & Hp) [Hf Hk]%env_fits_fair. by split. Qed.

Lemma steps_reachable es m :
  mac_reachable m -> Forall open_env es -> steps_fit es m = true -> mac_reachable (steps_to es m).
Proof.
  intros Hm Ho. revert m Hm. induction Ho as [|e es He _ IH]; intros m Hm Hs; [done|]. cbn in Hs |- *.
  apply andb_true_iff in Hs as [[Hf Hok]%andb_true_iff Hs]. apply IH; [|done].
  destruct Hm as (bsn & dsn & radio & m0 & rest & E & Hr). exists bsn, dsn, radio, m0, rest.
  split; [done|]. eapply rtc_r; [exact Hr|]. unfold step_to.
  destruct (process_step e m) as [[i m']|] eqn:Es; [|done]. exists e, i. split; [by apply env_fits_ok|done].
Qed.
End reaching.

(** The environment of the other examples, with a key and inputs of its own. *)
Definition served_env (key : N) (radio : Poll (option Radio.RadioResponse)) (mcps : Poll (option mcps.Input)) :
    MacEnv := {|
  env_cx := poll_context key no_timer; env_param_order := param_order; env_dest_order := example_order;
  env_fuel := 10; env_key := MkKey (key + 1); env_timer := key;
  env_random_bsn := Uint 0; env_random_dsn := Uint 0;
  env_radio := radio; env_mlme := Pending; env_mcps := mcps;
  env_radio_requests := Takes; env_mlme_closed := false; env_mcps_closed := false;
|}.

Lemma served_env_open key radio mcps :
  radio <> Ready None -> mcps <> Ready None -> open_env (served_env key radio mcps).
Proof. done. Qed.

Definition sleeper : option FullAddress := Some (FullAddr PANID_broadcast (AddrShort (ShortAddr 0x4567))).
Definition sleeper_request : mcps.DataRequest := {|
  mcps.source_addressing_mode := AM_Short; mcps.destination := sleeper; mcps.msdu := [1; 2; 3];
  mcps.msdu_handle := mcps.MsduHandle_new (MkKey 3); mcps.ack_tx := true; mcps.indirect_tx := true;
|}.

(** Starting up sets five parameters and the pending table; then a client has a frame for the
    sleeper. *)
Definition served_envs : list MacEnv :=
  [served_env 30 Pending Pending; served_env 32 Pending Pending; served_env 34 Pending Pending;
   served_env 36 Pending Pending; served_env 38 Pending Pending; served_env 40 Pending Pending;
   served_env 42 Pending (Ready (Some (mcps.InRequest (mcps.ReqData sleeper_request))))].
Definition waiting_mac : MacData handle_map := steps_to (H := BitRange_reference) served_envs started_mac.

Definition sleeper_poll : Frame := {|
  frame_pending := false; acknowledge_request := true; sequence_number := Some 7;
  destination := Some (get_full_short_address (pib started_mac)); source := sleeper;
  frame_type := FTCommand Frame.DataRequest;
|}.
Definition sleeper_packet : Radio.RadioPacket := {|
  Radio.packet_data := match Frame_pack (H := BitRange_reference) sleeper_poll vec_new with
                       | Ok t => vec t | Err _ => [] end;
  Radio.packet_rssi := 0; Radio.packet_link_quality := 0;
|}.
Definition served_env8 : MacEnv := served_env 44 (Ready (Some (Radio.RespOnPacket sleeper_packet))) Pending.
Definition polled_mac : MacData handle_map := polled_to served_env8 waiting_mac.
Definition sleeper_queue : DQ.DeviceQueue := default DQ.new (DS.queues (data polled_mac) !! sleeper).

Lemma data_request_served_witness : exists m',
  process_step (H := BitRange_reference) served_env8 waiting_mac =
    Ok (Some (InRadio (Radio.RespOnPacket sleeper_packet)), m') /\
  exists r n, dr_destination r = sleeper /\ inevitably (H := BitRange_reference) n (sends (H := BitRange_reference) r) m'.
Proof.
  assert (exists x, head (DQ.entries sleeper_queue) = Some x /\ DQ.indirect x = true) as (x & Hx & Hi).
  { eexists. split; vm_compute; reflexivity. }
  destruct (data_request_served (H := BitRange_reference) served_env8 waiting_mac polled_mac sleeper_packet
    sleeper_poll [] sleeper_queue false x) as (m' & E & Ed & Hs).
  - apply steps_reachable; [exact started_reachable| |vm_compute; reflexivity].
    by repeat (constructor; [by apply served_env_open|]).
  - apply env_fits_fair. vm_compute; reflexivity.
  - unfold polled_mac. refine (polled_to_ok served_env8 waiting_mac _ _). vm_compute; reflexivity.
  - vm_compute; reflexivity.
  - reflexivity.
  - left. vm_compute; reflexivity.
  - vm_compute; reflexivity.
  - vm_compute; reflexivity.
  - exact Hx.
  - exact Hi.
  - exists m'. split; [exact E|]. exists (DQ.data x), (S (mac_actions m')). split; [exact Ed|exact Hs].
Defined.
