(* ===== verification/RadioChannel.v ===== *)
(** * The MAC and the radio's service on channels without room ([radio/mod.rs], [mac/service.rs])

    [start_radio] connects the two by channels of capacity 0: whoever sends waits until the
    other side has taken the item.  Here the MAC's task and the two tasks of the radio's
    service run together, each poll a step, with what is in the channels; a task whose send is
    not over does nothing else.

    Shown here: a step of the MAC sends at most one request, so that waiting at its end is all the
    waiting there is; a request in the channel can be taken, by polls of the radio's service
    alone, in every state but one, in which the request task waits for the map's lock, the response
    task holds it while the MAC has not taken its response, and the MAC has sent another
    request; in that state nobody ever moves again; and it is reached by a MAC that has more than
    two requests to send at once, as it has when it has started. *)

From Stdlib Require Import ZArith Lia.
From S2P Require Import RadioRaw RadioRawTheory Radio RadioTheory RadioLink RadioLinkTheory RadioLinkDrains.
From S2P Require Import Prelude Pack BitField Frame FrameTheory Async Pib Services.
From S2P Require Import DeviceQueue BiMap DataService DataServiceTheory Management.
From S2P Require Import MacService MacServiceTheory MacActions MacDelivery.

#[local] Open Scope Z_scope.

Import MAC Radio.

Module Chan.

(** The MAC, the request it is sending, if it is not yet taken, the service, and the response that
    the service is sending, if the MAC has not yet taken it. *)
Record Joined {M : Type} := MkJoined {
  mac : MacData M;
  request : option RadioRequest;
  service : RadioService;
  response : option RadioResponse;
}.
Arguments Joined : clear implicits.

Section joined.
Context {M : Type} `{!BiMap mcps.MsduHandle UniqueKey M, !BitRange}.
Context `{!Nom, !CookieFactory}.

(** What is in a channel whose sender is alive *)
Definition waiting {A} (slot : option A) : Poll (option A) :=
  match slot with Some x => Ready (Some x) | None => Pending end.

(** The MAC takes what the service sends.  Sending a request is begun here; its end is up to
    [request_poll]. *)
Definition mac_env (e : MacEnv) (J : Joined M) : MacEnv := {|
  env_cx := env_cx e; env_param_order := env_param_order e; env_dest_order := env_dest_order e;
  env_fuel := env_fuel e; env_key := env_key e; env_timer := env_timer e;
  env_random_bsn := env_random_bsn e; env_random_dsn := env_random_dsn e;
  env_radio := waiting (response J); env_mlme := env_mlme e; env_mcps := env_mcps e;
  env_radio_requests := Takes; env_mlme_closed := env_mlme_closed e;
  env_mcps_closed := env_mcps_closed e;
|}.

Definition sent_now (m m' : MacData M) : option RadioRequest :=
  head (drop (length (radio_requests m)) (radio_requests m')).

(** [process], polled *)
Definition mac_poll (e : MacEnv) (J : Joined M) : exec (Joined M) :=
  match request J with
  | Some _ => Ok J
  | None =>
      '(i, m) ← process_step (mac_env e J) (mac J);
      Ok (MkJoined M m (sent_now (mac J) m) (service J)
            (match i with Some (InRadio _) => None | _ => response J end))
  end.

(** [radio_request_task], polled: [requests.next()] empties the channel. *)
Definition request_env (e : RequestEnv) (J : Joined M) : RequestEnv :=
  {| env_request := waiting (request J); env_draws := env_draws e; env_writes := env_writes e;
     env_flush := env_flush e |}.
Definition request_poll (e : RequestEnv) (J : Joined M) : exec (Joined M) :=
  s ← radio_request_task (request_env e J) (service J);
  Ok (MkJoined M (mac J) (match request_task (service J) with NextRequest => None | _ => request J end)
        s (response J)).

(** [radio_response_task], polled: a response it has found is in the channel, and its send is
    over when the MAC has taken it. *)
Definition response_env (reads : list read_event) (J : Joined M) : ResponseEnv :=
  {| env_reads := reads;
     env_sent := match response J with Some _ => Pending | None => Ready (Ok tt) end |}.
Definition begun (t t' : ResponseTask) : option RadioResponse :=
  match t, t' with NextMessage, SendResponse r _ => Some r | _, _ => None end.
Definition response_poll (reads : list read_event) (J : Joined M) : exec (Joined M) :=
  '(_, _, s) ← radio_response_task (response_env reads J) (service J);
  Ok (MkJoined M (mac J) (request J) s
        (match begun (response_task (service J)) (response_task s) with
         | Some r => Some r
         | None => response J
         end)).

(** Polls of the service, and of all three tasks; random ids are [u16]s. *)
Inductive service_step : Joined M -> Joined M -> Prop :=
| poll_requests e J J' :
    Forall (in_width 16) (env_draws e) -> request_poll e J = Ok J' -> service_step J J'
| poll_responses reads J J' : response_poll reads J = Ok J' -> service_step J J'.
Inductive joined_step : Joined M -> Joined M -> Prop :=
| poll_service J J' : service_step J J' -> joined_step J J'
| poll_mac e J J' : mac_poll e J = Ok J' -> joined_step J J'.

(** When the MAC has started it has the answers to all that it asked for. *)
Definition at_start (J : Joined M) : Prop :=
  mac_reachable (mac J) /\ request J = None /\ response J = None /\
  responsemap (service J) = ∅ /\ request_task (service J) = NextRequest /\
  response_task (service J) = NextMessage /\ sink_buffer (sink (service J)) = [] /\
  written (sink (service J)) = 0%nat.
Definition joined_reachable (J : Joined M) : Prop := exists J0, at_start J0 /\ rtc joined_step J0 J.

(** Each of the three waits for another. *)
Definition deadlocked (J : Joined M) : Prop :=
  is_Some (request J) /\ is_Some (response J) /\
  (exists r, response_task (service J) = SendResponse r true) /\
  (exists c d p, request_task (service J) = LockForRequest c d p).

#[global] Instance deadlocked_dec J : Decision (deadlocked J).
Proof.
  unfold deadlocked. destruct (request J) as [r|]; [|right; by intros [[] _]].
  destruct (response J) as [x|]; [|right; by intros (_ & [] & _)].
  destruct (response_task (service J)) as [|y []];
    [right; by intros (_ & _ & [] & _)| |right; by intros (_ & _ & [] & _)].
  destruct (request_task (service J));
    try (right; by intros (_ & _ & _ & ? & ? & ? & ?)). left. split_and!; eauto.
Defined.

(** ** A step sends at most one request *)

Lemma sends_at_most_one e (m m' : MacData M) i :
  process_step e m = Ok (i, m') ->
  exists o, radio_requests m' = radio_requests m ++ option_list o /\ sent_now m m' = o.
Proof.
  enough (process_step e m = Ok (i, m') -> exists o, radio_requests m' = radio_requests m ++ option_list o) as Hk.
  { intros (o & E)%Hk. exists o. split; [done|]. unfold sent_now. rewrite E, drop_app_length. by destruct o. }
  unfold process_step. intros E. apply result_bind_Ok in E as ([r m1] & Ep & E).
  apply input_polled in Ep as (<- & _ & _).
  destruct r as [j|]; [|injection E as _ <-; exists None; by rewrite app_nil_r].
  apply result_bind_Ok in E as (m2 & Eh & E). injection E as _ <-.
  assert (forall r m2, send_request e r m1 = Ok m2 -> exists o, radio_requests m2 = radio_requests m1 ++ option_list o) as Hr.
  { intros r m3. unfold send_request. destruct (env_radio_requests e); [|done..]. intros [= <-]. by exists (Some r). }
  assert (forall k f m2, send_frame e k f m1 = Ok m2 -> exists o, radio_requests m2 = radio_requests m1 ++ option_list o) as Hs.
  { intros k f m3. unfold send_frame. destruct (Frame_pack f vec_new); [apply Hr|done]. }
  assert (radio_requests m2 = radio_requests m1 -> exists o, radio_requests m2 = radio_requests m1 ++ option_list o) as Hn.
  { intros ->. exists None. by rewrite app_nil_r. }
  destruct j as [r|r|r|r|r|a|a]; cbn [process_input] in Eh.
  - apply Hn. destruct r; cbn [process_radio_response] in Eh; try (by injection Eh as <-).
    + apply result_bind_Ok in Eh as ([f rest] & _ & Eh).
      destruct (MGMT.process_frame _ _ _) as [[o p] s]. apply result_bind_Ok in Eh as (m3 & Em & Eh).
      injection Eh as <-. cbn. destruct o; [|by injection Em as <-].
      unfold send_mlme in Em. destruct (env_mlme_closed e); [done|]. by injection Em as <-.
    + apply result_bind_Ok in Eh as (d & _ & Eh). by injection Eh as <-.
    + apply result_bind_Ok in Eh as (d & _ & Eh). by injection Eh as <-.
  - apply Hn. unfold process_mlme_request in Eh.
    destruct (MGMT.process_mlme_request _ _ _ _ _ _) as [[[c p] d] s]. destruct c; [|by injection Eh as <-].
    unfold send_mlme in Eh. destruct (env_mlme_closed e); [done|]. by injection Eh as <-.
  - apply Hn. by injection Eh as <-.
  - apply Hn. unfold process_mcps_request in Eh. destruct (DS.process_mcps_request _ _ _ _ _ _) as [c d].
    destruct c; [|by injection Eh as <-].
    unfold send_mcps in Eh. destruct (env_mcps_closed e); [done|]. by injection Eh as <-.
  - apply Hn. by injection Eh as <-.
  - destruct a; cbn in Eh; [by eapply Hr|by eapply Hs].
  - destruct a; cbn in Eh; try (by eapply Hr); [by eapply Hs|]. apply Hn. unfold send_mcps in Eh.
    destruct (env_mcps_closed e); [done|]. by injection Eh as <-.
Qed.

(** ** The deadlock is final *)

Lemma deadlocked_mac e J : deadlocked J -> mac_poll e J = Ok J.
Proof. intros ([r Hr] & _). unfold mac_poll. by rewrite Hr. Qed.
Lemma deadlocked_requests e J : deadlocked J -> request_poll e J = Ok J.
Proof.
  intros (_ & _ & [r Hr] & c & d & p & Hq). unfold request_poll, radio_request_task, lock_held.
  rewrite Hq, Hr. cbn. by destruct J.
Qed.
Lemma deadlocked_responses reads J : deadlocked J -> response_poll reads J = Ok J.
Proof.
  intros (_ & [x Hx] & [r Hr] & _). unfold response_poll, radio_response_task. rewrite Hr. cbn. rewrite Hx. cbn.
  destruct J. cbn in *. by subst.
Qed.
Lemma deadlocked_stays J J' : deadlocked J -> rtc joined_step J J' -> J' = J.
Proof.
  intros Hd Hr. induction Hr as [J|J J1 J2 Hs _ IH]; [done|].
  assert (J1 = J) as ->; [|by apply IH].
  destruct Hs as [J J' Hs|e J J' E]; [destruct Hs as [e J J' _ E|reads J J' E]|].
  - rewrite deadlocked_requests in E by done. congruence.
  - rewrite deadlocked_responses in E by done. congruence.
  - rewrite deadlocked_mac in E by done. congruence.
Qed.

(** ** What holds of the tasks in every state *)

Record joined_inv (J : Joined M) : Prop := {
  ji_sink : (written (sink (service J)) <= length (sink_buffer (sink (service J))))%nat;
  ji_message : message_ok (service J);
  ji_running : request_task (service J) <> RequestsDriedUp;
}.

Context `{!CookieFactoryLaws}.

Lemma poll_ready_within events k :
  (written k <= length (sink_buffer k))%nat ->
  let '(_, _, k') := poll_ready events k in (written k' <= length (sink_buffer k'))%nat.
Proof.
  intros Hk. pose proof (poll_ready_ok (written_out k ++ unwritten k) events k ltac:(by split)) as Hp.
  destruct (poll_ready events k) as [[r ev] k']. by destruct Hp as [[? _] _].
Qed.

Lemma start_send_within m k k' :
  in_width 16 (uint_val (RadioRaw.request_id m)) -> (written k <= length (sink_buffer k))%nat ->
  start_send m k = Ok k' -> (written k' <= length (sink_buffer k'))%nat.
Proof.
  intros Hm Hk. unfold start_send. rewrite into_vec_spec by done. intros [= <-]. cbn. rewrite length_app. lia.
Qed.

Lemma request_poll_inv e J J' :
  Forall (in_width 16) (env_draws e) -> joined_inv J -> request_poll e J = Ok J' -> joined_inv J'.
Proof.
  intros Hd [Hs Hm Hr] E. apply result_bind_Ok in E as (s & E & [= <-]).
  pose proof (request_step_message_ok (request_env e J) _ _ Hd Hm E) as Hm'.
  split; [|exact Hm'|]; cbn; revert E; unfold radio_request_task; cbn [request_env env_request env_draws env_writes env_flush].
  - destruct (request_task (service J)) as [|c d p|m| |] eqn:Et.
    + destruct (request J) as [r|]; cbn; [destruct (into_raw r) as [[c d] p]|]; by intros [= <-].
    + destruct (lock_held _); [by intros [= <-]|]. destruct (pick_request_id _ _); [|done]. by intros [= <-].
    + pose proof (poll_ready_within (env_writes e) _ Hs) as Hw.
      destruct (poll_ready _ _) as [[[[u|err]|] ev] k]; [|by intros [= <-]..].
      destruct (start_send m k) as [k'|] eqn:Es; [|done]. intros [= <-]. cbn.
      eapply start_send_within; [by apply Hm|exact Hw|exact Es].
    + unfold poll_flush. pose proof (poll_ready_within (env_writes e) _ Hs) as Hw.
      destruct (poll_ready _ _) as [[[[u|err]|] ev] k]; [destruct (env_flush e)|..]; by intros [= <-].
    + done.
  - destruct (request_task (service J)) as [|c d p|m| |] eqn:Et; [..|done].
    + destruct (request J) as [r|]; cbn; [destruct (into_raw r) as [[c d] p]|]; intros [= <-]; cbn; congruence.
    + destruct (lock_held _); [intros [= <-]; congruence|]. destruct (pick_request_id _ _); [|done]. by intros [= <-].
    + destruct (poll_ready _ _) as [[[[u|err]|] ev] k]; [destruct (start_send m k); [|done]|..];
        intros [= <-]; cbn; congruence.
    + destruct (poll_flush _ _ _) as [[[u|] ev] k]; intros [= <-]; cbn; congruence.
Qed.

Lemma response_poll_inv reads J J' : joined_inv J -> response_poll reads J = Ok J' -> joined_inv J'.
Proof.
  intros [Hs Hm Hr] E. apply result_bind_Ok in E as ([[o un] s] & E & [= <-]).
  pose proof (response_step_message_ok _ _ _ _ _ Hm E) as Hm'.
  enough (sink s = sink (service J) /\ request_task s = request_task (service J)) as [E1 E2].
  { split; cbn; by rewrite ?E1, ?E2. }
  revert E. unfold radio_response_task. destruct (response_task (service J)).
  - destruct (poll_next _ _ _) as [[[[msg|] rd'] b]|]; [| |done]; cbn [mbind result_bind].
    2: { by intros [= <- <- <-]. }
    destruct msg as [msg|]; [|done]. cbn [unwrap mbind result_bind].
    destruct (process_message _ _) as [[[[r held]|] m']|]; [..|done]; by intros [= <- <- <-].
  - cbn. destruct (response J); by intros [= <- <- <-].
Qed.

Lemma service_inv J J' : joined_inv J -> service_step J J' -> joined_inv J'.
Proof. intros I Hs. destruct Hs as [e J1 J1' Hd E|reads J1 J1' E]; [by eapply request_poll_inv|by eapply response_poll_inv]. Qed.

Lemma joined_reachable_inv J : joined_reachable J -> joined_inv J.
Proof.
  intros (J0 & (_ & _ & _ & _ & Ht & _ & Hb & Hw) & Hr).
  assert (joined_inv J0) as I by (split; [rewrite Hw; lia|unfold message_ok; by rewrite Ht|by rewrite Ht]).
  clear Ht Hb Hw. induction Hr as [J|J J1 J2 Hs _ IH]; [done|]. apply IH.
  destruct Hs as [J J' Hs|e J J' E]; [by eapply service_inv|].
  revert E. unfold mac_poll. destruct (request J); [by intros [= <-]|].
  intros E. apply result_bind_Ok in E as ([i m] & _ & [= <-]). by destruct I.
Qed.

(** ** Without the deadlock a request is taken *)

(** A port that takes everything, and a random number *)
Definition taking_env (id : Z) (k : RawRadioSink) : RequestEnv :=
  {| env_request := Pending; env_draws := [id]; env_writes := [WAccept (length (sink_buffer k))];
     env_flush := Ready (Ok tt) |}.

Lemma taken_next id J :
  in_width 16 id -> request_task (service J) = NextRequest ->
  exists J', service_step J J' /\ request J' = None.
Proof.
  intros Hid Et. unfold request_poll. destruct (request J) as [r|] eqn:Er.
  - destruct (into_raw r) as [[c d] p] eqn:Ei. eexists. split.
    + eapply (poll_requests (taking_env id (sink (service J)))); [by apply Forall_singleton|].
      unfold request_poll, radio_request_task. rewrite Et. cbn [request_env env_request]. rewrite Er. cbn [waiting].
      rewrite Ei. reflexivity.
    + done.
  - eexists. split.
    + eapply (poll_requests (taking_env id (sink (service J)))); [by apply Forall_singleton|].
      unfold request_poll, radio_request_task. rewrite Et. cbn [request_env env_request]. rewrite Er. reflexivity.
    + done.
Qed.

Lemma taken_flush id J :
  joined_inv J -> in_width 16 id -> request_task (service J) = SinkFlush ->
  exists J', service_step J J' /\ request_task (service J') = NextRequest /\ request J' = request J.
Proof.
  intros I Hid Et. destruct (poll_ready_accepts _ (ji_sink _ I)) as (ev & k & Ep). eexists. split.
  - eapply (poll_requests (taking_env id (sink (service J)))); [by apply Forall_singleton|].
    unfold request_poll, radio_request_task, poll_flush. rewrite Et.
    cbn [request_env env_writes env_flush taking_env]. rewrite Ep. reflexivity.
  - done.
Qed.

Lemma taken_sink id J m :
  joined_inv J -> in_width 16 id -> request_task (service J) = SinkReady m ->
  exists J', service_step J J' /\ request_task (service J') = SinkFlush /\ request J' = request J.
Proof.
  intros I Hid Et. destruct (poll_ready_accepts _ (ji_sink _ I)) as (ev & k & Ep).
  assert (exists k', start_send m k = Ok k') as [k' Es].
  { unfold start_send. rewrite into_vec_spec by by apply (ji_message _ I). by eexists. }
  eexists. split.
  - eapply (poll_requests (taking_env id (sink (service J)))); [by apply Forall_singleton|].
    unfold request_poll, radio_request_task. rewrite Et.
    cbn [request_env env_writes taking_env]. rewrite Ep, Es. reflexivity.
  - done.
Qed.

Lemma taken_lock id J c d p :
  in_width 16 id -> responsemap (service J) !! id = None ->
  request_task (service J) = LockForRequest c d p -> lock_held (service J) = false ->
  exists J' m, service_step J J' /\ request_task (service J') = SinkReady m /\ request J' = request J.
Proof.
  intros Hid Hf Et Hl. do 2 eexists. split.
  - eapply (poll_requests (taking_env id (sink (service J)))); [by apply Forall_singleton|].
    unfold request_poll, radio_request_task. rewrite Et, Hl.
    cbn [request_env env_draws taking_env pick_request_id]. rewrite decide_True by exact Hf. reflexivity.
  - done.
Qed.

Lemma taken_release J r held :
  response J = None -> response_task (service J) = SendResponse r held ->
  exists J', service_step J J' /\ lock_held (service J') = false /\ request J' = request J /\
    request_task (service J') = request_task (service J) /\
    responsemap (service J') = responsemap (service J).
Proof.
  intros Hr Et. eexists. split.
  - eapply (poll_responses []). unfold response_poll, radio_response_task. rewrite Et. cbn [response_env env_sent].
    rewrite Hr. reflexivity.
  - done.
Qed.

(** In every state that can be reached, if an id is free: the radio's service can take the request
    that the MAC sends, by polls of its own two tasks, unless the three tasks are deadlocked;
    and then nothing ever changes. *)
Theorem request_taken_or_deadlock J :
  joined_reachable J -> (exists id, in_width 16 id /\ responsemap (service J) !! id = None) ->
  (deadlocked J -> forall J', rtc joined_step J J' -> J' = J) /\
  (~ deadlocked J -> exists J', rtc service_step J J' /\ request J' = None).
Proof.
  intros I%joined_reachable_inv (id & Hid & Hf). split; [intros Hd J'; by apply deadlocked_stays|].
  intros Hn.
  assert (forall J, request_task (service J) = NextRequest -> exists J', rtc service_step J J' /\ request J' = None)
    as Hnext.
  { intros J1 Et. destruct (taken_next id J1 Hid Et) as (J2 & Hs & E). exists J2. split; [by apply rtc_once|done]. }
  assert (forall J, joined_inv J -> request_task (service J) = SinkFlush ->
    exists J', rtc service_step J J' /\ request J' = None) as Hflush.
  { intros J1 I1 Et. destruct (taken_flush id J1 I1 Hid Et) as (J2 & Hs & E & _).
    destruct (Hnext J2 E) as (J3 & Hr & Hq). exists J3. split; [by eapply rtc_l|done]. }
  assert (forall J m, joined_inv J -> request_task (service J) = SinkReady m ->
    exists J', rtc service_step J J' /\ request J' = None) as Hsink.
  { intros J1 m I1 Et. destruct (taken_sink id J1 m I1 Hid Et) as (J2 & Hs & E & _).
    destruct (Hflush J2 (service_inv _ _ I1 Hs) E) as (J3 & Hr & Hq). exists J3. split; [by eapply rtc_l|done]. }
  assert (forall J c d p, joined_inv J -> responsemap (service J) !! id = None ->
    request_task (service J) = LockForRequest c d p -> lock_held (service J) = false ->
    exists J', rtc service_step J J' /\ request J' = None) as Hlock.
  { intros J1 c d p I1 Hf1 Et Hl. destruct (taken_lock id J1 c d p Hid Hf1 Et Hl) as (J2 & m & Hs & E & _).
    destruct (Hsink J2 m (service_inv _ _ I1 Hs) E) as (J3 & Hr & Hq). exists J3. split; [by eapply rtc_l|done]. }
  destruct (request_task (service J)) as [|c d p|m| |] eqn:Et; [by apply Hnext| |by eapply Hsink|by apply Hflush|].
  2: { by destruct (ji_running _ I). }
  destruct (lock_held (service J)) eqn:Hl; [|by eapply Hlock].
  unfold lock_held in Hl. destruct (response_task (service J)) as [|r []] eqn:Er; [done| |done].
  destruct (response J) as [x|] eqn:Ex.
  - destruct (request J) as [q|] eqn:Eq; [|exists J; split; [apply rtc_refl|done]].
    destruct Hn. unfold deadlocked. rewrite Eq, Ex. split_and!; eauto.
  - destruct (taken_release J r true Ex Er) as (J1 & Hs & Hl1 & _ & Et1 & Em1). rewrite Et in Et1.
    destruct (Hlock J1 c d p (service_inv _ _ I Hs) ltac:(by rewrite Em1) Et1 Hl1) as (J2 & Hr & Hq).
    exists J2. split; [by eapply rtc_l|done].
Qed.
End joined.

(** ** A deadlock *)

Section polling.
Context {M : Type} `{!BiMap mcps.MsduHandle UniqueKey M, !BitRange, !Nom, !CookieFactory}.

Inductive poll := PollMac (e : MacEnv) | PollRequests (id : Z) | PollResponses (reads : list read_event).
Definition take_poll (a : poll) (J : Joined M) : exec (Joined M) :=
  match a with
  | PollMac e => mac_poll e J
  | PollRequests id =>
      if bool_decide (in_width 16 id) then request_poll (taking_env id (sink (service J))) J else Err OutOfFuel
  | PollResponses reads => response_poll reads J
  end.
Fixpoint take_polls (l : list poll) (J : Joined M) : exec (Joined M) :=
  match l with [] => Ok J | a :: l => J ← take_poll a J; take_polls l J end.
Definition ends_deadlocked (l : list poll) (J : Joined M) : bool :=
  match take_polls l J with Ok J => bool_decide (deadlocked J) | Err _ => false end.

Lemma take_polls_steps l J J' : take_polls l J = Ok J' -> rtc joined_step J J'.
Proof.
  revert J. induction l as [|a l IH]; intros J; cbn [take_polls]; [by intros [= <-]|].
  intros E. apply result_bind_Ok in E as (J1 & E1 & E2). eapply rtc_l; [|by apply IH].
  destruct a as [e|id|reads]; cbn in E1.
  - by eapply poll_mac.
  - case_bool_decide; [|done]. apply poll_service. eapply poll_requests; [|exact E1]. by apply Forall_singleton.
  - apply poll_service. by eapply poll_responses.
Qed.
End polling.

#[local] Existing Instance BitRange_reference.
#[local] Existing Instance Nom_reference.
#[local] Existing Instance CookieFactory_reference.

Definition started_joined : Joined handle_map := MkJoined handle_map started_mac None service_new None.

(** The MAC, just started, has parameters to set and tables to clear.  The radio answers the first
    request when the MAC has sent the second, and has it answered before the MAC has sent the
    third. *)
Definition first_answer : list Z := [0x5A; 0x50; 0x42; 0x80; 0; 7; 0; 2; 0; 0].
Definition deadlocking : list poll :=
  [PollMac example_env; PollRequests 7; PollRequests 7; PollRequests 7; PollRequests 7;
   PollMac example_env; PollRequests 8; PollResponses [RData first_answer]; PollMac example_env].

Theorem deadlock_reached : exists J : Joined handle_map, joined_reachable J /\ deadlocked J.
Proof.
  assert (ends_deadlocked deadlocking started_joined = true) as E by (vm_compute; reflexivity).
  unfold ends_deadlocked in E. destruct (take_polls deadlocking started_joined) as [J|] eqn:Ej; [|done].
  exists J. split; [|by apply bool_decide_eq_true in E]. exists started_joined.
  split; [|by eapply take_polls_steps]. split; [exact started_reachable|by split_and!].
Qed.
End Chan.
