(* ===== verification/Main.v ===== *)
(** * The application ([main.rs])

    The main loop brings a coordinator up by MLME requests and then lets devices
    join: it answers beacon requests that are passed to it, admits every device that asks
    to associate, and sends it a first data frame.  What passes between the MAC and the radio
    is captured in a file.  [Program.v] runs the main loop together with the MAC; opening the serial
    port is not modelled.

    Shown here, by running the requests through the MAC's handlers: starting up succeeds
    from every state and leaves the coordinator as it is to be; and a device that may
    join is admitted, with the answer and the data frame queued for it. *)

From Stdlib Require Import ZArith Lia.
From S2P Require Import RadioRaw Radio.
From S2P Require Import Prelude Pack BitField Frame FrameTheory Async Pib Services.
From S2P Require Import DeviceQueue DeviceQueueTheory BiMap DataService DataServiceTheory.
From S2P Require Import Management ManagementTheory MacServiceTheory.

#[local] Open Scope Z_scope.

Module App.

Inductive MainloopInput :=
| Mlme (o : mlme.Output)
| Mcps (o : mcps.Output).

Definition beacon_payload_bytes : list Z :=
  [0x00; 0x22; 0x84; 0x15; 0x68; 0x89; 0x0e; 0x00; 0x4b; 0x12; 0x00; 0xFF; 0xFF; 0xFF; 0x00].

(** What [mainloop] requests before it looks at any input. *)
Definition startup_requests : list mlme.Request :=
  [mlme.ReqReset (mlme.MkReset true);
   mlme.ReqSet (mlme.MkSet PhyCurrentChannel (into_pib (Uint 25 : u16)));
   mlme.ReqSet (mlme.MkSet MacAssociationPermit (into_pib true));
   mlme.ReqSet (mlme.MkSet MacShortAddress (into_pib (ShortAddr 0x0000)));
   mlme.ReqSet (mlme.MkSet MacBeaconPayload (into_pib beacon_payload_bytes));
   mlme.ReqSet (mlme.MkSet MacBeaconAutoRespond (into_pib true));
   mlme.ReqStart {|
     mlme.start_pan_id := Frame.PanId 0x1234;
     mlme.channel_number := Uint 25;
     mlme.start_channel_page := Uint 0;
     mlme.start_time := Uint 0;
     mlme.beacon_order := Uint 15;
     mlme.superframe_order := Uint 15;
     mlme.pan_coordinator := true;
     mlme.battery_life_extension := false;
   |}].

Definition device_short_address : Frame.ShortAddress := ShortAddr 0x4567.

Definition nwk_header : list Z := [0x48; 0x00; 0x67; 0x45; 0x00; 0x00; 0x1E; 0x28].
Definition aps_header : list Z :=
  [0x21; 0x06; 0x10; 0x01; 0x00; 0x00; 0x00; 0xe3; 0xbd; 0x18; 0x74; 0x09; 0x2c; 0x2c; 0xa3; 0x58;
   0x1d; 0x8a; 0x23; 0xb9; 0x6c; 0x3b; 0x80; 0xf0; 0xad; 0x27; 0x1c; 0x59; 0x8a; 0xdf; 0x27; 0xbc;
   0x21; 0xc7; 0x47; 0xf0; 0x31; 0x74; 0x80; 0xbc; 0x8c; 0x53; 0x88; 0x11; 0x8f; 0x02].

(** One round of [mainloop]: what it sends to the MLME and to the MCPS; [key] is the unique
    key of [MsduHandle::new]. *)
Definition mainloop_round (key : UniqueKey) (input : MainloopInput) :
    list mlme.Input * list mcps.Input :=
  match input with
  | Mlme (mlme.OutIndication (mlme.IndBeaconRequest beacon_type _ _)) =>
      ([mlme.InRequest (mlme.ReqBeacon {|
          mlme.beacon_type := beacon_type;
          mlme.channel := Uint 25;
          mlme.channel_page := Uint 0;
          mlme.beacon_superframe_order := 15;
          mlme.dst_addr := None;
        |})], [])
  | Mlme (mlme.OutIndication (mlme.IndAssociate device_address capability_information)) =>
      ([mlme.InResponse (mlme.RespAssociate device_address (ci_fast_association capability_information)
          (Ok (Some device_short_address)))],
       [mcps.InRequest (mcps.ReqData {|
          mcps.source_addressing_mode := AM_Short;
          mcps.destination := Some (FullAddr (Frame.PanId 0x1234) (AddrShort device_short_address));
          mcps.msdu := nwk_header ++ aps_header;
          mcps.msdu_handle := mcps.MsduHandle_new key;
          mcps.ack_tx := true;
          mcps.indirect_tx := true;
        |})])
  | _ => ([], [])
  end.

(** ** The packet capture

    [main] wraps the radio's streams: what passes is appended to a file, packets that arrive with
    their strength and quality behind them, packets that are sent with a good quality. *)

Definition capture_response (response : Radio.RadioResponse) : option (list Z) :=
  match response with
  | Radio.RespOnPacket packet =>
      Some (Radio.packet_data packet ++ [Radio.packet_rssi packet; Z.lor (Radio.packet_link_quality packet) 0x80])
  | _ => None
  end.
Definition capture_request (request : Radio.RadioRequest) : option (list Z) :=
  match request with
  | Radio.ReqSendPacket _ packet => Some (packet ++ [0; 0x80])
  | _ => None
  end.
(** A record of the file: the lengths in its header, a [u32], and its bytes *)
Definition pcap_record (data : list Z) : Z * list Z := (Z.of_nat (length data) mod 2 ^ 32, data).
Fixpoint run_capture {A} (capture : A -> option (list Z)) (file : list (Z * list Z)) (xs : list A) :
    list A * list (Z * list Z) :=
  match xs with
  | [] => ([], file)
  | x :: xs =>
      let file := match capture x with Some data => file ++ [pcap_record data] | None => file end in
      let '(ys, file) := run_capture capture file xs in (x :: ys, file)
  end.

(** What passes is handed on as it is, and the file gains the captured packets in order. *)
Theorem capture_is_transparent {A} (capture : A -> option (list Z)) file xs :
  run_capture capture file xs = (xs, file ++ (pcap_record <$> omap capture xs)).
Proof.
  revert file. induction xs as [|x xs IH]; intros file; cbn; [by rewrite app_nil_r|].
  rewrite IH. destruct (capture x); cbn; [by rewrite <- (assoc_L (++))|done].
Qed.

(** ** Starting up *)

Section app.
Context {M : Type} `{!BiMap mcps.MsduHandle UniqueKey M, !BiMapLaws mcps.MsduHandle UniqueKey M}.

(** The requests handled one after the other, with their confirms. *)
Fixpoint serve_requests (bsn dsn : u8) (rs : list mlme.Request) (p : PIB) (d : DS.DataService M)
    (s : MGMT.ManagementService) :
    list mlme.Confirm * PIB * DS.DataService M * MGMT.ManagementService :=
  match rs with
  | [] => ([], p, d, s)
  | r :: rs =>
      let '(c, p, d, s) := MGMT.process_mlme_request bsn dsn p d r s in
      let '(cs, p, d, s) := serve_requests bsn dsn rs p d s in
      (option_list c ++ cs, p, d, s)
  end.

(** The coordinator as it is to be. *)
Definition coordinator (bsn dsn : u8) (p : PIB) : PIB :=
  MkPIB (mac_extended_address p) (Some (mac_extended_address p, ShortAddr 0)) true beacon_payload_bytes
    bsn dsn (Frame.PanId 0x1234) (ShortAddr 0) true (from_secs (5 * 60)) (Uint 3) (Uint 25)
    (phy_tx_power p) (phy_tx_power p).

(** From every state of the MAC, starting up succeeds in every request, drops what the
    data service had to do, and leaves the device the coordinator of PAN 0x1234 on
    channel 25 with address zero, admitting devices and answering beacon requests, with
    the radio asked to follow. *)
Theorem coordinator_starts (bsn dsn : u8) (p : PIB) (d : DS.DataService M) (s : MGMT.ManagementService) :
  let '(cs, p', d', s') := serve_requests bsn dsn startup_requests p d s in
  cs = [mlme.ConfReset (Ok tt); mlme.ConfSet PhyCurrentChannel (Ok tt);
        mlme.ConfSet MacAssociationPermit (Ok tt); mlme.ConfSet MacShortAddress (Ok tt);
        mlme.ConfSet MacBeaconPayload (Ok tt); mlme.ConfSet MacBeaconAutoRespond (Ok tt);
        mlme.ConfStart (Ok tt)] /\
  p' = coordinator bsn dsn p /\ d' = DS.new /\ follows p' s' /\ MGMT.outgoing s' = [].
Proof.
  destruct p as [a1 a2 a3 a4 a5 a6 a7 a8 a9 a10 a11 a12 a13 a14].
  cbn -[MGMT.update_radio_parameters MGMT.new MGMT.process_mlme_start_request from_secs].
  unfold MGMT.process_mlme_start_request. rewrite decide_False by done.
  cbn -[MGMT.update_radio_parameters MGMT.new from_secs].
  split_and!; try done.
  - do 6 (eapply updates_follow). apply new_follows.
  - unfold MGMT.new. by rewrite !updates_outgoing.
Qed.

(** ** Letting a device join *)

(** What the MAC's data service makes of what the main loop sends in one round; the
    requests that say something to other parts leave it alone. *)
Definition serve_round (key1 key2 : UniqueKey) (timer1 timer2 : N) (ord : IterOrder (option FullAddress))
    (p : PIB) (sent : list mlme.Input * list mcps.Input) (d : DS.DataService M) : DS.DataService M :=
  let d := foldl (fun d i =>
    match i with
    | mlme.InResponse r => MGMT.process_mlme_response key1 timer1 p r d
    | mlme.InRequest _ => d
    end) d (fst sent) in
  foldl (fun d i =>
    match i with
    | mcps.InRequest r => snd (DS.process_mcps_request p ord key2 timer2 r d)
    | mcps.InResponse r => DS.process_mcps_response r d
    end) d (snd sent).

Lemma insert_other (p : PIB) t r (d : DS.DataService M) dst :
  dst <> dr_destination r -> DS.queues (DS.insert p t r d) !! dst = DS.queues d !! dst.
Proof.
  intros Hn. unfold DS.insert. destruct (DS.queues d !! dr_destination r); cbn; by rewrite lookup_insert_ne.
Qed.

(** A device that may join is admitted: its request reaches the main loop, and what that
    sends queues, last for its extended address, the answer with the short address 0x4567, and,
    last for that address on PAN 0x1234, an indirect data frame whose handle is
    outstanding.  The data service stays consistent. *)
Theorem device_joins (p : PIB) (f : Frame) (a : ExtendedAddress) (c : CapabilityInformation)
    (s : MGMT.ManagementService) (d : DS.DataService M) (handle key1 key2 : UniqueKey)
    (timer1 timer2 : N) (ord : IterOrder (option FullAddress)) :
  may_join p f a c -> ds_reachable d ->
  ~ queued (DS.queues d) key1 -> ~ queued (DS.queues d) key2 -> key1 <> key2 ->
  exists i, fst (fst (MGMT.process_frame p f s)) = Some i /\
  let d' := serve_round key1 key2 timer1 timer2 ord p
              (mainloop_round handle (Mlme (mlme.OutIndication i))) d in
  ds_reachable d' /\ bm_get (DS.msdu_handles d') (mcps.MsduHandle_new handle) = Some key2 /\
  (exists q e, DS.queues d' !! Some (FullAddr (mac_pan_id p) (AddrExtended a)) = Some q /\
     last (DQ.entries q) = Some e /\ DQ.entry_key e = key1 /\
     DQ.indirect e = negb (ci_fast_association c) /\
     dr_content (DQ.data e) = association_answer (ci_fast_association c) (Ok (Some device_short_address))) /\
  (exists q e, DS.queues d' !! Some (FullAddr (Frame.PanId 0x1234) (AddrShort device_short_address)) = Some q /\
     last (DQ.entries q) = Some e /\ DQ.entry_key e = key2 /\ DQ.indirect e = true /\
     dr_content (DQ.data e) = FTData (MkPayload (nwk_header ++ aps_header))).
Proof.
  intros (Ef & Hp & Hd & pan & Hs) Hr H1 H2 Hne. exists (mlme.IndAssociate a c). split.
  { unfold MGMT.process_frame, MGMT.process_frame_association_request. rewrite Ef, Hp, Hs. cbn [negb].
    by rewrite decide_False by (by intros []). }
  cbn [mainloop_round]. unfold serve_round.
  cbn [fst snd foldl MGMT.process_mlme_response DS.process_mcps_request].
  unfold MGMT.process_mlme_associate_response, DS.process_mcps_data_request. cbv zeta.
  match goal with |- context [DS.insert p timer1 ?r d] => set (r1 := r) end.
  set (d1 := DS.insert p timer1 r1 d).
  assert (ds_reachable d1) as Hr1 by by eapply rtc_r, step_insert.
  assert (~ queued (DS.queues d1) key2) as H2'.
  { apply not_queued_contents. apply insert_contents; [by apply not_queued_contents|]. exact Hne. }
  destruct (insert_queues_last p timer1 r1 d H1) as (q1 & e1 & Hq1 & He1 & Ed1). fold d1 in Hq1.
  match goal with |- context [DS.insert p timer2 ?r d1] => set (r2 := r) end.
  destruct (insert_queues_last p timer2 r2 d1 H2') as (q2 & e2 & Hq2 & He2 & Ed2).
  split_and!.
  - eapply rtc_r; [exact Hr1|].
    exact (step_mcps_request p ord key2 timer2 (mcps.ReqData _) d1 H2').
  - cbn [snd DS.msdu_handles DS.set_handles]. rewrite bm_get_insert. by rewrite decide_True.
  - exists q1, e1. unfold DQ.entry_key, DQ.indirect. rewrite Ed1. split_and!; try done.
    cbn [snd DS.queues DS.set_handles]. by rewrite insert_other.
  - exists q2, e2. unfold DQ.entry_key, DQ.indirect. rewrite Ed2. split_and!; try done.
Qed.
End app.

(** ** A witness *)

Definition example_capabilities : CapabilityInformation := {|
  device_type := RFD; power_source := Battery; receiver_on_when_idle := false;
  ci_fast_association := false; security_capable := false; allocate_address := true;
|}.

(** A device asks the coordinator for admission. *)
Definition example_association : Frame := {|
  frame_pending := false;
  acknowledge_request := true;
  sequence_number := Some 9;
  destination := Some (FullAddr (Frame.PanId 0x1234) (AddrShort (ShortAddr 0)));
  source := Some (FullAddr PANID_broadcast (AddrExtended (ExtAddr 0x77)));
  frame_type := FTCommand (AssociationRequest example_capabilities);
|}.
Definition example_coordinator : PIB := coordinator (Uint 1) (Uint 2) example_pib.

Lemma device_joins_witness :
  exists i, fst (fst (MGMT.process_frame example_coordinator example_association
      (MGMT.new example_coordinator))) = Some i /\
    bm_get (DS.msdu_handles (serve_round (M := handle_map) (MkKey 1) (MkKey 2) 1 2 example_order
      example_coordinator (mainloop_round (MkKey 3) (Mlme (mlme.OutIndication i))) DS.new))
      (mcps.MsduHandle_new (MkKey 3)) = Some (MkKey 2).
Proof.
  destruct (device_joins (M := handle_map) example_coordinator example_association (ExtAddr 0x77)
    example_capabilities (MGMT.new example_coordinator) DS.new (MkKey 3) (MkKey 1) (MkKey 2) 1 2 example_order)
    as (i & Hi & _ & Hh & _).
  - split; [reflexivity|]. split; [reflexivity|]. split; [reflexivity|]. by eexists.
  - apply rtc_refl.
  - by intros (? & ? & Hx & _).
  - by intros (? & ? & Hx & _).
  - done.
  - by exists i.
Defined.

End App.
