(* ===== verification/Program.v ===== *)
(** * The program ([main.rs], [mac/service.rs])

    [main] connects the MAC's task and the application's main loop by four unbounded channels
    and runs both.  Here they run together: the main loop sends its requests and takes
    the MAC's outputs, the MAC takes requests when it has nothing of its own to do, and
    the executor polls them in any order.  A round of the main loop or of the MAC's loop is one
    step.  The four channels never block their senders.  The one to the radio's service does:
    a round of the MAC ends when that has taken the request, if there is one ([MacService.v]), and
    the main loop, which shares nothing with the MAC but the four channels, may run before or
    after; a round that never ends is not a step, and the MAC makes no other.

    Shown in [ProgramTheory.v] and [ProgramSettles.v]: the application's requests all succeed,
    in order, and make the device a coordinator for good; and with a silent radio the two tasks
    come to rest, whatever the executor does. *)

From Stdlib Require Import ZArith Lia.
From S2P Require Import RadioRaw Radio.
From S2P Require Import Prelude Pack BitField Frame Async Pib Services BiMap DataService.
From S2P Require Import Management MacService MacServiceTheory Main.

Import MAC.

Module Program.

(** A receiver of an unbounded channel whose sender is alive. *)
Definition offered {A} (channel : list A) : Poll (option A) :=
  match channel with [] => Pending | x :: _ => Ready (Some x) end.

(** [mainloop] before and after its first poll; what is in the channels to the MAC; how many of
    the MAC's outputs have been taken from the channels to the main loop; and the MAC. *)
Record Program {M : Type} := MkProgram {
  started : bool;
  mlme_input : list mlme.Input;
  mcps_input : list mcps.Input;
  mlme_taken : nat;
  mcps_taken : nat;
  mac : MacData M;
}.
Arguments Program : clear implicits.

Section program.
Context {M : Type} `{!BiMap mcps.MsduHandle UniqueKey M, !BitRange}.

(** [start] of [service.rs], up to the loop; and [main]: the channels are empty when the MAC has
    started, as far as it is concerned: it looks at them only in its loop. *)
Definition start (random_bsn random_dsn : u8) (radio : SyncRadio) :
    exec (MacData M * list (option Radio.RadioResponse)) :=
  MacData_new random_bsn random_dsn radio.
Definition main (random_bsn random_dsn : u8) (radio : SyncRadio) :
    exec (Program M * list (option Radio.RadioResponse)) :=
  '(m, rest) ← start random_bsn random_dsn radio;
  Ok (MkProgram M false [] [] 0 0 m, rest).

(** [send_request] and [send_response], and [send_mcps_request], for all that a round sends *)
Definition send_all (a : list mlme.Input) (b : list mcps.Input) (P : Program M) : Program M :=
  MkProgram M (started P) (mlme_input P ++ a) (mcps_input P ++ b) (mlme_taken P) (mcps_taken P) (mac P).

(** One round of [mainloop]: the first time it sends what it starts with; then [select!] takes an
    output from one of the channels, [pick] deciding when both have one. *)
Definition mainloop_step (key : UniqueKey) (pick : bool) (P : Program M) : option (Program M) :=
  if started P then
    if pick then
      o ← mlme_output (mac P) !! mlme_taken P;
      let '(a, b) := App.mainloop_round key (App.Mlme o) in
      Some (send_all a b
        (MkProgram M true (mlme_input P) (mcps_input P) (S (mlme_taken P)) (mcps_taken P) (mac P)))
    else
      o ← mcps_output (mac P) !! mcps_taken P;
      let '(a, b) := App.mainloop_round key (App.Mcps o) in
      Some (send_all a b
        (MkProgram M true (mlme_input P) (mcps_input P) (mlme_taken P) (S (mcps_taken P)) (mac P)))
  else
    Some (send_all (mlme.InRequest <$> App.startup_requests) []
      (MkProgram M true (mlme_input P) (mcps_input P) (mlme_taken P) (mcps_taken P) (mac P))).

(** What the MAC finds in its channels; the main loop keeps its ends of them. *)
Definition program_env (e : MacEnv) (P : Program M) : MacEnv := {|
  env_cx := env_cx e; env_param_order := env_param_order e; env_dest_order := env_dest_order e;
  env_fuel := env_fuel e; env_key := env_key e; env_timer := env_timer e;
  env_random_bsn := env_random_bsn e; env_random_dsn := env_random_dsn e;
  env_radio := env_radio e; env_mlme := offered (mlme_input P); env_mcps := offered (mcps_input P);
  env_radio_requests := env_radio_requests e; env_mlme_closed := false; env_mcps_closed := false;
|}.

(** One round of the MAC's loop; an input that was handled has left its channel. *)
Definition receive (i : option MacInput) (m : MacData M) (P : Program M) : Program M :=
  match i with
  | Some (InMlmeRequest _) | Some (InMlmeResponse _) =>
      MkProgram M (started P) (tail (mlme_input P)) (mcps_input P) (mlme_taken P) (mcps_taken P) m
  | Some (InMcpsRequest _) | Some (InMcpsResponse _) =>
      MkProgram M (started P) (mlme_input P) (tail (mcps_input P)) (mlme_taken P) (mcps_taken P) m
  | _ => MkProgram M (started P) (mlme_input P) (mcps_input P) (mlme_taken P) (mcps_taken P) m
  end.
Definition mac_step (e : MacEnv) (P : Program M) : exec (option MacInput * Program M) :=
  '(i, m) ← process_step (program_env e P) (mac P); Ok (i, receive i m P).

(** The executor polls the tasks in any order, and what is ready and when is up to the
    environment ([env_ok]); [ProgramTheory.mac_step_runs]: a round that ends in any other
    environment is one of these as well. *)
Inductive program_step : Program M -> Program M -> Prop :=
| step_mainloop key pick P P' : mainloop_step key pick P = Some P' -> program_step P P'
| step_mac e i P P' :
    env_ok (program_env e P) (mac P) -> mac_step e P = Ok (i, P') -> program_step P P'.

(** From whatever [main] made of the radio's answers *)
Definition program_run (P0 P : Program M) : Prop :=
  (exists bsn dsn radio rest, main bsn dsn radio = Ok (P0, rest)) /\ rtc program_step P0 P.
End program.

End Program.
