(* ===== verification/ProgramTheory.v ===== *)
(** * The program's requests and its coordinator

    The order and success of the application's requests, and the PIB they leave, in every
    state the program can get into. *)

From Stdlib Require Import ZArith Lia.
From S2P Require Import RadioRaw Radio.
From S2P Require Import Prelude Pack BitField Frame Async Pib Services BiMap.
From S2P Require Import PendingTable CombinedPendingTable DeviceQueue DeviceQueueTheory DataService DataServiceTheory.
From S2P Require Import Management ManagementTheory MacService MacServiceTheory MacActions MacDelivery.
From S2P Require Import Main Program.

#[local] Open Scope Z_scope.

Import MAC Program.

(** ** The PIB but for its sequence numbers *)

Definition unnumbered (p : PIB) : PIB := set_mac_bsn (Uint 0) (set_mac_dsn (Uint 0) p).
Definition like (p p' : PIB) : Prop := unnumbered p = unnumbered p'.

#[export] Instance like_equivalence : Equivalence like.
Proof. split; unfold like; [by intros p|by intros p p' ->|by intros p p' p'' -> ->]. Qed.

Lemma like_fields p p' : like p p' -> exists bsn dsn, p' = set_mac_bsn bsn (set_mac_dsn dsn p).
Proof. destruct p, p'. unfold like. cbn. intros [= -> -> -> -> -> -> -> -> -> -> -> ->]. by eexists _, _. Qed.

Lemma like_params p p' q : like p p' -> pib_param p' q = pib_param p q.
Proof. intros (bsn & dsn & ->)%like_fields. by destruct p, q. Qed.

Lemma follows_like p p' s : like p p' -> follows p s -> follows p' s.
Proof. intros Hl Hf q. rewrite (like_params _ _ _ Hl). apply Hf. Qed.

Lemma like_next_dsn p : like (snd (next_data_sequence_nr p)) p.
Proof. by destruct p. Qed.
Lemma like_next_bsn p : like (snd (next_beacon_sequence_nr p)) p.
Proof. by destruct p. Qed.

Lemma create_frame_like r p b : like (snd (DQ.create_frame r p b)) p.
Proof. unfold DQ.create_frame. apply like_next_dsn. Qed.

Lemma poll_next_like p cx q : like (snd (fst (DQ.poll_next_action p cx q))) p.
Proof.
  unfold DQ.poll_next_action. case_decide; [done|]. destruct (DQ.entries q) as [|e rest]; [done|].
  destruct (DQ.state q) as [b|k a pl|a t|r].
  - destruct (negb _ || b); [|by destruct (DQ.poll_timeouts _ _)].
    pose proof (create_frame_like (DQ.data e) p (match rest with e :: _ => DQ.indirect e | [] => false end)) as Hl.
    by destruct (DQ.create_frame _ _ _) as [[? ?] ?].
  - by destruct (DQ.poll_timeouts _ _).
  - repeat case_match; try done; repeat match goal with |- context [DQ.poll_timeouts ?c ?q] =>
      destruct (DQ.poll_timeouts c q) end; try done.
  - done.
Qed.

Lemma poll_queues_like cx ds p qs : like (snd (fst (DS.poll_queues cx ds p qs))) p.
Proof.
  revert p qs. induction ds as [|d ds IH]; intros p qs; [done|]. cbn [DS.poll_queues].
  destruct (qs !! d) as [q|]; [|apply IH]. pose proof (poll_next_like p cx q) as Hl.
  destruct (DQ.poll_next_action p cx q) as [[[x|] p1] q1]; [done|]. etrans; [apply IH|exact Hl].
Qed.

Section theory.
Context {M : Type} `{!BiMap mcps.MsduHandle UniqueKey M, !BiMapLaws mcps.MsduHandle UniqueKey M}.

Lemma poll_action_like fuel ord cx p (s : DS.DataService M) r p' s' :
  DS.poll_action fuel ord cx p s = Ok (r, p', s') -> like p' p.
Proof.
  revert p s. induction fuel as [|fuel IH]; intros p s; [done|]. cbn [DS.poll_action].
  destruct (CPT.poll_action cx (DS.pending_table s)) as [[x|] t]; [by intros [= <- <- <-]|].
  pose proof (poll_queues_like cx (ord fuel (DS.destinations (DS.set_table t s))) p
    (DS.queues (DS.set_table t s))) as Hl.
  destruct (DS.poll_queues cx _ p _) as [[o p1] qs1]. cbn [fst snd] in Hl.
  assert (forall s1, DS.poll_action fuel ord cx p1 s1 = Ok (r, p', s') -> like p' p) as Hk.
  { intros s1 E%IH. by etrans. }
  destruct o as [[d x]|]; [|by intros [= <- <- <-]]. destruct x as [|b|k f|k res].
  - apply Hk.
  - intros E. apply result_bind_Ok in E as (t' & _ & E). by eapply Hk.
  - by intros [= <- <- <-].
  - destruct (bm_remove_by_right _ _) as [[[h k']|] m]; [by intros [= <- <- <-]|apply Hk].
Qed.

(** ** What a step of the MAC does to the PIB and for the MLME's client *)

Lemma poll_params_follow ord cx p s r s' : MGMT.poll_action ord cx s = (r, s') -> follows p s -> follows p s'.
Proof.
  intros [(q & info & Hq & _ & _ & _ & _ & Hm)|(_ & Hm & _)]%poll_action_cases Hf q';
    rewrite <- (Hf q'); unfold requested; rewrite Hm; [|done].
  destruct (decide (q = q')) as [<-|Hn]; [by rewrite lookup_insert_eq, Hq|by rewrite lookup_insert_ne].
Qed.

Lemma set_param_result_follows k b p s : follows p s -> follows p (MGMT.process_set_param_result k b s).
Proof.
  intros Hf q. rewrite <- (Hf q). unfold requested. rewrite result_params, lookup_fmap.
  destruct (MGMT.radio_params s !! q); [|done]. cbn. f_equal. unfold MGMT.param_result. by case_decide.
Qed.

Context `{!BitRange}.

Lemma poll_next_input_quiet e (m : MacData M) r m' :
  poll_next_input e m = Ok (r, m') ->
  like (pib m') (pib m) /\ mlme_output m' = mlme_output m /\
  (follows (pib m) (management m) -> follows (pib m') (management m')) /\
  match r with
  | Ready (InRadio x) => env_radio e = Ready (Some x)
  | Ready (InMlmeRequest x) => env_mlme e = Ready (Some (mlme.InRequest x))
  | Ready (InMlmeResponse x) => env_mlme e = Ready (Some (mlme.InResponse x))
  | Ready (InMcpsRequest x) => env_mcps e = Ready (Some (mcps.InRequest x))
  | Ready (InMcpsResponse x) => env_mcps e = Ready (Some (mcps.InResponse x))
  | _ => True
  end.
Proof.
  unfold poll_next_input.
  destruct (MGMT.poll_action (env_param_order e) (env_cx e) (management m)) as [[a|] s] eqn:Em.
  { intros [= <- <-]. split_and!; try done. intros Hf. by eapply poll_params_follow. }
  cbn [data pib set_management].
  destruct (DS.poll_action _ _ _ _ _) as [[[r2 p] ds]|] eqn:Ed; [|done]. cbn [mbind result_bind].
  pose proof (poll_action_like _ _ _ _ _ _ _ _ Ed) as Hl.
  assert (follows (pib m) (management m) -> follows p s) as Hf.
  { intros Hf. eapply follows_like; [symmetry; exact Hl|]. by eapply poll_params_follow. }
  destruct r2; [by intros [= <- <-]|].
  destruct (env_radio e) as [[x|]|]; [by intros [= <- <-]|done|].
  destruct (env_mlme e) as [[[x|x]|]|]; [by intros [= <- <-]..|done|].
  destruct (env_mcps e) as [[[x|x]|]|]; [by intros [= <- <-]..|done|]. by intros [= <- <-].
Qed.

Lemma beacon_request_like p r s : like (snd (fst (MGMT.process_mlme_beacon_request p r s))) p.
Proof. unfold MGMT.process_mlme_beacon_request. destruct (_ || _); [done|]. by destruct p. Qed.

Lemma process_frame_like p f s : like (snd (fst (MGMT.process_frame p f s))) p.
Proof.
  unfold MGMT.process_frame, MGMT.process_frame_beacon_request.
  destruct (frame_type f) as [| | |[| | |]| | | |]; try done. destruct (mac_beacon_auto_respond p); [|done].
  match goal with |- context [MGMT.process_mlme_beacon_request p ?r s] =>
    pose proof (beacon_request_like p r s) as Hl;
    destruct (MGMT.process_mlme_beacon_request p r s) as [[? ?] ?] end.
  exact Hl.
Qed.

(** The MLME's client sees the confirms of its requests and indications; only its requests
    change more of the PIB than sequence numbers. *)
Definition mlme_effect (i : option MacInput) (m m' : MacData M) : Prop :=
  match i with
  | Some (InMlmeRequest r) => exists bsn dsn p d s c p' d' s', like p (pib m) /\
      MGMT.process_mlme_request bsn dsn p d r s = (c, p', d', s') /\ like (pib m') p' /\
      mlme_output m' = mlme_output m ++ (mlme.OutConfirm <$> option_list c)
  | Some (InRadio (Radio.RespOnPacket _)) => like (pib m') (pib m) /\
      exists i, mlme_output m' = mlme_output m ++ (mlme.OutIndication <$> option_list i)
  | _ => like (pib m') (pib m) /\ mlme_output m' = mlme_output m
  end.

Definition same_mlme (m m' : MacData M) : Prop :=
  pib m' = pib m /\ management m' = management m /\ mlme_output m' = mlme_output m.

Lemma send_request_same e r m m' : send_request e r m = Ok m' -> same_mlme m m'.
Proof. unfold send_request. destruct (env_radio_requests e); [|done..]. by intros [= <-]. Qed.
Lemma send_mcps_same e o m m' : send_mcps e o m = Ok m' -> same_mlme m m'.
Proof. unfold send_mcps. destruct (env_mcps_closed e); [done|]. by intros [= <-]. Qed.
Lemma send_frame_same e k f m m' : send_frame e k f m = Ok m' -> same_mlme m m'.
Proof. unfold send_frame. destruct (Frame_pack f vec_new); [apply send_request_same|done]. Qed.
Hint Resolve send_request_same send_mcps_same send_frame_same : core.

Lemma process_management_same e a m m' : process_management e a m = Ok m' -> same_mlme m m'.
Proof. destruct a; cbn; eauto. Qed.
Lemma process_data_same e a m m' : process_data e a m = Ok m' -> same_mlme m m'.
Proof. destruct a; cbn; eauto. Qed.
Lemma process_mcps_request_same e r m m' : process_mcps_request e r m = Ok m' -> same_mlme m m'.
Proof.
  unfold process_mcps_request. destruct (DS.process_mcps_request _ _ _ _ _ _) as [[c|] d].
  - by intros (? & ? & ?)%send_mcps_same.
  - by intros [= <-].
Qed.

Lemma process_radio_packet_effect e packet (m m' : MacData M) :
  process_radio_packet e packet m = Ok m' ->
  like (pib m') (pib m) /\ (follows (pib m) (management m) -> follows (pib m') (management m')) /\
  exists i, mlme_output m' = mlme_output m ++ (mlme.OutIndication <$> option_list i).
Proof.
  unfold process_radio_packet. destruct (Frame_unpack _) as [[f rest]|]; [|done].
  cbn [unwrap_result mbind result_bind]. pose proof (process_frame_like (pib m) f (management m)) as Hl.
  pose proof (process_frame_keeps (pib m) f (management m)) as Hk.
  destruct (MGMT.process_frame (pib m) f (management m)) as [[i p] s]. destruct Hk as [Hk _].
  destruct i as [i|]; cbn [mbind result_bind].
  - unfold send_mlme. destruct (env_mlme_closed e); [done|]. intros [= <-]. split; [done|]. split; [done|].
    by exists (Some i).
  - intros [= <-]. split; [done|]. split; [done|]. exists None. cbn. by rewrite app_nil_r.
Qed.

Lemma process_mlme_request_effect e r (m m' : MacData M) :
  process_mlme_request e r m = Ok m' ->
  (follows (pib m) (management m) -> follows (pib m') (management m')) /\
  exists c d', MGMT.process_mlme_request (env_random_bsn e) (env_random_dsn e) (pib m) (data m) r
      (management m) = (c, pib m', d', management m') /\
    mlme_output m' = mlme_output m ++ (mlme.OutConfirm <$> option_list c).
Proof.
  unfold process_mlme_request.
  pose proof (mlme_request_keeps (env_random_bsn e) (env_random_dsn e) (pib m) (data m) r (management m)) as Hk.
  destruct (MGMT.process_mlme_request _ _ _ _ _ _) as [[[c p] d] s]. destruct Hk as [Hk _].
  destruct c as [c|].
  - unfold send_mlme. destruct (env_mlme_closed e); [done|]. intros [= <-]. split; [done|]. by exists (Some c), d.
  - intros [= <-]. split; [done|]. exists None, d. split; [done|]. cbn. by rewrite app_nil_r.
Qed.

Lemma process_step_effect e (m : MacData M) i m' :
  process_step e m = Ok (i, m') ->
  mlme_effect i m m' /\ (follows (pib m) (management m) -> follows (pib m') (management m')) /\
  match i with
  | Some (InMlmeRequest x) => env_mlme e = Ready (Some (mlme.InRequest x))
  | Some (InMlmeResponse x) => env_mlme e = Ready (Some (mlme.InResponse x))
  | Some (InMcpsRequest x) => env_mcps e = Ready (Some (mcps.InRequest x))
  | Some (InRadio x) => env_radio e = Ready (Some x)
  | _ => True
  end.
Proof.
  unfold process_step. intros E. apply result_bind_Ok in E as ([r m1] & Ep & E).
  apply poll_next_input_quiet in Ep as (Hl & Ho & Hf & He).
  destruct r as [j|]; [|injection E as <- <-; by split_and!].
  apply result_bind_Ok in E as (m2 & Eh & E). injection E as <- <-.
  assert (same_mlme m1 m2 -> (like (pib m2) (pib m) /\ mlme_output m2 = mlme_output m) /\
    (follows (pib m) (management m) -> follows (pib m2) (management m2))) as Hs.
  { intros (-> & -> & ->). by split_and!. }
  destruct j as [r|r|r|r|[]|a|a]; cbn [process_input] in Eh.
  - destruct r; cbn [process_radio_response] in Eh; try (injection Eh as <-; by destruct (Hs ltac:(done))).
    + injection Eh as <-. split; [done|]. split; [|done]. intros Hx. by apply set_param_result_follows, Hf.
    + apply process_radio_packet_effect in Eh as (Hl2 & Hf2 & i & Hi). split; [|by split; [auto|]].
      split; [by etrans|]. exists i. by rewrite Hi, Ho.
    + apply result_bind_Ok in Eh as (d & _ & Eh). injection Eh as <-. by destruct (Hs ltac:(done)).
    + apply result_bind_Ok in Eh as (d & _ & Eh). injection Eh as <-. by destruct (Hs ltac:(done)).
  - apply process_mlme_request_effect in Eh as (Hf2 & c & d & Er & Hi). split; [|by split; [auto|]].
    cbn. do 5 eexists. exists c, (pib m2), d, (management m2). rewrite Hi, Ho. by split_and!.
  - injection Eh as <-. by destruct (Hs ltac:(done)).
  - apply process_mcps_request_same, Hs in Eh as [??]. by split_and!.
  - apply process_management_same, Hs in Eh as [??]. by split_and!.
  - apply process_data_same, Hs in Eh as [??]. by split_and!.
Qed.

(** ** The application's requests *)

(** What comes of a request that succeeds; the application asks for no attribute. *)
Definition granted (i : mlme.Input) : option mlme.Confirm :=
  match i with
  | mlme.InRequest (mlme.ReqReset _) => Some (mlme.ConfReset (Ok tt))
  | mlme.InRequest (mlme.ReqStart _) => Some (mlme.ConfStart (Ok tt))
  | mlme.InRequest (mlme.ReqBeacon _) => Some (mlme.ConfBeacon (Ok tt))
  | mlme.InRequest (mlme.ReqSet r) => Some (mlme.ConfSet (mlme.set_attribute r) (Ok tt))
  | _ => None
  end.
Definition confirm_of (o : mlme.Output) : option mlme.Confirm :=
  match o with mlme.OutConfirm c => Some c | mlme.OutIndication _ => None end.

(** What the main loop sends to the MLME for one of its outputs, and all that it has sent *)
Definition mlme_answers (o : mlme.Output) : list mlme.Input :=
  fst (App.mainloop_round (MkKey 0) (App.Mlme o)).
Definition sent (P : Program M) : list mlme.Input :=
  if started P then
    (mlme.InRequest <$> App.startup_requests) ++ (take (mlme_taken P) (mlme_output (mac P)) ≫= mlme_answers)
  else [].

Lemma round_mlme key o : fst (App.mainloop_round key (App.Mlme o)) = mlme_answers o.
Proof. by destruct o as [|[]]. Qed.
Lemma round_mcps key o : App.mainloop_round key (App.Mcps o) = ([], []).
Proof. done. Qed.

(** The PIB when the first [n] requests have been granted *)
Definition grant (p : PIB) (r : mlme.Request) : PIB :=
  let '(_, p, _, _) := MGMT.process_mlme_request (M := M) (Uint 0) (Uint 0) p DS.new r (MGMT.new p) in p.
Definition granted_pib (n : nat) (p : PIB) : PIB := foldl grant p (take n App.startup_requests).

Lemma granted_pib_all n p : (length App.startup_requests <= n)%nat ->
  granted_pib n p = granted_pib (length App.startup_requests) p.
Proof. intros Hn. unfold granted_pib. by rewrite !take_ge. Qed.

Lemma granted_coordinator p :
  exists bsn dsn, granted_pib (length App.startup_requests) p = App.coordinator bsn dsn p.
Proof. destruct p. by eexists _, _. Qed.

Lemma like_coordinator p bsn dsn p0 : like p (App.coordinator bsn dsn p0) ->
  exists bsn dsn, p = App.coordinator bsn dsn p0.
Proof. intros Hl. symmetry in Hl. apply like_fields in Hl as (b & d & ->). by eexists _, _. Qed.

(** The requests of the application at their places *)
Definition proper_request (n : nat) (r : mlme.Request) : Prop :=
  App.startup_requests !! n = Some r \/
  ((length App.startup_requests <= n)%nat /\ exists o, mlme.InRequest r ∈ mlme_answers o).

Lemma request_granted n r p p0 bsn dsn (d d' : DS.DataService M) s s' c p' :
  proper_request n r -> like p (granted_pib n p0) ->
  MGMT.process_mlme_request bsn dsn p d r s = (c, p', d', s') ->
  c = granted (mlme.InRequest r) /\ like p' (granted_pib (S n) p0).
Proof.
  intros Hr Hl. symmetry in Hl. apply like_fields in Hl as (b1 & b2 & ->).
  destruct p0 as [a1 a2 a3 a4 a5 a6 a7 a8 a9 a10 a11 a12 a13 a14].
  destruct Hr as [Hr|(Hn & o & Ho)].
  - do 7 (destruct n as [|n]; [injection Hr as <-; cbn; by intros [= <- <- <- <-]|]). done.
  - rewrite (granted_pib_all n), (granted_pib_all (S n)) by lia. destruct o as [c0|[bt src pan|a info]]; cbn in Ho;
      [by apply elem_of_nil in Ho|apply list_elem_of_singleton in Ho; injection Ho as ->|
       by apply list_elem_of_singleton in Ho].
    match goal with |- context [granted_pib _ ?p] => destruct (granted_coordinator p) as (b & dn & ->) end.
    cbn. by intros [= <- <- <- <-].
Qed.

(** ** The invariant *)

Record program_inv (P0 P : Program M) (handled : list mlme.Input) : Prop := {
  pi_reached : mac_reachable (mac P);
  pi_sent : sent P = handled ++ mlme_input P;
  pi_taken : (mlme_taken P <= length (mlme_output (mac P)))%nat;
  pi_idle : started P = false -> mlme_taken P = 0%nat;
  pi_confirms : omap confirm_of (mlme_output (mac P)) = omap granted handled;
  pi_follows : follows (pib (mac P)) (management (mac P));
  pi_pib : like (pib (mac P)) (granted_pib (length handled) (pib (mac P0)));
}.

Lemma sent_proper P n r : sent P !! n = Some (mlme.InRequest r) -> proper_request n r.
Proof.
  unfold sent. destruct (started P); [|by rewrite lookup_nil]. rewrite lookup_app_Some, list_lookup_fmap.
  intros [(r' & Hr & [= <-])%fmap_Some|[Hn Hr]]; [by left|right].
  rewrite length_fmap in Hn. split; [done|]. apply list_elem_of_lookup_2, list_elem_of_bind in Hr as (o & Ho & _).
  by exists o.
Qed.

Lemma main_inv P0 bsn dsn radio rest : main bsn dsn radio = Ok (P0, rest) -> program_inv P0 P0 [].
Proof.
  unfold main, start. intros E. apply result_bind_Ok in E as ([m l] & Em & [= <- <-]).
  pose proof (MacData_new_parts _ _ _ _ _ Em) as [Hd Hm].
  split; cbn; try done.
  - exists bsn, dsn, radio, m, l. split; [done|apply rtc_refl].
  - lia.
  - unfold MacData_new in Em. clear -Em. bind_inv. done.
  - rewrite Hm. apply new_follows.
Qed.

Lemma mainloop_inv key pick P0 P P' handled :
  program_inv P0 P handled -> mainloop_step key pick P = Some P' -> program_inv P0 P' handled.
Proof.
  intros [Hr Hs Ht Hi Hc Hf Hp]. unfold mainloop_step. destruct (started P) eqn:Es.
  - destruct pick; intros E.
    + destruct (mlme_output (mac P) !! mlme_taken P) as [o|] eqn:Eo; [|done]. cbn [mbind option_bind] in E.
      pose proof (round_mlme key o) as Ho. destruct (App.mainloop_round key (App.Mlme o)) as [a b].
      cbn [fst] in Ho. injection E as <-. split; try done.
      * unfold sent in *. cbn [started mlme_taken mac mlme_input send_all]. rewrite Es in Hs.
        rewrite (take_S_r _ _ _ Eo), bind_app, bind_singleton, (assoc_L (++)), Hs, <- Ho. by rewrite (assoc_L (++)).
      * by apply lookup_lt_Some in Eo.
    + destruct (mcps_output (mac P) !! mcps_taken P) as [o|]; [|done]. injection E as <-.
      split; cbn; try done. unfold sent in *. cbn. rewrite Es in Hs. by rewrite app_nil_r.
  - intros [= <-]. unfold sent in Hs. rewrite Es in Hs. symmetry in Hs. apply app_nil in Hs as [-> Hs].
    split; try done. unfold sent. cbn. rewrite (Hi eq_refl), Hs. cbn. done.
Qed.

(** What a round of the MAC has handled *)
Definition mlme_handled (i : option MacInput) : list mlme.Input :=
  match i with
  | Some (InMlmeRequest r) => [mlme.InRequest r]
  | Some (InMlmeResponse r) => [mlme.InResponse r]
  | _ => []
  end.

Lemma offered_ready {A} (l : list A) x : offered l = Ready (Some x) -> l = x :: tail l.
Proof. destruct l; [done|]. by intros [= ->]. Qed.

Lemma receive_fields i m (P : Program M) :
  started (receive i m P) = started P /\ mlme_taken (receive i m P) = mlme_taken P /\
  mac (receive i m P) = m /\
  mlme_input (receive i m P) = match mlme_handled i with [] => mlme_input P | _ => tail (mlme_input P) end.
Proof. by destruct i as [[]|]. Qed.

Lemma sent_response P n r : sent P !! n = Some (mlme.InResponse r) -> (length App.startup_requests <= n)%nat.
Proof.
  unfold sent. destruct (started P); [|by rewrite lookup_nil]. rewrite lookup_app_Some, list_lookup_fmap.
  intros [(r' & _ & ?)%fmap_Some|[Hn _]]; [done|]. by rewrite length_fmap in Hn.
Qed.

(** The inputs that are handled are granted, and leave the PIB as they should. *)
Lemma mlme_granted j (m m' : MacData M) (P : Program M) p0 handled rest :
  mlme_effect j m m' -> sent P = handled ++ mlme_handled j ++ rest ->
  omap confirm_of (mlme_output m) = omap granted handled ->
  like (pib m) (granted_pib (length handled) p0) ->
  omap confirm_of (mlme_output m') = omap granted (handled ++ mlme_handled j) /\
  like (pib m') (granted_pib (length (handled ++ mlme_handled j)) p0).
Proof.
  intros Hm Hs Hc Hp.
  assert (forall x, mlme_handled j = [x] -> sent P !! length handled = Some x) as Hx.
  { intros x Ej. rewrite Hs, Ej. by apply list_lookup_middle. }
  assert (mlme_handled j = [] -> like (pib m') (pib m) /\ (mlme_output m' = mlme_output m \/
    exists o, mlme_output m' = mlme_output m ++ (mlme.OutIndication <$> option_list o)) ->
    omap confirm_of (mlme_output m') = omap granted (handled ++ mlme_handled j) /\
    like (pib m') (granted_pib (length (handled ++ mlme_handled j)) p0)) as Hn.
  { intros -> (Hl & Ho). rewrite app_nil_r, <- Hc. split; [|by etrans].
    destruct Ho as [->|([o|] & ->)]; [done|..]; by rewrite omap_app, ?app_nil_r. }
  destruct j as [[[]|r|r| | | |]|]; try (apply Hn; [done|]; destruct Hm; by auto).
  - cbn in Hm. destruct Hm as (bsn & dsn & p & d & s & c & p' & d' & s' & Hl & Er & Hl' & Ho).
    specialize (Hx _ eq_refl). apply sent_proper in Hx.
    destruct (request_granted _ _ p p0 _ _ _ _ _ _ _ _ Hx ltac:(by etrans) Er) as [-> Hg].
    rewrite Ho, !omap_app, Hc, length_app, Nat.add_1_r. split; [|by etrans]. f_equal. by destruct r.
  - destruct Hm as [Hl Ho]. specialize (Hx _ eq_refl). apply sent_response in Hx.
    rewrite Ho, omap_app, Hc, length_app, app_nil_r. split; [done|]. rewrite (granted_pib_all (_ + _)) by (etrans; [exact Hx|apply Nat.le_add_r]).
    rewrite granted_pib_all in Hp by done. by etrans.
Qed.

(** No output is taken back. *)
Lemma effect_extends i (m m' : MacData M) :
  mlme_effect i m m' -> exists more, mlme_output m' = mlme_output m ++ more.
Proof.
  destruct i as [[[]| | | | | |]|]; cbn; first
    [ intros (_ & ? & ->); by eexists
    | intros (_ & ->); exists []; by rewrite app_nil_r
    | intros (? & ? & ? & ? & ? & ? & ? & ? & ? & _ & _ & _ & ->); by eexists ].
Qed.

Lemma mac_step_inv e i P0 P P' handled :
  program_inv P0 P handled -> env_ok (program_env e P) (mac P) -> Program.mac_step e P = Ok (i, P') ->
  program_inv P0 P' (handled ++ mlme_handled i).
Proof.
  intros [Hr Hs Ht Hi Hc Hf Hp] He E. apply result_bind_Ok in E as ([j m] & E & [= <- <-]).
  pose proof E as (Hm & Hf' & Hin)%process_step_effect.
  destruct (receive_fields j m P) as (E1 & E2 & E3 & E4).
  assert (mlme_input P = mlme_handled j ++ mlme_input (receive j m P)) as Hcut.
  { rewrite E4. destruct j as [[]|]; try done; cbn; by apply offered_ready. }
  destruct (effect_extends _ _ _ Hm) as [more Ho].
  split; rewrite ?E1, ?E2, ?E3.
  - destruct Hr as (bsn & dsn & radio & m0 & rest & Em & Hr). exists bsn, dsn, radio, m0, rest.
    split; [done|]. eapply rtc_r; [exact Hr|]. by exists (program_env e P), j.
  - rewrite <- (assoc_L (++)), <- Hcut, <- Hs. unfold sent. by rewrite E1, E2, E3, Ho, take_app_le.
  - rewrite Ho, length_app. lia.
  - done.
  - by eapply mlme_granted; [exact Hm|rewrite <- Hcut|..].
  - auto.
  - by eapply mlme_granted; [exact Hm|rewrite <- Hcut|..].
Qed.

(** The inputs handled so far *)
Lemma program_run_inv P0 P : program_run P0 P -> exists handled, program_inv P0 P handled.
Proof.
  intros [(bsn & dsn & radio & rest & E) Hr]. revert P Hr.
  apply (rtc_ind_r (fun P => exists handled, program_inv P0 P handled)).
  - exists []. by eapply main_inv.
  - intros P P' _ Hs [handled I]. destruct Hs as [key pick P P' Hs|e i P P' He Hs].
    + exists handled. by eapply mainloop_inv.
    + exists (handled ++ mlme_handled i). by eapply mac_step_inv.
Qed.

(** A round of the MAC that ends does so in some environment that keeps everything open. *)
Lemma program_env_opened e (P : Program M) : opened (program_env e P) = program_env (opened e) P.
Proof. unfold opened, program_env. cbn. by destruct (mlme_input P), (mcps_input P). Qed.

Lemma mac_step_runs e i (P0 P P' : Program M) :
  program_run P0 P -> env_fair (program_env e P) (mac P) -> Program.mac_step e P = Ok (i, P') ->
  program_run P0 P'.
Proof.
  intros [Hs Hr] He E. split; [done|]. eapply rtc_r; [exact Hr|].
  apply (Program.step_mac (opened e) i); rewrite <- ?program_env_opened; [by apply opened_ok|].
  unfold Program.mac_step in *. rewrite <- program_env_opened.
  destruct (process_step_opened (program_env e P) (mac P)) as [<-|[[Hf _]|[Hf _]]];
    [done|by rewrite Hf in E..].
Qed.

(** C5: In every state the program can get into, whatever the radio does and in whatever order the
    two tasks run: the MLME has granted the first of the requests that the main loop has sent and
    the others are in the channel, in order; every confirm it gave is a success; the radio has been
    asked for what the PIB says; once the requests the main loop starts with have been
    handled the device is the coordinator of PAN 0x1234 on channel 25, and stays it, with only
    its sequence numbers counting.  And the MAC's next round, given unique keys (and enough
    fuel), leads to another such state, or panics, because the radio delivers a malformed packet, its
    response stream has ended or its service is gone, or never ends, because that service does not
    take the request it is sent. *)
Theorem coordinator_runs (P0 P : Program M) :
  program_run P0 P ->
  (exists handled, sent P = handled ++ mlme_input P /\
     omap confirm_of (mlme_output (mac P)) = omap granted handled /\
     follows (pib (mac P)) (management (mac P)) /\
     ((length App.startup_requests <= length handled)%nat ->
        exists bsn dsn, pib (mac P) = App.coordinator bsn dsn (pib (mac P0)))) /\
  (forall e, env_fair (program_env e P) (mac P) ->
     (exists i P', Program.mac_step e P = Ok (i, P') /\ program_run P0 P') \/
     (Program.mac_step e P = Err Panic /\
        (env_radio e = Ready None \/ env_radio_requests e = Gone \/ exists packet err,
           env_radio e = Ready (Some (Radio.RespOnPacket packet)) /\
           Frame_unpack (Radio.packet_data packet) = Err err)) \/
     (Program.mac_step e P = Err OutOfFuel /\ env_radio_requests e = TakesNever)).
Proof.
  intros Hrun. destruct (program_run_inv _ _ Hrun) as (handled & [Hr Hs Ht Hi Hc Hf Hp]). split.
  - exists handled. split_and!; try done. intros Hn. rewrite granted_pib_all in Hp by done.
    destruct (granted_coordinator (pib (mac P0))) as (bsn & dsn & E). rewrite E in Hp.
    by apply like_coordinator in Hp.
  - intros e He. destruct (step_outcomes _ _ Hr He) as [(i & m' & E & _)|[[E Hm]|[E Hm]]].
    + left. exists i, (receive i m' P).
      assert (Program.mac_step e P = Ok (i, receive i m' P)) as Em by (unfold Program.mac_step; by rewrite E).
      split; [exact Em|]. by eapply mac_step_runs.
    + right. left. unfold Program.mac_step. rewrite E. split; [done|].
      destruct Hm as [[Hm|[Hm|[Hm|[Hm|[Hm|Hm]]]]]|Hm]; [by left| | |by right; left|done|done|by right; right].
      * cbn in Hm. by destruct (mlme_input P).
      * cbn in Hm. by destruct (mcps_input P).
    + right. right. unfold Program.mac_step. by rewrite E.
Qed.
End theory.

(** ** Computed runs *)

(** Whose turn it is *)
Inductive turn :=
| TurnMain (key : UniqueKey) (pick : bool)
| TurnMac (e : MacEnv).
Definition turn_open (t : turn) : Prop :=
  match t with TurnMain _ _ => True | TurnMac e => env_radio_requests e = Takes /\ env_radio e <> Ready None end.

Section turns.
Context {M : Type} `{!BiMap mcps.MsduHandle UniqueKey M, !BitRange}.

Definition take_turn (t : turn) (P : Program M) : option (Program M) :=
  match t with
  | TurnMain key pick => mainloop_step key pick P
  | TurnMac e =>
      if env_fits (program_env e P) (mac P) then
        match Program.mac_step e P with Ok (_, P') => Some P' | Err _ => None end
      else None
  end.
Fixpoint take_turns (ts : list turn) (P : Program M) : option (Program M) :=
  match ts with [] => Some P | t :: ts => P ← take_turn t P; take_turns ts P end.
Definition turns_taken (ts : list turn) (P : Program M) : bool :=
  match take_turns ts P with Some _ => true | None => false end.
Definition after_turns (ts : list turn) (P : Program M) : Program M := default P (take_turns ts P).

Lemma program_env_open e (P : Program M) :
  turn_open (TurnMac e) -> open_env (program_env e P).
Proof.
  intros [Hc Hr]. split; [done|]. split; (split; [done|]); cbn.
  - by destruct (mlme_input P).
  - by destruct (mcps_input P).
Qed.

Lemma turns_run ts (P0 P : Program M) :
  program_run P0 P -> Forall turn_open ts -> turns_taken ts P = true -> program_run P0 (after_turns ts P).
Proof.
  intros Hr Ho. unfold turns_taken, after_turns. revert P Hr.
  induction Ho as [|t ts Ht _ IH]; intros P Hr; [done|]. cbn [take_turns].
  destruct (take_turn t P) as [P1|] eqn:E; [|done]. cbn [mbind option_bind].
  assert (program_run P0 P1) as Hr1.
  { destruct Hr as [Hs Hr]. split; [done|]. eapply rtc_r; [exact Hr|]. destruct t as [key pick|e].
    - by eapply step_mainloop.
    - cbn in E. destruct (env_fits _ _) eqn:Ef; [|done].
      destruct (Program.mac_step e P) as [[i P2]|] eqn:Em; [|done]. injection E as ->.
      eapply Program.step_mac; [|exact Em]. by apply env_fits_ok; [apply program_env_open|]. }
  intros Ht1. specialize (IH P1 Hr1 Ht1). by destruct (take_turns ts P1).
Qed.
End turns.

(** The main loop sends its requests, and the MAC has nineteen rounds: setting the parameters and
    the pending table, the reset, all that again, and the other requests. *)
Definition turn_env (key : N) : MacEnv := served_env key Pending Pending.
Definition startup_turns : list turn :=
  TurnMain (MkKey 1) true :: ((fun i => TurnMac (turn_env (100 + 2 * N.of_nat i))) <$> seq 0 19).
Definition started_program : Program handle_map := MkProgram _ false [] [] 0 0 started_mac.
Definition running_program : Program handle_map :=
  after_turns (H := BitRange_reference) startup_turns started_program.

Lemma running_program_run : program_run (H := BitRange_reference) started_program running_program.
Proof.
  unfold running_program. refine (turns_run startup_turns started_program started_program _ _ _).
  - split; [|apply rtc_refl]. exists (Uint 1), (Uint 2), startup_radio, []. reflexivity.
  - by repeat (constructor; [done|]).
  - vm_compute. reflexivity.
Qed.

Lemma coordinator_runs_witness :
  exists handled, sent running_program = handled ++ mlme_input running_program /\
    omap confirm_of (mlme_output (mac running_program)) = omap granted handled.
Proof.
  destruct (coordinator_runs (H := BitRange_reference) started_program running_program running_program_run)
    as [(handled & Hs & Hc & _) _].
  exists handled. split; [exact Hs|exact Hc].
Defined.
