(* ===== verification/ProgramSettles.v ===== *)
(** * The program comes to rest

    When the radio is silent and its service takes what it is sent the two tasks soon have nothing left to do, whatever the order in
    which the executor polls them and whatever timers run out; and what they leave
    then is a coordinator. *)

From Stdlib Require Import ZArith Lia.
From S2P Require Import RadioRaw Radio.
From S2P Require Import Prelude Pack BitField Frame Async Pib Services BiMap.
From S2P Require Import DeviceQueue DeviceQueueTheory DataService DataServiceTheory.
From S2P Require Import Management ManagementTheory MacService MacServiceTheory MacActions MacDelivery.
From S2P Require Import Main Program ProgramTheory.

#[local] Open Scope Z_scope.

Import MAC Program.

(** ** The work that is left *)

(** An input of the MAC adds up to eight actions, each with an output, and an output itself. *)
Definition input_work : nat := 18.
Definition output_work (o : mlme.Output) : nat :=
  let '(a, b) := App.mainloop_round (MkKey 0) (App.Mlme o) in
  1 + input_work * (length a + length b).

Lemma round_work key o a b : App.mainloop_round key (App.Mlme o) = (a, b) ->
  output_work o = (1 + input_work * (length a + length b))%nat.
Proof. by destruct o as [|[]]; intros [= <- <-]. Qed.

Lemma sum_list_cons x (l : list nat) : sum_list (x :: l) = (x + sum_list l)%nat.
Proof. done. Qed.
Lemma sum_list_app (l k : list nat) : sum_list (l ++ k) = (sum_list l + sum_list k)%nat.
Proof. induction l; cbn; lia. Qed.

Lemma sum_drop_app {A} (f : A -> nat) n (l k : list A) :
  (sum_list (f <$> drop n (l ++ k)) <= sum_list (f <$> drop n l) + sum_list (f <$> k))%nat.
Proof.
  rewrite drop_app, fmap_app, sum_list_app. apply Nat.add_le_mono_l. generalize (n - length l)%nat as i.
  induction k as [|x k IH]; intros [|i]; try done. cbn [drop]. rewrite fmap_cons, sum_list_cons.
  specialize (IH i). lia.
Qed.

(** A key that no queued frame has *)
Lemma fresh_key (qs : gmap (option FullAddress) DQ.DeviceQueue) : exists k, ~ queued qs k.
Proof.
  set (ks := map_to_list qs ≫= fun dq => unique_id <$> keys dq.2).
  exists (MkKey (fresh (list_to_set ks : gset N))). intros (d & q & Hq & Hk).
  apply (is_fresh (list_to_set ks : gset N)), elem_of_list_to_set, list_elem_of_bind. exists (d, q). split.
  - change (fresh (list_to_set ks)) with (unique_id (MkKey (fresh (list_to_set ks : gset N)))).
    by apply list_elem_of_fmap_2.
  - by apply elem_of_map_to_list.
Qed.

Section settles.
Context {M : Type} `{!BiMap mcps.MsduHandle UniqueKey M, !BiMapLaws mcps.MsduHandle UniqueKey M}.
Context `{!BitRange}.

Definition program_work (P : Program M) : nat :=
  (if started P then 0 else 1 + input_work * length App.startup_requests) +
  input_work * (length (mlme_input P) + length (mcps_input P)) +
  sum_list (output_work <$> drop (mlme_taken P) (mlme_output (mac P))) +
  (length (mcps_output (mac P)) - mcps_taken P) + 2 * mac_actions (mac P).

(** A round of either task that does something, while the radio is silent; its service takes the
    requests it is sent and keeps its response stream open ([env_ok]). *)
Inductive quiet_step : Program M -> Program M -> Prop :=
| quiet_mainloop key pick P P' : mainloop_step key pick P = Some P' -> quiet_step P P'
| quiet_mac e i P P' :
    env_radio e = Pending -> env_ok (program_env e P) (mac P) ->
    Program.mac_step e P = Ok (Some i, P') -> quiet_step P P'.

Lemma mainloop_works key pick P P' :
  mainloop_step key pick P = Some P' -> (program_work P' < program_work P)%nat.
Proof.
  unfold mainloop_step. destruct (started P) eqn:Es; [destruct pick|].
  - destruct (mlme_output (mac P) !! mlme_taken P) as [o|] eqn:Eo; [|done]. cbn [mbind option_bind].
    pose proof (round_work key o) as Hw. destruct (App.mainloop_round key (App.Mlme o)) as [a b].
    intros [= <-]. specialize (Hw a b eq_refl). unfold program_work. cbn -[input_work Nat.mul Nat.add].
    rewrite Es, (drop_S _ _ _ Eo), !length_app, fmap_cons, sum_list_cons. lia.
  - destruct (mcps_output (mac P) !! mcps_taken P) as [o|] eqn:Eo; [|done]. intros [= <-].
    apply lookup_lt_Some in Eo. unfold program_work. cbn -[input_work Nat.mul Nat.add]. rewrite Es, !app_nil_r. lia.
  - intros [= <-]. unfold program_work. rewrite Es.
    cbn -[input_work Nat.mul Nat.add]. rewrite !length_app. cbn -[input_work Nat.mul Nat.add]. lia.
Qed.

Lemma mac_works e i P P' :
  env_radio e = Pending -> Program.mac_step e P = Ok (Some i, P') -> (program_work P' < program_work P)%nat.
Proof.
  intros Hr E. apply result_bind_Ok in E as ([j m'] & E & [= -> <-]).
  pose proof E as (Hm & _ & Hin)%process_step_effect. unfold process_step in E.
  apply result_bind_Ok in E as ([r m1] & Ep & E). destruct r as [i'|]; [|done].
  apply result_bind_Ok in E as (m2 & Eh & E). injection E as -> ->.
  pose proof (input_polled _ _ _ _ Ep) as (_ & Eo & Hw). apply input_actions in Eh. rewrite Eo in Eh. clear Ep Eo.
  assert (mlme_effect (Some i) (mac P) m' ->
    (sum_list (output_work <$> drop (mlme_taken P) (mlme_output m')) <=
     sum_list (output_work <$> drop (mlme_taken P) (mlme_output (mac P))) +
     match i with InMlmeRequest _ => 1 | _ => 0 end)%nat) as Hout.
  { destruct i as [x|x|x|x|[]|x|x]; cbn [mlme_effect].
    - cbn in Hin. congruence.
    - intros (? & ? & ? & ? & ? & c & ? & ? & ? & _ & _ & _ & ->). etrans; [apply sum_drop_app|].
      destruct c; cbn; lia.
    - intros [_ ->]. lia.
    - intros [_ ->]. lia.
    - intros [_ ->]. lia.
    - intros [_ ->]. lia. }
  specialize (Hout Hm). unfold program_work.
  destruct (receive_fields (Some i) m' P) as (-> & -> & -> & ->).
  assert (mcps_taken (receive (Some i) m' P) = mcps_taken P) as -> by by destruct i.
  cbn [program_env env_mlme env_mcps] in Hin. unfold input_work.
  destruct i as [x|x|x|x|[]|x|x]; cbn [receive mlme_handled mcps_input outputs_of] in *.
  - cbn in Hin. congruence.
  - destruct (mlme_input P); [done|]. cbn [tail length]. lia.
  - destruct (mlme_input P); [done|]. cbn [tail length]. lia.
  - destruct (mcps_input P); [done|]. cbn [tail length]. lia.
  - lia.
  - lia.
Qed.

(** ** Rest *)

(** The main loop finds nothing, and the MAC finds nothing when it is polled. *)
Definition at_rest (P : Program M) : Prop :=
  (forall key pick, mainloop_step key pick P = None) /\
  exists e P', env_radio e = Pending /\ env_ok (program_env e P) (mac P) /\
    Program.mac_step e P = Ok (None, P').

(** Nothing is in the channels in either direction, and the management service has sent all of its
    frames and parameters. *)
Definition settled (P : Program M) : Prop :=
  started P = true /\ mlme_input P = [] /\ mcps_input P = [] /\
  drop (mlme_taken P) (mlme_output (mac P)) = [] /\ drop (mcps_taken P) (mcps_output (mac P)) = [] /\
  MGMT.outgoing (management (mac P)) = [] /\
  forall q info, MGMT.radio_params (management (mac P)) !! q = Some info -> due info = false.

Lemma mainloop_rests (P : Program M) : (forall key pick, mainloop_step key pick P = None) ->
  started P = true /\ drop (mlme_taken P) (mlme_output (mac P)) = [] /\
  drop (mcps_taken P) (mcps_output (mac P)) = [].
Proof.
  intros Hn. unfold mainloop_step in Hn. destruct (started P); [|by specialize (Hn (MkKey 0) true)].
  split; [done|]. split; apply drop_ge, lookup_ge_None.
  - specialize (Hn (MkKey 0) true). destruct (mlme_output (mac P) !! mlme_taken P) as [o|]; [|done].
    cbn [mbind option_bind] in Hn. by destruct (App.mainloop_round _ _).
  - specialize (Hn (MkKey 0) false). by destruct (mcps_output (mac P) !! mcps_taken P) as [o|].
Qed.

Lemma nothing_polled e (m m' : MacData M) : poll_next_input e m = Ok (Pending, m') ->
  env_mlme e = Pending /\ env_mcps e = Pending /\ MGMT.outgoing (management m) = [] /\
  forall q info, MGMT.radio_params (management m) !! q = Some info -> due info = false.
Proof.
  unfold poll_next_input.
  destruct (MGMT.poll_action (env_param_order e) (env_cx e) (management m)) as [[a|] s] eqn:Em; [done|].
  apply poll_action_cases in Em as [(? & ? & _ & _ & _ & ? & _)|(_ & _ & Hd & Ho)]; [done|].
  assert (MGMT.outgoing (management m) = []) as Eo.
  { destruct (MGMT.outgoing (management m)); [done|]. by destruct Ho. }
  destruct (DS.poll_action _ _ _ _ _) as [[[[r2|] p] ds]|]; [done| |done]. cbn [mbind result_bind].
  destruct (env_radio e) as [[x|]|]; [done|done|]. destruct (env_mlme e) as [[x|]|]; [done|done|].
  destruct (env_mcps e) as [[x|]|]; [done|done|]. done.
Qed.

Lemma rest_settled P : at_rest P -> settled P.
Proof.
  intros [Hm (e & P' & _ & _ & E)]. apply mainloop_rests in Hm as (H1 & H2 & H3).
  apply result_bind_Ok in E as ([i m'] & E & [= -> _]). apply result_bind_Ok in E as ([r m1] & Ep & E).
  destruct r as [i|]; [by apply result_bind_Ok in E as (? & _ & ?)|].
  apply nothing_polled in Ep as (Hl & Hp & Ho & Hd). split_and!; try done.
  - cbn in Hl. by destruct (mlme_input P).
  - cbn in Hp. by destruct (mcps_input P).
Qed.

(** An environment in which nothing happens *)
Definition silent_env (key : UniqueKey) (fuel : nat) : MacEnv := {|
  env_cx := poll_context 0 no_timer; env_param_order := iter_identity _; env_dest_order := iter_identity _;
  env_fuel := fuel; env_key := key; env_timer := 0; env_random_bsn := Uint 0; env_random_dsn := Uint 0;
  env_radio := Pending; env_mlme := Pending; env_mcps := Pending;
  env_radio_requests := Takes; env_mlme_closed := false; env_mcps_closed := false;
|}.

Lemma rests_or_works P : mac_inv (mac P) -> at_rest P \/ exists P', quiet_step P P'.
Proof.
  intros I.
  assert ((exists key pick P', mainloop_step key pick P = Some P') \/
    forall key pick, mainloop_step key pick P = None) as [(key & pick & P' & E)|Hn].
  { unfold mainloop_step. destruct (started P); [|left; by exists (MkKey 0), true; eexists].
    destruct (mlme_output (mac P) !! mlme_taken P) as [o|] eqn:E1.
    { left. exists (MkKey 0), true. cbn [mbind option_bind]. destruct (App.mainloop_round _ _). by eexists. }
    destruct (mcps_output (mac P) !! mcps_taken P) as [o|] eqn:E2.
    { left. exists (MkKey 0), false. by eexists. }
    right. by intros key []. }
  { right. exists P'. by eapply quiet_mainloop. }
  destruct (fresh_key (DS.queues (data (mac P)))) as [k Hk].
  set (e := silent_env k (S (total_work (DS.queues (data (mac P)))))).
  assert (env_ok (program_env e P) (mac P)) as He.
  { split; cbn; try done; try lia; (split; [done|]).
    - by destruct (mlme_input P).
    - by destruct (mcps_input P). }
  destruct (process_step_safe _ _ I He) as [(i & m' & E & _)|(_ & packet & err & E & _)]; [|done].
  destruct i as [i|].
  - right. eexists. eapply (quiet_mac e i); [done|done|]. unfold Program.mac_step. by rewrite E.
  - left. split; [done|]. exists e. eexists. split_and!; [done..|]. unfold Program.mac_step. by rewrite E.
Qed.

Lemma quiet_program P P' : quiet_step P P' -> program_step P P'.
Proof.
  intros [key pick Q Q' E|e i Q Q' _ He E]; [by eapply Program.step_mainloop|by eapply Program.step_mac].
Qed.

Lemma quiet_works P P' : quiet_step P P' -> (program_work P' < program_work P)%nat.
Proof. intros [key pick Q Q' E|e i Q Q' Hr _ E]; [by eapply mainloop_works|by eapply mac_works]. Qed.

Lemma quiet_run P0 P P' : program_run P0 P -> rtc quiet_step P P' -> program_run P0 P'.
Proof.
  intros [Hs Hr] Hq. split; [done|]. etrans; [exact Hr|]. eapply rtc_subrel; [|exact Hq]. apply quiet_program.
Qed.

Lemma gets_to_rest P0 P : program_run P0 P -> exists P', rtc quiet_step P P' /\ at_rest P'.
Proof.
  intros Hr. remember (program_work P) as n eqn:En. revert P Hr En.
  induction (lt_wf n) as [n _ IH]. intros P Hr ->.
  destruct (program_run_inv _ _ Hr) as [handled I].
  destruct (rests_or_works P (mac_reachable_inv _ (pi_reached _ _ _ I))) as [Ha|[P1 Hs]].
  - exists P. split; [apply rtc_refl|done].
  - destruct (IH (program_work P1) (quiet_works _ _ Hs) P1) as (P' & Hq & Ha); [|done|].
    + eapply quiet_run; [exact Hr|]. by apply rtc_once.
    + exists P'. split; [by eapply rtc_l|done].
Qed.

(** C7: With a radio that is silent, its service there and taking the requests it is sent, the
    program comes to rest: from every state it can get into, in whatever
    order the tasks are polled and whatever timers run out, at most so many rounds do
    something; it can always get to rest; and at rest nothing is left in the channels or to be
    sent to the radio, every request of the application has been granted, each in its turn, and the
    device is the coordinator. *)
Theorem program_settles (P0 P : Program M) :
  program_run P0 P ->
  (forall n P', nsteps quiet_step n P P' -> (n <= program_work P)%nat) /\
  (exists P', rtc quiet_step P P' /\ at_rest P') /\
  (forall P', rtc quiet_step P P' -> at_rest P' ->
     settled P' /\ omap confirm_of (mlme_output (mac P')) = omap granted (sent P') /\
     exists bsn dsn, pib (mac P') = App.coordinator bsn dsn (pib (mac P0))).
Proof.
  intros Hr. split_and!.
  - intros n P'. clear Hr. induction 1 as [P|n P P1 P2 Hs _ IH]; [lia|]. apply quiet_works in Hs. lia.
  - by eapply gets_to_rest.
  - intros P' Hq Ha%rest_settled. split; [done|]. destruct Ha as (Es & Ei & _).
    destruct (program_run_inv _ _ (quiet_run _ _ _ Hr Hq)) as [handled I].
    pose proof (pi_sent _ _ _ I) as Hs. rewrite Ei, app_nil_r in Hs. rewrite Hs. split; [by apply (pi_confirms _ _ _ I)|].
    pose proof (pi_pib _ _ _ I) as Hp. rewrite granted_pib_all in Hp.
    + destruct (granted_coordinator (pib (mac P0))) as (bsn & dsn & E). rewrite E in Hp.
      by apply like_coordinator in Hp.
    + rewrite <- Hs. unfold sent. rewrite Es, length_app, length_fmap. lia.
Qed.
End settles.

(** ** A witness *)

Lemma program_settles_witness :
  exists P', rtc (quiet_step (H := BitRange_reference)) running_program P' /\
    at_rest (H := BitRange_reference) P' /\ settled P' /\
    exists bsn dsn, pib (mac P') = App.coordinator bsn dsn (pib (mac started_program)).
Proof.
  destruct (program_settles (H := BitRange_reference) started_program running_program running_program_run)
    as (_ & (P' & Hq & Ha) & Hall).
  destruct (Hall P' Hq Ha) as (Hs & _ & Hc). exists P'. split; [exact Hq|]. split; [exact Ha|].
  split; [exact Hs|exact Hc].
Defined.
