(* ===== verification/ProgramJoins.v ===== *)
(** * A device joins the program

    From the association request that the radio delivers, through the MAC, the main loop and back,
    to the two frames that wait for the device. *)

From Stdlib Require Import ZArith Lia.
From S2P Require Import RadioRaw Radio.
From S2P Require Import Prelude Pack BitField Frame Async Pib Services BiMap.
From S2P Require Import DeviceQueue DeviceQueueTheory DataService DataServiceTheory.
From S2P Require Import Management ManagementTheory MacService MacServiceTheory MacActions MacDelivery.
From S2P Require Import Main Program ProgramTheory ProgramSettles.

#[local] Open Scope Z_scope.

Import MAC Program.

(** What the main loop sends for a device that asks to associate *)
Definition join_response (a : ExtendedAddress) (c : CapabilityInformation) : mlme.Response :=
  mlme.RespAssociate a (ci_fast_association c) (Ok (Some App.device_short_address)).
Definition join_request (key : UniqueKey) : mcps.DataRequest := {|
  mcps.source_addressing_mode := AM_Short;
  mcps.destination := Some (FullAddr (Frame.PanId 0x1234) (AddrShort App.device_short_address));
  mcps.msdu := App.nwk_header ++ App.aps_header;
  mcps.msdu_handle := mcps.MsduHandle_new key;
  mcps.ack_tx := true;
  mcps.indirect_tx := true;
|}.

Lemma round_joins key a c :
  App.mainloop_round key (App.Mlme (mlme.OutIndication (mlme.IndAssociate a c))) =
    ([mlme.InResponse (join_response a c)], [mcps.InRequest (mcps.ReqData (join_request key))]).
Proof. done. Qed.

(** The two frames that wait for the device then *)
Definition response_entry (key : UniqueKey) (a : ExtendedAddress) (c : CapabilityInformation) : DataRequest := {|
  dr_key := key;
  dr_destination := Some (FullAddr (Frame.PanId 0x1234) (AddrExtended a));
  dr_source_mode := AM_Extended;
  dr_acknowledge_request := true;
  dr_indirect := negb (ci_fast_association c);
  dr_content := association_answer (ci_fast_association c) (Ok (Some App.device_short_address));
|}.
Definition data_entry (key : UniqueKey) : DataRequest := {|
  dr_key := key;
  dr_destination := Some (FullAddr (Frame.PanId 0x1234) (AddrShort App.device_short_address));
  dr_source_mode := AM_Short;
  dr_acknowledge_request := true;
  dr_indirect := true;
  dr_content := FTData (MkPayload (App.nwk_header ++ App.aps_header));
|}.

Section joins.
Context {M : Type} `{!BiMap mcps.MsduHandle UniqueKey M, !BiMapLaws mcps.MsduHandle UniqueKey M}.
Context `{!BitRange}.

(** Whatever the tasks do, and they do something, it comes to this; the radio is silent and its
    service takes what it is sent ([quiet_step]). *)
Inductive leads_to (Q : Program M -> Prop) (P : Program M) : Prop :=
| leads_now : Q P -> leads_to Q P
| leads_on : (exists P', quiet_step P P') -> (forall P', quiet_step P P' -> leads_to Q P') -> leads_to Q P.

Lemma leads_by (W Q : Program M -> Prop) P0 P :
  (forall P, W P -> ~ settled P) ->
  (forall P P', program_run P0 P -> W P -> quiet_step P P' -> Q P' \/ W P') ->
  program_run P0 P -> W P -> leads_to Q P.
Proof.
  intros Hn Hs Hr Hw. remember (program_work P) as n eqn:En. revert P Hr Hw En.
  induction (lt_wf n) as [n _ IH]. intros P Hr Hw ->.
  destruct (program_run_inv _ _ Hr) as [handled I]. apply leads_on.
  - destruct (rests_or_works P (mac_reachable_inv _ (pi_reached _ _ _ I))) as [Ha%rest_settled|?]; [|done].
    by apply Hn in Ha.
  - intros P' Hq. destruct (Hs _ _ Hr Hw Hq) as [?|Hw']; [by apply leads_now|].
    eapply (IH (program_work P')); [by apply quiet_works| |done|done].
    eapply quiet_run; [exact Hr|by apply rtc_once].
Qed.

(** The request is last in the queue of its destination. *)
Definition waits_last (m : MacData M) (r : DataRequest) : Prop :=
  exists q x, DS.queues (data m) !! dr_destination r = Some q /\ last (DQ.entries q) = Some x /\
    DQ.data x = r.

(** ** What the tasks do with the channels *)

Lemma mainloop_channels key pick (P P' : Program M) :
  mainloop_step key pick P = Some P' -> mac P' = mac P /\
  (forall x, x ∈ mlme_input P -> x ∈ mlme_input P') /\ (forall x, x ∈ mcps_input P -> x ∈ mcps_input P') /\
  forall n o, (mlme_taken P <= n)%nat -> mlme_output (mac P) !! n = Some o ->
    (mlme_taken P' <= n)%nat \/
    (forall x, x ∈ fst (App.mainloop_round key (App.Mlme o)) -> x ∈ mlme_input P') /\
    (forall x, x ∈ snd (App.mainloop_round key (App.Mlme o)) -> x ∈ mcps_input P').
Proof.
  unfold mainloop_step. destruct (started P); [destruct pick|].
  - destruct (mlme_output (mac P) !! mlme_taken P) as [o|] eqn:Eo; [|done]. cbn [mbind option_bind].
    destruct (App.mainloop_round key (App.Mlme o)) as [a b] eqn:Er. intros [= <-].
    cbn [mac mlme_input mcps_input mlme_taken send_all].
    split; [done|]. split; [intros x Hx; apply elem_of_app; by left|].
    split; [intros x Hx; apply elem_of_app; by left|].
    intros n o' Hn Ho'. destruct (decide (n = mlme_taken P)) as [->|Hne]; [right|left; lia].
    rewrite Eo in Ho'. injection Ho' as <-. rewrite Er. cbn [fst snd].
    split; intros x Hx; apply elem_of_app; by right.
  - destruct (mcps_output (mac P) !! mcps_taken P) as [o|]; [|done]. intros [= <-]. cbn.
    rewrite !app_nil_r. split_and!; auto.
  - intros [= <-]. cbn [mac mlme_input mcps_input mlme_taken send_all]. split; [done|].
    split; [intros x Hx; apply elem_of_app; by left|]. split; [intros x Hx; apply elem_of_app; by left|].
    intros n o Hn _. by left.
Qed.

Lemma mac_channels e i (P P' : Program M) :
  Program.mac_step e P = Ok (i, P') -> process_step (program_env e P) (mac P) = Ok (i, mac P') /\
  mlme_taken P' = mlme_taken P /\ (exists more, mlme_output (mac P') = mlme_output (mac P) ++ more) /\
  (forall x, x ∈ mlme_input P -> x ∈ mlme_input P' \/ mlme_handled i = [x]) /\
  (forall r, mcps.InRequest r ∈ mcps_input P ->
     mcps.InRequest r ∈ mcps_input P' \/ i = Some (InMcpsRequest r)).
Proof.
  intros E. apply result_bind_Ok in E as ([j m] & E & [= <- <-]).
  pose proof E as (Hm & _ & Hin)%process_step_effect. pose proof (effect_extends _ _ _ Hm) as Ho.
  destruct (receive_fields j m P) as (_ & -> & -> & ->). split_and!; [done|done|done|..].
  - intros x Hx. destruct j as [[]|]; cbn in *; try (by left); destruct (mlme_input P) as [|y l]; try done;
      injection Hin as ->; apply elem_of_cons in Hx as [->|?]; by auto.
  - intros x Hx. destruct j as [[| | | |[]| |]|]; try (by left). cbn in *.
    destruct (mcps_input P) as [|y l]; [done|]. injection Hin as ->.
    apply elem_of_cons in Hx as [[= ->]|?]; by auto.
Qed.

(** ** What the MAC makes of the response and of the data request *)

Lemma input_of_step e i (m m' : MacData M) :
  mac_inv m -> env_ok e m -> process_step e m = Ok (Some i, m') ->
  exists m1, poll_next_input e m = Ok (Ready i, m1) /\ process_input e i m1 = Ok m' /\
    like (pib m1) (pib m) /\ mac_inv m1 /\ ~ queued (DS.queues (data m1)) (env_key e).
Proof.
  intros I He E. destruct (poll_next_input_safe e m I He) as (r & m1 & Ep & I1 & _ & Hk & _).
  unfold process_step in E. rewrite Ep in E. cbn [mbind result_bind] in E.
  destruct r as [j|]; [|done]. apply result_bind_Ok in E as (m2 & E & [= -> ->]).
  pose proof (poll_next_input_quiet _ _ _ _ Ep) as [Hl _]. exists m1. by split_and!.
Qed.

Lemma like_pan p p' : like p p' -> mac_pan_id p = mac_pan_id p'.
Proof. intros (b & d & ->)%like_fields. by destruct p. Qed.

Lemma response_handled e a c (m m' : MacData M) :
  mac_inv m -> env_ok e m -> process_step e m = Ok (Some (InMlmeResponse (join_response a c)), m') ->
  mac_pan_id (pib m) = Frame.PanId 0x1234 -> waits_last m' (response_entry (env_key e) a c).
Proof.
  intros I He E Hp. destruct (input_of_step _ _ _ _ I He E) as (m1 & _ & Eh & Hl & _ & Hk).
  apply like_pan in Hl. rewrite Hp in Hl. cbn in Eh. injection Eh as <-.
  unfold process_mlme_response. cbn [join_response MGMT.process_mlme_response].
  unfold MGMT.process_mlme_associate_response. cbv zeta. rewrite Hl.
  exact (insert_queues_last (pib m1) (env_timer e) (response_entry (env_key e) a c) (data m1) Hk).
Qed.

Lemma data_handled e key (m m' : MacData M) :
  mac_inv m -> env_ok e m -> process_step e m = Ok (Some (InMcpsRequest (mcps.ReqData (join_request key))), m') ->
  waits_last m' (data_entry (env_key e)).
Proof.
  intros I He E. destruct (input_of_step _ _ _ _ I He E) as (m1 & _ & Eh & _ & _ & Hk).
  cbn in Eh. injection Eh as <-.
  exact (insert_queues_last (pib m1) (env_timer e) (data_entry (env_key e)) (data m1) Hk).
Qed.

(** ** From the indication to the queues *)

Definition indicated (P : Program M) (a : ExtendedAddress) (c : CapabilityInformation) : Prop :=
  exists n, (mlme_taken P <= n)%nat /\
    mlme_output (mac P) !! n = Some (mlme.OutIndication (mlme.IndAssociate a c)).
Definition response_comes a c (P : Program M) : Prop :=
  indicated P a c \/ mlme.InResponse (join_response a c) ∈ mlme_input P.
Definition data_comes a c (P : Program M) : Prop :=
  indicated P a c \/ exists key, mcps.InRequest (mcps.ReqData (join_request key)) ∈ mcps_input P.

Lemma indicated_unsettled P a c : indicated P a c -> ~ settled P.
Proof.
  intros (n & Hn & Ho) (_ & _ & _ & Hd & _). apply lookup_lt_Some in Ho.
  apply (f_equal length) in Hd. rewrite length_drop in Hd. cbn in Hd. lia.
Qed.

Lemma mac_indicated e i (P P' : Program M) a c :
  Program.mac_step e P = Ok (i, P') -> indicated P a c -> indicated P' a c.
Proof.
  intros (_ & Ht & (more & Ho) & _)%mac_channels (n & Hn & En). exists n. rewrite Ht, Ho. split; [done|].
  by apply lookup_app_l_Some.
Qed.

Lemma mainloop_indicated key pick (P P' : Program M) a c :
  mainloop_step key pick P = Some P' -> indicated P a c ->
  indicated P' a c \/ mlme.InResponse (join_response a c) ∈ mlme_input P' /\
    mcps.InRequest (mcps.ReqData (join_request key)) ∈ mcps_input P'.
Proof.
  intros (Em & _ & _ & Ht)%mainloop_channels (n & Hn & En). destruct (Ht n _ Hn En) as [Hn'|[H1 H2]].
  - left. exists n. by rewrite Em.
  - right. rewrite round_joins in H1, H2. split; [apply H1|apply H2]; by left.
Qed.

(** A response in the channel stands behind the requests the program starts with. *)
Lemma response_after_start P0 P e a c m' :
  program_run P0 P -> process_step (program_env e P) (mac P) = Ok (Some (InMlmeResponse (join_response a c)), m') ->
  mac_pan_id (pib (mac P)) = Frame.PanId 0x1234.
Proof.
  intros (handled & I)%program_run_inv E. apply process_step_effect in E as (_ & _ & Hin).
  cbn in Hin. apply offered_ready in Hin. pose proof (pi_sent _ _ _ I) as Hs. rewrite Hin in Hs.
  assert (sent P !! length handled = Some (mlme.InResponse (join_response a c))) as Hx%sent_response.
  { rewrite Hs. by apply list_lookup_middle. }
  pose proof (pi_pib _ _ _ I) as Hp. rewrite granted_pib_all in Hp by done.
  destruct (granted_coordinator (M := M) (pib (mac P0))) as (bsn & dsn & Ec). rewrite Ec in Hp.
  apply like_coordinator in Hp as (? & ? & ->). done.
Qed.

Lemma may_join_like p p' f a c : like p p' -> may_join p f a c -> may_join p' f a c.
Proof.
  intros (b & d & ->)%like_fields (Ef & Hp & Hd & Hs). destruct p. by split_and!.
Qed.

Lemma packet_indicates e packet f rest a c (m m' : MacData M) :
  process_radio_packet e packet m = Ok m' -> Frame_unpack (Radio.packet_data packet) = Ok (f, rest) ->
  may_join (pib m) f a c ->
  mlme_output m' = mlme_output m ++ [mlme.OutIndication (mlme.IndAssociate a c)].
Proof.
  unfold process_radio_packet. intros E Eu (Ef & Hp & Hd & pan & Hs). rewrite Eu in E.
  cbn [unwrap_result mbind result_bind] in E.
  unfold MGMT.process_frame, MGMT.process_frame_association_request in E. rewrite Ef, Hp, Hs in E.
  cbn [negb] in E. rewrite decide_False in E by (by intros []). unfold send_mlme in E.
  cbn [mbind result_bind] in E. destruct (env_mlme_closed e); [done|]. by injection E as <-.
Qed.

(** The indication, then the response, then the frame: no step loses them. *)
Lemma response_step P0 P P' a c :
  program_run P0 P -> response_comes a c P -> quiet_step P P' ->
  (exists key, waits_last (mac P') (response_entry key a c)) \/ response_comes a c P'.
Proof.
  intros Hr Hw Hq. destruct Hq as [key pick P P' E|e i P P' _ He E].
  - right. destruct Hw as [Hw|Hw]; [|right; by apply (mainloop_channels _ _ _ _ E)].
    destruct (mainloop_indicated _ _ _ _ _ _ E Hw) as [?|[? _]]; [by left|by right].
  - destruct Hw as [Hw|Hw]; [right; left; by eapply mac_indicated|].
    pose proof (mac_channels _ _ _ _ E) as (Es & _ & _ & Hk & _).
    destruct (Hk _ Hw) as [?|Hh]; [right; by right|left].
    assert (i = InMlmeResponse (join_response a c)) as -> by (destruct i; try done; by injection Hh as ->).
    destruct (program_run_inv _ _ Hr) as [handled I]. eexists.
    eapply response_handled; [exact (mac_reachable_inv _ (pi_reached _ _ _ I))|exact He|exact Es|].
    by eapply response_after_start.
Qed.

Lemma data_step P0 P P' a c :
  program_run P0 P -> data_comes a c P -> quiet_step P P' ->
  (exists key, waits_last (mac P') (data_entry key)) \/ data_comes a c P'.
Proof.
  intros Hr Hw Hq. destruct Hq as [key pick P P' E|e i P P' _ He E].
  - right. destruct Hw as [Hw|[k Hw]]; [|right; exists k; by apply (mainloop_channels _ _ _ _ E)].
    destruct (mainloop_indicated _ _ _ _ _ _ E Hw) as [?|[_ ?]]; [by left|right; by eexists].
  - destruct Hw as [Hw|[k Hw]]; [right; left; by eapply mac_indicated|].
    pose proof (mac_channels _ _ _ _ E) as (Es & _ & _ & _ & Hk).
    destruct (Hk _ Hw) as [?|[= ->]]; [right; right; by exists k|left].
    destruct (program_run_inv _ _ Hr) as [handled I]. eexists.
    by eapply data_handled; [exact (mac_reachable_inv _ (pi_reached _ _ _ I))|exact He|exact Es].
Qed.

Lemma response_unsettled a c (P : Program M) : response_comes a c P -> ~ settled P.
Proof.
  intros [Hq%indicated_unsettled|Hq]; [done|]. intros (_ & Em & _). rewrite Em in Hq. by apply elem_of_nil in Hq.
Qed.
Lemma data_unsettled a c (P : Program M) : data_comes a c P -> ~ settled P.
Proof.
  intros [Hq%indicated_unsettled|[k Hq]]; [done|]. intros (_ & _ & Em & _). rewrite Em in Hq.
  by apply elem_of_nil in Hq.
Qed.

(** C6: A device that the coordinator may let in is let in, if the radio says nothing else for a
    while and its service is there and takes the requests it is sent: when the MAC takes the
    device's association request from the radio, then, the radio being silent from there on,
    whatever the order in which the tasks are polled, it comes to a state in which the answer with
    the device's short address is last in the queue of its extended address, and to one in which
    the first data frame is last in the queue of that short address, for the device to ask for;
    until then there is always something to do.  (A radio that goes on talking can keep the MAC
    from the application's requests, which it takes last, and a malformed packet ends it.) *)
Theorem device_admitted (P0 P P1 : Program M) (e : MacEnv) packet f rest a c :
  program_run P0 P -> env_ok (program_env e P) (mac P) ->
  Program.mac_step e P = Ok (Some (InRadio (Radio.RespOnPacket packet)), P1) ->
  Frame_unpack (Radio.packet_data packet) = Ok (f, rest) -> may_join (pib (mac P)) f a c ->
  leads_to (fun P' => exists key, waits_last (mac P') (response_entry key a c)) P1 /\
  leads_to (fun P' => exists key, waits_last (mac P') (data_entry key)) P1.
Proof.
  intros Hr He E Eu Hj.
  assert (program_run P0 P1) as Hr1.
  { destruct Hr as [Hs Hr]. split; [done|]. eapply rtc_r; [exact Hr|]. by eapply Program.step_mac. }
  assert (indicated P1 a c) as Hi.
  { destruct (program_run_inv _ _ Hr) as [handled I]. apply mac_channels in E as (E & Ht & _).
    destruct (input_of_step _ _ _ _ (mac_reachable_inv _ (pi_reached _ _ _ I)) He E) as (m1 & Ep & Eh & Hl & _).
    apply (packet_indicates _ _ f rest a c) in Eh; [|exact Eu|by eapply may_join_like; [symmetry|]].
    apply poll_next_input_quiet in Ep as (_ & Eo & _). rewrite Eo in Eh.
    exists (length (mlme_output (mac P))). rewrite Ht, Eh. split; [apply I|]. by apply list_lookup_middle. }
  split.
  - eapply (leads_by (response_comes a c) _ P0); [apply response_unsettled|intros Q Q'; apply response_step|done|by left].
  - eapply (leads_by (data_comes a c) _ P0); [apply data_unsettled|intros Q Q'; apply data_step|done|by left].
Qed.
End joins.

(** ** A witness *)

Section stepped.
Context {M : Type} `{!BiMap mcps.MsduHandle UniqueKey M, !BitRange}.
Definition mac_step_to (e : MacEnv) (P : Program M) : Program M :=
  match Program.mac_step e P with Ok (_, P') => P' | Err _ => P end.
Definition mac_step_input (e : MacEnv) (P : Program M) : option (option MacInput) :=
  match Program.mac_step e P with Ok (i, _) => Some i | Err _ => None end.
Lemma mac_step_to_ok e P i : mac_step_input e P = Some i -> Program.mac_step e P = Ok (i, mac_step_to e P).
Proof. unfold mac_step_input, mac_step_to. destruct (Program.mac_step e P) as [[]|]; congruence. Qed.
End stepped.

(** The packet of [App.example_association]; packing leaves out the capabilities. *)
Definition association_packet : Radio.RadioPacket := {|
  Radio.packet_data := match Frame_pack (H := BitRange_reference) App.example_association vec_new with
                       | Ok t => vec t ++ [0x80] | Err _ => [] end;
  Radio.packet_rssi := 0; Radio.packet_link_quality := 0;
|}.
Definition association_env : MacEnv :=
  served_env 200 (Ready (Some (Radio.RespOnPacket association_packet))) Pending.
Definition associating_program : Program handle_map :=
  mac_step_to (H := BitRange_reference) association_env running_program.

Lemma device_admitted_witness :
  leads_to (H := BitRange_reference) (fun P' => exists key, waits_last (mac P')
    (response_entry key (ExtAddr 0x77) App.example_capabilities)) associating_program /\
  leads_to (H := BitRange_reference) (fun P' => exists key, waits_last (mac P') (data_entry key))
    associating_program.
Proof.
  refine (device_admitted (H := BitRange_reference) started_program running_program associating_program
    association_env association_packet App.example_association [] (ExtAddr 0x77) App.example_capabilities
    running_program_run _ _ _ _).
  - apply env_fits_ok; [by apply program_env_open|vm_compute; reflexivity].
  - unfold associating_program. refine (mac_step_to_ok association_env running_program _ _).
    vm_compute; reflexivity.
  - vm_compute; reflexivity.
  - split; [reflexivity|]. split; [vm_compute; reflexivity|]. split; [vm_compute; reflexivity|].
    by eexists.
Defined.
