(* ===== verification/Cipher.v ===== *)
(** * Block ciphers and key streams: what the security code relies on

    [old_src/zigbee/security/] uses the crates [block-cipher-trait], [aes] and [ctr].
    None of them is part of the repository: [BlockCipher] and [Ctr] are their
    interfaces, [BlockCipherLaws] and [CtrLaws] what their documentation promises.
    The lemmas on byte strings that the users of a cipher share are here too: the
    exclusive or of two strings, and the cutting of a string into blocks. *)

From Stdlib Require Import ZArith Lia.
From S2P Require Import Prelude.

#[local] Open Scope Z_scope.

(** ** Block ciphers

    [n] is the block size in bytes; a [GenericArray] of [n] bytes is a list. *)
Class BlockCipher (n : nat) (C : Type) := {
  cipher_new : list Z -> C;
  encrypt_block : C -> list Z -> list Z;
}.
#[export] Hint Mode BlockCipher - + : typeclass_instances.

Class BlockCipherLaws (n : nat) (C : Type) `{BlockCipher n C} := {
  block_size_pos : (0 < n)%nat;
  encrypt_block_length (c : C) b : length b = n -> length (encrypt_block c b) = n;
}.
#[export] Hint Mode BlockCipherLaws - + - : typeclass_instances.

(** ** Counter mode

    [Ctr128::from_cipher] and [SyncStreamCipher::apply_keystream]: a stream of key bytes
    is combined with the data; the state remembers how far it was used. *)
Class Ctr (C : Type) := {
  Ctr128 : Type;
  ctr_from_cipher : C -> list Z -> Ctr128;
  apply_keystream : Ctr128 -> list Z -> list Z * Ctr128;
}.
#[export] Hint Mode Ctr + : typeclass_instances.
Arguments Ctr128 C {_}.

(** ** Exclusive or of byte strings *)

Definition xor_bytes (a b : list Z) : list Z := zip_with Z.lxor a b.

Class CtrLaws (C : Type) `{Ctr C} := {
  keystream : Ctr128 C -> nat -> Z;
  apply_keystream_data (s : Ctr128 C) bs :
    fst (apply_keystream s bs) = xor_bytes bs (keystream s <$> seq 0 (length bs));
  apply_keystream_next (s : Ctr128 C) bs i :
    keystream (snd (apply_keystream s bs)) i = keystream s (length bs + i);
}.
#[export] Hint Mode CtrLaws + - : typeclass_instances.

Lemma xor_bytes_cancel a k : (length a <= length k)%nat -> xor_bytes (xor_bytes a k) k = a.
Proof.
  unfold xor_bytes. revert k. induction a as [|x a IH]; intros [|y k] Hl; cbn in *; try done; [lia|].
  rewrite IH by lia. f_equal. by rewrite Z.lxor_assoc, Z.lxor_nilpotent, Z.lxor_0_r.
Qed.
Lemma length_xor_bytes a b : length (xor_bytes a b) = min (length a) (length b).
Proof. apply length_zip_with. Qed.
Lemma xor_bytes_zeros n a : length a = n -> xor_bytes a (replicate n 0) = a.
Proof.
  intros <-. unfold xor_bytes. induction a as [|x a IH]; cbn; [done|]. by rewrite IH, Z.lxor_0_r.
Qed.
Lemma xor_bytes_app a1 a2 b1 b2 :
  length a1 = length b1 -> xor_bytes (a1 ++ a2) (b1 ++ b2) = xor_bytes a1 b1 ++ xor_bytes a2 b2.
Proof. apply zip_with_app. Qed.
Lemma take_xor_bytes n a b : take n (xor_bytes a b) = xor_bytes (take n a) (take n b).
Proof. apply zip_with_take. Qed.

Section keystream.
Context `{CtrLaws C}.

(** The key bytes a stream applies to [bs]. *)
Definition key_bytes (s : Ctr128 C) (n : nat) : list Z := keystream s <$> seq 0 n.

Lemma length_key_bytes s n : length (key_bytes s n) = n.
Proof. unfold key_bytes. by rewrite length_fmap, length_seq. Qed.

Lemma key_bytes_plus (s : Ctr128 C) m n :
  key_bytes s (m + n) = key_bytes s m ++ ((fun i => keystream s (m + i)) <$> seq 0 n).
Proof.
  unfold key_bytes. rewrite seq_app, fmap_app. f_equal. rewrite Nat.add_0_l.
  replace (seq m n) with (Nat.add m <$> seq 0 n) by (rewrite fmap_add_seq; f_equal; lia).
  by rewrite <- list_fmap_compose.
Qed.
Lemma take_key_bytes s m n : (m <= n)%nat -> take m (key_bytes s n) = key_bytes s m.
Proof.
  intros. replace n with (m + (n - m))%nat by lia. rewrite key_bytes_plus.
  apply take_app_length'. by rewrite length_key_bytes.
Qed.

Lemma apply_keystream_spec (s : Ctr128 C) bs : fst (apply_keystream s bs) = xor_bytes bs (key_bytes s (length bs)).
Proof. apply apply_keystream_data. Qed.
Lemma length_apply_keystream (s : Ctr128 C) bs : length (fst (apply_keystream s bs)) = length bs.
Proof. rewrite apply_keystream_spec, length_xor_bytes, length_key_bytes. lia. Qed.

(** Whatever was applied first, only how much of the stream it took matters. *)
Lemma apply_keystream_after (s : Ctr128 C) a b bs :
  length a = length b ->
  fst (apply_keystream (snd (apply_keystream s a)) bs)
  = fst (apply_keystream (snd (apply_keystream s b)) bs).
Proof.
  intros E. rewrite !apply_keystream_spec. f_equal. unfold key_bytes.
  apply list_fmap_ext. intros i x _. by rewrite !apply_keystream_next, E.
Qed.
Lemma apply_keystream_twice (s : Ctr128 C) bs :
  fst (apply_keystream s (fst (apply_keystream s bs))) = bs.
Proof.
  rewrite apply_keystream_spec, length_apply_keystream, apply_keystream_spec.
  apply xor_bytes_cancel. by rewrite length_key_bytes.
Qed.
End keystream.

(** ** Cutting a string into blocks *)

(** The whole blocks of [m], and [m] filled with zeros to whole blocks. *)
Definition blocks (n : nat) (m : list Z) : list (list Z) := reshape (replicate (length m / n) n) m.
Definition zero_padding (n l : nat) : list Z := replicate ((n - l mod n) mod n) 0.
Definition zero_pad (n : nat) (m : list Z) : list Z := m ++ zero_padding n (length m).

Section blocks.
Context (n : nat) (n_pos : (0 < n)%nat).

Lemma length_mjoin_blocks (bs : list (list Z)) :
  Forall (fun b => length b = n) bs -> length (mjoin bs) = (length bs * n)%nat.
Proof.
  induction 1 as [|b bs E _ IH]; [done|]. change (mjoin (b :: bs)) with (b ++ mjoin bs).
  rewrite length_app, E, IH. cbn. lia.
Qed.

Lemma blocks_mjoin (bs : list (list Z)) : Forall (fun b => length b = n) bs -> blocks n (mjoin bs) = bs.
Proof using n_pos.
  intros H. unfold blocks. rewrite length_mjoin_blocks by done. rewrite Nat.div_mul by lia.
  induction H as [|b bs E _ IH]; [done|]. change (mjoin (b :: bs)) with (b ++ mjoin bs).
  cbn [length replicate reshape].
  by rewrite take_app_length', drop_app_length', IH by done.
Qed.

(** A string is blocks and a rest; filling up the rest gives one block more. *)
Lemma zero_pad_mjoin (bs : list (list Z)) t :
  Forall (fun b => length b = n) bs -> (length t < n)%nat ->
  zero_pad n (mjoin bs ++ t)
  = mjoin (bs ++ (if decide (t = []) then [] else [t ++ replicate (n - length t) 0])).
Proof using n_pos.
  intros H Ht. unfold zero_pad, zero_padding. rewrite length_app, length_mjoin_blocks by done.
  rewrite Nat.add_comm, Nat.Div0.mod_add, (Nat.mod_small (length t)) by done.
  rewrite <- (assoc_L (++)), join_app. f_equal.
  case_decide as E.
  - subst t. cbn. by rewrite Nat.sub_0_r, Nat.Div0.mod_same.
  - rewrite Nat.mod_small; [by cbn; rewrite app_nil_r|]. destruct t; [done|]. cbn in *. lia.
Qed.
Lemma length_zero_pad_mod m : (length (zero_pad n m) mod n = 0)%nat.
Proof using n_pos.
  unfold zero_pad, zero_padding. rewrite length_app, length_replicate.
  set (l := length m). rewrite Nat.Div0.add_mod_idemp_r.
  pose proof (Nat.mod_upper_bound l n). pose proof (Nat.div_mod_eq l n).
  replace (l + (n - l mod n))%nat with (0 + (l / n + 1) * n)%nat by nia.
  by rewrite Nat.Div0.mod_add, Nat.Div0.mod_0_l.
Qed.
End blocks.
