(* ===== verification/Aes.v ===== *)
(** * AES-128, for evaluation

    The crates [aes] and [ctr] are not part of the repository; the development is proved
    for every cipher ([Cipher.v]).  To run the repository's own test vectors, and to show
    that the laws can hold, this file instantiates the interfaces with AES-128 (FIPS 197)
    and its counter mode. *)

From Stdlib Require Import ZArith Lia.
From S2P Require Import Prelude.
From S2P Require Import Cipher.

#[local] Open Scope Z_scope.

Module Aes.

Definition sbox_table : list Z :=
  [99; 124; 119; 123; 242; 107; 111; 197; 48; 1; 103; 43; 254; 215; 171; 118;
   202; 130; 201; 125; 250; 89; 71; 240; 173; 212; 162; 175; 156; 164; 114; 192;
   183; 253; 147; 38; 54; 63; 247; 204; 52; 165; 229; 241; 113; 216; 49; 21;
   4; 199; 35; 195; 24; 150; 5; 154; 7; 18; 128; 226; 235; 39; 178; 117;
   9; 131; 44; 26; 27; 110; 90; 160; 82; 59; 214; 179; 41; 227; 47; 132;
   83; 209; 0; 237; 32; 252; 177; 91; 106; 203; 190; 57; 74; 76; 88; 207;
   208; 239; 170; 251; 67; 77; 51; 133; 69; 249; 2; 127; 80; 60; 159; 168;
   81; 163; 64; 143; 146; 157; 56; 245; 188; 182; 218; 33; 16; 255; 243; 210;
   205; 12; 19; 236; 95; 151; 68; 23; 196; 167; 126; 61; 100; 93; 25; 115;
   96; 129; 79; 220; 34; 42; 144; 136; 70; 238; 184; 20; 222; 94; 11; 219;
   224; 50; 58; 10; 73; 6; 36; 92; 194; 211; 172; 98; 145; 149; 228; 121;
   231; 200; 55; 109; 141; 213; 78; 169; 108; 86; 244; 234; 101; 122; 174; 8;
   186; 120; 37; 46; 28; 166; 180; 198; 232; 221; 116; 31; 75; 189; 139; 138;
   112; 62; 181; 102; 72; 3; 246; 14; 97; 53; 87; 185; 134; 193; 29; 158;
   225; 248; 152; 17; 105; 217; 142; 148; 155; 30; 135; 233; 206; 85; 40; 223;
   140; 161; 137; 13; 191; 230; 66; 104; 65; 153; 45; 15; 176; 84; 187; 22].
(** A table of 256 bytes as a binary tree, so that a look-up takes eight steps. *)
Inductive tree := Leaf (x : Z) | Node (l r : tree).
Fixpoint tree_of (depth : nat) (xs : list Z) : tree :=
  match depth with
  | O => Leaf (hd 0 xs)
  | S d => Node (tree_of d (take (2 ^ d) xs)) (tree_of d (drop (2 ^ d) xs))
  end.
Fixpoint tree_get (depth : nat) (t : tree) (i : Z) : Z :=
  match t, depth with
  | Leaf x, _ => x
  | Node l r, S d => tree_get d (if Z.testbit i (Z.of_nat d) then r else l) i
  | Node l r, O => 0
  end.
Definition sbox_tree : tree := Eval vm_compute in tree_of 8 sbox_table.
Definition sbox (x : Z) : Z := tree_get 8 sbox_tree x.

(** Multiplication by two in the field of 256 elements. *)
Definition xtime (x : Z) : Z :=
  let y := Z.shiftl x 1 in if y <? 256 then y else Z.lxor y 283.

(** The state is a list of 16 bytes, column by column. *)
Definition sub_bytes (s : list Z) : list Z := sbox <$> s.
Definition shift_rows (s : list Z) : list Z :=
  match s with
  | [a0; a1; a2; a3; b0; b1; b2; b3; c0; c1; c2; c3; d0; d1; d2; d3] =>
      [a0; b1; c2; d3; b0; c1; d2; a3; c0; d1; a2; b3; d0; a1; b2; c3]
  | _ => s
  end.
Definition mix_column (a b c d : Z) : list Z :=
  let t := Z.lxor (Z.lxor a b) (Z.lxor c d) in
  [Z.lxor a (Z.lxor t (xtime (Z.lxor a b))); Z.lxor b (Z.lxor t (xtime (Z.lxor b c)));
   Z.lxor c (Z.lxor t (xtime (Z.lxor c d))); Z.lxor d (Z.lxor t (xtime (Z.lxor d a)))].
Fixpoint mix_columns (s : list Z) : list Z :=
  match s with
  | a :: b :: c :: d :: s => mix_column a b c d ++ mix_columns s
  | _ => s
  end.

(** The next round key, given the round constant. *)
Definition next_key (rcon : Z) (k : list Z) : list Z :=
  match k with
  | [a0; a1; a2; a3; b0; b1; b2; b3; c0; c1; c2; c3; d0; d1; d2; d3] =>
      let a := xor_bytes [a0; a1; a2; a3]
                 [Z.lxor (sbox d1) rcon; sbox d2; sbox d3; sbox d0] in
      let b := xor_bytes a [b0; b1; b2; b3] in
      let c := xor_bytes b [c0; c1; c2; c3] in
      let d := xor_bytes c [d0; d1; d2; d3] in
      a ++ b ++ c ++ d
  | _ => k
  end.
Fixpoint round_keys (rounds : nat) (rcon : Z) (k : list Z) : list (list Z) :=
  match rounds with
  | O => []
  | S rounds => let k := next_key rcon k in k :: round_keys rounds (xtime rcon) k
  end.

Fixpoint rounds (ks : list (list Z)) (s : list Z) : list Z :=
  match ks with
  | [] => s
  | [k] => xor_bytes (shift_rows (sub_bytes s)) k
  | k :: ks => rounds ks (xor_bytes (mix_columns (shift_rows (sub_bytes s))) k)
  end.

(** A cipher is its expanded key. *)
Record Aes128 := { first_key : list Z; later_keys : list (list Z) }.

Definition aes_new (key : list Z) : Aes128 :=
  {| first_key := key; later_keys := round_keys 10 1 key |}.
(** Keys and blocks are arrays of 16 bytes; lists of another length do not exist in the
    program, and the result is cut to that length so that the laws hold for them too. *)
Definition to_16 (s : list Z) : list Z := take 16 (s ++ replicate 16 0).
Definition aes_encrypt (c : Aes128) (block : list Z) : list Z :=
  to_16 (rounds (later_keys c) (xor_bytes block (first_key c))).

#[export] Instance Aes128_cipher : BlockCipher 16 Aes128 :=
  {| cipher_new := aes_new; encrypt_block := aes_encrypt |}.

Lemma length_to_16 s : length (to_16 s) = 16%nat.
Proof. unfold to_16. rewrite length_take, length_app, length_replicate. lia. Qed.

#[export] Instance Aes128_laws : BlockCipherLaws 16 Aes128.
Proof. split; [lia|]. intros. apply length_to_16. Qed.

(** The counter mode: the initial block is a 128-bit big-endian counter. *)
Record AesCtr := { ctr_cipher : Aes128; ctr_start : Z; ctr_used : nat }.
Definition ctr_byte (s : AesCtr) (i : nat) : Z :=
  let block := to_be_bytes 16 ((ctr_start s + Z.of_nat (i / 16)) mod 2 ^ 128) in
  (aes_encrypt (ctr_cipher s) block) !!! (i mod 16)%nat.
Definition ctr_apply (s : AesCtr) (bs : list Z) : list Z * AesCtr :=
  (xor_bytes bs ((fun i => ctr_byte s (ctr_used s + i)) <$> seq 0 (length bs)),
   {| ctr_cipher := ctr_cipher s; ctr_start := ctr_start s; ctr_used := ctr_used s + length bs |}).
#[export] Instance Aes128_ctr : Ctr Aes128 := {|
  Ctr128 := AesCtr;
  ctr_from_cipher c block :=
    {| ctr_cipher := c; ctr_start := from_be_bytes block; ctr_used := 0 |};
  apply_keystream := ctr_apply;
|}.
Definition aes_keystream (s : AesCtr) (i : nat) : Z := ctr_byte s (ctr_used s + i).
#[export] Instance Aes128_ctr_laws : CtrLaws Aes128.
Proof.
  refine (Build_CtrLaws Aes128 Aes128_ctr aes_keystream _ _).
  - done.
  - intros s bs i. unfold aes_keystream, ctr_byte; cbn. by rewrite Nat.add_assoc.
Qed.

(** The example of FIPS 197, appendix B. *)
Example fips_197 :
  aes_encrypt (aes_new [43; 126; 21; 22; 40; 174; 210; 166; 171; 247; 21; 136; 9; 207; 79; 60])
    [50; 67; 246; 168; 136; 90; 48; 141; 49; 49; 152; 162; 224; 55; 7; 52]
  = [57; 37; 132; 29; 2; 220; 9; 251; 220; 17; 133; 151; 25; 106; 11; 50].
Proof. vm_compute. reflexivity. Qed.
End Aes.
