(* ===== verification/CbcMac.v ===== *)
(** * CBC-MAC ([old_src/zigbee/security/cbcmac.rs])

    The streaming implementation takes its data in pieces and byte by byte.
    [cbc_mac] is the reference definition on whole blocks, and
    [cbc_mac_equivalence] shows that they agree, whatever the pieces. *)

From Stdlib Require Import ZArith Lia.
From S2P Require Import Prelude.
From S2P Require Import Cipher.
From S2P Require Import Aes.

#[local] Open Scope Z_scope.

Module CBC.
Section cbcmac.
Context {n : nat} {C : Type} `{!BlockCipher n C}.

Record CbcMac := {
  cipher : C;
  buffer : list Z;
  filled : nat;
}.

Definition from_cipher (cipher : C) : CbcMac :=
  {| cipher := cipher; buffer := replicate n 0; filled := 0 |}.
Definition new (key : list Z) : CbcMac := from_cipher (cipher_new key).

(** One round of the loop of [input]; the index panics out of range. *)
Definition input_byte (m : CbcMac) (d : Z) : exec CbcMac :=
  b ← unwrap (buffer m !! filled m);
  let buf := <[filled m := Z.lxor b d]> (buffer m) in
  let fill := S (filled m) in
  if decide (fill = length buf) then
    Ok {| cipher := cipher m; buffer := encrypt_block (cipher m) buf; filled := 0 |}
  else Ok {| cipher := cipher m; buffer := buf; filled := fill |}.

Fixpoint input (data : list Z) (m : CbcMac) : exec CbcMac :=
  match data with
  | [] => Ok m
  | d :: data => m ← input_byte m d; input data m
  end.

Definition reset (m : CbcMac) : CbcMac :=
  {| cipher := cipher m; buffer := replicate (length (buffer m)) 0; filled := 0 |}.

(** [result]; a [MacResult] is the bytes of its code. *)
Definition mac_result (m : CbcMac) : list Z :=
  if decide (0 < filled m)%nat then encrypt_block (cipher m) (buffer m) else buffer m.

(** ** The reference definition *)

Definition cbc_blocks (c : C) (bs : list (list Z)) : list Z :=
  foldl (fun h b => encrypt_block c (xor_bytes h b)) (replicate n 0) bs.
Definition cbc_mac (c : C) (m : list Z) : list Z := cbc_blocks c (blocks n (zero_pad n m)).

(** Feeding pieces one after the other. *)
Fixpoint input_all (pieces : list (list Z)) (m : CbcMac) : exec CbcMac :=
  match pieces with
  | [] => Ok m
  | p :: pieces => m ← input p m; input_all pieces m
  end.

Context `{!BlockCipherLaws n C}.

Lemma length_cbc_blocks c bs :
  Forall (fun b => length b = n) bs -> length (cbc_blocks c bs) = n.
Proof.
  intros H. unfold cbc_blocks. induction bs as [|b bs IH] using rev_ind; [apply length_replicate|].
  apply Forall_app in H as [H Hb]. inversion Hb; subst. rewrite foldl_app. cbn.
  apply encrypt_block_length. rewrite length_xor_bytes, IH by done. lia.
Qed.

(** What the state is after the bytes [xs]: the whole blocks are chained, and the rest
    is combined with the beginning of the buffer. *)
Definition absorbed (c : C) (xs : list Z) (m : CbcMac) : Prop :=
  exists bs t, xs = mjoin bs ++ t /\ Forall (fun b => length b = n) bs /\ (length t < n)%nat /\
    m = {| cipher := c;
           buffer := xor_bytes (cbc_blocks c bs) (t ++ replicate (n - length t) 0);
           filled := length t |}.

Lemma absorbed_new c : absorbed c [] (from_cipher c).
Proof.
  exists [], []. pose proof (@block_size_pos n C _ _). split_and!; [done|done|cbn; lia|].
  unfold from_cipher. f_equal. cbn.
  by rewrite Nat.sub_0_r, xor_bytes_zeros by apply length_replicate.
Qed.

Lemma input_byte_absorbs c xs m d :
  absorbed c xs m -> exists m', input_byte m d = Ok m' /\ absorbed c (xs ++ [d]) m'.
Proof.
  intros (bs & t & -> & Hbs & Ht & ->). pose proof (length_cbc_blocks c bs Hbs) as Hlen.
  unfold input_byte; cbn [buffer filled cipher].
  assert (xor_bytes (cbc_blocks c bs) (t ++ replicate (n - length t) 0) !! length t
          = Some (Z.lxor (cbc_blocks c bs !!! length t) 0)) as ->.
  { unfold xor_bytes. rewrite lookup_zip_with.
    rewrite (list_lookup_lookup_total_lt (cbc_blocks c bs) (length t)) by lia. cbn.
    rewrite lookup_app_r, Nat.sub_diag by done. rewrite lookup_replicate_2 by lia. done. }
  cbn. rewrite Z.lxor_0_r.
  assert (<[length t := Z.lxor (cbc_blocks c bs !!! length t) d]>
            (xor_bytes (cbc_blocks c bs) (t ++ replicate (n - length t) 0))
          = xor_bytes (cbc_blocks c bs) ((t ++ [d]) ++ replicate (n - length (t ++ [d])) 0)) as ->.
  { rewrite length_app; cbn. replace (n - length t)%nat with (S (n - (length t + 1))) by lia.
    cbn [replicate].
    rewrite <- (take_drop (length t) (cbc_blocks c bs)) at 2 3.
    rewrite (drop_S (cbc_blocks c bs) (cbc_blocks c bs !!! length t) (length t))
      by (apply list_lookup_lookup_total_lt; lia).
    rewrite <- (assoc_L (++)). cbn. rewrite !xor_bytes_app by (rewrite length_take; lia). cbn.
    rewrite insert_app_r_alt by (rewrite length_xor_bytes, length_take; lia).
    rewrite length_xor_bytes, length_take.
    replace (length t - _)%nat with 0%nat by lia. done. }
  rewrite length_xor_bytes, !length_app, length_replicate; cbn [length].
  rewrite Hlen. case_decide as E.
  - eexists; split; [done|]. exists (bs ++ [t ++ [d]]), []. split_and!.
    + rewrite join_app; cbn. by rewrite !app_nil_r, (assoc_L (++)).
    + apply Forall_app; split; [done|]. repeat constructor. rewrite length_app; cbn. lia.
    + cbn. lia.
    + f_equal. unfold cbc_blocks at 2. rewrite foldl_app. cbn.
      replace (n - (length t + 1))%nat with 0%nat by lia. cbn. rewrite app_nil_r, Nat.sub_0_r.
      rewrite xor_bytes_zeros; [done|]. apply encrypt_block_length.
      rewrite length_xor_bytes, length_app. fold (cbc_blocks c bs). cbn. lia.
  - eexists; split; [done|]. exists bs, (t ++ [d]). rewrite !length_app; cbn. split_and!.
    + by rewrite (assoc_L (++)).
    + done.
    + lia.
    + f_equal; lia.
Qed.

Lemma input_absorbs c data xs m :
  absorbed c xs m -> exists m', input data m = Ok m' /\ absorbed c (xs ++ data) m'.
Proof.
  revert xs m. induction data as [|d data IH]; intros xs m H; cbn.
  { exists m. by rewrite app_nil_r. }
  destruct (input_byte_absorbs c xs m d H) as (m1 & -> & H1). cbn.
  destruct (IH _ _ H1) as (m' & -> & H'). exists m'. by rewrite <- (assoc_L (++)) in H'.
Qed.
Lemma input_all_absorbs c pieces xs m :
  absorbed c xs m -> exists m', input_all pieces m = Ok m' /\ absorbed c (xs ++ mjoin pieces) m'.
Proof.
  revert xs m. induction pieces as [|p pieces IH]; intros xs m H.
  { exists m. by rewrite app_nil_r. }
  cbn [input_all]. destruct (input_absorbs c p xs m H) as (m1 & -> & H1).
  change (mjoin (p :: pieces)) with (p ++ mjoin pieces).
  destruct (IH _ _ H1) as (m' & E' & H'). exists m'. rewrite <- (assoc_L (++)) in H'. done.
Qed.

Lemma absorbed_result c xs m : absorbed c xs m -> mac_result m = cbc_mac c xs.
Proof.
  intros (bs & t & -> & Hbs & Ht & ->). pose proof (@block_size_pos n C _ _) as Hn.
  unfold mac_result, cbc_mac; cbn [filled cipher buffer].
  rewrite zero_pad_mjoin by done.
  assert (Forall (fun b : list Z => length b = n)
            (bs ++ (if decide (t = []) then [] else [t ++ replicate (n - length t) 0]))) as Hall.
  { apply Forall_app; split; [done|]. case_decide; repeat constructor.
    rewrite length_app, length_replicate. lia. }
  rewrite blocks_mjoin by done.
  destruct t as [|d t].
  - cbn. rewrite app_nil_r, Nat.sub_0_r, xor_bytes_zeros; [done|]. by apply length_cbc_blocks.
  - rewrite decide_True by (cbn; lia). rewrite decide_False by done.
    unfold cbc_blocks at 2. by rewrite foldl_app.
Qed.

Lemma length_cbc_mac c xs : length (cbc_mac c xs) = n.
Proof.
  destruct (input_absorbs c xs [] _ (absorbed_new c)) as (m & _ & H).
  rewrite <- (absorbed_result c xs m H). destruct H as (bs & t & _ & Hbs & Ht & ->).
  assert (length (xor_bytes (cbc_blocks c bs) (t ++ replicate (n - length t) 0)) = n) as Hl.
  { rewrite length_xor_bytes, length_cbc_blocks, length_app, length_replicate by done. lia. }
  unfold mac_result. case_decide; cbn [buffer cipher]; [|done]. by apply encrypt_block_length.
Qed.

(** C18: The streaming CBC-MAC is the CBC-MAC: whatever the pieces the data comes in, no
    index is out of range, and the result is that of chaining the cipher over the blocks
    of the data, the last filled up with zeros. After a reset it is as new. *)
Theorem cbc_mac_equivalence (c : C) (pieces : list (list Z)) :
  exists m, input_all pieces (from_cipher c) = Ok m /\
    mac_result m = cbc_mac c (mjoin pieces) /\
    reset m = from_cipher c.
Proof.
  destruct (input_all_absorbs c pieces [] _ (absorbed_new c)) as (m & E & H).
  exists m. split_and!; [done|by apply absorbed_result|].
  destruct H as (bs & t & _ & Hbs & Ht & ->). unfold reset, from_cipher; cbn.
  rewrite length_xor_bytes, length_app, length_replicate, length_cbc_blocks by done.
  do 2 f_equal. lia.
Qed.
End cbcmac.
Arguments CbcMac : clear implicits.

Import Aes.

(** [test_vectors_cbc_mac] *)
Definition test_vectors_cbc_mac : bool :=
  let key :=
    [192; 193; 194; 195; 196; 197; 198; 199; 200; 201; 202; 203; 204; 205; 206; 207] in
  let data :=
    [89; 160; 161; 162; 163; 164; 165; 166; 167; 3; 2; 1; 0; 6; 0; 23; 0; 8; 0; 1; 2; 3; 4;
     5; 6; 7; 0; 0; 0; 0; 0; 0; 8; 9; 10; 11; 12; 13; 14; 15; 16; 17; 18; 19; 20; 21; 22; 23;
     24; 25; 26; 27; 28; 29; 30; 0; 0; 0; 0; 0; 0; 0; 0; 0] in
  let expected_mac :=
    [185; 215; 137; 103; 4; 188; 250; 32; 178; 16; 54; 116; 69; 249; 131; 214] in
  match input (C := Aes.Aes128) data (new (C := Aes.Aes128) key) with
  | Ok m => bool_decide (mac_result m = expected_mac)
  | Err _ => false
  end.
Example vectors_cbc_mac_pass : test_vectors_cbc_mac = true.
Proof. vm_compute. reflexivity. Qed.

Lemma cbc_mac_equivalence_witness :
  exists m, input_all [[1; 2]; [3]] (from_cipher (n := 16) (cipher_new [7; 8] : Aes.Aes128)) = Ok m /\
    mac_result m = cbc_mac (cipher_new [7; 8] : Aes.Aes128) (mjoin [[1; 2]; [3]]) /\
    reset m = from_cipher (n := 16) (cipher_new [7; 8] : Aes.Aes128).
Proof. exact (cbc_mac_equivalence (C := Aes.Aes128) (cipher_new [7; 8]) [[1; 2]; [3]]). Defined.
End CBC.
