(* ===== verification/MmoHash.v ===== *)
(** * The Matyas-Meyer-Oseas hash ([old_src/zigbee/security/mmohash.rs])

    The streaming implementation, whose final padding is put together byte by byte.
    [mmo_hash] is the reference definition on whole blocks with the padding of the
    Zigbee specification, which the comment in [fixed_result] describes;
    [mmo_hash_equivalence] shows that the implementation computes it for messages of
    less than [2 ^ 16] bits, [mmo_long_messages] that for longer ones it does not.
    *)

From Stdlib Require Import ZArith Lia.
From S2P Require Import Prelude.
From S2P Require Import Cipher.
From S2P Require Import Aes.

#[local] Open Scope Z_scope.

Module MMO.

Section mmohash.
Context {n : nat} {C : Type} `{!BlockCipher n C}.

Record MMOHash := {
  hash : list Z;
  buffer : list Z;
  filled : nat;
  msg_length : Z;
}.

Definition process_block (m : MMOHash) : MMOHash :=
  let cipher : C := cipher_new (hash m) in
  {| hash := xor_bytes (encrypt_block cipher (buffer m)) (buffer m);
     buffer := replicate n 0; filled := 0; msg_length := msg_length m |}.

Definition default : MMOHash :=
  {| hash := replicate n 0; buffer := replicate n 0; filled := 0; msg_length := 0 |}.

Definition reset (m : MMOHash) : MMOHash := default.

(** One round of the loop of [input]; the index panics out of range. *)
Definition input_byte (m : MMOHash) (d : Z) : exec MMOHash :=
  _ ← unwrap (buffer m !! filled m);
  let m := {| hash := hash m; buffer := <[filled m := d]> (buffer m); filled := S (filled m);
              msg_length := msg_length m |} in
  Ok (if decide (filled m = n) then process_block m else m).

Fixpoint input_loop (data : list Z) (m : MMOHash) : exec MMOHash :=
  match data with
  | [] => Ok m
  | d :: data => m ← input_byte m d; input_loop data m
  end.

Definition input (data : list Z) (m : MMOHash) : exec MMOHash :=
  m ← input_loop data m;
  l ← usize (msg_length m + Z.of_nat (length data));
  Ok {| hash := hash m; buffer := buffer m; filled := filled m; msg_length := l |}.

(** The loop that writes the length in bits into the padding. *)
Fixpoint pad_loop (length_in_bits : Z) (indices : list nat) (shift : Z) (buf : list Z) : exec (list Z) :=
  match indices with
  | [] => Ok buf
  | i :: indices =>
      let shift := shift - 8 in
      if decide (shift < 64 /\ -8 < shift) then
        x ← usize_shr length_in_bits shift;
        b ← unwrap (buf !! i);
        pad_loop length_in_bits indices shift (<[i := Z.lor b (Z.land x 255)]> buf)
      else pad_loop length_in_bits indices shift buf
  end.

Definition fixed_result (m : MMOHash) : exec (list Z) :=
  let padding_buffer := <[0%nat := 128]> (replicate (n * 2) 0) in
  length_in_bits ← usize (msg_length m * 8);
  small ← usize_shr length_in_bits (Z.of_nat n);
  let fits_small_suffix := small =? 0 in
  big ← usize_shr length_in_bits (2 * Z.of_nat n);
  let fits_big_suffix := big =? 0 in
  _ ← rust_assert fits_big_suffix;
  let padding_bits_required := (1 + if fits_small_suffix then n else n * 3)%nat in
  let padding_bytes_required := ((padding_bits_required + 7) / 8)%nat in
  let padding_bytes := (n - filled m)%nat in
  let padding_bytes :=
    if decide (padding_bytes < padding_bytes_required)%nat then (padding_bytes + n)%nat
    else padding_bytes in
  let shift := Z.of_nat padding_bytes * 8 in
  let shift := if fits_small_suffix then shift else shift - 8 in
  padding_buffer ← pad_loop length_in_bits (seq 0 padding_bytes) shift padding_buffer;
  _ ← rust_assert (padding_bytes <=? length padding_buffer)%nat;
  m ← input (take padding_bytes padding_buffer) m;
  _ ← rust_assert (filled m =? 0)%nat;
  Ok (hash m).

(** ** The reference definition *)

Definition mmo_compress (h b : list Z) : list Z :=
  xor_bytes (encrypt_block (cipher_new h : C) b) b.
Definition mmo_blocks (bs : list (list Z)) : list Z := foldl mmo_compress (replicate n 0) bs.

(** Feeding pieces one after the other. *)
Fixpoint input_all (pieces : list (list Z)) (m : MMOHash) : exec MMOHash :=
  match pieces with
  | [] => Ok m
  | p :: pieces => m ← input p m; input_all pieces m
  end.
End mmohash.

(** A padding of [pb] bytes: one bit, zeros, and the length in [w] bytes with [z] zero
    bytes behind it. *)
Definition padding (pb w z : nat) (bits : Z) : list Z :=
  128 :: replicate (pb - 1 - w - z) 0 ++ to_be_bytes w bits ++ replicate z 0.
(** The number of bytes, at least [least], that fill [l] bytes up to blocks of 16. *)
Definition padding_size (least l : nat) : nat :=
  let pb := (16 - l mod 16)%nat in if decide (pb < least)%nat then (pb + 16)%nat else pb.
(** The padding of the Zigbee specification (B.6) for a message of [l] bytes. *)
Definition zigbee_padding (l : nat) : list Z :=
  let bits := 8 * Z.of_nat l in
  if decide (bits < 2 ^ 16) then padding (padding_size 3 l) 2 0 bits
  else padding (padding_size 7 l) 4 2 bits.
Definition mmo_hash {C} `{!BlockCipher 16 C} (m : list Z) : list Z :=
  mmo_blocks (C := C) (blocks 16 (m ++ zigbee_padding (length m))).

(** ** The streaming state *)

Section absorb.
Context {n : nat} {C : Type} `{!BlockCipher n C, !BlockCipherLaws n C}.

#[local] Abbreviation mmo := (mmo_blocks (C := C)).

Lemma length_mmo_blocks bs :
  Forall (fun b => length b = n) bs -> length (mmo bs) = n.
Proof.
  intros H. unfold mmo_blocks. induction bs as [|b bs IH] using rev_ind; [apply length_replicate|].
  apply Forall_app in H as [H Hb]. inversion Hb; subst. rewrite foldl_app. cbn.
  unfold mmo_compress. rewrite length_xor_bytes, encrypt_block_length by done. lia.
Qed.

(** The state after the bytes [xs], but for the length counted. *)
Definition absorbed (xs : list Z) (m : MMOHash) : Prop :=
  exists (bs : list (list Z)) (t : list Z), xs = mjoin bs ++ t /\ Forall (fun b => length b = n) bs /\ (length t < n)%nat /\
    hash m = mmo bs /\ buffer m = t ++ replicate (n - length t) 0 /\ filled m = length t.

Lemma absorbed_default : absorbed [] (default (n := n)).
Proof.
  exists [], []. pose proof (@block_size_pos n C _ _). cbn. rewrite Nat.sub_0_r.
  split_and!; done || lia.
Qed.

Lemma mmo_input_byte_absorbs xs m d :
  absorbed xs m -> exists m', input_byte (C := C) m d = Ok m' /\ absorbed (xs ++ [d]) m' /\
    msg_length m' = msg_length m.
Proof.
  intros (bs & t & -> & Hbs & Ht & Hh & Hb & Hf).
  unfold input_byte. rewrite Hb, Hf.
  rewrite lookup_app_r, Nat.sub_diag by done. rewrite lookup_replicate_2 by lia. cbn.
  eexists; split; [done|].
  assert (<[length t := d]> (t ++ replicate (n - length t) 0)
          = (t ++ [d]) ++ replicate (n - length (t ++ [d])) 0) as ->.
  { rewrite length_app; cbn. replace (n - length t)%nat with (S (n - (length t + 1))) by lia.
    rewrite insert_app_r_alt, Nat.sub_diag by done. cbn. by rewrite <- (assoc_L (++)). }
  case_decide as E; split; try (destruct m; done).
  - exists (bs ++ [t ++ [d]]), []. cbn. rewrite length_app; cbn.
    replace (n - (length t + 1))%nat with 0%nat by lia. cbn. rewrite !app_nil_r, Nat.sub_0_r.
    split_and!; try (done || lia).
    + rewrite join_app; cbn. by rewrite !app_nil_r, (assoc_L (++)).
    + apply Forall_app; split; [done|]. repeat constructor. rewrite length_app; cbn. lia.
    + unfold mmo_blocks at 1. rewrite foldl_app. cbn. by rewrite Hh.
  - exists bs, (t ++ [d]). cbn. rewrite !length_app; cbn.
    split_and!; try (done || lia). by rewrite (assoc_L (++)).
Qed.

Lemma input_loop_absorbs data xs m :
  absorbed xs m -> exists m', input_loop (C := C) data m = Ok m' /\ absorbed (xs ++ data) m' /\
    msg_length m' = msg_length m.
Proof.
  revert xs m. induction data as [|d data IH]; intros xs m H; cbn.
  { exists m. by rewrite app_nil_r. }
  destruct (mmo_input_byte_absorbs xs m d H) as (m1 & -> & H1 & L1). cbn.
  destruct (IH _ _ H1) as (m' & -> & H' & L'). exists m'.
  rewrite <- (assoc_L (++)) in H'. rewrite L1 in L'. done.
Qed.

(** With the length counted. *)
Definition absorbed_all (xs : list Z) (m : MMOHash) : Prop :=
  absorbed xs m /\ msg_length m = Z.of_nat (length xs).

Lemma mmo_input_absorbs data xs m :
  absorbed_all xs m -> Z.of_nat (length (xs ++ data)) < 2 ^ 64 ->
  exists m', input (C := C) data m = Ok m' /\ absorbed_all (xs ++ data) m'.
Proof.
  intros [H L] Hl. unfold input.
  destruct (input_loop_absorbs data xs m H) as (m' & -> & H' & L'). cbn.
  rewrite L', L. rewrite length_app in *. unfold usize. rewrite decide_True by lia. cbn.
  eexists; split; [done|]. split; [done|]. cbn. rewrite length_app. lia.
Qed.

Lemma mmo_input_all_absorbs pieces xs m :
  absorbed_all xs m -> Z.of_nat (length (xs ++ mjoin pieces)) < 2 ^ 64 ->
  exists m', input_all (C := C) pieces m = Ok m' /\ absorbed_all (xs ++ mjoin pieces) m'.
Proof.
  revert xs m. induction pieces as [|p pieces IH]; intros xs m H Hl.
  { exists m. split; [done|]. change (mjoin []) with (@nil Z). by rewrite app_nil_r. }
  cbn [input_all]. change (mjoin (p :: pieces)) with (p ++ mjoin pieces) in *.
  rewrite (assoc_L (++)) in *.
  destruct (mmo_input_absorbs p xs m H) as (m1 & -> & H1);
    [rewrite length_app in Hl; lia|].
  by apply IH.
Qed.

(** After whole blocks nothing is left over. *)
Lemma absorbed_blocks xs m :
  absorbed xs m -> (length xs mod n = 0)%nat -> filled m = 0%nat /\ hash m = mmo (blocks n xs).
Proof.
  pose proof (@block_size_pos n C _ _) as Hn.
  intros (bs & t & -> & Hbs & Ht & -> & _ & ->) Hl.
  rewrite length_app, (length_mjoin_blocks n), Nat.add_comm, Nat.Div0.mod_add, Nat.mod_small in Hl by done.
  split; [done|]. destruct t; [|done]. by rewrite app_nil_r, blocks_mjoin.
Qed.
Lemma absorbed_filled xs m : absorbed xs m -> filled m = (length xs mod n)%nat.
Proof.
  pose proof (@block_size_pos n C _ _) as Hn. intros (bs & t & -> & Hbs & Ht & _ & _ & ->).
  by rewrite length_app, (length_mjoin_blocks n), Nat.add_comm, Nat.Div0.mod_add, Nat.mod_small.
Qed.
End absorb.

(** ** The padding *)

Lemma lookup_to_le_bytes w x i :
  (i < w)%nat -> to_le_bytes w x !! i = Some ((x / 2 ^ (8 * Z.of_nat i)) mod 256).
Proof.
  revert x i. induction w as [|w IH]; intros x i Hi; [lia|]. destruct i as [|i]; cbn [to_le_bytes lookup list_lookup].
  { change (8 * Z.of_nat 0) with 0. by rewrite Z.pow_0_r, Z.div_1_r. }
  rewrite IH by lia. do 2 f_equal. rewrite Z.div_div by (lia || apply Z.pow_pos_nonneg; lia).
  by rewrite pow_256_S.
Qed.
Lemma lookup_to_be_bytes w x i :
  (i < w)%nat -> to_be_bytes w x !! i = Some ((x / 2 ^ (8 * Z.of_nat (w - S i))) mod 256).
Proof.
  intros Hi. unfold to_be_bytes. rewrite reverse_lookup by (by rewrite length_to_le_bytes).
  rewrite length_to_le_bytes. by apply lookup_to_le_bytes; lia.
Qed.

(** What the loop makes of each byte of the buffer. *)
Lemma pad_loop_spec bits i k s buf :
  (i + k <= length buf)%nat -> (8 | s) ->
  exists buf', pad_loop bits (seq i k) s buf = Ok buf' /\ length buf' = length buf /\
    forall j, buf' !! j =
      (fun b => let sj := s - 8 * Z.of_nat (S j - i) in
        if decide ((i <= j < i + k)%nat /\ 0 <= sj < 64) then Z.lor b (Z.land (Z.shiftr bits sj) 255)
        else b) <$> buf !! j.
Proof.
  revert i s buf. induction k as [|k IH]; intros i s buf Hl [q Hq].
  { eexists; split_and!; [done..|]. intros j. destruct (buf !! j); cbn; [|done].
    destruct (decide _) as [[? _]|]; [lia|done]. }
  cbn [seq pad_loop].
  assert (8 | s - 8) as Hd by (exists (q - 1); lia).
  destruct (decide (s - 8 < 64 /\ -8 < s - 8)) as [Hs|Hs].
  - unfold usize_shr. rewrite decide_True by lia. cbn.
    destruct (lookup_lt_is_Some_2 buf i) as [b Hb]; [lia|]. rewrite Hb. cbn.
    destruct (IH (S i) (s - 8) (<[i:=Z.lor b (Z.land (Z.shiftr bits (s - 8)) 255)]> buf))
      as (buf' & E & Hlen & Hbuf); [rewrite length_insert; lia|done|].
    exists buf'. split_and!; [done|by rewrite ?length_insert in Hlen|]. intros j. rewrite Hbuf.
    destruct (decide (j = i)) as [->|Hj].
    + rewrite list_lookup_insert_eq by lia. rewrite Hb. cbn. f_equal.
      rewrite decide_False by lia. rewrite decide_True by lia. do 3 f_equal. lia.
    + rewrite list_lookup_insert_ne by done. destruct (buf !! j); cbn; [|done]. f_equal.
      destruct (decide (j < i)%nat) as [Hlt|Hge]; [by rewrite !decide_False by lia|].
      replace (s - 8 - 8 * Z.of_nat (j - i)) with (s - 8 * Z.of_nat (S j - i)) by lia.
      repeat case_decide; try done; lia.
  - destruct (IH (S i) (s - 8) buf) as (buf' & E & Hlen & Hbuf); [lia|done|].
    exists buf'. split_and!; [done|by rewrite ?length_insert in Hlen|]. intros j. rewrite Hbuf.
    destruct (buf !! j); cbn; [|done]. f_equal.
    destruct (decide (j = i)) as [->|Hj].
    + rewrite decide_False by lia. rewrite decide_False by lia. done.
    + destruct (decide (j < i)%nat) as [Hlt|Hge]; [by rewrite !decide_False by lia|].
      replace (s - 8 - 8 * Z.of_nat (j - i)) with (s - 8 * Z.of_nat (S j - i)) by lia.
      repeat case_decide; try done; lia.
Qed.

Lemma lookup_padding w z pb bits j :
  0 <= bits < 2 ^ (8 * Z.of_nat w) -> (w + z < pb)%nat -> (j < pb)%nat ->
  padding pb w z bits !! j =
    Some (Z.lor (if decide (j = 0%nat) then 128 else 0)
           (let sj := 8 * Z.of_nat (pb - z) - 8 * Z.of_nat (S j) in
            if decide (0 <= sj) then (bits / 2 ^ sj) mod 256 else 0)).
Proof.
  intros Hb Hpb Hj. unfold padding.
  assert (forall k, 8 * Z.of_nat w <= k -> bits / 2 ^ k = 0) as Hz.
  { intros k Hk. apply Z.div_small. split; [lia|].
    eapply Z.lt_le_trans; [apply Hb|]. apply Z.pow_le_mono_r; lia. }
  rewrite lookup_cons. destruct j as [|j].
  - rewrite decide_True by done. cbn zeta. rewrite decide_True by lia. rewrite Hz by lia. done.
  - rewrite decide_False by done. cbn zeta. rewrite Z.lor_0_l.
    destruct (decide (j < pb - 1 - w - z)%nat) as [H1|H1].
    + rewrite lookup_app_l by (by rewrite length_replicate). rewrite lookup_replicate_2 by done.
      rewrite decide_True by lia. rewrite Hz by lia. done.
    + rewrite lookup_app_r by (rewrite length_replicate; lia). rewrite length_replicate.
      destruct (decide (j < pb - 1 - z)%nat) as [H2|H2].
      * rewrite lookup_app_l by (rewrite length_to_be_bytes; lia).
        rewrite lookup_to_be_bytes by lia. rewrite decide_True by lia. do 4 f_equal. lia.
      * rewrite lookup_app_r by (rewrite length_to_be_bytes; lia). rewrite length_to_be_bytes.
        rewrite lookup_replicate_2 by lia. rewrite decide_False by lia. done.
Qed.
Lemma length_padding w z pb bits : (w + z < pb)%nat -> length (padding pb w z bits) = pb.
Proof.
  intros. unfold padding. cbn. rewrite !length_app, length_to_be_bytes, !length_replicate. lia.
Qed.

(** The loop makes a padding of the empty buffer. *)
Lemma pad_loop_padding w z pb bits :
  0 <= bits < 2 ^ (8 * Z.of_nat w) -> (w <= 8)%nat -> (w + z < pb <= 32)%nat ->
  exists buf, pad_loop bits (seq 0 pb) (8 * Z.of_nat (pb - z)) (<[0%nat := 128]> (replicate 32 0))
    = Ok buf /\ length buf = 32%nat /\ take pb buf = padding pb w z bits.
Proof.
  intros Hb Hw Hpb.
  destruct (pad_loop_spec bits 0 pb (8 * Z.of_nat (pb - z)) (<[0%nat := 128]> (replicate 32 0)))
    as (buf & E & Hlen & Hbuf); [rewrite length_insert, length_replicate; lia|by eexists; rewrite Z.mul_comm|].
  rewrite length_insert, length_replicate in Hlen.
  exists buf. split_and!; [done..|]. apply list_eq. intros j.
  destruct (decide (j < pb)%nat) as [Hj|Hj].
  2: { rewrite !(proj2 (lookup_ge_None _ j)); [done|rewrite length_padding by lia; lia|].
       rewrite length_take. lia. }
  rewrite lookup_take_lt, Hbuf, (lookup_padding w) by (done || lia).
  assert ((<[0%nat:=128]> (replicate 32 0) : list Z) !! j = Some (if decide (j = 0%nat) then 128 else 0)) as ->.
  { destruct j as [|j]; [done|]. rewrite list_lookup_insert_ne by done.
    rewrite lookup_replicate_2 by lia. done. }
  cbn. f_equal.
  set (sj := 8 * Z.of_nat (pb - z) - 8 * Z.of_nat (S j)).
  assert (0 <= sj -> bits / 2 ^ sj = 0 \/ sj < 64) as Hs.
  { intros Hs. destruct (decide (sj < 64)); [by right|left]. apply Z.div_small. split; [lia|].
    eapply Z.lt_le_trans; [apply Hb|]. apply Z.pow_le_mono_r; lia. }
  destruct (decide (0 <= sj)) as [H0|H0].
  - destruct (decide (sj < 64)) as [H64|H64].
    + rewrite decide_True by lia. by rewrite land_255, Z.shiftr_div_pow2 by done.
    + rewrite decide_False by lia. destruct (Hs H0) as [->|]; [|lia]. by rewrite Z.lor_0_r.
  - rewrite decide_False by lia. by rewrite Z.lor_0_r.
Qed.

Lemma padding_size_bounds least l :
  (1 <= least <= 16)%nat -> (least <= padding_size least l < least + 16)%nat.
Proof.
  intros. unfold padding_size. pose proof (Nat.mod_upper_bound l 16). case_decide; lia.
Qed.
Lemma padding_size_mod least l : ((l + padding_size least l) mod 16 = 0)%nat.
Proof.
  unfold padding_size. pose proof (Nat.mod_upper_bound l 16). pose proof (Nat.div_mod_eq l 16).
  case_decide.
  - replace (l + (16 - l mod 16 + 16))%nat with (0 + (l / 16 + 2) * 16)%nat by lia.
    by rewrite Nat.Div0.mod_add.
  - replace (l + (16 - l mod 16))%nat with (0 + (l / 16 + 1) * 16)%nat by lia.
    by rewrite Nat.Div0.mod_add.
Qed.

(** ** The hash *)

Section hash.
Context {C : Type} `{!BlockCipher 16 C, !BlockCipherLaws 16 C}.

(** The padding the code adds to a message of [l] bytes. *)
Definition code_padding (l : nat) : list Z :=
  let bits := 8 * Z.of_nat l in
  if decide (bits < 2 ^ 16) then padding (padding_size 3 l) 2 0 bits
  else padding (padding_size 7 l) 4 1 bits.

Lemma length_code_padding l : ((l + length (code_padding l)) mod 16 = 0)%nat.
Proof.
  unfold code_padding. pose proof (padding_size_bounds 3 l). pose proof (padding_size_bounds 7 l).
  cbn zeta. case_decide; rewrite length_padding by lia; apply padding_size_mod.
Qed.

Lemma pad_loop_code_padding l :
  let bits := 8 * Z.of_nat l in
  let small := bool_decide (bits < 2 ^ 16) in
  let pb := padding_size (if small then 3 else 7) l in
  bits < 2 ^ 32 ->
  exists buf, pad_loop bits (seq 0 pb) (if small then Z.of_nat pb * 8 else Z.of_nat pb * 8 - 8)
      (<[0%nat := 128]> (replicate 32 0)) = Ok buf /\
    length buf = 32%nat /\ take pb buf = code_padding l /\ (pb <= 32)%nat.
Proof.
  cbn zeta. intros Hb. unfold code_padding.
  pose proof (padding_size_bounds 3 l). pose proof (padding_size_bounds 7 l).
  case_bool_decide as Hs.
  - rewrite decide_True by done.
    destruct (pad_loop_padding 2 0 (padding_size 3 l) (8 * Z.of_nat l)) as (buf & E & L & T); try lia.
    exists buf. split_and!; [|done..|lia]. rewrite <- E. f_equal. lia.
  - rewrite decide_False by done.
    destruct (pad_loop_padding 4 1 (padding_size 7 l) (8 * Z.of_nat l)) as (buf & E & L & T); try lia.
    exists buf. split_and!; [|done..|lia]. rewrite <- E. f_equal. lia.
Qed.

Lemma fixed_result_spec xs m :
  absorbed_all (C := C) xs m -> 8 * Z.of_nat (length xs) < 2 ^ 32 ->
  fixed_result (C := C) m = Ok (mmo_blocks (C := C) (blocks 16 (xs ++ code_padding (length xs)))).
Proof.
  intros [Ha Hl] Hb. set (bits := 8 * Z.of_nat (length xs)).
  destruct (pad_loop_code_padding (length xs)) as (buf & E & L & T & Hpb); [done|]. fold bits in E, T, Hpb.
  unfold fixed_result. rewrite Hl, (absorbed_filled (C := C) xs m Ha).
  replace (Z.of_nat (length xs) * 8) with bits by (unfold bits; lia).
  rewrite usize_Ok by (unfold bits; lia). cbn [mbind result_bind].
  rewrite !usize_shr_Ok by lia. cbn [mbind result_bind].
  replace (bits / 2 ^ Z.of_nat 16 =? 0) with (bool_decide (bits < 2 ^ 16)).
  2: { clear. apply eq_true_iff_eq. rewrite bool_decide_eq_true, Z.eqb_eq, Z.div_small_iff; unfold bits; lia. }
  replace (bits / 2 ^ (2 * Z.of_nat 16) =? 0) with true.
  2: { symmetry. apply Z.eqb_eq, Z.div_small. unfold bits in *. lia. }
  cbn [rust_assert mbind result_bind].
  set (small := bool_decide (bits < 2 ^ 16)) in *.
  replace (if decide _ then _ else _) with (padding_size (if small then 3 else 7) (length xs))
    by (by destruct small).
  set (pb := padding_size _ _) in *. change (16 * 2)%nat with 32%nat. rewrite E.
  cbn [mbind result_bind]. rewrite L, (proj2 (Nat.leb_le pb 32)), T by done.
  cbn [rust_assert mbind result_bind].
  destruct (mmo_input_absorbs (C := C) (code_padding (length xs)) xs m) as (m' & -> & [Ha' _]).
  { done. }
  { rewrite length_app. pose proof (length_code_padding (length xs)). rewrite <- T, length_take.
    unfold bits in *. lia. }
  cbn [mbind result_bind]. destruct (absorbed_blocks (C := C) _ _ Ha') as [-> ->]; [|done].
  rewrite length_app. apply length_code_padding.
Qed.

(** C19: The streaming hash is the hash of the specification for every message of less than
    [2 ^ 16] bits: whatever the pieces it comes in, nothing panics, and the result is that
    of compressing the blocks of the message with the Zigbee padding behind it. *)
Theorem mmo_hash_equivalence (pieces : list (list Z)) :
  8 * Z.of_nat (length (mjoin pieces)) < 2 ^ 16 ->
  exists m, input_all (C := C) pieces (default (n := 16)) = Ok m /\
    fixed_result (C := C) m = Ok (mmo_hash (C := C) (mjoin pieces)) /\
    reset (n := 16) m = default (n := 16).
Proof.
  intros Hl. destruct (mmo_input_all_absorbs (C := C) pieces [] (default (n := 16))) as (m & E & H).
  { split; [apply absorbed_default|done]. }
  { cbn. lia. }
  exists m. split_and!; [done| |done].
  rewrite (fixed_result_spec (mjoin pieces) m) by (done || lia).
  unfold mmo_hash, code_padding, zigbee_padding. cbn zeta. by rewrite !decide_True by done.
Qed.

(** For messages of [2 ^ 16] to [2 ^ 32] bits the padding has one zero byte behind the
    length where the specification, and the comment in the code, has two, so that another
    string is hashed; a message of [2 ^ 32] bits or more is refused with a panic. *)
Theorem mmo_long_messages (pieces : list (list Z)) :
  let l := length (mjoin pieces) in
  2 ^ 16 <= 8 * Z.of_nat l < 2 ^ 64 ->
  exists m, input_all (C := C) pieces (default (n := 16)) = Ok m /\
    fixed_result (C := C) m =
      (if decide (8 * Z.of_nat l < 2 ^ 32)
       then Ok (mmo_blocks (C := C) (blocks 16 (mjoin pieces ++ code_padding l)))
       else Err Panic) /\
    (8 * Z.of_nat l < 2 ^ 32 ->
      length (code_padding l) = length (zigbee_padding l) /\ code_padding l <> zigbee_padding l).
Proof.
  cbn zeta. intros Hl. destruct (mmo_input_all_absorbs (C := C) pieces [] (default (n := 16))) as (m & E & H).
  { split; [apply absorbed_default|done]. }
  { cbn. lia. }
  exists m. split; [done|]. split.
  - case_decide as Hs; [by apply fixed_result_spec|].
    destruct H as [_ H]. cbn in H. unfold fixed_result. rewrite H.
    rewrite usize_Ok by lia. cbn [mbind result_bind].
    rewrite !usize_shr_Ok by lia. cbn [mbind result_bind].
    rewrite (proj2 (Z.eqb_neq (_ / 2 ^ (2 * Z.of_nat 16)) 0)); [done|].
    intros Hz. apply Z.div_small_iff in Hz; lia.
  - intros Hl32. unfold code_padding, zigbee_padding. cbn zeta. rewrite !decide_False by lia.
    set (l := length (mjoin pieces)) in *. pose proof (padding_size_bounds 7 l).
    rewrite !length_padding by lia. split; [done|]. set (bits := 8 * Z.of_nat l) in *. intros Heq.
    assert (forall k, (k < 4)%nat -> (bits / 2 ^ (8 * Z.of_nat k)) mod 256 =
              if decide (k = 0%nat) then 0 else (bits / 2 ^ (8 * Z.of_nat (k - 1))) mod 256) as Hk.
    { intros k Hk. pose proof (f_equal (lookup (padding_size 7 l - 2 - k)%nat) Heq) as E1.
      rewrite !lookup_padding in E1 by (done || lia).
      rewrite (decide_False (P := (_ = 0%nat))) in E1 by lia. rewrite !Z.lor_0_l in E1.
      cbn zeta in E1. rewrite decide_True in E1 by lia. injection E1 as E1.
      replace (8 * Z.of_nat k) with (8 * Z.of_nat (padding_size 7 l - 1) - 8 * Z.of_nat (S (padding_size 7 l - 2 - k))) by lia.
      rewrite E1. destruct (decide (k = 0%nat)) as [->|].
      - by rewrite decide_False by lia.
      - rewrite decide_True by lia. do 3 f_equal. lia. }
    assert ((bits / 2 ^ 0) mod 256 = 0) as H0' by exact (Hk 0%nat ltac:(lia)).
    assert ((bits / 2 ^ 8) mod 256 = (bits / 2 ^ 0) mod 256) as H1' by exact (Hk 1%nat ltac:(lia)).
    assert ((bits / 2 ^ 16) mod 256 = (bits / 2 ^ 8) mod 256) as H2' by exact (Hk 2%nat ltac:(lia)).
    assert ((bits / 2 ^ 24) mod 256 = (bits / 2 ^ 16) mod 256) as H3' by exact (Hk 3%nat ltac:(lia)).
    clear - Hl Hl32 H0' H1' H2' H3'. Z.div_mod_to_equations. lia.
Qed.
End hash.

(** ** With AES *)

Import Aes.

Lemma mmo_hash_equivalence_witness :
  8 * Z.of_nat (length (mjoin [[192]; [193; 194]])) < 2 ^ 16 /\
  exists m, input_all (C := Aes128) [[192]; [193; 194]] (default (n := 16)) = Ok m /\
    fixed_result (C := Aes128) m = Ok (mmo_hash (C := Aes128) [192; 193; 194]) /\
    reset (n := 16) m = default (n := 16).
Proof.
  split; [reflexivity|]. apply (mmo_hash_equivalence (C := Aes128) [[192]; [193; 194]]). reflexivity.
Defined.

Definition long_message : list Z := replicate (Pos.to_nat 8192) 0.
Lemma long_message_length : Z.of_nat (length (mjoin [long_message])) = 8192.
Proof.
  unfold long_message. change (mjoin [?x]) with (x ++ []). rewrite app_nil_r, length_replicate. lia.
Qed.

Lemma mmo_long_messages_witness :
  exists m, input_all (C := Aes128) [long_message] (default (n := 16)) = Ok m /\
    code_padding (length (mjoin [long_message])) <> zigbee_padding (length (mjoin [long_message])).
Proof.
  destruct (mmo_long_messages (C := Aes128) [long_message]) as (m & E & _ & P).
  - rewrite long_message_length. lia.
  - exists m. split; [exact E|]. apply P. rewrite long_message_length. lia.
Defined.

(** [test_cryptographic_hash], without its message of 8191 bytes. *)
Definition digest (m : list Z) : exec (list Z) :=
  h ← input (C := Aes128) m (default (n := 16)); fixed_result (C := Aes128) h.
Definition test_cryptographic_hash : bool :=
  bool_decide (digest [192] = Ok [174; 58; 16; 42; 40; 212; 62; 224; 212; 160; 158; 34; 120; 139; 32; 108])
  && bool_decide (digest [192; 193; 194; 195; 196; 197; 198; 199; 200; 201; 202; 203; 204; 205; 206; 207]
      = Ok [167; 151; 126; 136; 188; 11; 97; 232; 33; 8; 39; 16; 154; 34; 143; 45]).
Example cryptographic_hash_passes : test_cryptographic_hash = true.
Proof. vm_compute. reflexivity. Qed.
End MMO.
