(* ===== verification/CcmStarTheory.v ===== *)
(** * CCM*: encryption computes the formula, decryption accepts nothing else *)

From Stdlib Require Import ZArith Lia.
From S2P Require Import Prelude.
From S2P Require Import BitField.
From S2P Require Import Cipher.
From S2P Require Import Aes.
From S2P Require Import CbcMac.
From S2P Require Import CcmStar.

#[local] Open Scope Z_scope.

Import CCM.

(** ** The loops *)

Lemma put_zeros_Ok fuel data :
  ((16 - length data mod 16) mod 16 < fuel)%nat -> put_zeros fuel data = Ok (zero_pad 16 data).
Proof.
  revert data. induction fuel as [|fuel IH]; intros data Hf; [lia|]. cbn [put_zeros].
  pose proof (Nat.mod_upper_bound (length data) 16) as Hb.
  pose proof (Nat.div_mod_eq (length data) 16) as Hd.
  case_decide as E.
  - assert ((16 - length data mod 16) mod 16 = 16 - length data mod 16)%nat as E1
      by (apply Nat.mod_small; lia).
    assert ((16 - length (data ++ [0%Z]) mod 16) mod 16 = 15 - length data mod 16)%nat as E2.
    { rewrite length_app. cbn [length].
      destruct (decide (length data mod 16 = 15)%nat) as [E15|].
      - replace (length data + 1)%nat with (0 + (length data / 16 + 1) * 16)%nat by lia.
        rewrite Nat.Div0.mod_add, E15. done.
      - replace (length data + 1)%nat with ((length data mod 16 + 1) + length data / 16 * 16)%nat by lia.
        rewrite Nat.Div0.mod_add, (Nat.mod_small (_ + 1)) by lia.
        rewrite Nat.mod_small by lia. lia. }
    rewrite IH by lia. f_equal. unfold zero_pad, zero_padding. rewrite E1, E2, <- (assoc_L (++)).
    replace (16 - length data mod 16)%nat with (S (15 - length data mod 16)) by lia. done.
  - f_equal. unfold zero_pad, zero_padding. rewrite E. cbn. by rewrite app_nil_r.
Qed.

Lemma to_le_bytes_snoc k x : to_le_bytes (S k) x = to_le_bytes k x ++ [(x / 2 ^ (8 * Z.of_nat k)) mod 256].
Proof.
  revert x. induction k as [|k IH]; intros x.
  { cbn. change (8 * Z.of_nat 0) with 0. by rewrite Z.pow_0_r, Z.div_1_r. }
  change (to_le_bytes (S (S k)) x) with (x mod 256 :: to_le_bytes (S k) (x / 256)).
  rewrite IH. cbn. do 4 f_equal. rewrite pow_256_S, Z.div_div by (lia || apply Z.pow_pos_nonneg; lia).
  done.
Qed.
Lemma to_be_bytes_S k x : to_be_bytes (S k) x = (x / 2 ^ (8 * Z.of_nat k)) mod 256 :: to_be_bytes k x.
Proof. unfold to_be_bytes. by rewrite to_le_bytes_snoc, reverse_app. Qed.

Lemma put_length_Ok len size b0 :
  (size <= 8)%nat -> put_length len size (seq 0 size) b0 = Ok (b0 ++ to_be_bytes size len).
Proof.
  intros Hs. cut (forall k b0, (k <= size)%nat ->
    put_length len size (seq (size - k) k) b0 = Ok (b0 ++ to_be_bytes k len)).
  { intros H. specialize (H size b0). rewrite Nat.sub_diag in H. by apply H. }
  intros k. clear b0. induction k as [|k IH]; intros b0 Hk; cbn [seq put_length].
  { change (to_be_bytes 0 len) with (@nil Z). by rewrite app_nil_r. }
  rewrite usize_shr_Ok by lia. cbn [mbind result_bind].
  replace (S (size - S k)) with (size - k)%nat by lia. rewrite IH by lia.
  rewrite to_be_bytes_S, land_255, <- (assoc_L (++)).
  by replace (Z.of_nat ((size - (size - S k) - 1) * 8)) with (8 * Z.of_nat k) by lia.
Qed.

Section theory.
Context {C : Type} `{!BlockCipher 16 C, !BlockCipherLaws 16 C, !Ctr C, !CtrLaws C}.
Context `{!BitRange, !BitRangeLaws}.
Implicit Types s : CcmStar C.

(** ** The formula

    RFC 3610 with the lengths of CCM*: the authentication field is the CBC-MAC of the
    first block, the associated data with its length and the message; counter block zero
    hides it, the following ones the message. *)

Definition size_of s : nat := length_as_num (length_size s).

Definition first_block s (nonce msg aad : list Z) : list Z :=
  (64 * (if decide (0 < length aad)%nat then 1 else 0)
     + 8 * Z.of_nat (mic_as_num (integrity_code_len s)) + (Z.of_nat (size_of s) - 1))
  :: nonce ++ to_be_bytes (size_of s) (Z.of_nat (length msg)).
Definition authentication s (nonce msg aad : list Z) : list Z :=
  CBC.cbc_mac (n := 16) (cipher s)
    (first_block s nonce msg aad ++ zero_pad 16 (default [] (aad_length aad) ++ aad) ++ msg).
Definition key_stream s (nonce : list Z) : Ctr128 C :=
  ctr_from_cipher (cipher s)
    ((Z.of_nat (size_of s) - 1) :: nonce ++ replicate (size_of s) 0).
Definition ccm_star s (nonce msg aad : list Z) : list Z :=
  xor_bytes msg (drop 16 (key_bytes (key_stream s nonce) (16 + length msg)))
  ++ take (get_tag_len s) (xor_bytes (authentication s nonce msg aad) (key_bytes (key_stream s nonce) 16)).

(** ** The pieces of the code *)

(** The parameters that work: a length of 64 bits overflows the shift. *)
Definition usable s : Prop := length_size s <> Len64.

Lemma size_bounds s : usable s -> (2 <= size_of s <= 7)%nat.
Proof. unfold usable, size_of. destruct (length_size s); cbn; lia || done. Qed.
Lemma tag_bounds s : (get_tag_len s <= 16)%nat.
Proof. unfold get_tag_len. destruct (integrity_code_len s); by apply Nat.leb_le. Qed.

Lemma set_field_add f v x :
  0 <= x -> 0 <= lsb f <= msb f -> 0 <= v < 2 ^ (msb f - lsb f + 1) ->
  (x / 2 ^ lsb f) mod 2 ^ (msb f - lsb f + 1) = 0 ->
  set_field f v x = x + v * 2 ^ lsb f.
Proof. intros. apply set_bit_range_add; try done. by rewrite bit_range_spec. Qed.

Lemma auth_data_flag_spec s aad : usable s ->
  auth_data_flag s aad =
    64 * (if decide (0 < length aad)%nat then 1 else 0)
      + 8 * Z.of_nat (mic_as_num (integrity_code_len s)) + (Z.of_nat (size_of s) - 1).
Proof.
  intros Hu. pose proof (size_bounds s Hu). unfold auth_data_flag. fold (size_of s).
  assert (Z.of_nat (mic_as_num (integrity_code_len s)) < 8) by (destruct (integrity_code_len s); cbn; lia).
  set (a := if decide (0 < length aad)%nat then 1 else 0).
  assert (0 <= a <= 1) by (unfold a; case_decide; lia).
  set (m := Z.of_nat (mic_as_num _)) in *. set (l := Z.of_nat (size_of s)) in *.
  rewrite (set_field_add AuthDataFlag.reserved) by (cbn; lia || done).
  change (2 ^ lsb AuthDataFlag.reserved) with 128.
  rewrite (set_field_add AuthDataFlag.a_data) by (cbn; lia || done).
  change (2 ^ lsb AuthDataFlag.a_data) with 64.
  rewrite (set_field_add AuthDataFlag.m); cbn -[Z.mul Z.pow Z.div Z.modulo]; try (unfold m; lia).
  2: { change (2 ^ 3) with 8. replace (0 + 0 * 128 + a * 64) with (a * 8 * 8) by lia.
       rewrite Z.div_mul by lia. by apply Z.mod_mul. }
  rewrite (set_field_add AuthDataFlag.l); cbn -[Z.mul Z.pow Z.div Z.modulo]; try (unfold m, l; lia).
  rewrite Z.div_1_r. change (2 ^ 3) with 8. change (2 ^ (2 - 0 + 1)) with 8.
  replace (0 + 0 * 128 + a * 64 + m * 8) with ((a * 8 + m) * 8) by lia. by apply Z.mod_mul.
Qed.

Lemma nonce_flag_spec s : usable s -> nonce_flag s = Z.of_nat (size_of s) - 1.
Proof.
  intros Hu. pose proof (size_bounds s Hu). unfold nonce_flag. fold (size_of s).
  rewrite (set_field_add NonceFlag.reserved) by (cbn; lia || done).
  rewrite (set_field_add NonceFlag.zero) by (cbn; lia || done).
  rewrite (set_field_add NonceFlag.l) by (cbn; lia || done). cbn. lia.
Qed.

Lemma aad_length_Some aad : Z.of_nat (length aad) < 2 ^ 64 -> is_Some (aad_length aad).
Proof.
  intros Hl. unfold aad_length. cbn zeta. rewrite (proj2 (Z.leb_le _ (2 ^ 64 - 1))) by lia.
  by repeat destruct (_ : bool).
Qed.

Lemma calculate_tag_spec s msg aad nonce :
  usable s -> length nonce = (15 - size_of s)%nat -> Z.of_nat (length aad) < 2 ^ 64 ->
  calculate_tag s msg aad nonce =
    Ok (if decide (Z.of_nat (length msg) < 2 ^ (8 * Z.of_nat (size_of s)))
        then Ok (authentication s nonce msg aad) else Err AeadErr).
Proof.
  intros Hu Hn Ha. pose proof (size_bounds s Hu). unfold calculate_tag.
  destruct (aad_length_Some aad Ha) as [len Hlen]. rewrite Hlen.
  rewrite put_zeros_Ok by (apply Nat.mod_upper_bound; lia). cbn [mbind result_bind].
  fold (size_of s). rewrite usize_shr_Ok by lia. cbn [mbind result_bind].
  replace (Z.of_nat (size_of s * 8)) with (8 * Z.of_nat (size_of s)) by lia.
  assert (0 < 2 ^ (8 * Z.of_nat (size_of s))) by (apply Z.pow_pos_nonneg; lia).
  destruct (decide (Z.of_nat (length msg) < _)) as [Hs|Hs].
  2: { rewrite decide_True; [done|]. rewrite Z.div_small_iff by lia. lia. }
  rewrite decide_False by (rewrite Z.div_small by lia; tauto).
  rewrite put_length_Ok by lia. cbn [mbind result_bind].
  rewrite decide_False by (rewrite !length_app, length_to_be_bytes, Hn; cbn; lia).
  cbn zeta. set (b0 := ([auth_data_flag s aad] ++ nonce) ++ _).
  destruct (CBC.input_absorbs (cipher s) b0 [] _ (CBC.absorbed_new (n := 16) (cipher s)))
    as (m1 & E1 & A1).
  rewrite E1. cbn [mbind result_bind].
  destruct (CBC.input_absorbs (cipher s) (zero_pad 16 (len ++ aad) ++ msg) _ m1 A1) as (m2 & E2 & A2).
  rewrite E2. cbn [mbind result_bind]. rewrite (CBC.absorbed_result _ _ _ A2).
  unfold authentication, first_block, b0. rewrite Hlen, auth_data_flag_spec by done. done.
Qed.

Lemma create_ctr_spec s nonce :
  usable s -> length nonce = (15 - size_of s)%nat -> create_ctr s nonce = Ok (key_stream s nonce).
Proof.
  intros Hu Hn. pose proof (size_bounds s Hu). unfold create_ctr, set_index.
  rewrite decide_True by (rewrite length_replicate; lia). cbn [mbind result_bind].
  rewrite copy_into_Ok by (rewrite length_insert, length_replicate; lia). cbn [mbind result_bind].
  unfold key_stream. rewrite nonce_flag_spec by done. do 2 f_equal.
  rewrite Hn. rewrite drop_insert_lt, drop_replicate by lia.
  by replace (16 - (1 + (15 - size_of s)))%nat with (size_of s) by lia.
Qed.

Lemma length_authentication s nonce msg aad : length (authentication s nonce msg aad) = 16%nat.
Proof. apply CBC.length_cbc_mac. Qed.

Definition nonce_of s (nonce : list Z) : list Z := take (15 - size_of s) nonce.

Lemma encrypt_spec s nonce msg aad :
  usable s -> length nonce = 15%nat -> Z.of_nat (length aad) < 2 ^ 64 ->
  encrypt s nonce msg aad =
    Ok (if decide (Z.of_nat (length msg) < 2 ^ (8 * Z.of_nat (size_of s)))
        then Ok (ccm_star s (nonce_of s nonce) msg aad) else Err AeadErr).
Proof.
  intros Hu Hn Ha. pose proof (size_bounds s Hu). unfold encrypt. fold (size_of s).
  rewrite (slice_range_Ok 0 (15 - size_of s) nonce) by lia. cbn [mbind result_bind]. rewrite Nat.sub_0_r. change (drop 0 nonce) with nonce.
  fold (nonce_of s nonce).
  assert (length (nonce_of s nonce) = (15 - size_of s)%nat) as Hn'.
  { unfold nonce_of. rewrite length_take. lia. }
  rewrite calculate_tag_spec by done. cbn [mbind result_bind]. case_decide; [|done].
  rewrite create_ctr_spec by done. cbn [mbind result_bind].
  set (tag := authentication s (nonce_of s nonce) msg aad). set (st := key_stream s (nonce_of s nonce)).
  pose proof (length_authentication s (nonce_of s nonce) msg aad) as Ht. fold tag in Ht.
  pose proof (apply_keystream_spec st tag) as E1.
  pose proof (apply_keystream_spec (snd (apply_keystream st tag)) msg) as E2.
  destruct (apply_keystream st tag) as [mac ctr] eqn:Es. cbn [fst snd] in E1, E2.
  destruct (apply_keystream ctr msg) as [output ctr2] eqn:Eo. cbn [fst snd] in E2. subst mac output.
  pose proof (tag_bounds s).
  rewrite slice_range_Ok by (rewrite length_xor_bytes, length_key_bytes; lia). cbn [mbind result_bind].
  rewrite Nat.sub_0_r. change (drop 0 ?x) with x. unfold ccm_star. fold tag. fold st. rewrite Ht.
  do 4 f_equal. rewrite key_bytes_plus, drop_app_length' by (by rewrite length_key_bytes).
  unfold key_bytes. apply list_fmap_ext. intros i x _.
  pose proof (apply_keystream_next st tag x) as E3. by rewrite Es, Ht in E3.
Qed.

(** The stream from its second block on. *)
Definition message_bytes s (nonce : list Z) (n : nat) : list Z :=
  drop 16 (key_bytes (key_stream s nonce) (16 + n)).
Lemma length_message_bytes s nonce n : length (message_bytes s nonce n) = n.
Proof. unfold message_bytes. rewrite length_drop, length_key_bytes. lia. Qed.

Lemma length_ccm_star s nonce msg aad :
  length (ccm_star s nonce msg aad) = (length msg + get_tag_len s)%nat.
Proof.
  unfold ccm_star. fold (message_bytes s nonce (length msg)). pose proof (tag_bounds s).
  rewrite length_app, length_take, !length_xor_bytes, length_message_bytes, length_authentication,
    length_key_bytes. lia.
Qed.

Lemma decrypt_spec s nonce ct aad :
  usable s -> length nonce = 15%nat -> Z.of_nat (length aad) < 2 ^ 64 ->
  let n := nonce_of s nonce in
  let msg_len := (length ct - get_tag_len s)%nat in
  let m := xor_bytes (take msg_len ct) (message_bytes s n msg_len) in
  let tag := take (get_tag_len s) (xor_bytes (drop msg_len ct) (key_bytes (key_stream s n) 16)) in
  decrypt s nonce ct aad =
    Ok (if decide (length ct < get_tag_len s)%nat then Err AeadErr
        else if decide (get_tag_len s = 0)%nat then Ok m
        else if decide (Z.of_nat msg_len < 2 ^ (8 * Z.of_nat (size_of s)) /\
                        take (get_tag_len s) (authentication s n m aad) = tag) then Ok m
        else Err AeadErr).
Proof.
  intros Hu Hn Ha n msg_len m tag. pose proof (size_bounds s Hu). unfold decrypt. fold (size_of s).
  rewrite (slice_range_Ok 0 (15 - size_of s) nonce) by lia. cbn [mbind result_bind]. rewrite Nat.sub_0_r. change (drop 0 nonce) with nonce.
  fold (nonce_of s nonce). fold n.
  assert (length n = (15 - size_of s)%nat) as Hn'.
  { unfold n, nonce_of. rewrite length_take. lia. }
  destruct (decide (length ct < get_tag_len s)%nat) as [Hs|Hs]; [done|]. rewrite create_ctr_spec by done. cbn [mbind result_bind]. fold msg_len.
  pose proof (tag_bounds s) as Htb.
  rewrite copy_into_Ok by (rewrite length_drop, length_replicate; lia). cbn [mbind result_bind].
  rewrite take_0, app_nil_l. set (st := key_stream s n).
  set (padded := drop msg_len ct ++ _).
  assert (length padded = 16%nat) as Hp.
  { unfold padded. rewrite length_app, !length_drop, length_replicate. lia. }
  rewrite slice_range_Ok by lia.
  pose proof (apply_keystream_spec st padded) as E1. rewrite Hp in E1.
  pose proof (apply_keystream_spec (snd (apply_keystream st padded)) (take msg_len ct)) as E2.
  pose proof (fun i => apply_keystream_next st padded i) as E3.
  destruct (apply_keystream st padded) as [t ctr] eqn:Es. cbn [fst snd] in E1, E2, E3.
  cbn [mbind result_bind]. change (drop 0 ct) with ct. rewrite Nat.sub_0_r.
  destruct (apply_keystream ctr (take msg_len ct)) as [plain ctr2] eqn:Eo. cbn [fst snd] in E2. subst t.
  assert (length (take msg_len ct) = msg_len) as Hlen by (rewrite length_take; lia).
  assert (plain = m) as ->.
  { rewrite E2, Hlen. unfold m. f_equal. unfold message_bytes.
    rewrite key_bytes_plus, drop_app_length' by (by rewrite length_key_bytes).
    unfold key_bytes. apply list_fmap_ext. intros i x _. by rewrite E3, Hp. }
  destruct (decide (0 < get_tag_len s)%nat) as [Ht0|Ht0]; [|by rewrite decide_True by lia].
  rewrite decide_False by lia. rewrite calculate_tag_spec by done. cbn [mbind result_bind].
  assert (length m = msg_len) as Hm.
  { unfold m. rewrite length_xor_bytes, length_message_bytes, Hlen. lia. }
  rewrite Hm. destruct (decide (Z.of_nat msg_len < _)) as [Hl|Hl].
  2: { rewrite decide_False; [done|]. by intros [? _]. }
  rewrite !slice_range_Ok by (rewrite ?length_authentication, ?length_xor_bytes, ?Hp, ?length_key_bytes; lia).
  cbn [mbind result_bind]. rewrite !Nat.sub_0_r. change (drop 0 ?x) with x.
  assert (take (get_tag_len s) (xor_bytes padded (key_bytes st 16)) = tag) as ->.
  { unfold tag. rewrite !take_xor_bytes. f_equal. unfold padded.
    rewrite take_app_le, !take_ge by (rewrite length_drop; lia). done. }
  fold st. destruct (decide (take (get_tag_len s) (authentication s n m aad) = tag)) as [E|E];
    repeat case_decide; done || tauto.
Qed.

(** Which ciphertexts the formula makes of [m]. *)
Lemma ccm_star_inv s n m aad ct :
  let k := get_tag_len s in
  let l := (length ct - k)%nat in
  ccm_star s n m aad = ct <->
    (k <= length ct)%nat /\ m = xor_bytes (take l ct) (message_bytes s n l) /\
    take k (authentication s n m aad) =
      take k (xor_bytes (drop l ct) (key_bytes (key_stream s n) 16)).
Proof.
  cbn zeta. set (k := get_tag_len s). pose proof (tag_bounds s) as Hk. fold k in Hk.
  pose proof (length_authentication s n m aad) as Ha.
  pose proof (length_key_bytes (key_stream s n) 16) as Hks.
  set (ks := key_bytes (key_stream s n) 16) in *. set (A := authentication s n m aad) in *.
  split.
  - intros <-. rewrite length_ccm_star. fold k.
    replace (length m + k - k)%nat with (length m) by lia. split; [lia|].
    unfold ccm_star. fold (message_bytes s n (length m)). fold k A ks.
    pose proof (length_message_bytes s n (length m)) as Hmb.
    rewrite take_app_length', drop_app_length' by (rewrite length_xor_bytes, Hmb; lia).
    rewrite xor_bytes_cancel by lia. split; [done|].
    rewrite (take_xor_bytes k A), !take_xor_bytes, !take_take, Nat.min_id.
    by rewrite xor_bytes_cancel by (rewrite !length_take; lia).
  - set (l := (length ct - k)%nat). intros (Hl & Hm & Ht).
    assert (length (take l ct) = l) as Hlen by (rewrite length_take; lia).
    unfold ccm_star. fold (message_bytes s n (length m)). fold k A ks.
    rewrite take_xor_bytes, Ht, <- take_xor_bytes.
    rewrite xor_bytes_cancel by (rewrite length_drop; lia).
    assert (length m = l) as ->.
    { rewrite Hm, length_xor_bytes, length_message_bytes, Hlen. lia. }
    rewrite Hm, xor_bytes_cancel by (rewrite length_message_bytes; lia).
    rewrite (take_ge (drop l ct)) by (rewrite length_drop; lia). apply take_drop.
Qed.

(** ** What encryption and decryption promise *)

(** C17: Encryption is CCM*: for associated data and a message that fit their length
    fields, what the code returns, with its streaming CBC-MAC, its loops for the padding and
    the lengths and its one key stream used twice, is the formula; a message too long for
    its length field is refused; and nothing panics. Only a length field of eight bytes
    overflows the shift of the length check, and then every message panics. *)
Theorem ccm_encrypt_equivalence s nonce msg aad :
  length nonce = 15%nat -> Z.of_nat (length aad) < 2 ^ 64 ->
  encrypt s nonce msg aad =
    if decide (length_size s = Len64) then Err Panic
    else Ok (if decide (Z.of_nat (length msg) < 2 ^ (8 * Z.of_nat (size_of s)))
             then Ok (ccm_star s (nonce_of s nonce) msg aad) else Err AeadErr).
Proof.
  intros Hn Ha. case_decide as Hl; [|by apply encrypt_spec].
  unfold encrypt. rewrite Hl. cbn [length_as_num]. rewrite slice_range_Ok by lia. cbn [mbind result_bind].
  unfold calculate_tag. destruct (aad_length_Some aad Ha) as [len ->].
  rewrite put_zeros_Ok by (apply Nat.mod_upper_bound; lia). cbn [mbind result_bind]. by rewrite Hl.
Qed.

Lemma decrypt_iff s nonce aad :
  usable s -> length nonce = 15%nat -> Z.of_nat (length aad) < 2 ^ 64 ->
  forall ct, exists r, decrypt s nonce ct aad = Ok r /\
    (forall m, r = Ok m -> (length m + get_tag_len s)%nat = length ct) /\
    forall m, Z.of_nat (length m) < 2 ^ (8 * Z.of_nat (size_of s)) ->
      (r = Ok m <-> encrypt s nonce m aad = Ok (Ok ct)).
Proof.
  intros Hu Hn Ha ct. rewrite decrypt_spec by done. cbn zeta. eexists; split; [done|]. split.
  { intros m. pose proof (length_message_bytes s (nonce_of s nonce) (length ct - get_tag_len s)).
    repeat case_decide; try done; intros [= <-]; rewrite length_xor_bytes, length_take; lia. }
  intros m Hm. rewrite encrypt_spec by done. rewrite (decide_True (P := Z.of_nat (length m) < _)) by done.
  pose proof (ccm_star_inv s (nonce_of s nonce) m aad ct) as Hc. cbn zeta in Hc.
  set (n := nonce_of s nonce) in *. set (k := get_tag_len s) in *. set (l := (length ct - k)%nat) in *.
  set (m' := xor_bytes (take l ct) (message_bytes s n l)) in *.
  assert (forall a b : list Z, Ok (E := failure) (Ok (E := AeadError) a) = Ok (Ok b) <-> a = b) as Hok
    by (intros; split; congruence).
  rewrite Hok, Hc. clear Hok Hc.
  assert ((k <= length ct)%nat -> length m' = l) as Hl.
  { intros. unfold m', l. rewrite length_xor_bytes, length_message_bytes, length_take. lia. }
  destruct (decide (length ct < k)%nat) as [Hs|Hs]; [split; [done|intros [? _]; lia]|].
  destruct (decide (k = 0%nat)) as [H0'|H0'].
  - rewrite H0'. cbn [take]. split; [intros [= ->]; split_and!; [lia|done|done]|by intros (_ & -> & _)].
  - destruct (decide (_ /\ _)) as [[Hlt Ht]|Hn'].
    + split; [intros [= <-]; split_and!; [lia|done|done]|by intros (_ & -> & _)].
    + split; [done|]. intros (_ & -> & Ht). destruct Hn'. split; [|done]. rewrite <- Hl by lia. done.
Qed.

(** Without an integrity code the length of the message is not checked. *)
Lemma decrypt_too_long s nonce aad ct m :
  usable s -> length nonce = 15%nat -> Z.of_nat (length aad) < 2 ^ 64 ->
  2 ^ (8 * Z.of_nat (size_of s)) <= Z.of_nat (length m) ->
  decrypt s nonce ct aad = Ok (Ok m) <->
  get_tag_len s = 0%nat /\ ccm_star s (nonce_of s nonce) m aad = ct.
Proof.
  intros Hu Hn Ha Hm. rewrite decrypt_spec by done. cbn zeta.
  pose proof (ccm_star_inv s (nonce_of s nonce) m aad ct) as Hc. cbn zeta in Hc. rewrite Hc. clear Hc.
  set (n := nonce_of s nonce) in *. set (k := get_tag_len s) in *. set (l := (length ct - k)%nat) in *.
  set (m' := xor_bytes (take l ct) (message_bytes s n l)) in *.
  assert ((k <= length ct)%nat -> length m' = l) as Hl.
  { intros. unfold m', l. rewrite length_xor_bytes, length_message_bytes, length_take. lia. }
  destruct (decide (length ct < k)%nat) as [Hs|Hs]; [split; [done|intros (_ & ? & _); lia]|].
  destruct (decide (k = 0%nat)) as [H0'|H0'].
  - assert (forall x : list Z, take k x = []) as Ht by (intros; by rewrite H0').
    rewrite !Ht. split; [intros [= <-]; split_and!; done || lia|by intros (_ & _ & -> & _)].
  - split; [|by intros [? _]]. destruct (decide (_ /\ _)) as [[Hlt _]|_]; [|done].
    intros [= <-]. rewrite Hl in Hm by lia. lia.
Qed.

(** With a length field of eight bytes whatever has an integrity code to check panics. *)
Lemma decrypt_panics s nonce aad ct :
  length_size s = Len64 -> length nonce = 15%nat -> Z.of_nat (length aad) < 2 ^ 64 ->
  decrypt s nonce ct aad = Err Panic <-> (0 < get_tag_len s <= length ct)%nat.
Proof.
  intros Hs Hn Ha. unfold decrypt. rewrite Hs. cbn [length_as_num]. rewrite (slice_range_Ok 0 (15 - 8) nonce) by lia.
  cbn [mbind result_bind]. destruct (decide (length ct < get_tag_len s)%nat) as [Hl|Hl]; [split; [done|lia]|].
  pose proof (tag_bounds s) as Htb. unfold create_ctr.
  assert (forall x, exists c, set_index 0 x (replicate 16 (0 : Z)) = Ok c /\ length c = 16%nat) as Hi.
  { intros x. by eexists. }
  destruct (Hi (nonce_flag s)) as (c & -> & Hc). cbn [mbind result_bind].
  rewrite (copy_into_Ok 1 _ c) by (rewrite Hc, length_take, length_drop; lia). cbn [mbind result_bind].
  rewrite copy_into_Ok by (rewrite length_drop, length_replicate; lia). cbn [mbind result_bind].
  destruct (apply_keystream _ _) as [t ctr]. rewrite (slice_range_Ok 0 (length ct - get_tag_len s) ct) by lia. cbn [mbind result_bind].
  destruct (apply_keystream ctr _) as [plain ctr2].
  destruct (decide (0 < get_tag_len s)%nat) as [Ht|Ht]; [|split; [done|lia]]. split; [lia|]. intros _.
  unfold calculate_tag. destruct (aad_length_Some aad Ha) as [len ->].
  rewrite put_zeros_Ok by (apply Nat.mod_upper_bound; lia). cbn [mbind result_bind]. by rewrite Hs.
Qed.

(** C16: Decryption inverts encryption and accepts nothing else: with a length field of two to seven
    bytes it never panics, whatever the ciphertext and the associated data, and returns a
    message exactly for the ciphertext that encryption makes of it, and an error for
    everything else.  There is one exception: without an integrity code the length is not checked,
    and a message too long for its length field, which encryption refuses, is decrypted all the
    same.  With a length field of eight bytes decryption panics whenever there is an integrity
    code to be checked. *)
Theorem ccm_accepts_exactly s nonce aad :
  length nonce = 15%nat -> Z.of_nat (length aad) < 2 ^ 64 ->
  (usable s -> forall ct, exists r, decrypt s nonce ct aad = Ok r /\
     forall m, r = Ok m <->
       encrypt s nonce m aad = Ok (Ok ct) \/
       (integrity_code_len s = NoMIC /\ 2 ^ (8 * Z.of_nat (size_of s)) <= Z.of_nat (length m) /\
        ccm_star s (nonce_of s nonce) m aad = ct)) /\
  (~ usable s -> forall ct,
     decrypt s nonce ct aad = Err Panic <-> (0 < get_tag_len s <= length ct)%nat).
Proof.
  intros Hn Ha. split.
  - intros Hu ct. destruct (decrypt_iff s nonce aad Hu Hn Ha ct) as (r & E & _ & Hd). exists r. split; [done|].
    intros m. destruct (decide (Z.of_nat (length m) < 2 ^ (8 * Z.of_nat (size_of s)))) as [Hm|Hm].
    + rewrite (Hd m Hm). split; [by left|]. intros [?|(_ & ? & _)]; [done|lia].
    + assert (r = Ok m <-> decrypt s nonce ct aad = Ok (Ok m)) as -> by (rewrite E; split; congruence).
      rewrite decrypt_too_long by (done || lia). rewrite encrypt_spec by done. rewrite decide_False by done.
      assert (get_tag_len s = 0%nat <-> integrity_code_len s = NoMIC) as ->
        by (unfold get_tag_len; by destruct (integrity_code_len s)).
      split; [intros [? ?]; right; split_and!; [done|lia|done]|intros [?|(? & _ & ?)]; done].
  - intros Hs ct. apply decrypt_panics; [|done..]. unfold usable in Hs.
    destruct (decide (length_size s = Len64)); tauto.
Qed.
End theory.

(** ** With AES *)

Import Aes.
#[local] Existing Instance BitRange_reference.
#[local] Existing Instance BitRange_reference_laws.

(** [test_vectors_ccmstar] *)
Definition vector_key : list Z :=
  [192; 193; 194; 195; 196; 197; 198; 199; 200; 201; 202; 203; 204; 205; 206; 207].
Definition vector_nonce : list Z :=
  [160; 161; 162; 163; 164; 165; 166; 167; 3; 2; 1; 0; 6; 0; 0].
Definition vector_message : list Z :=
  [8; 9; 10; 11; 12; 13; 14; 15; 16; 17; 18; 19; 20; 21; 22; 23; 24; 25; 26; 27; 28; 29; 30].
Definition vector_aad : list Z := [0; 1; 2; 3; 4; 5; 6; 7].
Definition vector_ciphertext : list Z :=
  [26; 85; 163; 106; 187; 108; 97; 13; 6; 107; 51; 117; 100; 156; 239; 16; 212; 102; 78;
   202; 216; 84; 168; 10; 137; 92; 193; 216; 255; 148; 105].
Definition checker : CcmStar Aes128 := from_cipher (cipher_new vector_key) MIC8 Len16.

Definition test_vectors_ccmstar : bool :=
  bool_decide (encrypt checker vector_nonce vector_message vector_aad = Ok (Ok vector_ciphertext)) &&
  bool_decide (decrypt checker vector_nonce vector_ciphertext vector_aad = Ok (Ok vector_message)) &&
  bool_decide (decrypt checker vector_nonce
      (alter (Z.lxor 8) (length vector_message) vector_ciphertext) vector_aad = Ok (Err AeadErr)).
Example vectors_ccmstar_pass : test_vectors_ccmstar = true.
Proof. vm_compute. reflexivity. Qed.

Lemma ccm_encrypt_equivalence_witness :
  length vector_nonce = 15%nat /\ Z.of_nat (length vector_aad) < 2 ^ 64 /\
  encrypt checker vector_nonce vector_message vector_aad =
    Ok (Ok (ccm_star checker (nonce_of checker vector_nonce) vector_message vector_aad)).
Proof.
  split; [reflexivity|]. split; [reflexivity|].
  rewrite (ccm_encrypt_equivalence checker vector_nonce vector_message vector_aad) by reflexivity.
  reflexivity.
Defined.

Lemma ccm_accepts_exactly_witness :
  length vector_nonce = 15%nat /\ Z.of_nat (length vector_aad) < 2 ^ 64 /\
  exists r, decrypt checker vector_nonce [1; 2; 3] vector_aad = Ok r /\
    forall m, r = Ok m <->
      encrypt checker vector_nonce m vector_aad = Ok (Ok [1; 2; 3]) \/
      (integrity_code_len checker = NoMIC /\ 2 ^ (8 * Z.of_nat (size_of checker)) <= Z.of_nat (length m) /\
       ccm_star checker (nonce_of checker vector_nonce) m vector_aad = [1; 2; 3]).
Proof.
  split; [reflexivity|]. split; [reflexivity|].
  exact (proj1 (ccm_accepts_exactly checker vector_nonce vector_aad eq_refl eq_refl) ltac:(discriminate) [1; 2; 3]).
Defined.
