(* ===== verification/ParseSerialize.v ===== *)
(** * The contract of the old serialization traits

    The code under [old_src/] reads and writes its frames with the traits of a module
    [parse_serialize] that is not part of the repository, and with derived
    implementations of them. [ParseSerialize] is the interface the code uses of it:
    integers, byte arrays and tuples (a derived implementation is that of the tuple of
    the fields); [ParseSerializeLaws] is the behaviour the code relies on. The lemmas
    here build the round trips of compound data from those of their parts, and
    [ParseSerialize_reference] is an instance. *)

From Stdlib Require Import ZArith Lia String.
From S2P Require Import Prelude.

#[local] Open Scope Z_scope.

(** ** The interface *)

Class ParseSerialize := {
  SerializeError : Type;
  ser_Unimplemented : string -> SerializeError;
  ser_UnexpectedData : SerializeError;
  DeserializeError : Type;
  de_unexpected_data : list Z -> DeserializeError;
  de_unimplemented : list Z -> string -> DeserializeError;
  de_invalid_enum : list Z -> DeserializeError;
  (** unsigned integers of so many bytes *)
  serialize_uint : nat -> Z -> list Z -> result SerializeError (list Z);
  deserialize_uint : nat -> list Z -> result DeserializeError (list Z * Z);
  serialize_bool : bool -> list Z -> result SerializeError (list Z);
  deserialize_bool : list Z -> result DeserializeError (list Z * bool);
  (** arrays of so many bytes *)
  serialize_array : nat -> list Z -> list Z -> result SerializeError (list Z);
  deserialize_array : nat -> list Z -> result DeserializeError (list Z * list Z);
  (** a structure without fields *)
  serialize_unit : unit -> list Z -> result SerializeError (list Z);
  serialize_pair {A B} :
    (A -> list Z -> result SerializeError (list Z)) -> (B -> list Z -> result SerializeError (list Z)) ->
    A * B -> list Z -> result SerializeError (list Z);
  deserialize_pair {A B} :
    (list Z -> result DeserializeError (list Z * A)) -> (list Z -> result DeserializeError (list Z * B)) ->
    list Z -> result DeserializeError (list Z * (A * B));
}.

(** [Serialize::serialize_to] appends to a vector; [Deserialize::deserialize] returns the
    rest of the input and the value. *)
Abbreviation serializer A := (A -> list Z -> result SerializeError (list Z)).
Abbreviation deserializer A := (list Z -> result DeserializeError (list Z * A)).

(** [ser] appends [bs] for [a], whatever is in the vector. *)
Definition encodes `{ParseSerialize} {A} (ser : serializer A) (a : A) (bs : list Z) : Prop :=
  forall target, ser a target = Ok (target ++ bs).
(** ... and [de] reads [a] back, and leaves what follows. *)
Definition decodes `{ParseSerialize} {A} (de : deserializer A) (a : A) (bs : list Z) : Prop :=
  forall rest, de (bs ++ rest) = Ok (rest, a).

Class ParseSerializeLaws `{ParseSerialize} := {
  uint_bytes : nat -> Z -> list Z;
  length_uint_bytes w x : in_width (8 * Z.of_nat w) x -> length (uint_bytes w x) = w;
  encodes_uint w x : in_width (8 * Z.of_nat w) x -> encodes (serialize_uint w) x (uint_bytes w x);
  decodes_uint w x : in_width (8 * Z.of_nat w) x -> decodes (deserialize_uint w) x (uint_bytes w x);
  deserialize_uint_sound w input rest x :
    deserialize_uint w input = Ok (rest, x) -> bytes_ok input ->
    in_width (8 * Z.of_nat w) x /\ rest `suffix_of` input;
  roundtrip_bool b : exists bs, encodes serialize_bool b bs /\ decodes deserialize_bool b bs;
  encodes_array n bs : length bs = n -> encodes (serialize_array n) bs bs;
  decodes_array n bs : length bs = n -> decodes (deserialize_array n) bs bs;
  serialize_unit_spec target : serialize_unit tt target = Ok target;
  serialize_pair_spec {A B} (sa : serializer A) (sb : serializer B) a b target :
    serialize_pair sa sb (a, b) target = (target ← sa a target; sb b target);
  deserialize_pair_spec {A B} (da : deserializer A) (db : deserializer B) input :
    deserialize_pair da db input = ('(input, a) ← da input; '(input, b) ← db input; Ok (input, (a, b)));
}.

Section combinators.
Context `{ParseSerialize}.

(** The combinators of [nom] the code uses. *)
Definition nom_cond {A} (b : bool) (de : deserializer A) : deserializer (option A) :=
  fun input => if b then '(input, a) ← de input; Ok (input, Some a) else Ok (input, None).
Definition nom_map {A B} (de : deserializer A) (f : A -> B) : deserializer B :=
  fun input => '(input, a) ← de input; Ok (input, f a).
Definition nom_rest : deserializer (list Z) := fun input => Ok ([], input).
Fixpoint nom_count {A} (de : deserializer A) (n : nat) : deserializer (list A) :=
  fun input =>
    match n with
    | O => Ok (input, [])
    | S n => '(input, a) ← de input; '(input, l) ← nom_count de n input; Ok (input, a :: l)
    end.

(** [if let Some(x) = o { x.serialize_to(target)?; }] and a loop over a list. *)
Definition serialize_option {A} (ser : serializer A) (o : option A) (target : list Z) :
    result SerializeError (list Z) :=
  match o with Some a => ser a target | None => Ok target end.
Fixpoint serialize_all {A} (ser : serializer A) (l : list A) (target : list Z) :
    result SerializeError (list Z) :=
  match l with
  | [] => Ok target
  | a :: l => target ← ser a target; serialize_all ser l target
  end.

(** A value that is written and read back. *)
Definition roundtrips {A} (ser : serializer A) (de : deserializer A) (a : A) : Prop :=
  exists bs, encodes ser a bs /\ decodes de a bs.
(** The same for what takes all of the input. *)
Definition roundtrips_all {A} (ser : serializer A) (de : deserializer A) (a : A) : Prop :=
  exists bs, encodes ser a bs /\ de bs = Ok ([], a).

(** Equal bytes come from equal values. *)
Lemma decodes_inj {A} (de : deserializer A) a a' bs bs' r r' :
  decodes de a bs -> decodes de a' bs' -> bs ++ r = bs' ++ r' -> a = a' /\ r = r'.
Proof.
  intros D D' E. specialize (D r). specialize (D' r'). rewrite E, D' in D. split; congruence.
Qed.

Lemma roundtrips_is_all {A} (ser : serializer A) de a : roundtrips ser de a -> roundtrips_all ser de a.
Proof. intros (bs & E & D). exists bs. split; [done|]. rewrite <- (app_nil_r bs) at 1. apply D. Qed.

Lemma roundtrips_map {A B} (ser : serializer A) de (ser' : serializer B) (f : A -> B) a b :
  f a = b -> roundtrips ser de a -> (forall target, ser' b target = ser a target) ->
  roundtrips ser' (nom_map de f) b.
Proof.
  intros <- (bs & E & D) Hs. exists bs. split.
  - intros target. by rewrite Hs.
  - intros rest. unfold nom_map. by rewrite D.
Qed.

Lemma encodes_option {A} (ser : serializer A) o :
  (forall a, o = Some a -> exists bs, encodes ser a bs) -> exists bs, encodes (serialize_option ser) o bs.
Proof.
  intros Hs. destruct o as [a|].
  - destruct (Hs a eq_refl) as [bs E]. by exists bs.
  - exists []. intros target. by rewrite app_nil_r.
Qed.
Lemma roundtrips_option {A} (ser : serializer A) de o :
  (forall a, o = Some a -> roundtrips ser de a) ->
  roundtrips (serialize_option ser) (nom_cond (bool_decide (is_Some o)) de) o.
Proof.
  intros Hs. destruct o as [a|].
  - destruct (Hs a eq_refl) as (bs & E & D). exists bs. split; [done|].
    intros rest. unfold nom_cond. rewrite bool_decide_true by done. by rewrite D.
  - exists []. split; [intros target; by rewrite app_nil_r|]. intros rest. unfold nom_cond.
    by rewrite bool_decide_false by (by intros []).
Qed.
Lemma roundtrips_count {A} (ser : serializer A) de l :
  (forall a, a ∈ l -> roundtrips ser de a) -> roundtrips (serialize_all ser) (nom_count de (length l)) l.
Proof.
  induction l as [|a l IH]; intros Hl.
  { exists []. split; [intros target; by rewrite app_nil_r|done]. }
  destruct (Hl a) as (bs1 & E1 & D1); [by left|].
  destruct IH as (bs2 & E2 & D2); [intros; apply Hl; by right|].
  exists (bs1 ++ bs2). split.
  - intros target. cbn. rewrite E1. cbn. by rewrite E2, (assoc_L (++)).
  - intros rest. cbn. rewrite <- (assoc_L (++)), D1. cbn. by rewrite D2.
Qed.
End combinators.

Section laws.
Context `{ParseSerializeLaws}.

Lemma roundtrips_uint w x :
  in_width (8 * Z.of_nat w) x -> roundtrips (serialize_uint w) (deserialize_uint w) x.
Proof. intros Hx. exists (uint_bytes w x). split; [by apply encodes_uint|by apply decodes_uint]. Qed.
Lemma roundtrips_array n bs : length bs = n -> roundtrips (serialize_array n) (deserialize_array n) bs.
Proof. intros Hn. exists bs. split; [by apply encodes_array|by apply decodes_array]. Qed.
Lemma roundtrips_pair {A B} (sa : serializer A) da (sb : serializer B) db a b :
  roundtrips sa da a -> roundtrips sb db b ->
  roundtrips (serialize_pair sa sb) (deserialize_pair da db) (a, b).
Proof.
  intros (ba & Ea & Da) (bb & Eb & Db). exists (ba ++ bb). split.
  - intros target. rewrite serialize_pair_spec, Ea. cbn. by rewrite Eb, (assoc_L (++)).
  - intros rest. rewrite deserialize_pair_spec, <- (assoc_L (++)), Da. cbn. by rewrite Db.
Qed.
End laws.

Create HintDb codec discriminated.
#[export] Hint Resolve roundtrips_uint roundtrips_array roundtrips_pair roundtrips_option roundtrips_count
  roundtrip_bool : codec.

(** Round trips of tuples, also where the serializer is still to be found. *)
Ltac solve_codec :=
  repeat first [apply roundtrips_pair|apply roundtrips_uint|apply roundtrips_array|apply roundtrip_bool];
  done.

(** ** An instance *)

(** Little-endian integers, as on the air; for the concrete examples. *)
Inductive reference_error := RefError.
Definition reference_take (n : nat) (input : list Z) : result reference_error (list Z * list Z) :=
  if decide (length input < n)%nat then Err RefError else Ok (drop n input, take n input).
Definition ParseSerialize_reference : ParseSerialize := {|
  SerializeError := reference_error;
  ser_Unimplemented := fun _ => RefError;
  ser_UnexpectedData := RefError;
  DeserializeError := reference_error;
  de_unexpected_data := fun _ => RefError;
  de_unimplemented := fun _ _ => RefError;
  de_invalid_enum := fun _ => RefError;
  serialize_uint := fun w x target => Ok (target ++ to_le_bytes w x);
  deserialize_uint := fun w input =>
    '(rest, bs) ← reference_take w input; Ok (rest, from_le_bytes bs);
  serialize_bool := fun b target => Ok (target ++ [bool_to_Z b]);
  deserialize_bool := fun input =>
    '(rest, bs) ← reference_take 1 input; Ok (rest, negb (from_le_bytes bs =? 0));
  serialize_array := fun n bs target => Ok (target ++ bs);
  deserialize_array := reference_take;
  serialize_unit := fun _ target => Ok target;
  serialize_pair := fun A B sa sb p target => target ← sa p.1 target; sb p.2 target;
  deserialize_pair := fun A B da db input =>
    '(input, a) ← da input; '(input, b) ← db input; Ok (input, (a, b));
|}.

Lemma reference_take_app n bs rest : length bs = n -> reference_take n (bs ++ rest) = Ok (rest, bs).
Proof.
  intros <-. unfold reference_take. rewrite decide_False by (rewrite length_app; lia).
  by rewrite drop_app_length, take_app_length.
Qed.

Lemma ParseSerialize_reference_laws : @ParseSerializeLaws ParseSerialize_reference.
Proof.
  refine {| uint_bytes := to_le_bytes : nat -> Z -> list Z |}; try done.
  - intros. apply length_to_le_bytes.
  - intros w x Hx rest. cbn. rewrite reference_take_app by apply length_to_le_bytes. cbn.
    by rewrite from_to_le_bytes.
  - intros w input rest x. cbn. unfold reference_take. case_decide; [done|]. cbn. intros [= <- <-] Hb. split.
    + replace (8 * Z.of_nat w) with (8 * Z.of_nat (length (take w input))) by (rewrite length_take; lia).
      by apply from_le_bytes_range, Forall_take.
    + exists (take w input). by rewrite take_drop.
  - intros b. exists [bool_to_Z b]. split; [done|]. intros rest. cbn.
    by destruct b.
  - intros n bs Hn rest. by apply reference_take_app.
Qed.
