(* ===== verification/Security.v ===== *)
(** * Zigbee security ([old_src/zigbee/security/mod.rs])

    Secured data on the wire, the key store, and the encryption and decryption of a frame
    with CCM*. The cipher, its key stream, the keyed hash of the [hmac] crate, the bit
    fields and the serialization of integers are parameters with laws. *)

From Stdlib Require Import ZArith Lia String.
From S2P Require Import Prelude.
From S2P Require Import BitField.
From S2P Require Import Cipher.
From S2P Require Import ParseSerialize.
From S2P Require Import CcmStar.

#[local] Open Scope Z_scope.

Module Sec.

(** ** Data *)

Inductive KeyIdentifier := KeyData | KeyNetwork (key_sequence_number : Z) | KeyTransport | KeyLoad.

Record SecuredData := {
  key_identifier : KeyIdentifier;
  frame_counter : Z;
  extended_source : option Z;
  payload : list Z;
}.

#[export] Instance KeyIdentifier_eq_dec : EqDecision KeyIdentifier.
Proof. solve_decision. Defined.
#[export] Instance SecuredData_eq_dec : EqDecision SecuredData.
Proof. solve_decision. Defined.

Inductive Securable {T : Type} := Secured (d : SecuredData) | Unsecured (x : T).
Arguments Securable : clear implicits.
(** [SecurableTagged]: the tag of what is secured stays readable. *)
Inductive SecurableTagged {Tag T : Type} := TSecured (tag : Tag) (d : SecuredData) | TUnsecured (x : T).
Arguments SecurableTagged : clear implicits.

Record KeyStore := {
  store_data : option (list Z);
  store_network : gmap Z (list Z);
  store_key_transport : option (list Z);
  store_key_load : option (list Z);
}.

Inductive MessageIntegrityCodeLen := MICNone | MIC32 | MIC64 | MIC128.
Definition mic_len_as_num (m : MessageIntegrityCodeLen) : Z :=
  match m with MICNone => 0 | MIC32 => 1 | MIC64 => 2 | MIC128 => 3 end.
(** [Into<CcmStarIntegrityCodeLen>] *)
Definition mic_len_into (m : MessageIntegrityCodeLen) : CCM.CcmStarIntegrityCodeLen :=
  match m with
  | MICNone => CCM.NoMIC | MIC32 => CCM.MIC4 | MIC64 => CCM.MIC8 | MIC128 => CCM.MIC16
  end.

Record SecurityLevel := { encryption : bool; mig_len : MessageIntegrityCodeLen }.
(** [Into<u8>] *)
Definition security_level_into (l : SecurityLevel) : Z :=
  if encryption l then Z.lor (mic_len_as_num (mig_len l)) 4 else mic_len_as_num (mig_len l).

Module SecurityControl.
Definition security_level := BF 2 0.
Definition key_identifier := BF 4 3.
Definition extended_nonce := BF 5 5.
Definition reserved := BF 7 6.
End SecurityControl.

(** The keyed hash [Hmac<MMOHash<Aes128>>] of a key and a message. *)
Class Hmac := hmac_mmo : list Z -> list Z -> list Z.

Section security.
Context `{!ParseSerialize, !BitRange}.

(** ** The wire format *)

Definition is_secured {T} (s : Securable T) : bool :=
  match s with Secured _ => true | Unsecured _ => false end.

Definition key_identifier_serialize (k : KeyIdentifier) (target : list Z) :
    result SerializeError (list Z) :=
  match k with KeyNetwork n => serialize_uint 1 n target | _ => Ok target end.
Definition key_identifier_tag (k : KeyIdentifier) : Z :=
  match k with KeyData => 0 | KeyNetwork _ => 1 | KeyTransport => 2 | KeyLoad => 3 end.
Definition key_identifier_deserialize (tag : Z) : deserializer KeyIdentifier :=
  fun input =>
    if decide (tag = 0) then Ok (input, KeyData)
    else if decide (tag = 1) then nom_map (deserialize_uint 1) KeyNetwork input
    else if decide (tag = 2) then Ok (input, KeyTransport)
    else if decide (tag = 3) then Ok (input, KeyLoad)
    else Err (de_unexpected_data input).

(** The control byte: built in [serialize_to], [generate_nonce] and
    [generate_associated_data]. *)
Definition security_control (level : Z) (k : KeyIdentifier) (extended : bool) : Z :=
  let sc := 0 in
  let sc := set_field SecurityControl.security_level level sc in
  let sc := set_field SecurityControl.key_identifier (key_identifier_tag k) sc in
  let sc := set_field SecurityControl.extended_nonce (bool_to_Z extended) sc in
  set_field SecurityControl.reserved 0 sc.

Definition secured_data_serialize (d : SecuredData) (target : list Z) : result SerializeError (list Z) :=
  let sc := security_control 0 (key_identifier d) (bool_decide (is_Some (extended_source d))) in
  target ← serialize_uint 1 sc target;
  target ← serialize_uint 4 (frame_counter d) target;
  target ← serialize_option (serialize_uint 8) (extended_source d) target;
  target ← key_identifier_serialize (key_identifier d) target;
  Ok (target ++ payload d).

Definition secured_data_deserialize : deserializer SecuredData := fun input =>
  '(input, sc) ← deserialize_uint 1 input;
  if decide (get_field SecurityControl.security_level sc <> 0) then Err (de_unexpected_data input)
  else
    '(input, frame_counter) ← deserialize_uint 4 input;
    '(input, extended_source) ←
      nom_cond (negb (get_field SecurityControl.extended_nonce sc =? 0)) (deserialize_uint 8) input;
    '(input, key_identifier) ←
      key_identifier_deserialize (get_field SecurityControl.key_identifier sc) input;
    '(input, payload) ← nom_rest input;
    Ok (input, {| key_identifier := key_identifier; frame_counter := frame_counter;
                  extended_source := extended_source; payload := payload |}).

Definition securable_serialize {T} (ser : serializer T) (s : Securable T) (target : list Z) :
    result SerializeError (list Z) :=
  match s with
  | Secured d => secured_data_serialize d target
  | Unsecured x => ser x target
  end.
Definition securable_tag {T} (s : Securable T) : result SerializeError bool := Ok (is_secured s).
Definition securable_deserialize {T} (de : deserializer T) (tag : bool) : deserializer (Securable T) :=
  if tag then nom_map secured_data_deserialize Secured else nom_map de Unsecured.

Definition securable_tagged_serialize {Tag T} (ser : serializer T) (s : SecurableTagged Tag T)
    (target : list Z) : result SerializeError (list Z) :=
  match s with
  | TSecured _ d => secured_data_serialize d target
  | TUnsecured x => ser x target
  end.
Definition securable_tagged_tag {Tag T} (tag_of : T -> result SerializeError Tag)
    (s : SecurableTagged Tag T) : result SerializeError (bool * Tag) :=
  match s with
  | TSecured tag _ => Ok (true, tag)
  | TUnsecured x => tag ← tag_of x; Ok (false, tag)
  end.
Definition securable_tagged_deserialize {Tag T} (de : Tag -> deserializer T) (tag : bool * Tag) :
    deserializer (SecurableTagged Tag T) := fun input =>
  if fst tag then
    '(input, d) ← secured_data_deserialize input; Ok (input, TSecured (snd tag) d)
  else '(input, x) ← de (snd tag) input; Ok (input, TUnsecured x).

(** ** Keys and nonces *)

Context `{!Hmac}.

Definition generate_encryption_key (k : KeyIdentifier) (store : KeyStore) : option (list Z) :=
  match k with
  | KeyData => store_data store
  | KeyNetwork n => store_network store !! n
  | KeyTransport => (fun key => hmac_mmo key [0]) <$> store_key_transport store
  | KeyLoad => (fun key => hmac_mmo key [2]) <$> store_key_transport store
  end.

(** [Result::ok] *)
Definition ok {E A} (r : result E A) : option A := match r with Ok a => Some a | Err _ => None end.

Definition generate_nonce (k : KeyIdentifier) (frame_counter : Z) (extended_nonce : bool)
    (level : SecurityLevel) (source_address : Z) : option (list Z) :=
  nonce ← ok (serialize_uint 8 source_address []);
  nonce ← ok (serialize_uint 4 frame_counter nonce);
  let sc := security_control (security_level_into level) k extended_nonce in
  nonce ← ok (serialize_uint 1 sc nonce);
  Some (resize 15 0 nonce).

Definition generate_associated_data (k : KeyIdentifier) (frame_counter : Z)
    (extended_source : option Z) (level : SecurityLevel) (target : list Z) :
    result SerializeError (list Z) :=
  let sc := security_control (security_level_into level) k (bool_decide (is_Some extended_source)) in
  target ← serialize_uint 1 sc target;
  target ← serialize_uint 4 frame_counter target;
  target ← serialize_option (serialize_uint 8) extended_source target;
  key_identifier_serialize k target.

(** The methods of [SecuredData] of the same names *)
Definition secured_data_nonce (d : SecuredData) (level : SecurityLevel) (source_address : Z) :
    option (list Z) :=
  generate_nonce (key_identifier d) (frame_counter d) (bool_decide (is_Some (extended_source d))) level
    (default source_address (extended_source d)).
Definition secured_data_associated_data (d : SecuredData) (level : SecurityLevel) (target : list Z) :
    result SerializeError (list Z) :=
  generate_associated_data (key_identifier d) (frame_counter d) (extended_source d) level target.

(** ** Encryption and decryption *)

Context {C : Type} `{!BlockCipher 16 C, !Ctr C}.

(** An optional step ends the function with [None]; a panic is an [Err]. *)
Definition or_none {A B} (o : option A) (f : A -> exec (option B)) : exec (option B) :=
  match o with Some a => f a | None => Ok None end.

Definition ccm_for (key : list Z) (level : SecurityLevel) : CCM.CcmStar C :=
  CCM.from_cipher (cipher_new key) (mic_len_into (mig_len level)) CCM.Len16.

Definition decrypt (d : SecuredData) (associated_data : list Z) (level : SecurityLevel)
    (source_address : Z) (store : KeyStore) : exec (option (list Z)) :=
  or_none (generate_encryption_key (key_identifier d) store) (fun key =>
  or_none (secured_data_nonce d level source_address) (fun nonce =>
  let ccmstar := ccm_for key level in
  or_none (ok (secured_data_associated_data d level associated_data)) (fun associated_data =>
  if encryption level then
    r ← CCM.decrypt ccmstar nonce (payload d) associated_data; Ok (ok r)
  else
    let tag_size := CCM.get_tag_len ccmstar in
    let payload_len := length (payload d) in
    if decide (payload_len < tag_size)%nat then Ok None
    else
      let tag_start := (payload_len - tag_size)%nat in
      message ← slice_range 0 tag_start (payload d);
      tag ← slice_range tag_start payload_len (payload d);
      r ← CCM.decrypt ccmstar nonce tag (associated_data ++ message);
      or_none (ok r) (fun _ => Ok (Some message))))).

Definition encrypt (plaintext associated_data : list Z) (level : SecurityLevel)
    (k : KeyIdentifier) (frame_counter : Z) (extended_source : bool) (source_address : Z)
    (store : KeyStore) : exec (option SecuredData) :=
  or_none (generate_encryption_key k store) (fun key =>
  or_none (generate_nonce k frame_counter extended_source level source_address) (fun nonce =>
  let ccmstar := ccm_for key level in
  or_none (ok (generate_associated_data k frame_counter
                 (if extended_source then Some source_address else None) level associated_data))
    (fun associated_data =>
  p ← (if encryption level then
         r ← CCM.encrypt ccmstar nonce plaintext associated_data; Ok (ok r)
       else
         r ← CCM.encrypt ccmstar nonce [] (associated_data ++ plaintext);
         or_none (ok r) (fun tag => Ok (Some (plaintext ++ tag))));
  or_none p (fun p =>
  Ok (Some {| key_identifier := k; frame_counter := frame_counter;
              extended_source := if extended_source then Some source_address else None;
              payload := p |}))))).
End security.
End Sec.
