(* ===== verification/SecurityTheory.v ===== *)
(** * Zigbee security: the wire format round-trips, and decryption accepts exactly what
    encryption made *)

From Stdlib Require Import ZArith Lia String.
From S2P Require Import Prelude.
From S2P Require Import BitField.
From S2P Require Import Cipher.
From S2P Require Import Aes.
From S2P Require Import CbcMac.
From S2P Require Import MmoHash.
From S2P Require Import CcmStar.
From S2P Require Import CcmStarTheory.
From S2P Require Import ParseSerialize.
From S2P Require Import Security.

#[local] Open Scope Z_scope.

Import Sec.

(** The integers of a header are those of its types. *)
Definition key_ok (k : KeyIdentifier) : Prop :=
  match k with KeyNetwork n => in_width 8 n | _ => True end.
Definition secured_ok (d : SecuredData) : Prop :=
  key_ok (key_identifier d) /\ in_width 32 (frame_counter d) /\
  (forall a, extended_source d = Some a -> in_width 64 a).

Section theory.
Context `{!ParseSerialize, !ParseSerializeLaws, !BitRange, !BitRangeLaws}.

(** ** The control byte *)

Lemma key_identifier_tag_width k : 0 <= key_identifier_tag k < 4.
Proof. destruct k; cbn; lia. Qed.

Lemma security_control_spec level k extended :
  0 <= level < 8 ->
  in_width 8 (security_control level k extended) /\
  get_field SecurityControl.security_level (security_control level k extended) = level /\
  get_field SecurityControl.key_identifier (security_control level k extended) = key_identifier_tag k /\
  get_field SecurityControl.extended_nonce (security_control level k extended) = bool_to_Z extended.
Proof.
  intros Hl. set (fields := [(SecurityControl.security_level, level);
    (SecurityControl.key_identifier, key_identifier_tag k);
    (SecurityControl.extended_nonce, bool_to_Z extended); (SecurityControl.reserved, 0)]).
  change (security_control level k extended) with (write_fields fields 0).
  assert (writes_ok 8 fields) as Hw.
  { pose proof (key_identifier_tag_width k). pose proof (bool_to_Z_range extended). unfold fields.
    generalize dependent (bool_to_Z extended). generalize dependent (key_identifier_tag k). intros.
    solve_writes. }
  assert (no_overlap fields.*1 = true) as Hn by done.
  split; [apply (write_fields_width 8 fields 0); done|].
  split_and!; solve_field 8 fields.
Qed.

Lemma key_identifier_roundtrips k :
  key_ok k -> roundtrips key_identifier_serialize (key_identifier_deserialize (key_identifier_tag k)) k.
Proof.
  intros Hk. destruct k; cbn in *;
    try (exists []; split; [intros target; by rewrite app_nil_r|done]).
  destruct (roundtrips_uint 1 key_sequence_number Hk) as (bs & E & D).
  exists bs. split; [done|]. intros rest. unfold key_identifier_deserialize.
  rewrite decide_False, decide_True by done. unfold nom_map. by rewrite D.
Qed.

(** ** The wire format *)

Lemma secured_data_roundtrips d :
  secured_ok d -> roundtrips_all secured_data_serialize secured_data_deserialize d.
Proof.
  intros (Hk & Hc & He).
  destruct (security_control_spec 0 (key_identifier d) (bool_decide (is_Some (extended_source d))))
    as (Hsc & G1 & G2 & G3); [lia|].
  set (sc := security_control _ _ _) in *.
  destruct (roundtrips_uint 1 sc Hsc) as (b1 & E1 & D1).
  destruct (roundtrips_uint 4 (frame_counter d) Hc) as (b2 & E2 & D2).
  destruct (roundtrips_option (serialize_uint 8) (deserialize_uint 8) (extended_source d)) as (b3 & E3 & D3).
  { intros a Ha. apply roundtrips_uint. by apply He. }
  destruct (key_identifier_roundtrips (key_identifier d) Hk) as (b4 & E4 & D4).
  exists (b1 ++ b2 ++ b3 ++ b4 ++ payload d). split.
  - intros target. unfold secured_data_serialize. fold sc. rewrite E1. cbn. rewrite E2. cbn. rewrite E3. cbn.
    rewrite E4. cbn. by rewrite <- !(assoc_L (++)).
  - unfold secured_data_deserialize. rewrite D1. cbn [mbind result_bind]. rewrite G1. rewrite decide_False by tauto.
    rewrite D2. cbn [mbind result_bind]. rewrite G3, bool_to_Z_neqb, D3. cbn [mbind result_bind].
    rewrite G2, D4. cbn. by destruct d.
Qed.

Lemma securable_roundtrips {T} (ser : serializer T) de s :
  match s with Secured d => secured_ok d | Unsecured x => roundtrips_all ser de x end ->
  roundtrips_all (securable_serialize ser) (securable_deserialize de (is_secured s)) s.
Proof.
  destruct s as [d|x]; cbn.
  - intros Hd. destruct (secured_data_roundtrips d Hd) as (bs & E & D). exists bs.
    split; [done|]. unfold nom_map. by rewrite D.
  - intros (bs & E & D). exists bs. split; [done|]. unfold nom_map. by rewrite D.
Qed.

(** What [SecurableTagged] asks of its payload. *)
Definition tagged_ok {Tag T} (ser : serializer T) (tag_of : T -> result SerializeError Tag)
    (de : Tag -> deserializer T) (s : SecurableTagged Tag T) : Prop :=
  match s with
  | TSecured _ d => secured_ok d
  | TUnsecured x => exists tag, tag_of x = Ok tag /\ roundtrips_all ser (de tag) x
  end.

Lemma securable_tagged_roundtrips {Tag T} (ser : serializer T) tag_of (de : Tag -> deserializer T) s :
  tagged_ok ser tag_of de s ->
  exists tag, securable_tagged_tag tag_of s = Ok tag /\
    roundtrips_all (securable_tagged_serialize ser) (securable_tagged_deserialize de tag) s.
Proof.
  destruct s as [t d|x]; cbn.
  - intros Hd. exists (true, t). split; [done|].
    destruct (secured_data_roundtrips d Hd) as (bs & E & D). exists bs. split; [done|].
    unfold securable_tagged_deserialize. cbn. by rewrite D.
  - intros (t & -> & bs & E & D). exists (false, t). split; [done|]. exists bs. split; [done|].
    unfold securable_tagged_deserialize. cbn. by rewrite D.
Qed.

(** What is secured, and what could be, is read back from the wire as it was written:
    secured data; a payload that is secured or not, given whether it is; and one whose own
    tag stays readable, given the tag that its serialization announces. *)
Theorem secured_roundtrip {Tag T} (ser : serializer T) tag_of (de : Tag -> deserializer T) :
  (forall d, secured_ok d -> roundtrips_all secured_data_serialize secured_data_deserialize d) /\
  (forall (s : Securable T) tag,
    match s with Secured d => secured_ok d | Unsecured x => roundtrips_all ser (de tag) x end ->
    roundtrips_all (securable_serialize ser) (securable_deserialize (de tag) (is_secured s)) s) /\
  (forall s, tagged_ok ser tag_of de s ->
    exists tag, securable_tagged_tag tag_of s = Ok tag /\
      roundtrips_all (securable_tagged_serialize ser) (securable_tagged_deserialize de tag) s).
Proof.
  split; [exact secured_data_roundtrips|]. split; [intros s tag; apply securable_roundtrips|].
  apply securable_tagged_roundtrips.
Qed.

(** ** Encryption *)

Context `{!Hmac}.
Context {C : Type} `{!BlockCipher 16 C, !BlockCipherLaws 16 C, !Ctr C, !CtrLaws C}.

Lemma generate_nonce_length k fc ext level src n :
  generate_nonce k fc ext level src = Some n -> length n = 15%nat.
Proof.
  unfold generate_nonce. destruct (ok _) as [n1|]; cbn; [|done].
  destruct (ok _) as [n2|]; cbn; [|done]. destruct (ok _) as [n3|]; cbn; [|done].
  intros [= <-]. apply length_resize.
Qed.

Lemma security_level_range level : 0 <= security_level_into level < 8.
Proof. destruct level as [[] []]; by vm_compute. Qed.

Lemma generate_associated_data_length k fc ext level ad r :
  key_ok k -> in_width 32 fc -> (forall a, ext = Some a -> in_width 64 a) ->
  generate_associated_data k fc ext level ad = Ok r -> (length r <= length ad + 14)%nat.
Proof.
  intros Hk Hf He. unfold generate_associated_data.
  destruct (security_control_spec (security_level_into level) k (bool_decide (is_Some ext)))
    as [Hsc _]; [apply security_level_range|].
  set (sc := security_control _ _ _) in *.
  rewrite (encodes_uint 1 sc Hsc). cbn. rewrite (encodes_uint 4 fc Hf). cbn.
  pose proof (length_uint_bytes 1 sc Hsc). pose proof (length_uint_bytes 4 fc Hf).
  destruct ext as [a|]; cbn.
  - specialize (He a eq_refl). rewrite (encodes_uint 8 a He). cbn. pose proof (length_uint_bytes 8 a He).
    destruct k; cbn in Hk |- *; rewrite ?(encodes_uint 1 _ Hk);
      intros [= <-]; rewrite ?length_app in *; try pose proof (length_uint_bytes 1 _ Hk); lia.
  - destruct k; cbn in Hk |- *; rewrite ?(encodes_uint 1 _ Hk);
      intros [= <-]; rewrite ?length_app in *; try pose proof (length_uint_bytes 1 _ Hk); lia.
Qed.


Lemma ccm_for_size key level : size_of (C := C) (ccm_for key level) = 2%nat.
Proof. done. Qed.







Lemma generate_nonce_Some k fc ext level src :
  in_width 32 fc -> in_width 64 src -> is_Some (generate_nonce k fc ext level src).
Proof.
  intros Hf Hs. unfold generate_nonce.
  destruct (security_control_spec (security_level_into level) k ext) as [Hsc _]; [apply security_level_range|].
  rewrite (encodes_uint 8 src Hs). cbn [ok mbind option_bind].
  rewrite (encodes_uint 4 fc Hf). cbn [ok mbind option_bind].
  by rewrite (encodes_uint 1 _ Hsc).
Qed.
Lemma generate_associated_data_Ok k fc ext level ad :
  key_ok k -> in_width 32 fc -> (forall a, ext = Some a -> in_width 64 a) ->
  exists r, generate_associated_data k fc ext level ad = Ok r.
Proof.
  intros Hk Hf He. unfold generate_associated_data.
  destruct (security_control_spec (security_level_into level) k (bool_decide (is_Some ext)))
    as [Hsc _]; [apply security_level_range|].
  rewrite (encodes_uint 1 _ Hsc). cbn [mbind result_bind]. rewrite (encodes_uint 4 fc Hf). cbn [mbind result_bind].
  destruct (key_identifier_roundtrips k Hk) as (bk & Ek & _).
  destruct (roundtrips_option (serialize_uint 8) (deserialize_uint 8) ext) as (be & Ee & _).
  { intros a Ha. apply roundtrips_uint. by apply He. }
  rewrite Ee. cbn [mbind result_bind]. rewrite Ek. eauto.
Qed.

(** Encrypting succeeds whenever the store has the key: a message of less than
    [2 ^ 16] bytes becomes secured data with the header asked for; without the key there is
    none, and nothing panics. *)
Theorem secured_encrypt_total m ad level k fc ext src store :
  key_ok k -> in_width 32 fc -> in_width 64 src ->
  Z.of_nat (length ad) < 2 ^ 62 -> Z.of_nat (length m) < 2 ^ 16 ->
  match generate_encryption_key k store with
  | None => encrypt (C := C) m ad level k fc ext src store = Ok None
  | Some _ => exists p, encrypt (C := C) m ad level k fc ext src store =
      Ok (Some {| key_identifier := k; frame_counter := fc;
                  extended_source := if ext then Some src else None; payload := p |}) /\
      length p = (length m + CCM.tag_size (mic_len_into (mig_len level)))%nat
  end.
Proof.
  intros Hk Hf Hs Ha Hm. unfold encrypt.
  destruct (generate_encryption_key k store) as [key|]; cbn [or_none]; [|done].
  destruct (generate_nonce_Some k fc ext level src Hf Hs) as [n En]. rewrite En. cbn [or_none].
  apply generate_nonce_length in En.
  destruct (generate_associated_data_Ok k fc (if ext then Some src else None) level ad Hk Hf) as [aad Ea].
  { intros a. destruct ext; naive_solver. }
  rewrite Ea. cbn [or_none ok]. apply generate_associated_data_length in Ea; try done.
  2: { intros a. destruct ext; naive_solver. }
  cbn zeta. set (c := ccm_for (C := C) key level).
  destruct (encryption level).
  - rewrite encrypt_spec by (done || lia).
    rewrite decide_True by (unfold c; rewrite ccm_for_size; cbn; lia).
    eexists. split; [done|]. by rewrite length_ccm_star.
  - rewrite encrypt_spec by (done || (rewrite length_app; lia)).
    rewrite decide_True by (unfold c; rewrite ccm_for_size; cbn; lia).
    eexists. split; [done|]. rewrite length_app. by rewrite length_ccm_star.
Qed.

(** The key for loading keys is derived from the one for transporting them; the key the
    store has for it is never used. *)
Lemma key_load_unused k data network transport load load' :
  generate_encryption_key k {| store_data := data; store_network := network;
    store_key_transport := transport; store_key_load := load |}
  = generate_encryption_key k {| store_data := data; store_network := network;
    store_key_transport := transport; store_key_load := load' |}.
Proof. done. Qed.
End theory.

(** ** With AES *)

Import Aes.
#[local] Existing Instance BitRange_reference.
#[local] Existing Instance BitRange_reference_laws.
#[local] Existing Instance ParseSerialize_reference.
#[local] Existing Instance ParseSerialize_reference_laws.

(** The keyed hash of RFC 2104 with blocks of 16 bytes. *)
#[local] Instance Hmac_reference : Hmac := fun key m =>
  let pad x := xor_bytes key (replicate 16 x) in
  MMO.mmo_hash (C := Aes128) (pad 92 ++ MMO.mmo_hash (C := Aes128) (pad 54 ++ m)).

Definition transport_key : list Z :=
  [90; 105; 103; 66; 101; 101; 65; 108; 108; 105; 97; 110; 99; 101; 48; 57].
Definition transport_store : KeyStore :=
  {| store_data := None; store_network := ∅; store_key_transport := Some transport_key;
     store_key_load := None |}.
Definition secured_frame : list Z :=
  [16; 1; 0; 0; 0; 227; 189; 24; 116; 9; 44; 44; 163; 88; 29; 138; 35; 185; 108; 59; 128;
   240; 173; 39; 28; 89; 138; 223; 39; 188; 33; 199; 71; 240; 49; 116; 128; 188; 140; 83;
   136; 17; 143; 2].
Definition transport_header : list Z := [33; 6].
Definition transport_source : Z := 5149013196761109.
Definition transport_plaintext : list Z :=
  [5; 1; 65; 113; 97; 114; 97; 72; 117; 98; 0; 0; 0; 0; 0; 0; 0; 0; 0; 6; 99; 28; 254; 255;
   94; 207; 208; 21; 104; 137; 14; 0; 75; 18; 0].
Definition encrypted_mic32 : SecurityLevel := {| encryption := true; mig_len := MIC32 |}.

(** [test_decode_transport_key] *)
Definition test_decode_transport_key : bool :=
  match secured_data_deserialize secured_frame with
  | Ok (_, parsed) =>
      bool_decide (decrypt (C := Aes128) parsed transport_header encrypted_mic32 transport_source
                     transport_store = Ok (Some transport_plaintext)) &&
      match encrypt (C := Aes128) transport_plaintext transport_header encrypted_mic32 KeyTransport 1
              false transport_source transport_store with
      | Ok (Some recrypted) => bool_decide (ok (secured_data_serialize recrypted []) = Some secured_frame)
      | _ => false
      end
  | Err _ => false
  end.
Example decode_transport_key_passes : test_decode_transport_key = true.
Proof. vm_compute. reflexivity. Qed.

(** [test_crypt_device_announcement] *)
Definition announcement_store : KeyStore :=
  {| store_data := None;
     store_network :=
       {[ 0 := [65; 113; 97; 114; 97; 72; 117; 98; 0; 0; 0; 0; 0; 0; 0; 0] ]};
     store_key_transport := Some transport_key; store_key_load := None |}.
Definition announcement_source : Z := 15046349333641061126.
Definition announcement : SecuredData :=
  {| key_identifier := KeyNetwork 0; frame_counter := 0; extended_source := Some announcement_source;
     payload :=
       [108; 65; 177; 141; 28; 241; 33; 196; 83; 200; 217; 207; 165; 242; 188; 23; 156; 251;
        238; 64; 3; 120; 35; 45] |}.
Definition announcement_header : list Z :=
  [8; 18; 253; 255; 139; 85; 30; 251; 6; 99; 28; 254; 255; 94; 207; 208].
Definition announcement_plaintext : list Z :=
  [8; 0; 19; 0; 0; 0; 0; 150; 129; 139; 85; 6; 99; 28; 254; 255; 94; 207; 208; 128].
Definition test_crypt_device_announcement : bool :=
  bool_decide (decrypt (C := Aes128) announcement announcement_header encrypted_mic32
    announcement_source announcement_store = Ok (Some announcement_plaintext)).
Example crypt_device_announcement_passes : test_crypt_device_announcement = true.
Proof. vm_compute. reflexivity. Qed.

Lemma announcement_ok : secured_ok announcement.
Proof.
  split; [done|]. split; [unfold in_width; cbn [announcement frame_counter]; lia|].
  intros a [= <-]. unfold in_width, announcement_source. lia.
Qed.

Lemma secured_roundtrip_witness :
  secured_ok announcement /\
  roundtrips_all secured_data_serialize secured_data_deserialize announcement.
Proof.
  split; [exact announcement_ok|].
  destruct (secured_roundtrip (T := list Z) (serialize_array 0) (fun _ => Ok tt) (fun _ => nom_rest))
    as [H _].
  exact (H announcement announcement_ok).
Defined.


Lemma secured_encrypt_total_witness :
  exists p, encrypt (C := Aes128) announcement_plaintext announcement_header encrypted_mic32
      KeyTransport 0 true announcement_source announcement_store =
    Ok (Some {| key_identifier := KeyTransport; frame_counter := 0;
                extended_source := Some announcement_source; payload := p |}).
Proof.
  pose proof (secured_encrypt_total (C := Aes128) announcement_plaintext announcement_header
    encrypted_mic32 KeyTransport 0 true announcement_source announcement_store) as H.
  change (generate_encryption_key KeyTransport announcement_store)
    with (Some (hmac_mmo transport_key [0])) in H.
  destruct H as (p & E & _); [exact I|by vm_compute|by vm_compute|reflexivity|reflexivity|].
  exists p. exact E.
Defined.
