(* ===== verification/Nwk.v ===== *)
(** * Zigbee network frames ([old_src/zigbee/nwk/frame.rs])

    The frame, its control word and its source route, written and read with the traits
    of [ParseSerialize.v]; [nwk_frame_roundtrip] says which frames can be written and
    what of those is read back. *)

From Stdlib Require Import ZArith Lia String.
From S2P Require Import Prelude.
From S2P Require Import BitField.
From S2P Require Import ParseSerialize.
From S2P Require Import Security.
From S2P Require Import SecurityTheory.

#[local] Open Scope Z_scope.

Module Nwk.

Inductive FrameType := Data (payload : list Z) | Command (payload : list Z) | InterPAN (payload : list Z).

Inductive DiscoverRoute := SupressRouteDiscovery | EnableRouteDiscovery.
Definition discover_route_as_num (d : DiscoverRoute) : Z :=
  match d with SupressRouteDiscovery => 0 | EnableRouteDiscovery => 1 end.
(** [TryFromPrimitive] *)
Definition discover_route_try_from (x : Z) : option DiscoverRoute :=
  if decide (x = 0) then Some SupressRouteDiscovery
  else if decide (x = 1) then Some EnableRouteDiscovery else None.

Record SourceRoute := { relay_index : Z; relay_list : list Z }.

Record Frame := {
  frame_type : Sec.SecurableTagged Z FrameType;
  protocol_version : Z;
  destination : Z;
  source : Z;
  radius : Z;
  sequence_number : Z;
  discover_route : DiscoverRoute;
  destination_ext : option Z;
  source_ext : option Z;
  source_route : option SourceRoute;
}.

Module FrameControl.
Definition frame_type := BF 1 0.
Definition protocol_version := BF 5 2.
Definition discover_route := BF 7 6.
Definition multicast_flag := BF 8 8.
Definition security := BF 9 9.
Definition source_route := BF 10 10.
Definition destination_ieee_address := BF 11 11.
Definition source_ieee_address := BF 12 12.
Definition reserved := BF 15 13.
End FrameControl.

Section nwk.
Context `{!ParseSerialize, !BitRange}.

Definition frame_type_serialize (t : FrameType) (target : list Z) : result SerializeError (list Z) :=
  match t with
  | Data payload => Ok (target ++ payload)
  | _ => Err (ser_Unimplemented "Not yet implemented")
  end.
Definition frame_type_tag (t : FrameType) : result SerializeError Z :=
  Ok match t with Data _ => 0 | Command _ => 1 | InterPAN _ => 3 end.
Definition frame_type_deserialize (tag : Z) : deserializer FrameType :=
  fun input =>
    if decide (tag = 0) then nom_map nom_rest Data input else Err (de_unexpected_data input).

Definition source_route_serialize (r : SourceRoute) (target : list Z) : result SerializeError (list Z) :=
  let len := length (relay_list r) in
  if decide (255 < len)%nat then Err ser_UnexpectedData
  else
    target ← serialize_pair (serialize_uint 1) (serialize_uint 1) (Z.of_nat len, relay_index r) target;
    serialize_all (serialize_uint 2) (relay_list r) target.
Definition source_route_deserialize : deserializer SourceRoute := fun input =>
  '(input, (len, index)) ← deserialize_pair (deserialize_uint 1) (deserialize_uint 1) input;
  '(input, relays) ← nom_count (deserialize_uint 2) (Z.to_nat len) input;
  Ok (input, {| relay_index := index; relay_list := relays |}).

Definition frame_control (f : Frame) (tag : bool * Z) : Z :=
  let fsf := 0 in
  let fsf := set_field FrameControl.frame_type (snd tag) fsf in
  let fsf := set_field FrameControl.protocol_version (protocol_version f) fsf in
  let fsf := set_field FrameControl.discover_route (discover_route_as_num (discover_route f)) fsf in
  let fsf := set_field FrameControl.multicast_flag 0 fsf in
  let fsf := set_field FrameControl.security (bool_to_Z (fst tag)) fsf in
  let fsf := set_field FrameControl.source_route
               (bool_to_Z (bool_decide (is_Some (source_route f)))) fsf in
  let fsf := set_field FrameControl.destination_ieee_address
               (bool_to_Z (bool_decide (is_Some (destination_ext f)))) fsf in
  let fsf := set_field FrameControl.source_ieee_address
               (bool_to_Z (bool_decide (is_Some (source_ext f)))) fsf in
  set_field FrameControl.reserved 0 fsf.

Definition frame_serialize (f : Frame) (target : list Z) : result SerializeError (list Z) :=
  frame_type_tag ← Sec.securable_tagged_tag frame_type_tag (frame_type f);
  if decide (15 < protocol_version f) then Err ser_UnexpectedData
  else
    let fsf := frame_control f frame_type_tag in
    target ← serialize_pair (serialize_uint 2)
               (serialize_pair (serialize_uint 2)
                 (serialize_pair (serialize_uint 2)
                   (serialize_pair (serialize_uint 1) (serialize_uint 1))))
               (fsf, (destination f, (source f, (radius f, sequence_number f)))) target;
    target ← serialize_option (serialize_uint 8) (destination_ext f) target;
    target ← serialize_option (serialize_uint 8) (source_ext f) target;
    target ← serialize_option source_route_serialize (source_route f) target;
    Sec.securable_tagged_serialize frame_type_serialize (frame_type f) target.

Definition frame_deserialize : deserializer Frame := fun input =>
  '(input, fsf) ← deserialize_uint 2 input;
  let protocol_version := get_field FrameControl.protocol_version fsf in
  match discover_route_try_from (get_field FrameControl.discover_route fsf) with
  | None => Err (de_invalid_enum input)
  | Some discover_route =>
      if decide (get_field FrameControl.multicast_flag fsf <> 0) then
        Err (de_unimplemented input "Multicast not yet supported")
      else if decide (get_field FrameControl.reserved fsf <> 0) then
        Err (de_unimplemented input "Reserved was not 0")
      else
        '(input, (destination, (source, (radius, sequence_number)))) ←
          deserialize_pair (deserialize_uint 2)
            (deserialize_pair (deserialize_uint 2)
              (deserialize_pair (deserialize_uint 1) (deserialize_uint 1))) input;
        '(input, destination_ext) ←
          nom_cond (negb (get_field FrameControl.destination_ieee_address fsf =? 0))
            (deserialize_uint 8) input;
        '(input, source_ext) ←
          nom_cond (negb (get_field FrameControl.source_ieee_address fsf =? 0))
            (deserialize_uint 8) input;
        '(input, source_route) ←
          nom_cond (negb (get_field FrameControl.source_route fsf =? 0)) source_route_deserialize input;
        '(input, frame_type) ←
          Sec.securable_tagged_deserialize frame_type_deserialize
            (negb (get_field FrameControl.security fsf =? 0), get_field FrameControl.frame_type fsf) input;
        Ok (input, {| frame_type := frame_type; protocol_version := protocol_version;
                      destination := destination; source := source; radius := radius;
                      sequence_number := sequence_number; discover_route := discover_route;
                      destination_ext := destination_ext; source_ext := source_ext;
                      source_route := source_route |})
  end.

(** ** Round trip *)

Context `{!ParseSerializeLaws, !BitRangeLaws}.

(** The integers are those of their types. *)
Definition route_ok (r : SourceRoute) : Prop :=
  in_width 8 (relay_index r) /\ forall a, a ∈ relay_list r -> in_width 16 a.
Definition frame_ok (f : Frame) : Prop :=
  in_width 8 (protocol_version f) /\ in_width 16 (destination f) /\ in_width 16 (source f) /\
  in_width 8 (radius f) /\ in_width 8 (sequence_number f) /\
  (forall a, destination_ext f = Some a -> in_width 64 a) /\
  (forall a, source_ext f = Some a -> in_width 64 a) /\
  (forall r, source_route f = Some r -> route_ok r) /\
  match frame_type f with
  | Sec.TSecured tag d => in_width 16 tag /\ secured_ok d
  | Sec.TUnsecured _ => True
  end.
(** The control word has two bits for the tag of a secured frame, which is not looked into:
    what is left of it in the bytes. *)
Definition written_type (t : Sec.SecurableTagged Z FrameType) : Sec.SecurableTagged Z FrameType :=
  match t with Sec.TSecured tag d => Sec.TSecured (tag mod 4) d | Sec.TUnsecured x => Sec.TUnsecured x end.
Definition as_written (f : Frame) : Frame :=
  {| frame_type := written_type (frame_type f); protocol_version := protocol_version f;
     destination := destination f; source := source f; radius := radius f;
     sequence_number := sequence_number f; discover_route := discover_route f;
     destination_ext := destination_ext f; source_ext := source_ext f;
     source_route := source_route f |}.
Definition tag_fits (f : Frame) : Prop :=
  match frame_type f with Sec.TSecured tag _ => tag < 4 | Sec.TUnsecured _ => True end.
(** What the code can write. *)
Definition serializable (f : Frame) : Prop :=
  protocol_version f <= 15 /\
  (forall r, source_route f = Some r -> (length (relay_list r) <= 255)%nat) /\
  match frame_type f with
  | Sec.TSecured _ _ | Sec.TUnsecured (Data _) => True
  | Sec.TUnsecured _ => False
  end.

Lemma source_route_roundtrips r :
  route_ok r -> (length (relay_list r) <= 255)%nat ->
  roundtrips source_route_serialize source_route_deserialize r.
Proof.
  intros [Hi Hr] Hl.
  destruct (roundtrips_pair (serialize_uint 1) (deserialize_uint 1) (serialize_uint 1) (deserialize_uint 1)
    (Z.of_nat (length (relay_list r))) (relay_index r)) as (b1 & E1 & D1).
  1, 2: apply roundtrips_uint; [unfold in_width; lia || done].
  destruct (roundtrips_count (serialize_uint 2) (deserialize_uint 2) (relay_list r)) as (b2 & E2 & D2).
  { intros a Ha. apply roundtrips_uint. by apply Hr. }
  exists (b1 ++ b2). split.
  - intros target. unfold source_route_serialize. rewrite decide_False by lia. rewrite E1. cbn.
    by rewrite E2, (assoc_L (++)).
  - intros rest. unfold source_route_deserialize. rewrite <- (assoc_L (++)), D1. cbn.
    rewrite Nat2Z.id, D2. cbn. by destruct r.
Qed.

Lemma discover_route_again d : discover_route_try_from (discover_route_as_num d) = Some d.
Proof. by destruct d. Qed.

Lemma frame_control_spec f tag :
  0 <= protocol_version f <= 15 -> 0 <= snd tag < 4 ->
  let fsf := frame_control f tag in
  in_width 16 fsf /\
  get_field FrameControl.frame_type fsf = snd tag /\
  get_field FrameControl.protocol_version fsf = protocol_version f /\
  get_field FrameControl.discover_route fsf = discover_route_as_num (discover_route f) /\
  get_field FrameControl.multicast_flag fsf = 0 /\
  get_field FrameControl.security fsf = bool_to_Z (fst tag) /\
  get_field FrameControl.source_route fsf = bool_to_Z (bool_decide (is_Some (source_route f))) /\
  get_field FrameControl.destination_ieee_address fsf
    = bool_to_Z (bool_decide (is_Some (destination_ext f))) /\
  get_field FrameControl.source_ieee_address fsf = bool_to_Z (bool_decide (is_Some (source_ext f))) /\
  get_field FrameControl.reserved fsf = 0.
Proof.
  intros Hv Ht fsf.
  set (fields := [(FrameControl.frame_type, snd tag); (FrameControl.protocol_version, protocol_version f);
    (FrameControl.discover_route, discover_route_as_num (discover_route f));
    (FrameControl.multicast_flag, 0); (FrameControl.security, bool_to_Z (fst tag));
    (FrameControl.source_route, bool_to_Z (bool_decide (is_Some (source_route f))));
    (FrameControl.destination_ieee_address, bool_to_Z (bool_decide (is_Some (destination_ext f))));
    (FrameControl.source_ieee_address, bool_to_Z (bool_decide (is_Some (source_ext f))));
    (FrameControl.reserved, 0)]).
  change fsf with (write_fields fields 0).
  assert (0 <= discover_route_as_num (discover_route f) < 2) as Hd by (destruct (discover_route f); cbn; lia).
  assert (writes_ok 16 fields) as Hw.
  { unfold fields.
    repeat match goal with |- context [bool_to_Z ?b] =>
      pose proof (bool_to_Z_range b); generalize dependent (bool_to_Z b) end.
    generalize dependent (discover_route_as_num (discover_route f)). intros. solve_writes. }
  assert (no_overlap fields.*1 = true) as Hn by done.
  split; [apply (write_fields_width 16 fields 0); done|].
  split_and!; solve_field 16 fields.
Qed.

Lemma frame_type_roundtrips t :
  match t with Data _ => True | _ => False end ->
  exists tag, frame_type_tag t = Ok tag /\
    roundtrips_all frame_type_serialize (frame_type_deserialize tag) t.
Proof.
  destruct t as [payload| |]; try done. intros _. exists 0. split; [done|]. by exists payload.
Qed.

Lemma securable_tag_ok f :
  frame_ok f -> tag_fits f -> serializable f ->
  exists tag, Sec.securable_tagged_tag frame_type_tag (frame_type f) = Ok tag /\ 0 <= snd tag < 4 /\
    roundtrips_all (Sec.securable_tagged_serialize frame_type_serialize)
      (Sec.securable_tagged_deserialize frame_type_deserialize tag) (frame_type f).
Proof.
  intros (_ & _ & _ & _ & _ & _ & _ & _ & Ht) Hf (_ & _ & Hs). unfold tag_fits in Hf.
  destruct (frame_type f) as [tag d|x] eqn:E.
  - destruct (securable_tagged_roundtrips frame_type_serialize frame_type_tag frame_type_deserialize
      (Sec.TSecured tag d)) as (t & Et & R); [apply Ht|].
    injection Et as <-. exists (true, tag). destruct Ht as [[? _] _].
    split_and!; [done|cbn; lia|cbn; lia|exact R].
  - destruct x as [payload| |]; try done.
    destruct (securable_tagged_roundtrips frame_type_serialize frame_type_tag frame_type_deserialize
      (Sec.TUnsecured (Data payload))) as (t & Et & R); [by apply frame_type_roundtrips|].
    injection Et as <-. exists (false, 0). split_and!; [done|cbn; lia|cbn; lia|exact R].
Qed.

Lemma header_roundtrips f :
  in_width 16 (destination f) -> in_width 16 (source f) -> in_width 8 (radius f) ->
  in_width 8 (sequence_number f) ->
  roundtrips
    (serialize_pair (serialize_uint 2) (serialize_pair (serialize_uint 2)
      (serialize_pair (serialize_uint 1) (serialize_uint 1))))
    (deserialize_pair (deserialize_uint 2) (deserialize_pair (deserialize_uint 2)
      (deserialize_pair (deserialize_uint 1) (deserialize_uint 1))))
    (destination f, (source f, (radius f, sequence_number f))).
Proof. auto with codec. Qed.

(** A frame that cannot be written. *)
Lemma not_serializable f target :
  frame_ok f -> ~ serializable f -> exists e, frame_serialize f target = Err e.
Proof.
  intros Hok Hs. unfold frame_serialize.
  destruct (Sec.securable_tagged_tag frame_type_tag (frame_type f)) as [tag|e] eqn:Et; cbn [mbind result_bind]; [|eauto].
  destruct (decide (15 < protocol_version f)) as [Hv|Hv]; [eauto|].
  destruct (serialize_pair _ _ _ target) as [t1|]; cbn [mbind result_bind]; [|eauto].
  destruct (serialize_option _ (destination_ext f) t1) as [t2|]; cbn [mbind result_bind]; [|eauto].
  destruct (serialize_option _ (source_ext f) t2) as [t3|]; cbn [mbind result_bind]; [|eauto].
  destruct (serialize_option source_route_serialize (source_route f) t3) as [t4|] eqn:Er;
    cbn [mbind result_bind]; [|eauto].
  destruct (frame_type f) as [? d|[]] eqn:Ef; cbn; try (by eauto); destruct Hs; (split_and!; [lia| |by rewrite Ef]);
    intros r Hr; rewrite Hr in Er; cbn in Er; unfold source_route_serialize in Er;
    destruct (decide (255 < length (relay_list r))%nat); done || lia.
Qed.

(** A frame whose tag fits is read back. *)
Lemma fitting_roundtrips f :
  frame_ok f -> tag_fits f -> serializable f -> roundtrips_all frame_serialize frame_deserialize f.
Proof.
  intros Hok Hf Hs. destruct (securable_tag_ok f Hok Hf Hs) as (tag & Et & Htag & b5 & E5 & D5).
  destruct Hok as (Hv & Hd & Hsrc & Hr & Hn & Hde & Hse & Hsr & _). destruct Hs as (Hv15 & Hl & _).
  unfold in_width in Hv.
  destruct (frame_control_spec f tag) as (Hw & G1 & G2 & G3 & G4 & G5 & G6 & G7 & G8 & G9); [lia|done|].
  set (fsf := frame_control f tag) in *.
  destruct (roundtrips_uint 2 fsf Hw) as (b0 & E0 & D0).
  destruct (header_roundtrips f Hd Hsrc Hr Hn) as (b1 & E1 & D1).
  destruct (roundtrips_option (serialize_uint 8) (deserialize_uint 8) (destination_ext f)) as (b2 & E2 & D2).
  { intros a Ha. apply roundtrips_uint. by apply Hde. }
  destruct (roundtrips_option (serialize_uint 8) (deserialize_uint 8) (source_ext f)) as (b3 & E3 & D3).
  { intros a Ha. apply roundtrips_uint. by apply Hse. }
  destruct (roundtrips_option source_route_serialize source_route_deserialize (source_route f))
    as (b4 & E4 & D4).
  { intros r Hr'. apply source_route_roundtrips; [by apply Hsr|by apply Hl]. }
  exists (b0 ++ b1 ++ b2 ++ b3 ++ b4 ++ b5). split.
  + intros target. unfold frame_serialize. rewrite Et. cbn [mbind result_bind].
    rewrite decide_False by lia. fold fsf. rewrite serialize_pair_spec, E0. cbn [mbind result_bind].
    rewrite E1. cbn [mbind result_bind]. rewrite E2. cbn [mbind result_bind]. rewrite E3.
    cbn [mbind result_bind]. rewrite E4. cbn [mbind result_bind]. rewrite E5.
    by rewrite <- !(assoc_L (++)).
  + unfold frame_deserialize. rewrite D0. cbn [mbind result_bind].
    rewrite G3, discover_route_again, G4, G9. rewrite !decide_False by tauto.
    rewrite D1. cbn [mbind result_bind]. rewrite G7, bool_to_Z_neqb, D2. cbn [mbind result_bind].
    rewrite G8, bool_to_Z_neqb, D3. cbn [mbind result_bind].
    rewrite G6, bool_to_Z_neqb, D4. cbn [mbind result_bind].
    rewrite G5, G1, bool_to_Z_neqb, <- surjective_pairing, D5. cbn [mbind result_bind].
    rewrite G2. by destruct f.
Qed.

(** No other bit of the tag gets into the bytes. *)
Lemma serialize_as_written f target :
  frame_ok f -> frame_serialize f target = frame_serialize (as_written f) target.
Proof.
  intros (_ & _ & _ & _ & _ & _ & _ & _ & Ht). unfold frame_serialize, as_written. cbn [frame_type].
  destruct (frame_type f) as [tag d|x]; [|done]. destruct Ht as [[Ht _] _].
  cbn [written_type Sec.securable_tagged_tag mbind result_bind Sec.securable_tagged_serialize].
  unfold frame_control. cbn [snd]. unfold set_field at 9. unfold set_field at 17.
  by rewrite (set_bit_range_mod 0 1 0 tag).
Qed.
Lemma as_written_ok f :
  frame_ok f -> frame_ok (as_written f) /\ tag_fits (as_written f) /\
  (serializable f -> serializable (as_written f)) /\ (tag_fits f -> as_written f = f).
Proof.
  unfold frame_ok, tag_fits, serializable, as_written.
  destruct f as [[tag d|x]]; cbn -[Z.pow]; [|intros Hf; split; [exact Hf|by split_and!]].
  intros (? & ? & ? & ? & ? & ? & ? & ? & [[? ?] ?]). pose proof (Z.mod_pos_bound tag 4 ltac:(lia)).
  split; [split_and!; done || (unfold in_width; lia)|]. split; [lia|]. split; [done|].
  intros. by rewrite Z.mod_small by lia.
Qed.

(** C39: The network frames that can be written, those of a version of four bits, with at
    most 255 relays, and secured or carrying data, are read back as they were written,
    but for the tag of a secured frame: two of its sixteen bits are written, without an
    error, so that the frame is the same again exactly if its tag is below four.  Every other
    frame is refused with an error. *)
Theorem nwk_frame_roundtrip f :
  frame_ok f ->
  (serializable f -> exists bytes, (forall target, frame_serialize f target = Ok (target ++ bytes)) /\
     frame_deserialize bytes = Ok ([], as_written f) /\ (as_written f = f <-> tag_fits f)) /\
  (~ serializable f -> exists e, frame_serialize f [] = Err e).
Proof.
  intros Hok. split; [|by apply not_serializable]. intros Hs.
  destruct (as_written_ok f Hok) as (Hok' & Hf & Hs' & He).
  destruct (fitting_roundtrips (as_written f) Hok' Hf (Hs' Hs)) as (bytes & E & D).
  exists bytes. split; [intros target; by rewrite serialize_as_written|]. split; [done|].
  split; [|done]. intros <-. exact Hf.
Qed.
End nwk.

(** ** The code's tests *)

Definition test_zigbee_nwk_frame_transport_key : Frame * list Z :=
  ({| frame_type := Sec.TUnsecured (Data
        [33; 5; 16; 0; 0; 0; 0; 216; 91; 58; 19; 9; 255; 27; 27; 151; 113; 162; 170; 218; 159;
         59; 43; 37; 20; 53; 50; 41; 148; 211; 243; 209; 162; 152; 218; 147; 102; 156; 141; 255;
         103; 115; 239; 95; 148; 197]);
      protocol_version := 2; destination := 21899; source := 0; radius := 30; sequence_number := 26;
      discover_route := EnableRouteDiscovery; destination_ext := None; source_ext := None;
      source_route := None |},
   [72; 0; 139; 85; 0; 0; 30; 26; 33; 5; 16; 0; 0; 0; 0; 216; 91; 58; 19; 9; 255; 27; 27;
    151; 113; 162; 170; 218; 159; 59; 43; 37; 20; 53; 50; 41; 148; 211; 243; 209; 162; 152;
    218; 147; 102; 156; 141; 255; 103; 115; 239; 95; 148; 197]).
Definition test_zigbee_nwk_frame_device_announcement : Frame * list Z :=
  ({| frame_type := Sec.TSecured 0
        {| Sec.key_identifier := Sec.KeyNetwork 0; Sec.frame_counter := 0;
           Sec.extended_source := Some 15046349333641061126;
           Sec.payload :=
             [108; 65; 177; 141; 28; 241; 33; 196; 83; 200; 217; 207; 165; 242; 188; 23; 156; 251;
              238; 64; 3; 120; 35; 45] |};
      protocol_version := 2; destination := 65533; source := 21899; radius := 30;
      sequence_number := 251; discover_route := SupressRouteDiscovery; destination_ext := None;
      source_ext := Some 15046349333641061126; source_route := None |},
   [8; 18; 253; 255; 139; 85; 30; 251; 6; 99; 28; 254; 255; 94; 207; 208; 40; 0; 0; 0; 0; 6;
    99; 28; 254; 255; 94; 207; 208; 0; 108; 65; 177; 141; 28; 241; 33; 196; 83; 200; 217;
    207; 165; 242; 188; 23; 156; 251; 238; 64; 3; 120; 35; 45]).

#[local] Existing Instance BitRange_reference.
#[local] Existing Instance BitRange_reference_laws.
#[local] Existing Instance ParseSerialize_reference.
#[local] Existing Instance ParseSerialize_reference_laws.

Example nwk_transport_key_passes :
  let '(f, bytes) := test_zigbee_nwk_frame_transport_key in
  frame_serialize f [] = Ok bytes /\ frame_deserialize bytes = Ok ([], f).
Proof. vm_compute. done. Qed.
Example nwk_device_announcement_passes :
  let '(f, bytes) := test_zigbee_nwk_frame_device_announcement in
  frame_serialize f [] = Ok bytes /\ frame_deserialize bytes = Ok ([], f).
Proof. vm_compute. done. Qed.

(** A secured frame with a tag that does not fit. *)
Definition wide_tag_frame : Frame :=
  let f := fst test_zigbee_nwk_frame_device_announcement in
  {| frame_type := match frame_type f with Sec.TSecured _ d => Sec.TSecured 5 d | t => t end;
     protocol_version := protocol_version f; destination := destination f; source := source f;
     radius := radius f; sequence_number := sequence_number f; discover_route := discover_route f;
     destination_ext := destination_ext f; source_ext := source_ext f;
     source_route := source_route f |}.

Lemma nwk_frame_roundtrip_witness :
  let f := wide_tag_frame in
  frame_ok f /\ serializable f /\ exists bytes, frame_serialize f [] = Ok bytes /\
    frame_deserialize bytes = Ok ([], as_written f) /\ as_written f <> f.
Proof.
  assert (frame_ok wide_tag_frame) as Hok.
  { unfold frame_ok, in_width, secured_ok, key_ok, in_width; cbn -[Z.pow].
    split_and!; try lia; try done; intros a [= <-]; lia. }
  assert (serializable wide_tag_frame) as Hs.
  { unfold serializable; cbn. split_and!; done || lia. }
  split; [exact Hok|]. split; [exact Hs|].
  destruct (proj1 (nwk_frame_roundtrip wide_tag_frame Hok) Hs) as (bytes & E & D & He).
  exists bytes. split; [exact (E [])|]. split; [exact D|]. intros Hf%He. cbn in Hf. lia.
Defined.
End Nwk.
