(* ===== verification/Aps.v ===== *)
(** * Zigbee application support frames ([old_src/zigbee/aps/], [old_src/zigbee/mod.rs])

    The transport-key command, which is written and read ([aps_command_roundtrip]), and
    the frames, which are only written ([aps_frame_unambiguous]). *)

From Stdlib Require Import ZArith Lia String.
From S2P Require Import Prelude.
From S2P Require Import BitField.
From S2P Require Import ParseSerialize.
From S2P Require Import Security.
From S2P Require Import SecurityTheory.

#[local] Open Scope Z_scope.

Module Aps.

(** ** Commands ([commands.rs]) *)

Record TrustCenterKeyDescriptor := { tc_key : list Z; tc_destination : Z; tc_source : Z }.
Record NetworkKeyDescriptor :=
  { nk_key : list Z; nk_sequence_number : Z; nk_destination : Z; nk_source : Z }.
Record ApplicationKeyDescriptor := { ak_key : list Z; ak_partner : Z; ak_initiator : bool }.

Inductive KeyDescriptor :=
| TrustCenterMasterKey (x : TrustCenterKeyDescriptor)
| StandardNetworkKey (x : NetworkKeyDescriptor)
| ApplicationMasterKey (x : ApplicationKeyDescriptor)
| ApplicationLinkKey (x : ApplicationKeyDescriptor)
| UniqueTrustCenterLinkKey (x : TrustCenterKeyDescriptor)
| HighSecurityNetworkKey (x : NetworkKeyDescriptor)
| Unknown (x : NetworkKeyDescriptor).

Inductive Command := TransportKey (k : KeyDescriptor).

(** ** Frames ([frame.rs]) *)

Record Payload := MkPayload { payload_bytes : list Z }.

(** [EndpointId], [GroupId], [ClusterId] and [ProfileId] are numbers. *)
Inductive EndpointOrGroup := Endpoint (e : Z) | Group (g : Z).
Inductive DeliveryMode := DMUnicast | DMReserved | DMBroadcast | DMGroup.
Definition delivery_mode_as_num (d : DeliveryMode) : Z :=
  match d with DMUnicast => 0 | DMReserved => 1 | DMBroadcast => 2 | DMGroup => 3 end.
Inductive DataDestination := Unicast (e : Z) | Broadcast (e : Z) | ToGroup (g : Z).

Inductive Frame :=
| Data (ack_request : bool) (destination : DataDestination) (cluster : Z * Z) (source : Z)
    (aps_counter : Z) (extended_header : option unit) (payload : Sec.Securable Payload)
| CommandFrame (delivery_mode : DeliveryMode) (ack_request : bool) (aps_counter : Z)
    (payload : Sec.Securable Command)
| DataAck (destination : Z) (cluster : Z * Z) (source : Z) (aps_counter : Z)
    (extended_header : option unit)
| CommandAck (aps_counter : Z).

Module FrameControl.
Definition frame_type := BF 1 0.
Definition delivery_mode := BF 3 2.
Definition ack_format := BF 4 4.
Definition security := BF 5 5.
Definition ack_request := BF 6 6.
Definition extended_header_present := BF 7 7.
End FrameControl.

Section aps.
Context `{!ParseSerialize, !BitRange}.

(** *** Commands *)

(** The derived implementations: the fields in order. *)
Definition tc_serialize (x : TrustCenterKeyDescriptor) : list Z -> result SerializeError (list Z) :=
  serialize_pair (serialize_array 16) (serialize_pair (serialize_uint 8) (serialize_uint 8))
    (tc_key x, (tc_destination x, tc_source x)).
Definition tc_deserialize : deserializer TrustCenterKeyDescriptor :=
  nom_map (deserialize_pair (deserialize_array 16) (deserialize_pair (deserialize_uint 8) (deserialize_uint 8)))
    (fun '(k, (d, s)) => {| tc_key := k; tc_destination := d; tc_source := s |}).
Definition nk_serialize (x : NetworkKeyDescriptor) : list Z -> result SerializeError (list Z) :=
  serialize_pair (serialize_array 16)
    (serialize_pair (serialize_uint 1) (serialize_pair (serialize_uint 8) (serialize_uint 8)))
    (nk_key x, (nk_sequence_number x, (nk_destination x, nk_source x))).
Definition nk_deserialize : deserializer NetworkKeyDescriptor :=
  nom_map (deserialize_pair (deserialize_array 16)
    (deserialize_pair (deserialize_uint 1) (deserialize_pair (deserialize_uint 8) (deserialize_uint 8))))
    (fun '(k, (n, (d, s))) =>
       {| nk_key := k; nk_sequence_number := n; nk_destination := d; nk_source := s |}).
Definition ak_serialize (x : ApplicationKeyDescriptor) : list Z -> result SerializeError (list Z) :=
  serialize_pair (serialize_array 16) (serialize_pair (serialize_uint 8) serialize_bool)
    (ak_key x, (ak_partner x, ak_initiator x)).
Definition ak_deserialize : deserializer ApplicationKeyDescriptor :=
  nom_map (deserialize_pair (deserialize_array 16) (deserialize_pair (deserialize_uint 8) deserialize_bool))
    (fun '(k, (p, i)) => {| ak_key := k; ak_partner := p; ak_initiator := i |}).

(** [(tag as u8, x).serialize_to] *)
Definition with_tag {A} (tag : Z) (ser : serializer A) (x : A) : list Z -> result SerializeError (list Z) :=
  serialize_pair (serialize_uint 1) ser (tag, x).

Definition key_descriptor_serialize (k : KeyDescriptor) : list Z -> result SerializeError (list Z) :=
  match k with
  | TrustCenterMasterKey x => with_tag 0 tc_serialize x
  | StandardNetworkKey x => with_tag 1 nk_serialize x
  | ApplicationMasterKey x => with_tag 2 ak_serialize x
  | ApplicationLinkKey x => with_tag 3 ak_serialize x
  | UniqueTrustCenterLinkKey x => with_tag 4 tc_serialize x
  | HighSecurityNetworkKey x => with_tag 5 nk_serialize x
  | Unknown x => with_tag 6 nk_serialize x
  end.
Definition key_descriptor_deserialize : deserializer KeyDescriptor := fun input =>
  '(input, key_type) ← deserialize_uint 1 input;
  if decide (key_type = 0) then nom_map tc_deserialize TrustCenterMasterKey input
  else if decide (key_type = 1) then nom_map nk_deserialize StandardNetworkKey input
  else if decide (key_type = 2) then nom_map ak_deserialize ApplicationMasterKey input
  else if decide (key_type = 3) then nom_map ak_deserialize ApplicationLinkKey input
  else if decide (key_type = 4) then nom_map tc_deserialize UniqueTrustCenterLinkKey input
  else if decide (key_type = 5) then nom_map nk_deserialize HighSecurityNetworkKey input
  else if decide (key_type = 6) then nom_map nk_deserialize Unknown input
  else Err (de_unexpected_data input).

Definition command_serialize (c : Command) : list Z -> result SerializeError (list Z) :=
  match c with TransportKey k => with_tag 5 key_descriptor_serialize k end.
Definition command_deserialize : deserializer Command := fun input =>
  '(input, cmd_id) ← deserialize_uint 1 input;
  if decide (cmd_id = 5) then nom_map key_descriptor_deserialize TransportKey input
  else Err (de_unexpected_data input).

(** *** Frames *)

Definition payload_serialize (p : Payload) (target : list Z) : result SerializeError (list Z) :=
  Ok (target ++ payload_bytes p).
Definition payload_deserialize : deserializer Payload := nom_map nom_rest MkPayload.

Definition endpoint_or_group_serialize (x : EndpointOrGroup) (target : list Z) :
    result SerializeError (list Z) :=
  match x with Endpoint e => serialize_uint 1 e target | Group g => serialize_uint 2 g target end.
Definition endpoint_or_group_tag (x : EndpointOrGroup) : result SerializeError bool :=
  Ok match x with Endpoint _ => false | Group _ => true end.

Definition destination_mode (d : DataDestination) : Z :=
  match d with Unicast _ => 0 | Broadcast _ => 2 | ToGroup _ => 3 end.
Definition destination_serialize (d : DataDestination) (target : list Z) :
    result SerializeError (list Z) :=
  match d with
  | Unicast e => serialize_uint 1 e target
  | Broadcast e => serialize_uint 1 e target
  | ToGroup g => serialize_uint 2 g target
  end.

Definition frame_control (frame_type mode : Z) (security ack_request extended : bool) : Z :=
  let fc := 0 in
  let fc := set_field FrameControl.frame_type frame_type fc in
  let fc := set_field FrameControl.delivery_mode mode fc in
  let fc := set_field FrameControl.ack_format 0 fc in
  let fc := set_field FrameControl.security (bool_to_Z security) fc in
  let fc := set_field FrameControl.ack_request (bool_to_Z ack_request) fc in
  set_field FrameControl.extended_header_present (bool_to_Z extended) fc.

Definition frame_serialize (f : Frame) (target : list Z) : result SerializeError (list Z) :=
  match f with
  | Data ack_request destination cluster source aps_counter extended_header payload =>
      security ← Sec.securable_tag payload;
      let fc := frame_control 0 (destination_mode destination) security ack_request
                  (bool_decide (is_Some extended_header)) in
      target ← serialize_uint 1 fc target;
      target ← destination_serialize destination target;
      target ← serialize_pair (serialize_uint 2) (serialize_uint 2) cluster target;
      target ← serialize_uint 1 source target;
      target ← serialize_uint 1 aps_counter target;
      target ← serialize_option serialize_unit extended_header target;
      Sec.securable_serialize payload_serialize payload target
  | CommandFrame delivery_mode ack_request aps_counter payload =>
      security ← Sec.securable_tag payload;
      let fc := frame_control 1 (delivery_mode_as_num delivery_mode) security ack_request false in
      target ← serialize_uint 1 fc target;
      target ← serialize_uint 1 aps_counter target;
      Sec.securable_serialize command_serialize payload target
  | _ => Ok target
  end.

(** ** Round trip of the commands *)

Context `{!ParseSerializeLaws, !BitRangeLaws}.

Definition tc_ok (x : TrustCenterKeyDescriptor) : Prop :=
  length (tc_key x) = 16%nat /\ in_width 64 (tc_destination x) /\ in_width 64 (tc_source x).
Definition nk_ok (x : NetworkKeyDescriptor) : Prop :=
  length (nk_key x) = 16%nat /\ in_width 8 (nk_sequence_number x) /\
  in_width 64 (nk_destination x) /\ in_width 64 (nk_source x).
Definition ak_ok (x : ApplicationKeyDescriptor) : Prop :=
  length (ak_key x) = 16%nat /\ in_width 64 (ak_partner x).
Definition key_descriptor_ok (k : KeyDescriptor) : Prop :=
  match k with
  | TrustCenterMasterKey x | UniqueTrustCenterLinkKey x => tc_ok x
  | StandardNetworkKey x | HighSecurityNetworkKey x | Unknown x => nk_ok x
  | ApplicationMasterKey x | ApplicationLinkKey x => ak_ok x
  end.
Definition command_ok (c : Command) : Prop := match c with TransportKey k => key_descriptor_ok k end.

Lemma tc_roundtrips x : tc_ok x -> roundtrips tc_serialize tc_deserialize x.
Proof.
  intros (? & ? & ?). destruct x as [k d s]. cbn in *.
  unfold tc_deserialize. eapply roundtrips_map with (a := (k, (d, s))); [done|solve_codec|done].
Qed.
Lemma nk_roundtrips x : nk_ok x -> roundtrips nk_serialize nk_deserialize x.
Proof.
  intros (? & ? & ? & ?). destruct x as [k n d s]. cbn in *.
  unfold nk_deserialize. eapply roundtrips_map with (a := (k, (n, (d, s)))); [done|solve_codec|done].
Qed.
Lemma ak_roundtrips x : ak_ok x -> roundtrips ak_serialize ak_deserialize x.
Proof.
  intros (? & ?). destruct x as [k p i]. cbn in *.
  unfold ak_deserialize. eapply roundtrips_map with (a := (k, (p, i))); [done|solve_codec|done].
Qed.

(** A value behind its tag. *)
Lemma with_tag_roundtrips {A B} tag (ser : serializer A) (de : deserializer A) (f : A -> B)
    (ser' : serializer B) (de' : deserializer B) x :
  (forall target, ser' (f x) target = with_tag tag ser x target) ->
  in_width 8 tag ->
  (forall input rest, deserialize_uint 1 input = Ok (rest, tag) -> de' input = nom_map de f rest) ->
  roundtrips ser de x -> roundtrips ser' de' (f x).
Proof.
  intros Hs Ht Hd (bx & Ex & Dx). destruct (roundtrips_uint 1 tag Ht) as (bt & Et & Dt).
  exists (bt ++ bx). split.
  - intros target. rewrite Hs. unfold with_tag. rewrite serialize_pair_spec, Et. cbn [mbind result_bind].
    by rewrite Ex, (assoc_L (++)).
  - intros rest. rewrite <- (assoc_L (++)), (Hd _ (bx ++ rest)) by apply Dt. unfold nom_map. by rewrite Dx.
Qed.

Lemma key_descriptor_roundtrips k :
  key_descriptor_ok k -> roundtrips key_descriptor_serialize key_descriptor_deserialize k.
Proof.
  destruct k; cbn; intros Hk;
    (eapply with_tag_roundtrips; [done|by vm_compute| |];
     [intros input rest E; unfold key_descriptor_deserialize; rewrite E; cbn [mbind result_bind]; reflexivity
     |by eauto using tc_roundtrips, nk_roundtrips, ak_roundtrips]).
Qed.

(** A transport-key command, with any of the seven kinds of key, is read back as it was
    written, and leaves what follows it. *)
Theorem aps_command_roundtrip c :
  command_ok c -> roundtrips command_serialize command_deserialize c.
Proof.
  destruct c as [k]. intros Hk. eapply with_tag_roundtrips; [done|by vm_compute| |].
  - intros input rest E. unfold command_deserialize. rewrite E. cbn [mbind result_bind].
    by rewrite decide_True by done.
  - by apply key_descriptor_roundtrips.
Qed.

(** ** The frames *)

Definition payload_ok {T} (ok : T -> Prop) (p : Sec.Securable T) : Prop :=
  match p with Sec.Secured d => secured_ok d | Sec.Unsecured x => ok x end.
Definition destination_ok (d : DataDestination) : Prop :=
  match d with Unicast e | Broadcast e => in_width 8 e | ToGroup g => in_width 16 g end.
Definition frame_ok (f : Frame) : Prop :=
  match f with
  | Data _ d (c, p) s n _ payload =>
      destination_ok d /\ in_width 16 c /\ in_width 16 p /\ in_width 8 s /\ in_width 8 n /\
      payload_ok (fun _ => True) payload
  | CommandFrame _ _ n payload => in_width 8 n /\ payload_ok command_ok payload
  | _ => True
  end.
(** The frames that the code writes. *)
Definition written (f : Frame) : bool := match f with Data _ _ _ _ _ _ _ | CommandFrame _ _ _ _ => true | _ => false end.

Lemma aps_frame_control_spec t m se a e :
  0 <= t < 4 -> 0 <= m < 4 ->
  let fc := frame_control t m se a e in
  in_width 8 fc /\
  get_field FrameControl.frame_type fc = t /\ get_field FrameControl.delivery_mode fc = m /\
  get_field FrameControl.security fc = bool_to_Z se /\
  get_field FrameControl.ack_request fc = bool_to_Z a /\
  get_field FrameControl.extended_header_present fc = bool_to_Z e.
Proof.
  intros Ht Hm fc. set (fields := [(FrameControl.frame_type, t); (FrameControl.delivery_mode, m);
    (FrameControl.ack_format, 0); (FrameControl.security, bool_to_Z se);
    (FrameControl.ack_request, bool_to_Z a); (FrameControl.extended_header_present, bool_to_Z e)]).
  change fc with (write_fields fields 0).
  assert (writes_ok 8 fields) as Hw.
  { unfold fields. repeat match goal with |- context [bool_to_Z ?b] =>
      pose proof (bool_to_Z_range b); generalize dependent (bool_to_Z b) end.
    intros. solve_writes. }
  assert (no_overlap fields.*1 = true) as Hn by done.
  split; [apply (write_fields_width 8 fields 0); done|]. split_and!; solve_field 8 fields.
Qed.

Lemma bool_to_Z_inj a b : bool_to_Z a = bool_to_Z b -> a = b.
Proof. by destruct a, b. Qed.

(** Equal control bytes come from equal fields. *)
Lemma frame_control_inj t m se a e t' m' se' a' e' :
  0 <= t < 4 -> 0 <= m < 4 -> 0 <= t' < 4 -> 0 <= m' < 4 ->
  frame_control t m se a e = frame_control t' m' se' a' e' ->
  t = t' /\ m = m' /\ se = se' /\ a = a' /\ e = e'.
Proof.
  intros Ht Hm Ht' Hm' E.
  destruct (aps_frame_control_spec t m se a e Ht Hm) as (_ & F1 & F2 & F3 & F4 & F5).
  destruct (aps_frame_control_spec t' m' se' a' e' Ht' Hm') as (_ & G1 & G2 & G3 & G4 & G5).
  rewrite E in *. split_and!; try (apply bool_to_Z_inj); congruence.
Qed.

Lemma destination_mode_range d : 0 <= destination_mode d < 4.
Proof. destruct d; cbn; lia. Qed.
Lemma delivery_mode_range d : 0 <= delivery_mode_as_num d < 4.
Proof. destruct d; cbn; lia. Qed.
Lemma delivery_mode_inj d d' : delivery_mode_as_num d = delivery_mode_as_num d' -> d = d'.
Proof. by destruct d, d'. Qed.

(** A destination is read back, given the delivery mode. *)
Definition destination_reader (mode : Z) : deserializer DataDestination :=
  if decide (mode = 0) then nom_map (deserialize_uint 1) Unicast
  else if decide (mode = 2) then nom_map (deserialize_uint 1) Broadcast
  else nom_map (deserialize_uint 2) ToGroup.
Lemma destination_roundtrips d :
  destination_ok d -> roundtrips destination_serialize (destination_reader (destination_mode d)) d.
Proof.
  destruct d; intros Hd; cbn; (eapply roundtrips_map; [done|by apply roundtrips_uint|done]).
Qed.

Lemma payload_roundtrips p :
  payload_ok (fun _ => True) p ->
  roundtrips_all (Sec.securable_serialize payload_serialize)
    (Sec.securable_deserialize payload_deserialize (Sec.is_secured p)) p.
Proof.
  intros Hp. apply securable_roundtrips. destruct p as [d|[bs]]; [done|].
  exists bs. split; done.
Qed.
Lemma command_payload_roundtrips p :
  payload_ok command_ok p ->
  roundtrips_all (Sec.securable_serialize command_serialize)
    (Sec.securable_deserialize command_deserialize (Sec.is_secured p)) p.
Proof.
  intros Hp. apply securable_roundtrips. destruct p as [d|[k]]; [done|].
  apply roundtrips_is_all. eapply with_tag_roundtrips; [done|by vm_compute| |by apply key_descriptor_roundtrips].
  intros input rest E. unfold command_deserialize. rewrite E. cbn [mbind result_bind]. reflexivity.
Qed.

(** The bytes of a frame: the control byte and what follows it. *)
Definition control_of (f : Frame) : Z :=
  match f with
  | Data a d _ _ _ e p => frame_control 0 (destination_mode d) (Sec.is_secured p) a (bool_decide (is_Some e))
  | CommandFrame m a _ p => frame_control 1 (delivery_mode_as_num m) (Sec.is_secured p) a false
  | _ => 0
  end.

Lemma command_bytes m a n p :
  frame_ok (CommandFrame m a n p) ->
  exists b0 b1 b2, encodes frame_serialize (CommandFrame m a n p) (b0 ++ b1 ++ b2) /\
    decodes (deserialize_uint 1) (control_of (CommandFrame m a n p)) b0 /\
    decodes (deserialize_uint 1) n b1 /\
    Sec.securable_deserialize command_deserialize (Sec.is_secured p) b2 = Ok ([], p).
Proof.
  intros [Hn Hp].
  destruct (aps_frame_control_spec 1 (delivery_mode_as_num m) (Sec.is_secured p) a false) as [Hc _];
    [lia|apply delivery_mode_range|].
  destruct (roundtrips_uint 1 _ Hc) as (b0 & E0 & D0). destruct (roundtrips_uint 1 n Hn) as (b1 & E1 & D1).
  destruct (command_payload_roundtrips p Hp) as (b2 & E2 & D2).
  exists b0, b1, b2. split_and!; try done. intros target. unfold frame_serialize, Sec.securable_tag.
  cbn [mbind result_bind]. rewrite E0. cbn [mbind result_bind]. rewrite E1. cbn [mbind result_bind].
  by rewrite E2, !(assoc_L (++)).
Qed.
Lemma data_bytes a d c s n e p :
  frame_ok (Data a d c s n e p) ->
  exists b0 b1 b2 b3 b4 b5, encodes frame_serialize (Data a d c s n e p) (b0 ++ b1 ++ b2 ++ b3 ++ b4 ++ b5) /\
    decodes (deserialize_uint 1) (control_of (Data a d c s n e p)) b0 /\
    decodes (destination_reader (destination_mode d)) d b1 /\
    decodes (deserialize_pair (deserialize_uint 2) (deserialize_uint 2)) c b2 /\
    decodes (deserialize_uint 1) s b3 /\ decodes (deserialize_uint 1) n b4 /\
    Sec.securable_deserialize payload_deserialize (Sec.is_secured p) b5 = Ok ([], p).
Proof.
  destruct c as [c1 c2]. intros (Hd & Hc1 & Hc2 & Hs & Hn & Hp).
  destruct (aps_frame_control_spec 0 (destination_mode d) (Sec.is_secured p) a (bool_decide (is_Some e)))
    as [Hc _]; [lia|apply destination_mode_range|].
  destruct (roundtrips_uint 1 _ Hc) as (b0 & E0 & D0).
  destruct (destination_roundtrips d Hd) as (b1 & E1 & D1).
  destruct (roundtrips_pair _ _ _ _ c1 c2 (roundtrips_uint 2 c1 Hc1) (roundtrips_uint 2 c2 Hc2)) as (b2 & E2 & D2).
  destruct (roundtrips_uint 1 s Hs) as (b3 & E3 & D3). destruct (roundtrips_uint 1 n Hn) as (b4 & E4 & D4).
  destruct (payload_roundtrips p Hp) as (b5 & E5 & D5).
  exists b0, b1, b2, b3, b4, b5. split_and!; try done. intros target. unfold frame_serialize, Sec.securable_tag.
  cbn [mbind result_bind]. rewrite E0. cbn [mbind result_bind]. rewrite E1. cbn [mbind result_bind].
  rewrite E2. cbn [mbind result_bind]. rewrite E3. cbn [mbind result_bind]. rewrite E4. cbn [mbind result_bind].
  assert (forall t, serialize_option serialize_unit e t = Ok t) as ->
    by (intros t; destruct e as [[]|]; [apply serialize_unit_spec|done]).
  cbn [mbind result_bind]. by rewrite E5, !(assoc_L (++)).
Qed.

Lemma frame_bytes f :
  frame_ok f -> written f = true -> exists bs, encodes frame_serialize f bs.
Proof.
  destruct f as [a d c s n e p|m a n p| |]; try done; intros Hf _.
  - destruct (data_bytes _ _ _ _ _ _ _ Hf) as (b0 & b1 & b2 & b3 & b4 & b5 & E & _). eauto.
  - destruct (command_bytes _ _ _ _ Hf) as (b0 & b1 & b2 & E & _). eauto.
Qed.

Lemma encodes_unique {A} (ser : serializer A) a bs bs' : encodes ser a bs -> encodes ser a bs' -> bs = bs'.
Proof. intros E E'. specialize (E []). rewrite E' in E. by injection E. Qed.

Lemma data_unambiguous a d c s n e p a' d' c' s' n' e' p' bs :
  frame_ok (Data a d c s n e p) -> frame_ok (Data a' d' c' s' n' e' p') ->
  encodes frame_serialize (Data a d c s n e p) bs -> encodes frame_serialize (Data a' d' c' s' n' e' p') bs ->
  Data a d c s n e p = Data a' d' c' s' n' e' p'.
Proof.
  intros Hf Hg Ef Eg.
  destruct (data_bytes _ _ _ _ _ _ _ Hf) as (b0 & b1 & b2 & b3 & b4 & b5 & E & D0 & D1 & D2 & D3 & D4 & D5).
  destruct (data_bytes _ _ _ _ _ _ _ Hg) as (x0 & x1 & x2 & x3 & x4 & x5 & X & G0 & G1 & G2 & G3 & G4 & G5).
  rewrite (encodes_unique _ _ _ _ Ef E) in Eg. pose proof (encodes_unique _ _ _ _ Eg X) as Hb.
  destruct (decodes_inj _ _ _ _ _ _ _ D0 G0 Hb) as [Hc H1b].
  apply frame_control_inj in Hc as (_ & Hm & Hs & -> & He); try lia; try apply destination_mode_range.
  rewrite Hm in D1. destruct (decodes_inj _ _ _ _ _ _ _ D1 G1 H1b) as [-> H2b].
  destruct (decodes_inj _ _ _ _ _ _ _ D2 G2 H2b) as [-> H3b].
  destruct (decodes_inj _ _ _ _ _ _ _ D3 G3 H3b) as [-> H4b].
  destruct (decodes_inj _ _ _ _ _ _ _ D4 G4 H4b) as [-> ->].
  rewrite Hs, G5 in D5. injection D5 as ->. f_equal.
  destruct e as [[]|], e' as [[]|]; done.
Qed.
Lemma command_unambiguous m a n p m' a' n' p' bs :
  frame_ok (CommandFrame m a n p) -> frame_ok (CommandFrame m' a' n' p') ->
  encodes frame_serialize (CommandFrame m a n p) bs -> encodes frame_serialize (CommandFrame m' a' n' p') bs ->
  CommandFrame m a n p = CommandFrame m' a' n' p'.
Proof.
  intros Hf Hg Ef Eg.
  destruct (command_bytes _ _ _ _ Hf) as (b0 & b1 & b2 & E & D0 & D1 & D2).
  destruct (command_bytes _ _ _ _ Hg) as (x0 & x1 & x2 & X & G0 & G1 & G2).
  rewrite (encodes_unique _ _ _ _ Ef E) in Eg. pose proof (encodes_unique _ _ _ _ Eg X) as Hb.
  destruct (decodes_inj _ _ _ _ _ _ _ D0 G0 Hb) as [Hc H1b].
  apply frame_control_inj in Hc as (_ & Hm & Hs & -> & _); try lia; try apply delivery_mode_range.
  apply delivery_mode_inj in Hm as ->.
  destruct (decodes_inj _ _ _ _ _ _ _ D1 G1 H1b) as [-> ->].
  rewrite Hs, G2 in D2. by injection D2 as ->.
Qed.
Lemma data_not_command a d c s n e p m a' n' p' bs :
  frame_ok (Data a d c s n e p) -> frame_ok (CommandFrame m a' n' p') ->
  encodes frame_serialize (Data a d c s n e p) bs -> ~ encodes frame_serialize (CommandFrame m a' n' p') bs.
Proof.
  intros Hf Hg Ef Eg.
  destruct (data_bytes _ _ _ _ _ _ _ Hf) as (b0 & b1 & b2 & b3 & b4 & b5 & E & D0 & _).
  destruct (command_bytes _ _ _ _ Hg) as (x0 & x1 & x2 & X & G0 & _).
  rewrite (encodes_unique _ _ _ _ Ef E) in Eg. pose proof (encodes_unique _ _ _ _ Eg X) as Hb.
  destruct (decodes_inj _ _ _ _ _ _ _ D0 G0 Hb) as [Hc _].
  by apply frame_control_inj in Hc as (? & _); try lia; try apply destination_mode_range; try apply delivery_mode_range.
Qed.

(** A data or command frame is written as bytes that no other data or command frame
    is written as, so that a receiver can tell them apart: control byte, destination,
    cluster, counter, security and payload can all be recovered. An acknowledgement is
    written as no bytes at all, and no error says so. *)
Theorem aps_frame_unambiguous :
  (forall f, frame_ok f -> written f = true -> exists bs, encodes frame_serialize f bs) /\
  (forall f g bs, frame_ok f -> frame_ok g -> written f = true -> written g = true ->
    encodes frame_serialize f bs -> encodes frame_serialize g bs -> f = g) /\
  (forall f, written f = false -> encodes frame_serialize f []).
Proof.
  split; [exact frame_bytes|]. split.
  - intros f g bs Hf Hg Wf Wg Ef Eg.
    destruct f as [a d c s n e p|m a n p| |], g as [a' d' c' s' n' e' p'|m' a' n' p'| |]; try done.
    + by apply (data_unambiguous _ _ _ _ _ _ _ _ _ _ _ _ _ _ bs).
    + by destruct (data_not_command _ _ _ _ _ _ _ _ _ _ _ bs Hf Hg Ef).
    + by destruct (data_not_command _ _ _ _ _ _ _ _ _ _ _ bs Hg Hf Eg).
    + by apply (command_unambiguous _ _ _ _ _ _ _ _ bs).
  - intros [] Hw; try done; intros target; by rewrite app_nil_r.
Qed.
End aps.

(** ** The code's tests *)

Definition test_aps_transport_key : Frame * list Z :=
  (CommandFrame DMUnicast false 6 (Sec.Secured
     {| Sec.key_identifier := Sec.KeyTransport; Sec.frame_counter := 1; Sec.extended_source := None;
        Sec.payload :=
          [227; 189; 24; 116; 9; 44; 44; 163; 88; 29; 138; 35; 185; 108; 59; 128; 240; 173; 39; 28;
           89; 138; 223; 39; 188; 33; 199; 71; 240; 49; 116; 128; 188; 140; 83; 136; 17; 143; 2] |}),
   [33; 6; 16; 1; 0; 0; 0; 227; 189; 24; 116; 9; 44; 44; 163; 88; 29; 138; 35; 185; 108; 59;
    128; 240; 173; 39; 28; 89; 138; 223; 39; 188; 33; 199; 71; 240; 49; 116; 128; 188; 140;
    83; 136; 17; 143; 2]).
Definition test_aps_device_announce : Frame * list Z :=
  (Data false (Broadcast 0) (19, 0) 0 150 None (Sec.Unsecured (MkPayload
     [129; 139; 85; 6; 99; 28; 254; 255; 94; 207; 208; 128])),
   [8; 0; 19; 0; 0; 0; 0; 150; 129; 139; 85; 6; 99; 28; 254; 255; 94; 207; 208; 128]).
Definition test_decode_transport_key : Command * list Z :=
  (TransportKey (StandardNetworkKey
     {| nk_key := [65; 113; 97; 114; 97; 72; 117; 98; 0; 0; 0; 0; 0; 0; 0; 0];
        nk_sequence_number := 0; nk_destination := 15046349333641061126;
        nk_source := 5149013196761109 |}),
   [5; 1; 65; 113; 97; 114; 97; 72; 117; 98; 0; 0; 0; 0; 0; 0; 0; 0; 0; 6; 99; 28; 254; 255;
    94; 207; 208; 21; 104; 137; 14; 0; 75; 18; 0]).

#[local] Existing Instance BitRange_reference.
#[local] Existing Instance BitRange_reference_laws.
#[local] Existing Instance ParseSerialize_reference.
#[local] Existing Instance ParseSerialize_reference_laws.

Example aps_transport_key_passes :
  frame_serialize (fst test_aps_transport_key) [] = Ok (snd test_aps_transport_key).
Proof. vm_compute. reflexivity. Qed.
Example aps_device_announce_passes :
  frame_serialize (fst test_aps_device_announce) [] = Ok (snd test_aps_device_announce).
Proof. vm_compute. reflexivity. Qed.
Example aps_decode_transport_key_passes :
  let '(c, bytes) := test_decode_transport_key in
  command_serialize c [] = Ok bytes /\ command_deserialize bytes = Ok ([], c).
Proof. vm_compute. done. Qed.

Lemma aps_command_roundtrip_witness :
  let c := fst test_decode_transport_key in
  command_ok c /\ roundtrips command_serialize command_deserialize c.
Proof.
  assert (command_ok (fst test_decode_transport_key)) as Hok.
  { unfold command_ok, key_descriptor_ok, nk_ok, in_width; cbn -[Z.pow]. split_and!; done || lia. }
  split; [exact Hok|]. exact (aps_command_roundtrip (fst test_decode_transport_key) Hok).
Defined.

Lemma aps_frame_unambiguous_witness :
  frame_ok (fst test_aps_device_announce) /\
  exists bs, encodes frame_serialize (fst test_aps_device_announce) bs.
Proof.
  assert (frame_ok (fst test_aps_device_announce)) as Hok.
  { unfold frame_ok, destination_ok, payload_ok, in_width; cbn -[Z.pow]. split_and!; done || lia. }
  split; [exact Hok|].
  exact (proj1 aps_frame_unambiguous (fst test_aps_device_announce) Hok eq_refl).
Defined.
End Aps.
