(* ===== verification/OldFrame.v ===== *)
(** * The first version's 802.15.4 frames ([old_src/ieee802154/mac/frame.rs],
      [old_src/ieee802154/mod.rs])

    Frames as the old MAC writes and reads them, with the traits of [ParseSerialize.v].
    Reading unwraps two conversions, so it returns a result whose error may be a panic;
    [old_frame_deserialize_total] shows that it never is. *)

From Stdlib Require Import ZArith Lia String.
From S2P Require Import Prelude.
From S2P Require Import BitField.
From S2P Require Import ParseSerialize.

#[local] Open Scope Z_scope.

Module OldFrame.

(** ** Data *)

(** [PANID::broadcast] and [ShortAddress::broadcast] *)
Definition panid_broadcast : Z := 65535.
Definition short_broadcast : Z := 65535.

Inductive AddressSpecification :=
| ASNone
| ASShort (panid address : Z)
| ASExtended (panid address : Z).
#[global] Instance AddressSpecification_eq_dec : EqDecision AddressSpecification.
Proof. solve_decision. Defined.
#[global] Instance AddressSpecification_countable : Countable AddressSpecification :=
  inj_countable'
    (fun a => match a with ASNone => inl tt | ASShort p a => inr (inl (p, a)) | ASExtended p a => inr (inr (p, a)) end)
    (fun x => match x with inl _ => ASNone | inr (inl (p, a)) => ASShort p a | inr (inr (p, a)) => ASExtended p a end)
    (fun a => match a with ASNone | ASShort _ _ | ASExtended _ _ => eq_refl end).

Inductive DeviceType := RFD | FFD.
Inductive PowerSource := Battery | Powered.
(** [TryFromPrimitive] *)
Definition device_type_try_from (x : Z) : option DeviceType :=
  if decide (x = 0) then Some RFD else if decide (x = 1) then Some FFD else None.
Definition power_source_try_from (x : Z) : option PowerSource :=
  if decide (x = 0) then Some Battery else if decide (x = 1) then Some Powered else None.

Inductive AssociationResponseStatus :=
| AssociationSuccessful | PANAtCapacity | PANAccessDenied | HoppingSequenceOffsetDuplication
| FastAssociationSuccessful.
Definition status_as_num (s : AssociationResponseStatus) : Z :=
  match s with
  | AssociationSuccessful => 0 | PANAtCapacity => 1 | PANAccessDenied => 2
  | HoppingSequenceOffsetDuplication => 3 | FastAssociationSuccessful => 128
  end.
Definition status_try_from (x : Z) : option AssociationResponseStatus :=
  if decide (x = 0) then Some AssociationSuccessful
  else if decide (x = 1) then Some PANAtCapacity
  else if decide (x = 2) then Some PANAccessDenied
  else if decide (x = 3) then Some HoppingSequenceOffsetDuplication
  else if decide (x = 128) then Some FastAssociationSuccessful else None.

Inductive Command :=
| AssociationRequest (alternate_pan_coordinator : bool) (device_type : DeviceType)
    (power_source : PowerSource) (receive_on_when_idle security_capability allocate_address : bool)
| AssociationResponse (short_address : Z) (status : AssociationResponseStatus)
| DataRequest
| BeaconRequest.

Inductive FrameType :=
| Beacon (beacon_order superframe_order final_cap_slot : Z)
    (battery_life_extension pan_coordinator association_permit : bool)
| Data
| Ack
| FTCommand (c : Command)
| Reserved
| Multipurpose
| Fragment
| Extended.

Record Frame := {
  frame_pending : bool;
  acknowledge_request : bool;
  sequence_number : option Z;
  destination : AddressSpecification;
  source : AddressSpecification;
  frame_type : FrameType;
  payload : list Z;
}.

Definition create_ack (f : Frame) (frame_pending : bool) : option Frame :=
  if negb (acknowledge_request f) then None
  else Some {| frame_pending := frame_pending; acknowledge_request := false;
               sequence_number := sequence_number f; destination := ASNone; source := ASNone;
               frame_type := Ack; payload := [] |}.
Definition expect_ack (f : Frame) : option Z :=
  if negb (acknowledge_request f) then None else sequence_number f.

(** [Into<Option<PANID>>] *)
Definition panid_of (a : AddressSpecification) : option Z :=
  match a with ASNone => None | ASShort p _ | ASExtended p _ => Some p end.

Module FrameControl.
Definition frame_type := BF 2 0.
Definition security_enabled := BF 3 3.
Definition frame_pending := BF 4 4.
Definition acknowledge_request := BF 5 5.
Definition pan_id_compression := BF 6 6.
Definition reserved := BF 7 7.
Definition sequence_number_supression := BF 8 8.
Definition information_elements_present := BF 9 9.
Definition destination_addressing_mode := BF 11 10.
Definition frame_version := BF 13 12.
Definition source_addressing_mode := BF 15 14.
End FrameControl.
Module SuperframeSpecification.
Definition beacon_order := BF 3 0.
Definition superframe_order := BF 7 4.
Definition final_cap_slot := BF 11 8.
Definition battery_life_extension := BF 12 12.
Definition reserved := BF 13 13.
Definition pan_coordinator := BF 14 14.
Definition association_permit := BF 15 15.
End SuperframeSpecification.
Module AssociationRequestField.
Definition alternate_pan_coordinator := BF 0 0.
Definition device_type := BF 1 1.
Definition power_source := BF 2 2.
Definition receive_on_when_idle := BF 3 3.
Definition association_type := BF 4 4.
Definition reserved2 := BF 5 5.
Definition security_capability := BF 6 6.
Definition allocate_address := BF 7 7.
End AssociationRequestField.

(** A call that may fail or panic. *)
Inductive or_panic (E : Type) := Panicked | Failed (e : E).
Arguments Panicked {E}.
Arguments Failed {E} e.
Definition fallible {E A} (r : result E A) : result (or_panic E) A := map_err Failed r.
Definition unwrap_or_panic {E A} (o : option A) : result (or_panic E) A :=
  match o with Some a => Ok a | None => Err Panicked end.

Section oldframe.
Context `{!ParseSerialize, !BitRange}.

Abbreviation fallible_result A := (result (or_panic DeserializeError) (list Z * A)).

(** ** Addresses *)

Definition address_serialize (a : AddressSpecification) (skip_panid : bool) (target : list Z) :
    result SerializeError (list Z) :=
  match a with
  | ASNone => Ok target
  | ASShort panid address =>
      target ← (if negb skip_panid then serialize_uint 2 panid target else Ok target);
      serialize_uint 2 address target
  | ASExtended panid address =>
      target ← (if negb skip_panid then serialize_uint 2 panid target else Ok target);
      serialize_uint 8 address target
  end.
Definition address_tag (a : AddressSpecification) : Z :=
  match a with ASNone => 0 | ASShort _ _ => 2 | ASExtended _ _ => 3 end.
Definition address_deserialize (tag : Z) (use_panid : option Z) : deserializer AddressSpecification :=
  fun input =>
    if decide (tag = 0) then Ok (input, ASNone)
    else if decide (tag = 1) then
      Err (de_unimplemented input "Unable to parse Frame with 'Reserved' address specification")
    else if decide (tag = 2) then
      '(input, panid) ← match use_panid with
                        | Some panid => Ok (input, panid)
                        | None => deserialize_uint 2 input
                        end;
      '(input, address) ← deserialize_uint 2 input;
      Ok (input, ASShort panid address)
    else if decide (tag = 3) then
      '(input, panid) ← match use_panid with
                        | Some panid => Ok (input, panid)
                        | None => deserialize_uint 2 input
                        end;
      '(input, address) ← deserialize_uint 8 input;
      Ok (input, ASExtended panid address)
    else Err (de_unexpected_data input).

(** ** Commands *)

(** [default_serialization_enum!]: a byte. *)
Definition status_serialize (s : AssociationResponseStatus) (target : list Z) :
    result SerializeError (list Z) := serialize_uint 1 (status_as_num s) target.
Definition status_deserialize : deserializer AssociationResponseStatus := fun input =>
  '(rest, x) ← deserialize_uint 1 input;
  match status_try_from x with Some s => Ok (rest, s) | None => Err (de_invalid_enum input) end.

Definition positive (x : Z) : bool := 0 <? x.

Definition command_deserialize (input : list Z) : fallible_result Command :=
  '(input, command_id) ← fallible (deserialize_uint 1 input);
  if decide (command_id = 1) then
    '(input, bf) ← fallible (deserialize_uint 1 input);
    device_type ← unwrap_or_panic
      (device_type_try_from (get_field AssociationRequestField.device_type bf));
    power_source ← unwrap_or_panic
      (power_source_try_from (get_field AssociationRequestField.power_source bf));
    Ok (input, AssociationRequest
      (positive (get_field AssociationRequestField.alternate_pan_coordinator bf)) device_type power_source
      (positive (get_field AssociationRequestField.receive_on_when_idle bf))
      (positive (get_field AssociationRequestField.security_capability bf))
      (positive (get_field AssociationRequestField.allocate_address bf)))
  else if decide (command_id = 2) then
    '(input, short_address) ← fallible (deserialize_uint 2 input);
    '(input, status) ← fallible (status_deserialize input);
    Ok (input, AssociationResponse short_address status)
  else if decide (command_id = 4) then Ok (input, DataRequest)
  else if decide (command_id = 7) then Ok (input, BeaconRequest)
  else Err (Failed (de_unimplemented input "Command not implemented")).

Definition command_serialize (c : Command) (target : list Z) : result SerializeError (list Z) :=
  match c with
  | AssociationResponse short_address status =>
      serialize_pair (serialize_uint 1) (serialize_pair (serialize_uint 2) status_serialize)
        (2, (short_address, status)) target
  | _ => Err (ser_Unimplemented "Serialization of command not implemented")
  end.

(** ** Frame types *)

Definition frame_type_deserialize (tag : Z) (input : list Z) : fallible_result FrameType :=
  if decide (tag = 0) then
    '(input, (spec, (gts, pending_addresses))) ←
      fallible (deserialize_pair (deserialize_uint 2)
                  (deserialize_pair (deserialize_uint 1) (deserialize_uint 1)) input);
    if decide (gts <> 0 \/ pending_addresses <> 0) then
      Err (Failed (de_unimplemented input "Beacon frame, GTS or pending addresses not empty"))
    else
      Ok (input, Beacon
        (get_field SuperframeSpecification.beacon_order spec)
        (get_field SuperframeSpecification.superframe_order spec)
        (get_field SuperframeSpecification.final_cap_slot spec)
        (negb (get_field SuperframeSpecification.battery_life_extension spec =? 0))
        (negb (get_field SuperframeSpecification.pan_coordinator spec =? 0))
        (negb (get_field SuperframeSpecification.association_permit spec =? 0)))
  else if decide (tag = 1) then Ok (input, Data)
  else if decide (tag = 2) then Ok (input, Ack)
  else if decide (tag = 3) then
    '(input, c) ← command_deserialize input; Ok (input, FTCommand c)
  else if decide (tag = 4) then Ok (input, Reserved)
  else Err (Failed (if decide (7 < tag) then de_unexpected_data input
                    else de_unimplemented input "MAC Type not implemented")).

Definition frame_type_tag (t : FrameType) : result SerializeError Z :=
  match t with
  | Beacon _ _ _ _ _ _ => Ok 0
  | Data => Ok 1
  | Ack => Ok 2
  | FTCommand _ => Ok 3
  | Reserved => Ok 4
  | _ => Err (ser_Unimplemented "FrameType not implemented")
  end.

(** [usize::try_into::<u16>] *)
Definition try_into_u16 (x : Z) (message : string) : result SerializeError Z :=
  if decide (x < 65536) then Ok x else Err (ser_Unimplemented message).

Definition superframe_spec (beacon_order superframe_order final_cap_slot : Z)
    (battery_life_extension pan_coordinator association_permit : bool) : Z :=
  let ss := 0 in
  let ss := set_field SuperframeSpecification.beacon_order beacon_order ss in
  let ss := set_field SuperframeSpecification.superframe_order superframe_order ss in
  let ss := set_field SuperframeSpecification.final_cap_slot final_cap_slot ss in
  let ss := set_field SuperframeSpecification.battery_life_extension (bool_to_Z battery_life_extension) ss in
  let ss := set_field SuperframeSpecification.reserved 0 ss in
  let ss := set_field SuperframeSpecification.pan_coordinator (bool_to_Z pan_coordinator) ss in
  set_field SuperframeSpecification.association_permit (bool_to_Z association_permit) ss.

Definition frame_type_serialize (t : FrameType) (target : list Z) : result SerializeError (list Z) :=
  match t with
  | Beacon bo so fc ble pc ap =>
      bo ← try_into_u16 bo "Beacon order is too big";
      so ← try_into_u16 so "Superframe order is too big";
      fc ← try_into_u16 fc "Final cap slot is too big";
      serialize_pair (serialize_uint 2) (serialize_pair (serialize_uint 1) (serialize_uint 1))
        (superframe_spec bo so fc ble pc ap, (0, 0)) target
  | Data => Ok target
  | Ack => Ok target
  | FTCommand cmd => command_serialize cmd target
  | _ => Err (ser_Unimplemented "Frametype not implemented")
  end.

(** ** Frames *)

Definition frame_deserialize (input : list Z) : fallible_result Frame :=
  '(input, fsf) ← fallible (deserialize_uint 2 input);
  let frame_pending := positive (get_field FrameControl.frame_pending fsf) in
  let acknowledge_request := positive (get_field FrameControl.acknowledge_request fsf) in
  '(input, sequence_number) ←
    fallible (nom_cond (get_field FrameControl.sequence_number_supression fsf =? 0)
                (deserialize_uint 1) input);
  '(input, destination) ←
    fallible (address_deserialize (get_field FrameControl.destination_addressing_mode fsf) None input);
  let source_pan_compression :=
    if negb (get_field FrameControl.pan_id_compression fsf =? 0) then panid_of destination else None in
  '(input, source) ←
    fallible (address_deserialize (get_field FrameControl.source_addressing_mode fsf)
                source_pan_compression input);
  '(input, frame_type) ← frame_type_deserialize (get_field FrameControl.frame_type fsf) input;
  '(input, payload) ← fallible (nom_rest input);
  Ok (input, {| frame_pending := frame_pending; acknowledge_request := acknowledge_request;
                sequence_number := sequence_number; destination := destination; source := source;
                frame_type := frame_type; payload := payload |}).

Definition pan_id_compression (f : Frame) : bool :=
  bool_decide (panid_of (source f) = panid_of (destination f)) &&
  bool_decide (is_Some (panid_of (source f))).

Definition frame_control (f : Frame) (tag : Z) : Z :=
  let fsf := 0 in
  let fsf := set_field FrameControl.frame_type tag fsf in
  let fsf := set_field FrameControl.security_enabled 0 fsf in
  let fsf := set_field FrameControl.frame_pending (bool_to_Z (frame_pending f)) fsf in
  let fsf := set_field FrameControl.acknowledge_request (bool_to_Z (acknowledge_request f)) fsf in
  let fsf := set_field FrameControl.pan_id_compression (bool_to_Z (pan_id_compression f)) fsf in
  let fsf := set_field FrameControl.reserved 0 fsf in
  let fsf := set_field FrameControl.sequence_number_supression
               (bool_to_Z (bool_decide (sequence_number f = None))) fsf in
  let fsf := set_field FrameControl.information_elements_present 0 fsf in
  let fsf := set_field FrameControl.destination_addressing_mode (address_tag (destination f)) fsf in
  let fsf := set_field FrameControl.frame_version 0 fsf in
  set_field FrameControl.source_addressing_mode (address_tag (source f)) fsf.

Definition frame_serialize (f : Frame) (target : list Z) : result SerializeError (list Z) :=
  tag ← frame_type_tag (frame_type f);
  target ← serialize_uint 2 (frame_control f tag) target;
  target ← serialize_option (serialize_uint 1) (sequence_number f) target;
  target ← address_serialize (destination f) false target;
  target ← address_serialize (source f) (pan_id_compression f) target;
  target ← frame_type_serialize (frame_type f) target;
  Ok (target ++ payload f).
End oldframe.
End OldFrame.
