(* ===== verification/OldFrameTheory.v ===== *)
(** * The first version's frames: what can be written is read back, and reading never
    panics *)

From Stdlib Require Import ZArith Lia String.
From S2P Require Import Prelude.
From S2P Require Import BitField.
From S2P Require Import ParseSerialize.
From S2P Require Import OldFrame.

#[local] Open Scope Z_scope.

Import OldFrame.

Section theory.
Context `{!ParseSerialize, !ParseSerializeLaws, !BitRange, !BitRangeLaws}.

(** The integers are those of their types. *)
Definition address_ok (a : AddressSpecification) : Prop :=
  match a with
  | ASNone => True
  | ASShort p a => in_width 16 p /\ in_width 16 a
  | ASExtended p a => in_width 16 p /\ in_width 64 a
  end.
Definition frame_type_ok (t : FrameType) : Prop :=
  match t with
  | Beacon bo so fc _ _ _ => 0 <= bo /\ 0 <= so /\ 0 <= fc
  | FTCommand (AssociationResponse a _) => in_width 16 a
  | _ => True
  end.
Definition frame_ok (f : Frame) : Prop :=
  (forall n, sequence_number f = Some n -> in_width 8 n) /\
  address_ok (destination f) /\ address_ok (source f) /\ frame_type_ok (frame_type f).

(** The frame types that are written without loss, and those that are refused. *)
Definition writable (t : FrameType) : bool :=
  match t with
  | Beacon bo so fc _ _ _ => bool_decide (bo < 16 /\ so < 16 /\ fc < 16)
  | Data | Ack | FTCommand (AssociationResponse _ _) => true
  | _ => false
  end.
Definition refused (t : FrameType) : bool :=
  match t with
  | Beacon bo so fc _ _ _ => bool_decide (65536 <= bo \/ 65536 <= so \/ 65536 <= fc)
  | Data | Ack | FTCommand (AssociationResponse _ _) => false
  | _ => true
  end.

(** ** Addresses *)

Lemma address_roundtrips a use skip :
  address_ok a -> (skip = false -> use = None) -> (skip = true -> panid_of a = use) ->
  roundtrips (fun a => address_serialize a skip) (address_deserialize (address_tag a) use) a.
Proof.
  intros Ha Hf Ht. destruct a as [|p a|p a]; cbn in Ha.
  { exists []. split; [intros target; by rewrite app_nil_r|done]. }
  - destruct Ha as [Hp Ha]. destruct (roundtrips_uint 2 p Hp) as (b1 & E1 & D1).
    destruct (roundtrips_uint 2 a Ha) as (b2 & E2 & D2). unfold address_deserialize. cbn [address_tag].
    destruct skip; [exists b2|exists (b1 ++ b2)]; split.
    + intros target. cbn. by rewrite E2.
    + intros rest. rewrite 2!decide_False, decide_True by done. rewrite <- (Ht eq_refl).
      cbn [panid_of mbind result_bind]. by rewrite D2.
    + intros target. cbn. rewrite E1. cbn. by rewrite E2, (assoc_L (++)).
    + intros rest. rewrite 2!decide_False, decide_True by done. rewrite (Hf eq_refl), <- (assoc_L (++)), D1.
      cbn [mbind result_bind]. by rewrite D2.
  - destruct Ha as [Hp Ha]. destruct (roundtrips_uint 2 p Hp) as (b1 & E1 & D1).
    destruct (roundtrips_uint 8 a Ha) as (b2 & E2 & D2). unfold address_deserialize. cbn [address_tag].
    destruct skip; [exists b2|exists (b1 ++ b2)]; split.
    + intros target. cbn. by rewrite E2.
    + intros rest. rewrite 3!decide_False, decide_True by done. rewrite <- (Ht eq_refl).
      cbn [panid_of mbind result_bind]. by rewrite D2.
    + intros target. cbn. rewrite E1. cbn. by rewrite E2, (assoc_L (++)).
    + intros rest. rewrite 3!decide_False, decide_True by done. rewrite (Hf eq_refl), <- (assoc_L (++)), D1.
      cbn [mbind result_bind]. by rewrite D2.
Qed.

(** ** Frame types *)

Lemma superframe_spec_fields bo so fc ble pc ap :
  0 <= bo < 16 -> 0 <= so < 16 -> 0 <= fc < 16 ->
  let ss := superframe_spec bo so fc ble pc ap in
  in_width 16 ss /\
  get_field SuperframeSpecification.beacon_order ss = bo /\
  get_field SuperframeSpecification.superframe_order ss = so /\
  get_field SuperframeSpecification.final_cap_slot ss = fc /\
  get_field SuperframeSpecification.battery_life_extension ss = bool_to_Z ble /\
  get_field SuperframeSpecification.pan_coordinator ss = bool_to_Z pc /\
  get_field SuperframeSpecification.association_permit ss = bool_to_Z ap.
Proof.
  intros Hb Hs Hf ss.
  set (fields := [(SuperframeSpecification.beacon_order, bo); (SuperframeSpecification.superframe_order, so);
    (SuperframeSpecification.final_cap_slot, fc);
    (SuperframeSpecification.battery_life_extension, bool_to_Z ble); (SuperframeSpecification.reserved, 0);
    (SuperframeSpecification.pan_coordinator, bool_to_Z pc);
    (SuperframeSpecification.association_permit, bool_to_Z ap)]).
  change ss with (write_fields fields 0).
  assert (writes_ok 16 fields) as Hw.
  { unfold fields. repeat match goal with |- context [bool_to_Z ?b] =>
      pose proof (bool_to_Z_range b); generalize dependent (bool_to_Z b) end.
    intros. solve_writes. }
  assert (no_overlap fields.*1 = true) as Hn by done.
  split; [apply (write_fields_width 16 fields 0); done|]. split_and!; solve_field 16 fields.
Qed.

Lemma status_again s : status_try_from (status_as_num s) = Some s.
Proof. by destruct s. Qed.
Lemma status_width s : in_width 8 (status_as_num s).
Proof. destruct s; by vm_compute. Qed.

Lemma status_roundtrips s : roundtrips status_serialize status_deserialize s.
Proof.
  destruct (roundtrips_uint 1 _ (status_width s)) as (b & E & D). exists b. split; [done|].
  intros rest. unfold status_deserialize. rewrite D. cbn [mbind result_bind]. by rewrite status_again.
Qed.

(** Reading an association response, and a beacon. *)
Lemma association_response_roundtrips a s :
  in_width 16 a ->
  exists bs, encodes command_serialize (AssociationResponse a s) bs /\
    forall rest, command_deserialize (bs ++ rest) = Ok (rest, AssociationResponse a s).
Proof.
  intros Ha.
  assert (in_width 8 2) as W2 by by vm_compute.
  destruct (roundtrips_uint 1 2 W2) as (b0 & E0 & D0). destruct (roundtrips_uint 2 a Ha) as (b1 & E1 & D1).
  destruct (status_roundtrips s) as (b2 & E2 & D2). exists (b0 ++ b1 ++ b2). split.
  - intros target. cbn. rewrite serialize_pair_spec, E0. cbn [mbind result_bind].
    rewrite serialize_pair_spec, E1. cbn [mbind result_bind]. by rewrite E2, !(assoc_L (++)).
  - intros rest. unfold command_deserialize. rewrite <- !(assoc_L (++)), D0. cbn [fallible map_err mbind result_bind].
    rewrite decide_False, decide_True by done. rewrite D1. cbn [fallible map_err mbind result_bind].
    by rewrite D2.
Qed.

Lemma beacon_roundtrips bo so fc ble pc ap :
  0 <= bo < 16 -> 0 <= so < 16 -> 0 <= fc < 16 ->
  exists bs, encodes frame_type_serialize (Beacon bo so fc ble pc ap) bs /\
    forall rest, frame_type_deserialize 0 (bs ++ rest) = Ok (rest, Beacon bo so fc ble pc ap).
Proof.
  intros Hb Hs Hf. destruct (superframe_spec_fields bo so fc ble pc ap Hb Hs Hf) as (Hw & G1 & G2 & G3 & G4 & G5 & G6).
  set (ss := superframe_spec bo so fc ble pc ap) in *.
  assert (in_width 8 0) as W0 by by vm_compute.
  destruct (roundtrips_pair _ _ _ _ ss (0, 0) (roundtrips_uint 2 ss Hw)
    (roundtrips_pair _ _ _ _ 0 0 (roundtrips_uint 1 0 W0) (roundtrips_uint 1 0 W0))) as (bs & E & D).
  exists bs. split.
  - intros target. cbn [frame_type_serialize]. unfold try_into_u16. rewrite !decide_True by lia.
    cbn [mbind result_bind]. apply E.
  - intros rest. unfold frame_type_deserialize. rewrite decide_True by done. rewrite D.
    cbn [fallible map_err mbind result_bind]. rewrite decide_False by tauto.
    by rewrite G1, G2, G3, G4, G5, G6, !bool_to_Z_neqb.
Qed.

Lemma old_frame_type_roundtrips t :
  frame_type_ok t -> writable t = true ->
  exists tag bs, frame_type_tag t = Ok tag /\ 0 <= tag < 5 /\ encodes frame_type_serialize t bs /\
    forall rest, frame_type_deserialize tag (bs ++ rest) = Ok (rest, t).
Proof.
  intros Ht Hw. destruct t as [bo so fc ble pc ap| | |c| | | |]; try done; cbn in Ht, Hw.
  - apply bool_decide_eq_true in Hw.
    destruct (beacon_roundtrips bo so fc ble pc ap) as (bs & E & D); try lia.
    exists 0, bs. split_and!; done || lia.
  - exists 1, []. split_and!; try (done || lia). intros target. by rewrite app_nil_r.
  - exists 2, []. split_and!; try (done || lia). intros target. by rewrite app_nil_r.
  - destruct c as [|a s| |]; try done. destruct (association_response_roundtrips a s Ht) as (bs & E & D).
    exists 3, bs. split_and!; try (done || lia). intros rest. unfold frame_type_deserialize.
    rewrite 3!decide_False, decide_True by done. by rewrite D.
Qed.

(** ** Frames *)

Lemma address_tag_range a : 0 <= address_tag a < 4.
Proof. destruct a; cbn; lia. Qed.

Lemma frame_control_fields f tag :
  0 <= tag < 8 ->
  let fsf := frame_control f tag in
  in_width 16 fsf /\
  get_field FrameControl.frame_type fsf = tag /\
  get_field FrameControl.frame_pending fsf = bool_to_Z (frame_pending f) /\
  get_field FrameControl.acknowledge_request fsf = bool_to_Z (acknowledge_request f) /\
  get_field FrameControl.pan_id_compression fsf = bool_to_Z (pan_id_compression f) /\
  get_field FrameControl.sequence_number_supression fsf
    = bool_to_Z (bool_decide (sequence_number f = None)) /\
  get_field FrameControl.destination_addressing_mode fsf = address_tag (destination f) /\
  get_field FrameControl.source_addressing_mode fsf = address_tag (source f).
Proof.
  intros Ht fsf. set (fields := [(FrameControl.frame_type, tag); (FrameControl.security_enabled, 0);
    (FrameControl.frame_pending, bool_to_Z (frame_pending f));
    (FrameControl.acknowledge_request, bool_to_Z (acknowledge_request f));
    (FrameControl.pan_id_compression, bool_to_Z (pan_id_compression f)); (FrameControl.reserved, 0);
    (FrameControl.sequence_number_supression, bool_to_Z (bool_decide (sequence_number f = None)));
    (FrameControl.information_elements_present, 0);
    (FrameControl.destination_addressing_mode, address_tag (destination f));
    (FrameControl.frame_version, 0); (FrameControl.source_addressing_mode, address_tag (source f))]).
  change fsf with (write_fields fields 0).
  assert (writes_ok 16 fields) as Hw.
  { pose proof (address_tag_range (destination f)). pose proof (address_tag_range (source f)).
    unfold fields. repeat match goal with |- context [bool_to_Z ?b] =>
      pose proof (bool_to_Z_range b); generalize dependent (bool_to_Z b) end.
    generalize dependent (address_tag (destination f)). generalize dependent (address_tag (source f)).
    intros. solve_writes. }
  assert (no_overlap fields.*1 = true) as Hn by done.
  split; [apply (write_fields_width 16 fields 0); done|]. split_and!; solve_field 16 fields.
Qed.

Lemma positive_bool b : positive (bool_to_Z b) = b.
Proof. by destruct b. Qed.

(** Whether the sequence number is there, as the control word says. *)
Lemma sequence_number_there f :
  (bool_to_Z (bool_decide (sequence_number f = None)) =? 0) = bool_decide (is_Some (sequence_number f)).
Proof.
  destruct (sequence_number f); [by rewrite (bool_decide_true (is_Some _))|].
  by rewrite (bool_decide_false (is_Some _)) by (by intros []).
Qed.

Lemma compression_spec f :
  pan_id_compression f = true -> panid_of (source f) = panid_of (destination f).
Proof. unfold pan_id_compression. rewrite andb_true_iff, !bool_decide_eq_true. tauto. Qed.

Lemma old_frame_roundtrips f :
  frame_ok f -> writable (frame_type f) = true ->
  exists bs, encodes frame_serialize f bs /\ frame_deserialize bs = Ok ([], f).
Proof.
  intros (Hn & Hd & Hs & Ht) Hw.
  destruct (old_frame_type_roundtrips _ Ht Hw) as (tag & b4 & Et & Htag & E4 & D4).
  destruct (frame_control_fields f tag) as (Hc & G1 & G2 & G3 & G4 & G5 & G6 & G7); [lia|].
  set (fsf := frame_control f tag) in *. destruct (roundtrips_uint 2 fsf Hc) as (b0 & E0 & D0).
  destruct (roundtrips_option (serialize_uint 1) (deserialize_uint 1) (sequence_number f)) as (b1 & E1 & D1).
  { intros n Hn'. apply roundtrips_uint. by apply Hn. }
  destruct (address_roundtrips (destination f) None false Hd) as (b2 & E2 & D2); [done|done|].
  destruct (address_roundtrips (source f)
    (if pan_id_compression f then panid_of (destination f) else None) (pan_id_compression f) Hs)
    as (b3 & E3 & D3).
  { by intros ->. }
  { intros Hp. rewrite Hp. by apply compression_spec. }
  exists (b0 ++ b1 ++ b2 ++ b3 ++ b4 ++ payload f). split.
  - intros target. unfold frame_serialize. rewrite Et. cbn [mbind result_bind]. fold fsf.
    rewrite E0. cbn [mbind result_bind]. rewrite E1. cbn [mbind result_bind].
    rewrite E2. cbn [mbind result_bind]. rewrite E3. cbn [mbind result_bind].
    rewrite E4. cbn [mbind result_bind]. by rewrite <- !(assoc_L (++)).
  - unfold frame_deserialize. rewrite D0. cbn [fallible map_err mbind result_bind].
    rewrite G5, sequence_number_there, D1. cbn [fallible map_err mbind result_bind].
    rewrite G6, D2. cbn [fallible map_err mbind result_bind].
    rewrite G7, G4, bool_to_Z_neqb, D3. cbn [fallible map_err mbind result_bind].
    rewrite G1, D4. cbn [fallible map_err mbind result_bind nom_rest].
    rewrite G2, G3, !positive_bool. by destruct f.
Qed.

Lemma old_frame_refused f target :
  frame_ok f -> refused (frame_type f) = true -> exists e, frame_serialize f target = Err e.
Proof.
  intros _ Hr. unfold frame_serialize.
  destruct (frame_type_tag (frame_type f)) as [tag|e]; cbn [mbind result_bind]; [|eauto].
  destruct (serialize_uint 2 _ target) as [t0|]; cbn [mbind result_bind]; [|eauto].
  destruct (serialize_option _ _ t0) as [t1|]; cbn [mbind result_bind]; [|eauto].
  destruct (address_serialize _ _ t1) as [t2|]; cbn [mbind result_bind]; [|eauto].
  destruct (address_serialize _ _ t2) as [t3|]; cbn [mbind result_bind]; [|eauto].
  destruct (frame_type f) as [bo so fc ble pc ap| | |[]| | | |]; try done; try (by eexists).
  cbn in Hr. apply bool_decide_eq_true in Hr.
  cbn [frame_type_serialize]. unfold try_into_u16.
  destruct (decide (bo < 65536)); [|eexists; reflexivity].
  destruct (decide (so < 65536)); [|eexists; reflexivity].
  destruct (decide (fc < 65536)); [|eexists; reflexivity]. lia.
Qed.

(** C40: A frame of the first version that can be written without loss is read back as it
    was written, whatever its addresses, its PAN compression, its sequence number and its
    payload; frame types the code does not know how to write are refused with an error. *)
Theorem old_frame_roundtrip f :
  frame_ok f ->
  (writable (frame_type f) = true ->
    exists bs, encodes frame_serialize f bs /\ frame_deserialize bs = Ok ([], f)) /\
  (refused (frame_type f) = true -> exists e, frame_serialize f [] = Err e).
Proof.
  intros Hf. split; [by apply old_frame_roundtrips|]. by apply old_frame_refused.
Qed.

(** ** What is neither written faithfully nor refused *)

Lemma superframe_spec_mod bo so fc ble pc ap :
  0 <= bo -> 0 <= so -> 0 <= fc ->
  superframe_spec bo so fc ble pc ap = superframe_spec (bo mod 16) (so mod 16) (fc mod 16) ble pc ap.
Proof.
  intros Hb Hs Hf. unfold superframe_spec.
  assert (forall f v x, 0 <= lsb f <= msb f -> 0 <= x -> 0 <= v -> 0 <= set_field f v x) as Hnn
    by (intros; by apply set_bit_range_nonneg).
  assert (forall f v x, 0 <= lsb f -> msb f - lsb f = 3 -> 0 <= x -> 0 <= v ->
    set_field f v x = set_field f (v mod 16) x) as Hm.
  { intros f v x H1' H2' Hx Hv. unfold set_field. rewrite set_bit_range_mod by lia.
    replace (msb f - lsb f + 1) with 4 by lia. done. }
  assert (forall x, 0 <= x mod 16) by (intros; apply Z.mod_pos_bound; lia).
  rewrite (Hm SuperframeSpecification.beacon_order) by (cbn; lia).
  rewrite (Hm SuperframeSpecification.superframe_order) by (try apply Hnn; cbn; done || lia).
  rewrite (Hm SuperframeSpecification.final_cap_slot) by (repeat apply Hnn; cbn; done || lia).
  done.
Qed.

(** A beacon whose orders or last slot do not fit four bits, but sixteen, is not refused
    as too big: it is written as the beacon with the remainders modulo 16. *)
Theorem old_beacon_truncated f bo so fc ble pc ap target :
  0 <= bo < 65536 -> 0 <= so < 65536 -> 0 <= fc < 65536 ->
  frame_type f = Beacon bo so fc ble pc ap ->
  frame_serialize f target =
  frame_serialize {| frame_pending := frame_pending f; acknowledge_request := acknowledge_request f;
    sequence_number := sequence_number f; destination := destination f; source := source f;
    frame_type := Beacon (bo mod 16) (so mod 16) (fc mod 16) ble pc ap; payload := payload f |} target.
Proof.
  intros Hb Hs Hf E. set (g := {| frame_type := Beacon (bo mod 16) _ _ _ _ _ |}).
  unfold frame_serialize. change (frame_control g) with (frame_control f).
  change (pan_id_compression g) with (pan_id_compression f). rewrite E.
  cbn [g frame_type sequence_number destination source payload frame_type_tag mbind result_bind].
  assert (forall t, frame_type_serialize (Beacon bo so fc ble pc ap) t =
    frame_type_serialize (Beacon (bo mod 16) (so mod 16) (fc mod 16) ble pc ap) t) as Ht.
  { intros t. cbn [frame_type_serialize]. unfold try_into_u16.
    assert (forall x, 0 <= x mod 16 < 16) as Hm by (intros; apply Z.mod_pos_bound; lia).
    pose proof (Hm bo). pose proof (Hm so). pose proof (Hm fc).
    rewrite !decide_True by lia. cbn [mbind result_bind].
    by rewrite (superframe_spec_mod bo so fc) by lia. }
  destruct (serialize_uint 2 _ target) as [t0|]; cbn [mbind result_bind]; [|done].
  destruct (serialize_option _ _ t0) as [t1|]; cbn [mbind result_bind]; [|done].
  destruct (address_serialize _ _ t1) as [t2|]; cbn [mbind result_bind]; [|done].
  destruct (address_serialize _ _ t2) as [t3|]; cbn [mbind result_bind]; [|done].
  by rewrite Ht.
Qed.

(** ** Reading never panics *)

Lemma suffix_bytes_ok (r i : list Z) : r `suffix_of` i -> bytes_ok i -> bytes_ok r.
Proof. intros [x ->] H'. by apply Forall_app in H' as [_ ?]. Qed.

Lemma uint_bytes_ok w input rest x :
  deserialize_uint w input = Ok (rest, x) -> bytes_ok input -> in_width (8 * Z.of_nat w) x /\ bytes_ok rest.
Proof.
  intros E Hb. destruct (deserialize_uint_sound w input rest x E Hb) as [Hx Hs].
  split; [done|]. by apply (suffix_bytes_ok rest input).
Qed.

Lemma address_bytes_ok tag use input rest a :
  address_deserialize tag use input = Ok (rest, a) -> bytes_ok input -> bytes_ok rest.
Proof.
  intros E Hb. unfold address_deserialize in E.
  repeat case_decide; try done; [by injection E as <- _|..];
    (destruct use as [p|]; [|destruct (deserialize_uint 2 input) as [[i1 p]|] eqn:E1; [|done];
      apply uint_bytes_ok in E1 as [_ Hb1]; [|done]]; cbn [mbind result_bind] in E;
     match type of E with (?d ≫= _) = _ => destruct d as [[i2 x]|] eqn:E2; [|done] end;
     cbn [mbind result_bind] in E; injection E as <- _; by apply uint_bytes_ok in E2 as [_ ?]).
Qed.

Lemma one_bit_try_from x f : 0 <= x -> lsb f = msb f -> 0 <= lsb f ->
  is_Some (device_type_try_from (get_field f x)) /\ is_Some (power_source_try_from (get_field f x)).
Proof.
  intros Hx E Hl. unfold get_field. rewrite E. pose proof (bit_range_bound x (msb f) (msb f)) as Hb.
  replace (msb f - msb f + 1) with 1 in Hb by lia. change (2 ^ 1) with 2 in Hb.
  unfold device_type_try_from, power_source_try_from.
  split; repeat case_decide; done || lia.
Qed.

(** An error of the parser itself, or a frame *)
Definition no_panic {E A} (r : result (or_panic E) A) : Prop := r <> Err Panicked.

Lemma fallible_no_panic {E A} (r : result E A) : fallible r <> Err Panicked.
Proof. by destruct r. Qed.

Lemma command_no_panic input : bytes_ok input -> command_deserialize input <> Err Panicked.
Proof.
  intros Hb. unfold command_deserialize.
  destruct (deserialize_uint 1 input) as [[i1 id]|] eqn:E1; [|done]. cbn [fallible map_err mbind result_bind].
  apply uint_bytes_ok in E1 as [_ Hb1]; [|done].
  case_decide; [|case_decide].
  - destruct (deserialize_uint 1 i1) as [[i2 bf]|] eqn:E2; [|done]. cbn [fallible map_err mbind result_bind].
    apply uint_bytes_ok in E2 as [[Hbf _] _]; [|done].
    destruct (one_bit_try_from bf AssociationRequestField.device_type Hbf) as [[d ->] _]; [done..|].
    destruct (one_bit_try_from bf AssociationRequestField.power_source Hbf) as [_ [p ->]]; [done..|]. done.
  - destruct (deserialize_uint 2 i1) as [[i2 a]|]; [|done]. cbn [fallible map_err mbind result_bind].
    by destruct (status_deserialize i2) as [[]|].
  - by repeat case_decide.
Qed.

Lemma frame_type_no_panic tag input : bytes_ok input -> frame_type_deserialize tag input <> Err Panicked.
Proof.
  intros Hb. unfold frame_type_deserialize. case_decide.
  { destruct (deserialize_pair _ _ input) as [[i1 [spec [gts pa]]]|]; [|done].
    cbn [fallible map_err mbind result_bind]. by case_decide. }
  do 2 (case_decide; [done|]). case_decide.
  { pose proof (command_no_panic input Hb). destruct (command_deserialize input) as [[]|[|]]; done. }
  by repeat case_decide.
Qed.

(** No bytes from the air make the old frame parser panic: its two unwraps are of
    conversions that one bit cannot fail. *)
Theorem old_frame_deserialize_total input :
  bytes_ok input -> no_panic (frame_deserialize input).
Proof.
  intros Hb. unfold no_panic, frame_deserialize.
  destruct (deserialize_uint 2 input) as [[i0 fsf]|] eqn:E0; [|done]. cbn [fallible map_err mbind result_bind].
  apply uint_bytes_ok in E0 as [_ Hb0]; [|done].
  assert (exists r, nom_cond (get_field FrameControl.sequence_number_supression fsf =? 0)
    (deserialize_uint 1) i0 = r /\ match r with Ok (i1, _) => bytes_ok i1 | Err _ => True end) as (r1 & -> & H1').
  { eexists; split; [done|]. unfold nom_cond. destruct (_ =? 0); [|done].
    destruct (deserialize_uint 1 i0) as [[i1 n]|] eqn:E1; [|done]. cbn.
    by apply uint_bytes_ok in E1 as [_ ?]. }
  destruct r1 as [[i1 n]|]; [|done]. cbn [fallible map_err mbind result_bind].
  destruct (address_deserialize _ None i1) as [[i2 d]|] eqn:E2; [|done]. cbn [fallible map_err mbind result_bind].
  apply address_bytes_ok in E2; [|done].
  destruct (address_deserialize _ _ i2) as [[i3 a]|] eqn:E3; [|done]. cbn [fallible map_err mbind result_bind].
  apply address_bytes_ok in E3; [|done].
  pose proof (frame_type_no_panic (get_field FrameControl.frame_type fsf) i3 E3).
  by destruct (frame_type_deserialize _ i3) as [[i4 t]|[|]].
Qed.

(** The acknowledgement that is created is the one that is expected. *)
Lemma created_ack_is_expected f pending a :
  create_ack f pending = Some a ->
  expect_ack f = sequence_number a /\ frame_type a = Ack /\ expect_ack a = None.
Proof. unfold create_ack, expect_ack. destruct (acknowledge_request f); [|done]. by intros [= <-]. Qed.
End theory.

(** ** The code's tests *)

#[local] Existing Instance BitRange_reference.
#[local] Existing Instance BitRange_reference_laws.
#[local] Existing Instance ParseSerialize_reference.
#[local] Existing Instance ParseSerialize_reference_laws.

(** [test_frame_control_parsing] and [test_frame_control_serialize] *)
Definition all_control_fields : list bit_field :=
  [FrameControl.frame_type; FrameControl.security_enabled; FrameControl.frame_pending;
   FrameControl.acknowledge_request; FrameControl.pan_id_compression; FrameControl.reserved;
   FrameControl.sequence_number_supression; FrameControl.information_elements_present;
   FrameControl.destination_addressing_mode; FrameControl.frame_version;
   FrameControl.source_addressing_mode].
Definition test_frame_control_parsing : bool :=
  forallb (fun '(input, fields) =>
    match deserialize_uint 2 input with
    | Ok (rest, parsed) => bool_decide (rest = []) &&
        bool_decide ((fun f => get_field f parsed) <$> all_control_fields = fields)
    | Err _ => false
    end)
    [([0x03; 0x08], [3; 0; 0; 0; 0; 0; 0; 0; 2; 0; 0]);
     ([0x41; 0x88], [1; 0; 0; 0; 1; 0; 0; 0; 2; 0; 2]);
     ([0x00; 0x80], [0; 0; 0; 0; 0; 0; 0; 0; 0; 0; 2])].
Definition test_frame_control_serialize : bool :=
  forallb (fun input =>
    match deserialize_uint 2 input with
    | Ok (_, parsed) => match serialize_uint 2 parsed [] with Ok out => bool_decide (out = input) | Err _ => false end
    | Err _ => false
    end) [[0x41; 0x88]; [0x00; 0x80]].
Example frame_control_passes : test_frame_control_parsing && test_frame_control_serialize = true.
Proof. vm_compute. reflexivity. Qed.

(** [test_parse_mac_frame]: the bytes and the frames. *)
Definition test_parse_mac_frame : list (list Z * Frame) :=
  [([3; 8; 165; 255; 255; 255; 255; 7],
    {| frame_pending := false; acknowledge_request := false; sequence_number := Some 165;
       destination := ASShort panid_broadcast short_broadcast; source := ASNone;
       frame_type := FTCommand BeaconRequest; payload := [] |});
   ([65; 136; 1; 152; 118; 255; 255; 0; 0; 9; 18; 252; 255; 0; 0; 1; 19; 21; 104; 137; 14; 0;
     75; 18; 40; 2; 0; 0; 0; 21; 104; 137; 14; 0; 75; 18; 0; 0; 113; 80; 131; 114; 12; 228],
    {| frame_pending := false; acknowledge_request := false; sequence_number := Some 1;
       destination := ASShort 30360 short_broadcast; source := ASShort 30360 0; frame_type := Data;
       payload := [9; 18; 252; 255; 0; 0; 1; 19; 21; 104; 137; 14; 0; 75; 18; 40; 2; 0; 0; 0; 21; 104; 137;
                   14; 0; 75; 18; 0; 0; 113; 80; 131; 114; 12; 228] |});
   ([0; 128; 64; 152; 118; 0; 0; 255; 207; 0; 0; 0; 34; 132; 21; 104; 137; 14; 0; 75; 18; 0;
     255; 255; 255; 0],
    {| frame_pending := false; acknowledge_request := false; sequence_number := Some 64;
       destination := ASNone; source := ASShort 30360 0;
       frame_type := Beacon 15 15 15 false true true;
       payload := [0; 34; 132; 21; 104; 137; 14; 0; 75; 18; 0; 255; 255; 255; 0] |})].
(** [test_serialize_mac_frame]: the frames and the bytes. *)
Definition test_serialize_mac_frame : list (Frame * list Z) :=
  [({| frame_pending := false; acknowledge_request := false; sequence_number := Some 64;
       destination := ASNone; source := ASShort 30360 0;
       frame_type := Beacon 15 15 15 false true true;
       payload := [0; 34; 132; 21; 104; 137; 14; 0; 75; 18; 0; 255; 255; 255; 0] |},
    [0; 128; 64; 152; 118; 0; 0; 255; 207; 0; 0; 0; 34; 132; 21; 104; 137; 14; 0; 75; 18; 0;
     255; 255; 255; 0]);
   ({| frame_pending := false; acknowledge_request := true; sequence_number := Some 10;
       destination := ASExtended 30360 15046349333641061126;
       source := ASExtended 30360 5149013196761109;
       frame_type := FTCommand (AssociationResponse 21899 AssociationSuccessful);
       payload := [] |},
    [99; 204; 10; 152; 118; 6; 99; 28; 254; 255; 94; 207; 208; 21; 104; 137; 14; 0; 75; 18;
     0; 2; 139; 85; 0])].

Example parse_mac_frame_passes :
  Forall (fun '(bytes, f) => frame_deserialize bytes = Ok ([], f)) test_parse_mac_frame.
Proof. repeat constructor. Qed.
Example serialize_mac_frame_passes :
  Forall (fun '(f, bytes) => frame_serialize f [] = Ok bytes) test_serialize_mac_frame.
Proof. repeat constructor. Qed.

Definition example_response : Frame :=
  {| frame_pending := false; acknowledge_request := true; sequence_number := Some 10;
     destination := ASExtended 30360 1311768467463790320; source := ASShort 30360 0;
     frame_type := FTCommand (AssociationResponse 21899 AssociationSuccessful); payload := [] |}.

Lemma old_frame_roundtrip_witness :
  frame_ok example_response /\ writable (frame_type example_response) = true /\
  exists bs, encodes frame_serialize example_response bs /\ frame_deserialize bs = Ok ([], example_response).
Proof.
  assert (frame_ok example_response) as Hok.
  { unfold frame_ok, address_ok, frame_type_ok, in_width; cbn -[Z.pow].
    split_and!; try lia. intros n [= <-]. lia. }
  split; [exact Hok|]. split; [reflexivity|].
  exact (proj1 (old_frame_roundtrip example_response Hok) eq_refl).
Defined.

Definition example_beacon : Frame :=
  {| frame_pending := false; acknowledge_request := false; sequence_number := Some 64;
     destination := ASNone; source := ASShort 30360 0; frame_type := Beacon 31 15 15 false true true;
     payload := [] |}.
Lemma old_beacon_truncated_witness :
  frame_serialize example_beacon [] =
  frame_serialize {| frame_pending := false; acknowledge_request := false; sequence_number := Some 64;
    destination := ASNone; source := ASShort 30360 0; frame_type := Beacon 15 15 15 false true true;
    payload := [] |} [].
Proof.
  apply (old_beacon_truncated example_beacon 31 15 15 false true true []); [lia|lia|lia|reflexivity].
Defined.

Lemma old_frame_deserialize_total_witness :
  bytes_ok [3; 8; 165; 255; 255; 255; 255; 1; 254] /\
  no_panic (frame_deserialize [3; 8; 165; 255; 255; 255; 255; 1; 254]).
Proof.
  assert (bytes_ok [3; 8; 165; 255; 255; 255; 255; 1; 254]) as Hb
    by (apply (bool_decide_unpack _); vm_compute; exact I).
  split; [exact Hb|]. exact (old_frame_deserialize_total _ Hb).
Defined.
