(* ===== verification/MruSet.v ===== *)
(** * The most-recently-used set ([old_src/mru_set.rs],
      [old_src/ieee802154/mac/mru_address_set.rs])

    A set whose most recently inserted elements have a slot in a table of the radio. The
    code keeps the order as a doubly linked list in two hash maps, and returns the
    changes of the table as actions; its assertions and unwraps are panics here. *)

From Stdlib Require Import ZArith Lia String.
From S2P Require Import Prelude.
From S2P Require Import OldFrame.

Module Mru.

Record MRUSet {T : Type} `{Countable T} := {
  entries : gset T;
  assigned_slots : gmap T nat;
  link_newer : gmap T T;
  link_older : gmap T T;
  newest : option T;
  oldest_slotted : option T;
  free_slots : list nat;
}.
Arguments MRUSet T {_ _}.

Inductive MRUSetAction {T : Type} := NoAction | ClearSlot (slot : nat) | SetSlot (slot : nat) (item : T).
Arguments MRUSetAction : clear implicits.

Section mru.
Context {T : Type} `{Countable T}.
Implicit Types s : MRUSet T.

(** [InsertOrRemove::insert_or_remove] *)
Definition insert_or_remove {V} (m : gmap T V) (key : T) (value : option V) : option V * gmap T V :=
  (m !! key, match value with Some v => <[key := v]> m | None => delete key m end).

Definition new (num_slots : nat) : exec (MRUSet T) :=
  _ ← rust_assert (negb (num_slots =? 0)%nat);
  Ok {| entries := ∅; assigned_slots := ∅; link_newer := ∅; link_older := ∅; newest := None;
        oldest_slotted := None; free_slots := seq 0 num_slots |}.

Definition contains s (item : T) : bool := bool_decide (item ∈ entries s).

Definition unlink (item : T) s : exec (MRUSet T) :=
  let newer := link_newer s !! item in
  let older := link_older s !! item in
  let links_newer := delete item (link_newer s) in
  let links_older := delete item (link_older s) in
  links_older ←
    match newer with
    | Some n =>
        let '(was, m) := insert_or_remove links_older n older in
        _ ← rust_assert (bool_decide (was = Some item)); Ok m
    | None => Ok links_older
    end;
  links_newer ←
    match older with
    | Some o =>
        let '(was, m) := insert_or_remove links_newer o newer in
        _ ← rust_assert (bool_decide (was = Some item)); Ok m
    | None => Ok links_newer
    end;
  Ok {| entries := entries s; assigned_slots := assigned_slots s; link_newer := links_newer;
        link_older := links_older;
        newest := if decide (newest s = Some item) then older else newest s;
        oldest_slotted := if decide (oldest_slotted s = Some item) then newer else oldest_slotted s;
        free_slots := free_slots s |}.

Definition link_as_newest (item : T) s : exec (MRUSet T) :=
  let second_newest := newest s in
  links_newer ←
    match second_newest with
    | Some second =>
        _ ← rust_assert (bool_decide (link_newer s !! second = None));
        Ok (<[second := item]> (link_newer s))
    | None => Ok (link_newer s)
    end;
  let '(was, links_older) := insert_or_remove (link_older s) item second_newest in
  _ ← rust_assert (bool_decide (was = None));
  Ok {| entries := entries s; assigned_slots := assigned_slots s; link_newer := links_newer;
        link_older := links_older; newest := Some item;
        oldest_slotted := match oldest_slotted s with None => Some item | Some o => Some o end;
        free_slots := free_slots s |}.

(** Field updates. *)
Definition set_slots (assigned : gmap T nat) (free : list nat) (oldest : option T) s : MRUSet T :=
  {| entries := entries s; assigned_slots := assigned; link_newer := link_newer s;
     link_older := link_older s; newest := newest s; oldest_slotted := oldest; free_slots := free |}.
Definition set_entries (es : gset T) s : MRUSet T :=
  {| entries := es; assigned_slots := assigned_slots s; link_newer := link_newer s;
     link_older := link_older s; newest := newest s; oldest_slotted := oldest_slotted s;
     free_slots := free_slots s |}.

Definition take_oldest_slot s : option nat * MRUSet T :=
  match free_slots s with
  | slot :: free => (Some slot, set_slots (assigned_slots s) free (oldest_slotted s) s)
  | [] =>
      match oldest_slotted s with
      | None => (None, s)
      | Some o =>
          (assigned_slots s !! o,
           set_slots (delete o (assigned_slots s)) [] (link_newer s !! o) s)
      end
  end.

Definition has_slot s (item : T) : option nat := assigned_slots s !! item.

Definition insert (item : T) s : exec (MRUSetAction T * MRUSet T) :=
  if decide (newest s = Some item) then Ok (NoAction, s)
  else
    let s := set_entries ({[item]} ∪ entries s) s in
    s ← unlink item s;
    '(retval, slot, s) ←
      match assigned_slots s !! item with
      | Some assigned_slot =>
          Ok (NoAction, assigned_slot,
              set_slots (delete item (assigned_slots s)) (free_slots s) (oldest_slotted s) s)
      | None =>
          let '(slot, s) := take_oldest_slot s in
          slot ← unwrap slot; Ok (SetSlot slot item, slot, s)
      end;
    let s := set_slots (<[item := slot]> (assigned_slots s)) (free_slots s) (oldest_slotted s) s in
    s ← link_as_newest item s;
    Ok (retval, s).

Definition reassign_slot (slot : nat) s : option T * MRUSet T :=
  match oldest_slotted s ≫= fun o => link_older s !! o with
  | Some next_in_line =>
      (Some next_in_line,
       set_slots (<[next_in_line := slot]> (assigned_slots s)) (free_slots s) (Some next_in_line) s)
  | None => (None, set_slots (assigned_slots s) (free_slots s ++ [slot]) (oldest_slotted s) s)
  end.

Definition remove (item : T) s : exec (MRUSetAction T * MRUSet T) :=
  s ← unlink item s;
  let s := set_entries (entries s ∖ {[item]}) s in
  match assigned_slots s !! item with
  | Some slot =>
      let s := set_slots (delete item (assigned_slots s)) (free_slots s) (oldest_slotted s) s in
      match reassign_slot slot s with
      | (Some new_item, s) => Ok (SetSlot slot new_item, s)
      | (None, s) => Ok (ClearSlot slot, s)
      end
  | None => Ok (NoAction, s)
  end.

Definition len s : nat := size (entries s).
End mru.

(** ** The set of addresses *)

Inductive MRUAddressSetAction :=
| NoAddressAction
| SetShortSlot (slot : nat) (a : option (Z * Z))
| SetExtendedSlot (slot : nat) (a : option Z).

(** [From<MRUSetAction<..>>] *)
Definition from_short (a : MRUSetAction (Z * Z)) : MRUAddressSetAction :=
  match a with
  | NoAction => NoAddressAction
  | SetSlot slot address => SetShortSlot slot (Some address)
  | ClearSlot slot => SetShortSlot slot None
  end.
Definition from_extended (a : MRUSetAction Z) : MRUAddressSetAction :=
  match a with
  | NoAction => NoAddressAction
  | SetSlot slot address => SetExtendedSlot slot (Some address)
  | ClearSlot slot => SetExtendedSlot slot None
  end.

Record MRUAddressSet := { short : MRUSet (Z * Z); extended : MRUSet Z }.

Definition address_set_new (num_short_slots num_extended_slots : nat) : exec MRUAddressSet :=
  s ← new num_short_slots; e ← new num_extended_slots; Ok {| short := s; extended := e |}.

Definition address_set_contains (s : MRUAddressSet) (a : OldFrame.AddressSpecification) : bool :=
  match a with
  | OldFrame.ASNone => false
  | OldFrame.ASShort panid address => contains (short s) (panid, address)
  | OldFrame.ASExtended _ address => contains (extended s) address
  end.

Definition address_set_insert (a : OldFrame.AddressSpecification) (s : MRUAddressSet) :
    exec (MRUAddressSetAction * MRUAddressSet) :=
  match a with
  | OldFrame.ASNone => Ok (NoAddressAction, s)
  | OldFrame.ASShort panid address =>
      '(x, m) ← insert (panid, address) (short s);
      Ok (from_short x, {| short := m; extended := extended s |})
  | OldFrame.ASExtended _ address =>
      '(x, m) ← insert address (extended s);
      Ok (from_extended x, {| short := short s; extended := m |})
  end.

Definition address_set_remove (a : OldFrame.AddressSpecification) (s : MRUAddressSet) :
    exec (MRUAddressSetAction * MRUAddressSet) :=
  match a with
  | OldFrame.ASNone => Ok (NoAddressAction, s)
  | OldFrame.ASShort panid address =>
      '(x, m) ← remove (panid, address) (short s);
      Ok (from_short x, {| short := m; extended := extended s |})
  | OldFrame.ASExtended _ address =>
      '(x, m) ← remove address (extended s);
      Ok (from_extended x, {| short := short s; extended := m |})
  end.

Definition address_set_len (s : MRUAddressSet) : nat := (len (short s) + len (extended s))%nat.

(** [test_mru_set]: the operations and the actions they return. *)
Inductive mru_op {T : Type} := OpInsert (x : T) | OpRemove (x : T).
Arguments mru_op : clear implicits.
Fixpoint run_ops {T} `{Countable T} (ops : list (mru_op T)) (s : MRUSet T) :
    exec (list (MRUSetAction T) * MRUSet T) :=
  match ops with
  | [] => Ok ([], s)
  | op :: ops =>
      '(a, s) ← match op with OpInsert x => insert x s | OpRemove x => remove x s end;
      '(acts, s) ← run_ops ops s;
      Ok (a :: acts, s)
  end.
Definition test_mru_set : exec (list (MRUSetAction Z)) :=
  s ← new 3;
  '(acts, _) ← run_ops [OpInsert 65; OpInsert 65; OpRemove 65; OpInsert 66; OpInsert 67; OpInsert 68;
                        OpInsert 66; OpInsert 69; OpRemove 69; OpInsert 69]%Z s;
  Ok acts.
Example mru_set_passes :
  test_mru_set = Ok [SetSlot 0 65; NoAction; ClearSlot 0; SetSlot 1 66; SetSlot 2 67; SetSlot 0 68;
                     NoAction; SetSlot 2 69; SetSlot 2 67; SetSlot 2 69]%Z.
Proof. vm_compute. reflexivity. Qed.
End Mru.
