(* ===== verification/MruSetTheory.v ===== *)
(** * The most-recently-used set: it is a recency list, and its slots hold the newest

    The links of the two hash maps are the neighbours in a list of the elements, most
    recent first; the slots are those of its first [num_slots] elements. [refines] carries
    both through every operation, so no assertion and no unwrap of the code can fail. *)

From Stdlib Require Import ZArith Lia String.
From S2P Require Import Prelude.
From S2P Require Import MruSet.

Import Mru.

Section theory.
Context {T : Type} `{Countable T}.
Implicit Types s : MRUSet T.
Implicit Types l k : list T.

(** ** The specification: a list, and the table of the radio *)

Definition drop_item (x : T) l : list T := filter (fun y => y <> x) l.
Definition spec_op (l : list T) (op : mru_op T) : list T :=
  match op with OpInsert x => x :: drop_item x l | OpRemove x => drop_item x l end.
Definition apply_action (tab : list (option T)) (a : MRUSetAction T) : list (option T) :=
  match a with
  | NoAction => tab
  | ClearSlot i => <[i := None]> tab
  | SetSlot i x => <[i := Some x]> tab
  end.

(** ** Neighbours in a list *)

Fixpoint adj (a b : T) l : Prop :=
  match l with [] => False | x :: l => (x = a /\ head l = Some b) \/ adj a b l end.

Lemma adj_elem a b l : adj a b l -> a ∈ l /\ b ∈ l.
Proof.
  induction l as [|x l IH]; [done|]. intros [[-> Hh]|Ha].
  - destruct l; simplify_eq/=. set_solver.
  - set_solver.
Qed.

Lemma adj_app a b l k :
  adj a b (l ++ k) <-> adj a b l \/ (last l = Some a /\ head k = Some b) \/ adj a b k.
Proof.
  induction l as [|x [|y l] IH]; [naive_solver| |].
  - simpl. naive_solver.
  - change (last (x :: y :: l)) with (last (y :: l)).
    change (adj a b ((x :: y :: l) ++ k)) with
      ((x = a /\ Some y = Some b) \/ adj a b ((y :: l) ++ k)).
    change (adj a b (x :: y :: l)) with ((x = a /\ Some y = Some b) \/ adj a b (y :: l)).
    naive_solver.
Qed.

Lemma not_adj_head a b l : NoDup l -> head l = Some b -> ~ adj a b l.
Proof.
  destruct l as [|x l]; [done|]. intros [Hx _]%NoDup_cons [= ->] [[_ Hh]|[_ Ha]%adj_elem]; [|done].
  destruct l; simplify_eq/=. set_solver.
Qed.

Lemma not_adj_last a b l : NoDup l -> last l = Some a -> ~ adj a b l.
Proof.
  intros Hn [k ->]%last_Some. apply NoDup_app in Hn as (_ & Hd & _).
  rewrite adj_app. intros [[Ha _]%adj_elem|[[Ha _]|[[_ ?]|[]]]]; simplify_eq/=.
  - set_solver.
  - apply last_Some_elem_of in Ha. set_solver.
Qed.

(** ** The links *)

Record linked (l : list T) (s : MRUSet T) : Prop := {
  linked_nodup : NoDup l;
  linked_older a b : link_older s !! a = Some b <-> adj a b l;
  linked_newer a b : link_newer s !! b = Some a <-> adj a b l;
  linked_newest : newest s = head l;
}.

(** The fields that linking leaves alone. *)
Definition same_table s s' : Prop :=
  entries s' = entries s /\ assigned_slots s' = assigned_slots s /\ free_slots s' = free_slots s.

Lemma linked_split x l1 l2 s : linked (l1 ++ x :: l2) s ->
  link_newer s !! x = last l1 /\ link_older s !! x = head l2.
Proof.
  intros [Hn Ho Hw _]. apply NoDup_app in Hn as (_ & Hd & [Hx _]%NoDup_cons).
  assert (~ x ∈ l1) by set_solver.
  split; apply option_eq; intros b; [rewrite Hw|rewrite Ho]; rewrite adj_app; simpl;
    (split; [|naive_solver]).
  - intros [[_ ?]%adj_elem|[[? _]|[[-> Hh]|[_ ?]%adj_elem]]]; try done.
    apply head_Some_elem_of in Hh. done.
  - intros [[? _]%adj_elem|[[Hl _]|[[_ ?]|[? _]%adj_elem]]]; try done.
    apply last_Some_elem_of in Hl. done.
Qed.

Lemma linked_drop x l1 l2 s' : NoDup (l1 ++ x :: l2) ->
  (forall a b, link_older s' !! a = Some b <->
     adj a b l1 \/ (last l1 = Some a /\ head l2 = Some b) \/ adj a b l2) ->
  (forall a b, link_newer s' !! b = Some a <->
     adj a b l1 \/ (last l1 = Some a /\ head l2 = Some b) \/ adj a b l2) ->
  newest s' = head (l1 ++ l2) -> linked (l1 ++ l2) s'.
Proof.
  intros Hn Ho Hw Hh. split; [|intros a b; rewrite adj_app; auto..|done].
  apply NoDup_app in Hn as (? & ? & [? ?]%NoDup_cons). apply NoDup_app. set_solver.
Qed.

(** The new links around a removed element. *)
Definition put_at (k v : option T) (m : gmap T T) : gmap T T :=
  match k with Some k => snd (insert_or_remove m k v) | None => m end.
Lemma lookup_put_at (k v : option T) m a : put_at k v m !! a = if decide (k = Some a) then v else m !! a.
Proof.
  destruct k as [k|]; [|by rewrite decide_False]. simpl. destruct v as [v|]; destruct (decide _) as [[= ->]|Hk].
  - apply lookup_insert_eq.
  - apply lookup_insert_ne. congruence.
  - apply lookup_delete_eq.
  - apply lookup_delete_ne. congruence.
Qed.

Lemma unlink_eq x l1 l2 s : linked (l1 ++ x :: l2) s ->
  unlink x s = Ok {| entries := entries s; assigned_slots := assigned_slots s;
    link_newer := put_at (head l2) (last l1) (delete x (link_newer s));
    link_older := put_at (last l1) (head l2) (delete x (link_older s));
    newest := if decide (newest s = Some x) then head l2 else newest s;
    oldest_slotted := if decide (oldest_slotted s = Some x) then last l1 else oldest_slotted s;
    free_slots := free_slots s |}.
Proof.
  intros Hl. pose proof (linked_split _ _ _ _ Hl) as [Ew Eo]. destruct Hl as [Hn Ho Hw _].
  apply NoDup_app in Hn as (_ & Hd & [Hx _]%NoDup_cons).
  assert (E1 : forall n, last l1 = Some n -> delete x (link_older s) !! n = Some x).
  { intros n Hl1. rewrite lookup_delete_ne.
    - apply Ho, adj_app. auto.
    - apply last_Some_elem_of in Hl1. set_solver. }
  assert (E2 : forall o, head l2 = Some o -> delete x (link_newer s) !! o = Some x).
  { intros o Hl2. rewrite lookup_delete_ne.
    - apply Hw, adj_app. simpl. auto.
    - apply head_Some_elem_of in Hl2. set_solver. }
  unfold unlink. rewrite Ew, Eo. unfold insert_or_remove, rust_assert, put_at.
  cbn [mbind result_bind].
  destruct (last l1), (head l2);
    rewrite ?E1, ?E2 by done; by rewrite ?bool_decide_true.
Qed.

Lemma adj_app_ne a b x l1 l2 : a <> x -> b <> x ->
  adj a b (l1 ++ x :: l2) <-> adj a b l1 \/ adj a b l2.
Proof. rewrite adj_app. simpl. naive_solver. Qed.

Lemma adj_app_l b x l1 l2 : x ∉ l1 -> x ∉ l2 -> adj x b (l1 ++ x :: l2) <-> head l2 = Some b.
Proof.
  intros Hx1 Hx2. rewrite adj_app. simpl. split; [|auto].
  intros [[? _]%adj_elem|[[?%last_Some_elem_of _]|[[_ ?]|[? _]%adj_elem]]]; done.
Qed.

Lemma adj_app_r a x l1 l2 : x ∉ l1 -> x ∉ l2 -> adj a x (l1 ++ x :: l2) <-> last l1 = Some a.
Proof.
  intros Hx1 Hx2. rewrite adj_app. simpl. split; [|auto].
  intros [[_ ?]%adj_elem|[[? _]|[[_ ?%head_Some_elem_of]|[_ ?]%adj_elem]]]; done.
Qed.

Lemma unlink_spec x l1 l2 s : linked (l1 ++ x :: l2) s ->
  exists s', unlink x s = Ok s' /\ linked (l1 ++ l2) s' /\ same_table s s' /\
    oldest_slotted s' = if decide (oldest_slotted s = Some x) then last l1 else oldest_slotted s.
Proof.
  intros Hl. rewrite (unlink_eq _ _ _ _ Hl). eexists. split; [reflexivity|]. split; [|done].
  destruct Hl as [Hn Ho Hw Hh]. pose proof Hn as (Hn1 & Hd & [Hx Hn2]%NoDup_cons)%NoDup_app.
  assert (Hx1 : x ∉ l1) by (intros ?; by apply (Hd x), list_elem_of_here).
  assert (Hd' : forall a, a ∈ l1 -> a ∉ l2) by (intros a ? ?; by apply (Hd a), list_elem_of_further).
  assert (Hin : forall a b, adj a b l1 \/ (last l1 = Some a /\ head l2 = Some b) \/ adj a b l2 ->
    a <> x /\ b <> x).
  { intros a b [[? ?]%adj_elem|[[?%last_Some_elem_of ?%head_Some_elem_of]|[? ?]%adj_elem]];
      split; intros ->; done. }
  apply (linked_drop x); [done|intros a b; cbn [link_older link_newer]; rewrite lookup_put_at..|].
  - destruct (decide _) as [Hl1|Hl1].
    + pose proof (not_adj_last a b l1 Hn1 Hl1) as Hna.
      pose proof (last_Some_elem_of _ _ Hl1) as Hel. pose proof (adj_elem a b l2) as Hae.
      clear -Hl1 Hna Hel Hae Hd'. naive_solver.
    + destruct (decide (a = x)) as [->|Ha].
      { rewrite lookup_delete_eq. split; [done|]. by intros [? _]%Hin. }
      rewrite lookup_delete_ne, Ho by done. destruct (decide (b = x)) as [->|Hb].
      * rewrite adj_app_r by done. split; [done|]. by intros [_ ?]%Hin.
      * rewrite adj_app_ne by done. clear -Hl1. naive_solver.
  - destruct (decide _) as [Hl2|Hl2].
    + pose proof (not_adj_head a b l2 Hn2 Hl2) as Hna.
      pose proof (head_Some_elem_of _ _ Hl2) as Hel. pose proof (adj_elem a b l1) as Hae.
      clear -Hl2 Hna Hel Hae Hd'. naive_solver.
    + destruct (decide (b = x)) as [->|Hb].
      { rewrite lookup_delete_eq. split; [done|]. by intros [_ ?]%Hin. }
      rewrite lookup_delete_ne, Hw by done. destruct (decide (a = x)) as [->|Ha].
      * rewrite adj_app_l by done. split; [done|]. by intros [? _]%Hin.
      * rewrite adj_app_ne by done. clear -Hl2. naive_solver.
  - cbn [newest]. rewrite Hh. destruct l1 as [|y l1]; simpl; [by rewrite decide_True|].
    rewrite decide_False; [done|]. intros [= ->]. apply Hx1, list_elem_of_here.
Qed.

Lemma unlink_absent x l s : linked l s -> x ∉ l -> oldest_slotted s <> Some x -> unlink x s = Ok s.
Proof.
  intros [_ Ho Hw Hh] Hx Hs.
  assert (Ew : link_newer s !! x = None).
  { destruct (link_newer s !! x) eqn:E; [|done]. by apply Hw, adj_elem in E as [_ ?]. }
  assert (Eo : link_older s !! x = None).
  { destruct (link_older s !! x) eqn:E; [|done]. by apply Ho, adj_elem in E as [? _]. }
  unfold unlink. rewrite Ew, Eo, !delete_id by done. cbn [mbind result_bind].
  rewrite !decide_False; [by destruct s|done|].
  rewrite Hh. by intros ?%head_Some_elem_of.
Qed.

Lemma link_as_newest_spec x l s : linked l s -> x ∉ l ->
  exists s', link_as_newest x s = Ok s' /\ linked (x :: l) s' /\ same_table s s' /\
    oldest_slotted s' = match oldest_slotted s with None => Some x | Some o => Some o end.
Proof.
  intros [Hn Ho Hw Hh] Hx.
  assert (Ex : link_older s !! x = None).
  { destruct (link_older s !! x) eqn:E; [|done]. by apply Ho, adj_elem in E as [? _]. }
  assert (Ew : forall y, newest s = Some y -> link_newer s !! y = None).
  { intros y Hy. destruct (link_newer s !! y) as [a|] eqn:E; [|done]. apply Hw in E.
    rewrite Hh in Hy. by destruct (not_adj_head a y l). }
  exists {| entries := entries s; assigned_slots := assigned_slots s;
       link_newer := put_at (newest s) (Some x) (link_newer s);
       link_older := put_at (Some x) (newest s) (link_older s); newest := Some x;
       oldest_slotted := match oldest_slotted s with None => Some x | Some o => Some o end;
       free_slots := free_slots s |}.
  split; [|split; [|done]].
  - unfold link_as_newest, insert_or_remove, rust_assert, put_at. rewrite Ex.
    destruct (newest s) as [y|]; cbn [mbind result_bind].
    + rewrite Ew by done. done.
    + done.
  - split; [by apply NoDup_cons|intros a b; cbn [link_older link_newer]; rewrite lookup_put_at..|done];
      rewrite Hh; cbn [adj]; destruct (decide _) as [E|E].
    + pose proof (adj_elem a b l). naive_solver.
    + rewrite Ho. naive_solver.
    + pose proof (not_adj_head a b l Hn E). naive_solver.
    + rewrite Hw. naive_solver.
Qed.

(** ** The slots *)

(** The elements [sl] have the slots that [tab] gives them; [free] are the others. *)
Record slots_ok (n : nat) (sl : list T) (tab : list (option T)) (asg : gmap T nat)
    (free : list nat) : Prop := {
  slots_assigned a i : asg !! a = Some i <-> tab !! i = Some (Some a);
  slots_elem a : is_Some (asg !! a) <-> a ∈ sl;
  slots_free_nodup : NoDup free;
  slots_free i : i ∈ free <-> tab !! i = Some None;
  slots_count : (length free + length sl = n)%nat;
  slots_length : length tab = n;
}.

Lemma slots_perm n sl sl' tab asg free :
  sl ≡ₚ sl' -> slots_ok n sl tab asg free -> slots_ok n sl' tab asg free.
Proof.
  intros E [Ha He Hn Hf Hc Hl]. split; try done.
  - intros a. by rewrite He, E.
  - by rewrite <- (Permutation_length E).
Qed.

(** An element gets a slot that was free. *)
Lemma slots_assign n sl tab asg i free x : x ∉ sl ->
  slots_ok n sl tab asg (i :: free) -> slots_ok n (x :: sl) (<[i := Some x]> tab) (<[x := i]> asg) free.
Proof.
  intros Hx [Ha He [Hi Hn]%NoDup_cons Hf Hc Hl].
  assert (Hti : tab !! i = Some None) by (apply Hf, list_elem_of_here).
  pose proof (lookup_lt_Some _ _ _ Hti) as Hlt.
  split; [..|done| |simpl in *; lia|by rewrite length_insert].
  - intros a j. destruct (decide (j = i)) as [->|Hj].
    + rewrite list_lookup_insert_eq by done. destruct (decide (a = x)) as [->|Hax].
      * by rewrite lookup_insert_eq.
      * rewrite lookup_insert_ne by done. rewrite Ha, Hti. split; congruence.
    + rewrite list_lookup_insert_ne by done. destruct (decide (a = x)) as [->|Hax].
      * rewrite lookup_insert_eq. split; [congruence|]. intros E%Ha.
        destruct Hx. apply He. by eexists.
      * by rewrite lookup_insert_ne, Ha.
  - intros a. rewrite elem_of_cons, <- He. destruct (decide (a = x)) as [->|Hax].
    + rewrite lookup_insert_eq. split; [auto|by eexists].
    + rewrite lookup_insert_ne by done. naive_solver.
  - intros j. destruct (decide (j = i)) as [->|Hj].
    + rewrite list_lookup_insert_eq by done. split; [done|congruence].
    + rewrite list_lookup_insert_ne by done. rewrite <- Hf, elem_of_cons. naive_solver.
Qed.

(** A slot is given up. *)
Lemma slots_release n sl tab asg i free x : x ∉ sl -> asg !! x = Some i ->
  slots_ok n (x :: sl) tab asg free ->
  slots_ok n sl (<[i := None]> tab) (delete x asg) (i :: free).
Proof.
  intros Hx Hxi [Ha He Hn Hf Hc Hl].
  pose proof (proj1 (Ha x i) Hxi) as Hti. pose proof (lookup_lt_Some _ _ _ Hti) as Hlt.
  assert (Hi : i ∉ free) by (rewrite Hf; congruence).
  split; [..|by apply NoDup_cons| |simpl in *; lia|by rewrite length_insert].
  - intros a j. destruct (decide (a = x)) as [->|Hax].
    + rewrite lookup_delete_eq. split; [done|]. destruct (decide (j = i)) as [->|Hj].
      * by rewrite list_lookup_insert_eq.
      * rewrite list_lookup_insert_ne by done. intros E%Ha. congruence.
    + rewrite lookup_delete_ne, Ha by done. destruct (decide (j = i)) as [->|Hj].
      * rewrite list_lookup_insert_eq by done. split; congruence.
      * by rewrite list_lookup_insert_ne.
  - intros a. destruct (decide (a = x)) as [->|Hax].
    + rewrite lookup_delete_eq. split; [by intros [??]|done].
    + rewrite lookup_delete_ne, He, elem_of_cons by done. naive_solver.
  - intros j. destruct (decide (j = i)) as [->|Hj].
    + rewrite list_lookup_insert_eq by done. rewrite elem_of_cons. naive_solver.
    + rewrite list_lookup_insert_ne by done. rewrite <- Hf, elem_of_cons. naive_solver.
Qed.

Lemma slots_free_perm n sl tab asg free free' : free ≡ₚ free' ->
  slots_ok n sl tab asg free -> slots_ok n sl tab asg free'.
Proof.
  intros E [Ha He Hn Hf Hc Hl]. split; try done.
  - by rewrite <- E.
  - intros i. by rewrite <- E.
  - by rewrite <- (Permutation_length E).
Qed.

(** A slot goes from one element to another. *)
Lemma slots_move n sl tab asg i free x y : x ∉ sl -> y ∉ sl -> asg !! x = Some i ->
  slots_ok n (x :: sl) tab asg free ->
  slots_ok n (y :: sl) (<[i := Some y]> tab) (<[y := i]> (delete x asg)) free.
Proof.
  intros Hx Hy Hxi Hs.
  pose proof (slots_assign _ _ _ _ _ _ y Hy (slots_release _ _ _ _ _ _ x Hx Hxi Hs)) as Hm.
  by rewrite list_insert_insert_eq in Hm.
Qed.

(** ** Every operation *)

Record refines (n : nat) (l : list T) (tab : list (option T)) (s : MRUSet T) : Prop := {
  ref_linked : linked l s;
  ref_entries x : x ∈ entries s <-> x ∈ l;
  ref_slots : slots_ok n (take n l) tab (assigned_slots s) (free_slots s);
  ref_oldest : oldest_slotted s = last (take n l);
}.

Lemma not_elem_take n x l : x ∉ l -> x ∉ take n l.
Proof. intros Hx (j & Hj & _)%elem_of_take. by apply list_elem_of_lookup_2 in Hj. Qed.

(** The oldest slotted element when [x] leaves the list. *)
Lemma last_remove x l k : x ∉ k ->
  (if decide (last (l ++ x :: k) = Some x) then last l else last (l ++ x :: k)) = last (l ++ k).
Proof.
  intros Hx. destruct (last k) as [y|] eqn:E.
  - rewrite !last_app, last_cons, E. rewrite decide_False; [done|].
    intros [= ->]. by apply last_Some_elem_of in E.
  - apply last_None in E as ->. rewrite last_snoc, app_nil_r. by rewrite decide_True.
Qed.

Lemma take_oldest_slot_spec n l tab s x :
  (1 <= n)%nat -> linked l s -> x ∉ l ->
  slots_ok n (take n l) tab (assigned_slots s) (free_slots s) ->
  oldest_slotted s = last (take n l) ->
  exists i s', take_oldest_slot s = (Some i, s') /\ linked l s' /\ entries s' = entries s /\
    slots_ok n (take n (x :: l)) (<[i := Some x]> tab) (<[x := i]> (assigned_slots s')) (free_slots s') /\
    match oldest_slotted s' with None => Some x | Some o => Some o end = last (take n (x :: l)).
Proof.
  intros Hn Hl Hx Hs Ho. destruct n as [|n]; [lia|]. rewrite firstn_cons.
  assert (Hx' : x ∉ take (S n) l) by (by apply not_elem_take).
  unfold take_oldest_slot. destruct (free_slots s) as [|i free] eqn:Ef.
  - (* the oldest slotted element loses its slot *)
    pose proof (slots_count _ _ _ _ _ Hs) as Hc. simpl in Hc.
    destruct (take (S n) l) as [|o k _] eqn:Ek using rev_ind; [done|].
    rewrite last_snoc in Ho. rewrite Ho.
    rewrite length_app in Hc. simpl in Hc.
    assert (Hl' : l = k ++ o :: drop (S n) l).
    { rewrite <- (take_drop (S n) l) at 1. rewrite Ek. by rewrite <- app_assoc. }
    assert (Ek' : take n l = k).
    { rewrite Hl'. rewrite take_app_le by lia. apply take_ge. lia. }
    rewrite Hl' in Hl. destruct (linked_split _ _ _ _ Hl) as [Ew _].
    pose proof (linked_nodup _ _ Hl) as (_ & Hd & _)%NoDup_app. rewrite <- Hl' in Hl.
    destruct (proj2 (slots_elem _ _ _ _ _ Hs o)) as [i Hi]; [apply elem_of_app; right; apply list_elem_of_here|].
    rewrite Hi. do 2 eexists. split; [reflexivity|]. cbn.
    split; [by destruct Hl; split|]. split; [done|]. rewrite Ek', Ew. split.
    + apply slots_move; [..|done|].
      * intros Hok. by apply (Hd o), list_elem_of_here.
      * intros Hxk. apply Hx', elem_of_app. auto.
      * apply (slots_perm _ (k ++ [o])); [by rewrite Permutation_app_comm|done].
    + destruct k as [|y k]; [done|]. change (last (x :: y :: k)) with (last (y :: k)).
      by destruct (last (y :: k)) eqn:E; [|apply last_None in E].
  - pose proof (slots_count _ _ _ _ _ Hs) as Hc. simpl in Hc. rewrite length_take in Hc.
    rewrite take_ge in Hs, Ho, Hx' by lia. rewrite take_ge by lia.
    do 2 eexists. split; [reflexivity|]. cbn. split; [by destruct Hl; split|]. split; [done|].
    split; [by apply slots_assign|]. rewrite Ho. destruct l as [|y l]; [done|].
    change (last (x :: y :: l)) with (last (y :: l)).
    by destruct (last (y :: l)) eqn:E; [|apply last_None in E].
Qed.

Lemma drop_item_absent x l : x ∉ l -> drop_item x l = l.
Proof.
  unfold drop_item. induction l as [|y l IH]; [done|]. intros [Hy Hx]%not_elem_of_cons.
  rewrite filter_cons_True by congruence. by rewrite IH.
Qed.
Lemma drop_item_split x l1 l2 : NoDup (l1 ++ x :: l2) -> drop_item x (l1 ++ x :: l2) = l1 ++ l2.
Proof.
  intros (_ & Hd & [Hx _]%NoDup_cons)%NoDup_app. unfold drop_item.
  rewrite filter_app, filter_cons_False by naive_solver.
  f_equal; apply drop_item_absent; [|done].
  intros ?. by apply (Hd x), list_elem_of_here.
Qed.

(** The end of [insert]: the element is linked in as the newest one. *)
Lemma link_refines n l tab x (r : exec (MRUSet T)) s1 : linked l s1 -> x ∉ l ->
  (forall y, y ∈ entries s1 <-> y ∈ x :: l) ->
  slots_ok n (take n (x :: l)) tab (assigned_slots s1) (free_slots s1) ->
  match oldest_slotted s1 with None => Some x | Some o => Some o end = last (take n (x :: l)) ->
  r = link_as_newest x s1 ->
  exists s', r = Ok s' /\ refines n (x :: l) tab s'.
Proof.
  intros Hl Hx He Hs Ho ->. destruct (link_as_newest_spec _ _ _ Hl Hx) as (s' & -> & Hl' & (E1 & E2 & E3) & E4).
  exists s'. split; [done|]. split; [done|by rewrite E1|by rewrite E2, E3|by rewrite E4].
Qed.

(** [insert] of an element without a slot, once it is unlinked *)
Lemma insert_new_refines n l l' tab x s : (1 <= n)%nat ->
  linked l s -> x ∉ l -> (forall y, y ∈ entries s <-> y ∈ x :: l) ->
  slots_ok n (take n l) tab (assigned_slots s) (free_slots s) ->
  oldest_slotted s = last (take n l) -> l' = x :: l ->
  exists a s', ('(retval, slot, s) ←
    (let '(slot, s) := take_oldest_slot s in slot ← unwrap slot; Ok (SetSlot slot x, slot, s));
    let s := set_slots (<[x := slot]> (assigned_slots s)) (free_slots s) (oldest_slotted s) s in
    s ← link_as_newest x s; Ok (retval, s)) = Ok (a, s') /\
  refines n l' (apply_action tab a) s'.
Proof.
  intros Hn Hl Hx He Hs Ho ->.
  destruct (take_oldest_slot_spec _ _ _ _ _ Hn Hl Hx Hs Ho) as (i & s1 & -> & Hl1 & Ee & Hs1 & Ho1).
  cbn [unwrap mbind result_bind].
  edestruct (link_refines n l) as (s' & -> & Hr); [..|reflexivity|].
  - by destruct Hl1; split.
  - done.
  - cbn. by rewrite Ee.
  - exact Hs1.
  - exact Ho1.
  - eexists _, s'. split; [reflexivity|]. exact Hr.
Qed.

Lemma insert_refines n l tab x s : (1 <= n)%nat -> refines n l tab s ->
  exists a s', insert x s = Ok (a, s') /\ refines n (x :: drop_item x l) (apply_action tab a) s'.
Proof.
  intros Hn [Hl He Hs Ho]. unfold insert.
  destruct (decide (newest s = Some x)) as [Hx|Hx].
  { exists NoAction, s. split; [done|]. rewrite (linked_newest _ _ Hl) in Hx.
    pose proof (linked_nodup _ _ Hl) as Hd. destruct l as [|y l]; simplify_eq/=.
    assert (Ed : drop_item x (x :: l) = l) by by apply (drop_item_split x []).
    by rewrite Ed. }
  set (s0 := set_entries _ s).
  assert (Hl0 : linked l s0) by (destruct Hl; by split).
  assert (He0 : forall y, y ∈ entries s0 <-> y ∈ x :: drop_item x l).
  { intros y. unfold s0, drop_item. cbn.
    rewrite elem_of_union, elem_of_singleton, He, elem_of_cons, list_elem_of_filter.
    destruct (decide (y = x)); naive_solver. }
  assert (Hlast : x ∉ take n l -> assigned_slots s !! x = None /\ oldest_slotted s <> Some x).
  { intros Ht. rewrite Ho. split; [|by intros ?%last_Some_elem_of].
    apply eq_None_not_Some. by rewrite (slots_elem _ _ _ _ _ Hs). }
  destruct (decide (x ∈ l)) as [(l1 & l2 & ->)%list_elem_of_split|Hin].
  - destruct (unlink_spec _ _ _ _ Hl0) as (s1 & -> & Hl1 & (E1 & E2 & E3) & E4).
    cbn [mbind result_bind]. cbn in E2, E3, E4. rewrite E2.
    pose proof (linked_nodup _ _ Hl) as Hnd. rewrite drop_item_split in * by done.
    assert (Hx12 : x ∉ l1 ++ l2).
    { apply NoDup_app in Hnd as (_ & Hd & [Hx2 _]%NoDup_cons).
      intros [?|?]%elem_of_app; [|done]. by apply (Hd x), list_elem_of_here. }
    destruct (decide (n <= length l1)%nat) as [Hlen|Hlen].
    + rewrite take_app_le in Hs, Ho, Hlast by done. rewrite <- (take_app_le l1 l2) in Hs, Ho, Hlast by done.
      destruct Hlast as [Hxa Hxo]; [by apply not_elem_take|]. rewrite Hxa.
      apply (insert_new_refines n (l1 ++ l2)); try done.
      * by rewrite E1.
      * by rewrite E2, E3.
      * rewrite E4. by rewrite decide_False.
    + clear Hlast. destruct n as [|n]; [lia|].
      assert (Et : take (S n) (l1 ++ x :: l2) = l1 ++ x :: take (n - length l1) l2).
      { rewrite take_app_ge by lia. by replace (S n - length l1)%nat with (S (n - length l1)) by lia. }
      rewrite Et in Hs, Ho. set (l2' := take (n - length l1) l2) in *.
      destruct (proj2 (slots_elem _ _ _ _ _ Hs x)) as [i Hi]; [apply elem_of_app; right; apply list_elem_of_here|].
      rewrite Hi. cbn [mbind result_bind].
      edestruct (link_refines (S n) (l1 ++ l2) tab x) as (s' & -> & Hr); [..|reflexivity|];
        [destruct Hl1; by split|done|cbn; by rewrite E1|..|eexists _, s'; split; [reflexivity|exact Hr]];
        cbn [assigned_slots free_slots oldest_slotted set_slots take];
        rewrite take_app_ge by lia; fold l2'.
      * rewrite E3, insert_delete_id by done. eapply slots_perm; [|exact Hs].
        by rewrite Permutation_middle.
      * rewrite E4, Ho, last_remove, (last_cons x); [done|]. apply not_elem_take.
        intros ?. by apply Hx12, elem_of_app; right.
  - destruct Hlast as [Hxa Hxo]; [by apply not_elem_take|].
    rewrite (unlink_absent x l) by done. cbn [mbind result_bind].
    change (assigned_slots s0) with (assigned_slots s). rewrite Hxa.
    rewrite drop_item_absent in * by done.
    by apply (insert_new_refines n l).
Qed.

(** [remove] of an element with a slot, once it is unlinked: the slot goes to the newest
    element without one. *)
Lemma reassign_refines n l tab x i asg s : (2 <= n)%nat -> linked l s -> x ∉ l ->
  asg !! x = Some i -> assigned_slots s = delete x asg ->
  slots_ok n (x :: take (n - 1) l) tab asg (free_slots s) ->
  oldest_slotted s = last (take (n - 1) l) ->
  (forall y, y ∈ entries s <-> y ∈ l) ->
  exists a s', (match reassign_slot i s with
    | (Some y, s) => Ok (SetSlot i y, s) | (None, s) => Ok (ClearSlot i, s) end
    : exec (MRUSetAction T * MRUSet T)) = Ok (a, s') /\ refines n l (apply_action tab a) s'.
Proof.
  intros Hn Hl Hx Hi Ea Hs Ho He. unfold reassign_slot. rewrite Ho, Ea.
  assert (Hx' : x ∉ take (n - 1) l) by by apply not_elem_take.
  destruct (take (n - 1) l) as [|o k _] eqn:Ek using rev_ind.
  - (* nothing is left *)
    assert (l = []) as -> by (destruct l; [done|]; destruct n as [|[|n]]; try lia; done).
    cbn. do 2 eexists. split; [reflexivity|]. split; [destruct Hl; by split|done| |cbn; by rewrite ?Ho, ?take_nil].
    cbn. rewrite take_nil. eapply slots_free_perm; [|by apply slots_release].
    by rewrite Permutation_app_comm.
  - rewrite last_snoc. cbn [mbind option_bind].
    assert (Hl' : l = k ++ o :: drop (n - 1) l).
    { rewrite <- (take_drop (n - 1) l) at 1. rewrite Ek. by rewrite <- app_assoc. }
    assert (Eo : link_older s !! o = head (drop (n - 1) l)).
    { rewrite Hl' in Hl. by apply linked_split in Hl as [_ ?]. }
    rewrite Eo. destruct (drop (n - 1) l) as [|y r] eqn:Er; cbn [head].
    + (* every remaining element has a slot already *)
      assert (Et : take n l = k ++ [o]).
      { rewrite <- Hl'. apply take_ge. rewrite <- (take_drop (n - 1) l), Er, app_nil_r, length_take. lia. }
      do 2 eexists. split; [reflexivity|].
      split; [destruct Hl; by split|done| |cbn; by rewrite Et, last_snoc].
      cbn. rewrite Et. eapply slots_free_perm; [|by apply slots_release].
      by rewrite Permutation_app_comm.
    + assert (Et : take n l = (k ++ [o]) ++ [y]).
      { rewrite <- Ek. rewrite <- (take_drop (n - 1) l) at 1. rewrite Er.
        pose proof (f_equal length Er) as Hlr. rewrite length_drop in Hlr. simpl in Hlr.
        rewrite take_app_ge, length_take by (rewrite length_take; lia).
        by replace (n - (n - 1) `min` length l)%nat with 1%nat by lia. }
      assert (Hy : y ∉ k ++ [o]).
      { pose proof (linked_nodup _ _ Hl) as Hnd. rewrite Hl' in Hnd.
        change (o :: y :: r) with ([o] ++ y :: r) in Hnd. rewrite app_assoc in Hnd.
        apply NoDup_app in Hnd as (_ & Hd & _). intros Hy. by apply (Hd y Hy), list_elem_of_here. }
      do 2 eexists. split; [reflexivity|].
      split; [destruct Hl; by split|done| |cbn; by rewrite Et, last_snoc].
      cbn. rewrite Et. eapply slots_perm; [|by eapply slots_move].
      by rewrite (Permutation_app_comm _ [y]).
Qed.

Lemma remove_refines n l tab x s : (2 <= n)%nat -> refines n l tab s ->
  exists a s', remove x s = Ok (a, s') /\ refines n (drop_item x l) (apply_action tab a) s'.
Proof.
  intros Hn [Hl He Hs Ho]. unfold remove.
  assert (Hlast : x ∉ take n l -> assigned_slots s !! x = None /\ oldest_slotted s <> Some x).
  { intros Ht. rewrite Ho. split; [|by intros ?%last_Some_elem_of].
    apply eq_None_not_Some. by rewrite (slots_elem _ _ _ _ _ Hs). }
  assert (He' : forall y, y ∈ entries s ∖ {[x]} <-> y ∈ drop_item x l).
  { intros y. unfold drop_item. rewrite elem_of_difference, not_elem_of_singleton, He, list_elem_of_filter. tauto. }
  destruct (decide (x ∈ l)) as [(l1 & l2 & ->)%list_elem_of_split|Hin].
  - destruct (unlink_spec _ _ _ _ Hl) as (s1 & -> & Hl1 & (E1 & E2 & E3) & E4).
    cbn [mbind result_bind assigned_slots set_entries]. cbn in E2, E3, E4. rewrite E2, E1.
    pose proof (linked_nodup _ _ Hl) as Hnd. rewrite drop_item_split in * by done.
    assert (Hx12 : x ∉ l1 ++ l2).
    { apply NoDup_app in Hnd as (_ & Hd & [Hx2 _]%NoDup_cons).
      intros [?|?]%elem_of_app; [|done]. by apply (Hd x), list_elem_of_here. }
    destruct (decide (n <= length l1)%nat) as [Hlen|Hlen].
    + rewrite take_app_le in Hs, Ho, Hlast by done. rewrite <- (take_app_le l1 l2) in Hs, Ho, Hlast by done.
      destruct Hlast as [Hxa Hxo]; [by apply not_elem_take|]. rewrite Hxa.
      do 2 eexists. split; [reflexivity|]. split; [destruct Hl1; by split|done|by cbn; rewrite ?E2, E3|].
      cbn. rewrite E4. by rewrite decide_False.
    + clear Hlast.
      assert (Et : take n (l1 ++ x :: l2) = l1 ++ x :: take (n - 1 - length l1) l2).
      { rewrite take_app_ge by lia. by replace (n - length l1)%nat with (S (n - 1 - length l1)) by lia. }
      assert (Et' : take (n - 1) (l1 ++ l2) = l1 ++ take (n - 1 - length l1) l2).
      { by rewrite take_app_ge by lia. }
      rewrite Et in Hs, Ho.
      destruct (proj2 (slots_elem _ _ _ _ _ Hs x)) as [i Hi]; [apply elem_of_app; right; apply list_elem_of_here|].
      rewrite Hi. eapply reassign_refines; try done.
      * destruct Hl1; by split.
      * cbn. rewrite E3, Et'. eapply slots_perm; [|exact Hs]. by rewrite Permutation_middle.
      * cbn. rewrite E4, Ho, Et', last_remove; [done|]. apply not_elem_take.
        intros ?. by apply Hx12, elem_of_app; right.
  - destruct Hlast as [Hxa Hxo]; [by apply not_elem_take|].
    rewrite (unlink_absent x l) by done. cbn [mbind result_bind assigned_slots set_entries]. rewrite Hxa.
    do 2 eexists. split; [reflexivity|]. rewrite drop_item_absent in * by done.
    split; [destruct Hl; by split|done..].
Qed.

Lemma new_refines n : (1 <= n)%nat ->
  exists s, new n = Ok s /\ refines n [] (replicate n None) s.
Proof.
  intros Hn. unfold new, rust_assert.
  destruct (n =? 0)%nat eqn:E; [apply Nat.eqb_eq in E; lia|]. cbn.
  eexists. split; [reflexivity|]. split; cbn.
  - split; cbn; [apply NoDup_nil_2|..|done]; intros a b; by rewrite lookup_empty.
  - set_solver.
  - rewrite take_nil. split; cbn.
    + intros a i. rewrite lookup_empty, lookup_replicate. naive_solver.
    + intros a. rewrite lookup_empty. split; [by intros []|set_solver].
    + apply NoDup_seq.
    + intros i. rewrite elem_of_seq, lookup_replicate. naive_solver lia.
    + rewrite length_seq. lia.
    + by rewrite length_replicate.
  - by rewrite take_nil.
Qed.

Lemma run_ops_refines n ops l tab s : (2 <= n)%nat -> refines n l tab s ->
  exists acts s', run_ops ops s = Ok (acts, s') /\
    refines n (fold_left spec_op ops l) (fold_left apply_action acts tab) s'.
Proof.
  intros Hn. revert l tab s. induction ops as [|op ops IH]; intros l tab s Hr.
  - exists [], s. done.
  - assert (Hop : exists a s', match op with OpInsert x => insert x s | OpRemove x => remove x s end = Ok (a, s') /\
      refines n (spec_op l op) (apply_action tab a) s').
    { destruct op as [x|x]; [apply insert_refines; [lia|done]|by apply remove_refines]. }
    destruct Hop as (a & s1 & E & Hr1). cbn [run_ops]. rewrite E. cbn [mbind result_bind].
    destruct (IH _ _ _ Hr1) as (acts & s2 & -> & Hr2). by exists (a :: acts), s2.
Qed.

Lemma refines_len n l tab s : refines n l tab s -> len s = length l.
Proof.
  intros [Hl He _ _]. unfold len. rewrite <- (size_list_to_set (C := gset T)) by apply Hl.
  f_equal. apply set_eq. intros x. by rewrite He, elem_of_list_to_set.
Qed.
End theory.

(** C20: with at least two slots, whatever elements are inserted and removed, no assertion
    and no [unwrap] of the set fails: it contains exactly the elements of the recency list,
    and a table in the radio that starts empty and applies the returned actions one by
    one holds, each in the slot that [has_slot] names, exactly the [n] most recently
    inserted of them. *)
Theorem mru_set_refines {T} `{Countable T} (n : nat) (ops : list (mru_op T)) :
  (2 <= n)%nat ->
  exists acts s, (s0 ← new n; run_ops ops s0) = Ok (acts, s) /\
    let l := fold_left spec_op ops [] in
    let tab := fold_left apply_action acts (replicate n None) in
    (forall x, contains s x = bool_decide (x ∈ l)) /\ len s = length l /\
    (forall x i, has_slot s x = Some i <-> tab !! i = Some (Some x)) /\
    (forall x, (exists i, tab !! i = Some (Some x)) <-> x ∈ take n l).
Proof.
  intros Hn. destruct (new_refines (T := T) n) as (s0 & -> & Hr0); [lia|].
  destruct (run_ops_refines n ops _ _ _ Hn Hr0) as (acts & s & E & Hr).
  exists acts, s. split; [exact E|]. cbv zeta. pose proof (refines_len _ _ _ _ Hr) as Hlen.
  destruct Hr as [_ He Hs _]. split; [|split; [done|split]].
  - intros x. apply bool_decide_ext, He.
  - apply Hs.
  - intros x. rewrite <- (slots_elem _ _ _ _ _ Hs). unfold is_Some. apply exist_proper.
    intros i. symmetry. apply Hs.
Qed.

Definition sample_ops : list (mru_op Z) := [OpInsert 1; OpInsert 2; OpInsert 3; OpRemove 2; OpInsert 1]%Z.
Lemma mru_set_refines_witness : (2 <= 2)%nat /\
  exists acts s, (s0 ← new 2; run_ops sample_ops s0) = Ok (acts, s) /\
    let l := fold_left spec_op sample_ops [] in
    let tab := fold_left apply_action acts (replicate 2 None) in
    (forall x, contains s x = bool_decide (x ∈ l)) /\ len s = length l /\
    (forall x i, has_slot s x = Some i <-> tab !! i = Some (Some x)) /\
    (forall x, (exists i, tab !! i = Some (Some x)) <-> x ∈ take 2 l).
Proof. split; [lia|]. exact (mru_set_refines 2 sample_ops (le_n 2)). Defined.

(** The one size that [new] admits and the refinement excludes: with a single slot, the
    element that remains after the newest one is removed is in the set, but has no slot,
    and inserting it again changes nothing, although the slot is free. *)
Theorem one_slot_is_lost : exists s s',
  (s ← new 1; run_ops [OpInsert 65; OpInsert 66; OpRemove 66]%Z s) =
    Ok ([SetSlot 0 65; SetSlot 0 66; ClearSlot 0]%Z, s) /\
  contains s 65%Z = true /\ has_slot s 65%Z = None /\ free_slots s = [0%nat] /\
  insert 65%Z s = Ok (NoAction, s') /\ has_slot s' 65%Z = None.
Proof. do 2 eexists. split; [vm_compute; reflexivity|]. repeat split; vm_compute; reflexivity. Qed.
