(* ===== verification/Bytes.v ===== *)
(** * The contract of the byte buffers ([bytes], [byteorder])

    The first version's radio bridge ([old_src/radio_bridge/]) builds and takes apart its
    messages with the types of two crates that are not part of the repository. A buffer is
    the list of its bytes; [BytesBuf] is the interface that the code uses, [BytesBufLaws] the
    behaviour their documentation gives for it, and [BytesBuf_reference] an instance. Writing is
    taken to find the room it needs. *)

From Stdlib Require Import ZArith Lia.
From S2P Require Import Prelude.

#[local] Open Scope Z_scope.

Class BytesBuf := {
  (** [BytesMut::advance], [BytesMut::split_to] and [Bytes::slice_to] *)
  advance : nat -> list Z -> exec (list Z);
  split_to : nat -> list Z -> exec (list Z * list Z);
  slice_to : nat -> list Z -> exec (list Z);
  (** [BigEndian::read_u16], and reading integers off the front of a [Buf] *)
  read_u16_be : list Z -> exec Z;
  get_u16_be : list Z -> exec (Z * list Z);
  get_u64_be : list Z -> exec (Z * list Z);
  (** [BufMut] *)
  put_u8 : Z -> list Z -> list Z;
  put_u16_be : Z -> list Z -> list Z;
  put_u16_le : Z -> list Z -> list Z;
  put_u64_le : Z -> list Z -> list Z;
}.

Class BytesBufLaws `{BytesBuf} := {
  advance_spec n b : advance n b = if decide (n <= length b)%nat then Ok (drop n b) else Err Panic;
  split_to_spec n b :
    split_to n b = if decide (n <= length b)%nat then Ok (take n b, drop n b) else Err Panic;
  slice_to_spec n b : slice_to n b = if decide (n <= length b)%nat then Ok (take n b) else Err Panic;
  read_u16_be_spec x b : in_width 16 x -> read_u16_be (to_be_bytes 2 x ++ b) = Ok x;
  get_u16_be_spec x b : in_width 16 x -> get_u16_be (to_be_bytes 2 x ++ b) = Ok (x, b);
  get_u64_be_spec x b : in_width 64 x -> get_u64_be (to_be_bytes 8 x ++ b) = Ok (x, b);
  put_u8_spec x b : in_width 8 x -> put_u8 x b = b ++ [x];
  put_u16_be_spec x b : put_u16_be x b = b ++ to_be_bytes 2 x;
  put_u16_le_spec x b : put_u16_le x b = b ++ to_le_bytes 2 x;
  put_u64_le_spec x b : put_u64_le x b = b ++ to_le_bytes 8 x;
}.

(** ** An instance *)

Definition reference_get (n : nat) (b : list Z) : exec (Z * list Z) :=
  if decide (n <= length b)%nat then Ok (from_be_bytes (take n b), drop n b) else Err Panic.

Definition BytesBuf_reference : BytesBuf := {|
  advance n b := if decide (n <= length b)%nat then Ok (drop n b) else Err Panic;
  split_to n b := if decide (n <= length b)%nat then Ok (take n b, drop n b) else Err Panic;
  slice_to n b := if decide (n <= length b)%nat then Ok (take n b) else Err Panic;
  read_u16_be b := fst <$> reference_get 2 b;
  get_u16_be b := reference_get 2 b;
  get_u64_be b := reference_get 8 b;
  put_u8 x b := b ++ [x mod 256];
  put_u16_be x b := b ++ to_be_bytes 2 x;
  put_u16_le x b := b ++ to_le_bytes 2 x;
  put_u64_le x b := b ++ to_le_bytes 8 x;
|}.

Lemma reference_get_spec n x b : in_width (8 * Z.of_nat n) x ->
  reference_get n (to_be_bytes n x ++ b) = Ok (x, b).
Proof.
  intros Hx. unfold reference_get.
  rewrite decide_True by (rewrite length_app, length_to_be_bytes; lia).
  by rewrite take_app_length', drop_app_length', from_to_be_bytes by (rewrite ?length_to_be_bytes; done).
Qed.

Lemma BytesBuf_reference_laws : @BytesBufLaws BytesBuf_reference.
Proof.
  split; try done; intros x b Hx.
  - change (fst <$> reference_get 2 (to_be_bytes 2 x ++ b) = Ok x). by rewrite reference_get_spec.
  - by apply (reference_get_spec 2).
  - by apply (reference_get_spec 8).
  - unfold in_width in Hx. cbn. by rewrite Z.mod_small.
Qed.
