(* ===== verification/SerialProtocol.v ===== *)
(** * The serial protocol of the first version ([old_src/radio_bridge/serial_protocol.rs])

    Commands behind a magic prefix, with an id, a request id and a length. The decoder is
    called with what the port has delivered so far; it takes off what it understands and
    keeps in its state how far it got. [codec_delivers] says what it delivers, and where the
    delivery may be cut without making it panic. *)

From Stdlib Require Import ZArith Lia.
From S2P Require Import Prelude.
From S2P Require Import Bytes.

#[local] Open Scope Z_scope.

Module Serial.

Record Command := { command_id : Z; request_id : Z; data : list Z }.

Inductive DecoderState :=
| WaitingForMagic
| WaitingForCommandId
| WaitingForRequestId (command_id : Z)
| WaitingForLength (command_id request_id : Z)
| WaitingForData (command_id request_id : Z) (length : nat).

(** A [Codec] is its decoder state. *)
Definition new : DecoderState := WaitingForMagic.

Definition MAGIC_PREFIX : list Z := [90; 80; 66].

Fixpoint find_subsequence (haystack needle : list Z) : option nat :=
  if decide (take (length needle) haystack = needle) then Some 0%nat
  else match haystack with
       | [] => None
       | _ :: haystack => S <$> find_subsequence haystack needle
       end.

Section codec.
Context `{!BytesBuf}.

(** The subtraction of sizes overflows below zero. *)
Definition size_sub (a b : nat) : exec nat :=
  if decide (b <= a)%nat then Ok (a - b)%nat else Err Panic.

(** One round of the decoder's loop: whether to keep going, the command, the new state and
    what is left of the buffer. *)
Definition decode_step (st : DecoderState) (src : list Z) :
    exec (bool * option Command * DecoderState * list Z) :=
  match st with
  | WaitingForMagic =>
      match find_subsequence src MAGIC_PREFIX with
      | Some magic_offset =>
          src ← advance (magic_offset + length MAGIC_PREFIX) src;
          Ok (true, None, WaitingForCommandId, src)
      | None =>
          n ← size_sub (length src) (length MAGIC_PREFIX);
          src ← advance n src;
          Ok (false, None, WaitingForMagic, src)
      end
  | WaitingForCommandId =>
      if decide (length src < 1)%nat then Ok (false, None, WaitingForCommandId, src)
      else
        id ← unwrap (src !! 0%nat);
        src ← advance 1 src;
        Ok (true, None, WaitingForRequestId id, src)
  | WaitingForRequestId id =>
      if decide (length src < 2)%nat then Ok (false, None, WaitingForRequestId id, src)
      else
        request ← read_u16_be src;
        src ← advance 2 src;
        Ok (true, None, WaitingForLength id request, src)
  | WaitingForLength id request =>
      if decide (length src < 2)%nat then Ok (false, None, WaitingForLength id request, src)
      else
        len ← read_u16_be src;
        src ← advance 2 src;
        Ok (true, None, WaitingForData id request (Z.to_nat len), src)
  | WaitingForData id request len =>
      if decide (length src < len)%nat then Ok (false, None, WaitingForData id request len, src)
      else
        '(payload, src) ← split_to len src;
        Ok (true, Some {| command_id := id; request_id := request; data := payload |},
            WaitingForMagic, src)
  end.

(** [while retval.is_none() && keep_going && src.len() > 0] *)
Fixpoint decode_loop (fuel : nat) (keep_going : bool) (retval : option Command)
    (st : DecoderState) (src : list Z) : exec (option Command * DecoderState * list Z) :=
  match fuel with
  | O => Err OutOfFuel
  | S fuel =>
      if decide (retval = None /\ keep_going = true /\ (0 < length src)%nat) then
        '(keep_going, retval, st, src) ← decode_step st src;
        decode_loop fuel keep_going retval st src
      else Ok (retval, st, src)
  end.

(** Every round that keeps going enters the next of the five states. *)
Definition decode (st : DecoderState) (src : list Z) : exec (option Command * DecoderState * list Z) :=
  decode_loop 6 true None st src.

Definition encode (item : Command) (dst : list Z) : exec (list Z) :=
  let dst := dst ++ MAGIC_PREFIX in
  let dst := put_u8 (command_id item) dst in
  let dst := put_u16_be (request_id item) dst in
  let len := if decide (65535 < Z.of_nat (length (data item))) then 65535 else Z.of_nat (length (data item)) in
  let dst := put_u16_be len dst in
  d ← slice_range 0 (Z.to_nat len) (data item);
  Ok (dst ++ d).

(** ** The driver

    A framed reader, as [tokio] documents it: it appends what the port delivers to the
    buffer and calls the decoder until that has nothing more. *)
Fixpoint decode_all (fuel : nat) (st : DecoderState) (src : list Z) :
    exec (list Command * DecoderState * list Z) :=
  match fuel with
  | O => Err OutOfFuel
  | S fuel =>
      '(r, st, src) ← decode st src;
      match r with
      | None => Ok ([], st, src)
      | Some c => '(cs, st, src) ← decode_all fuel st src; Ok (c :: cs, st, src)
      end
  end.
Fixpoint framed (pieces : list (list Z)) (st : DecoderState) (src : list Z) :
    exec (list Command * DecoderState * list Z) :=
  match pieces with
  | [] => Ok ([], st, src)
  | piece :: pieces =>
      let src := src ++ piece in
      '(cs, st, src) ← decode_all (2 + length src) st src;
      '(more, st, src) ← framed pieces st src;
      Ok (cs ++ more, st, src)
  end.
End codec.
End Serial.
