(* ===== verification/SerialProtocolTheory.v ===== *)
(** * The serial protocol: what the decoder delivers, and where it panics *)

From Stdlib Require Import ZArith Lia.
From S2P Require Import Prelude.
From S2P Require Import Bytes.
From S2P Require Import SerialProtocol.

#[local] Open Scope Z_scope.

Import Serial.

(** Commands that the wire format can carry *)
Definition command_ok (c : Command) : Prop :=
  in_width 8 (command_id c) /\ in_width 16 (request_id c) /\ Z.of_nat (length (data c)) <= 65535.

Definition wire (c : Command) : list Z :=
  MAGIC_PREFIX ++ [command_id c] ++ to_be_bytes 2 (request_id c) ++
    to_be_bytes 2 (Z.of_nat (length (data c))) ++ data c.
Definition stream (cs : list Command) : list Z := cs ≫= wire.

Section theory.
Context `{!BytesBuf, !BytesBufLaws}.

Lemma length_command_wire c : length (wire c) = (8 + length (data c))%nat.
Proof. unfold wire. rewrite !length_app, !length_to_be_bytes. cbn. lia. Qed.

Lemma encode_spec c dst : command_ok c -> encode c dst = Ok (dst ++ wire c).
Proof.
  intros (Hc & Hr & Hl). unfold encode. rewrite decide_False by lia.
  rewrite put_u8_spec, !put_u16_be_spec, slice_range_Ok by (done || lia).
  cbn [mbind result_bind]. rewrite Nat2Z.id, drop_0, Nat.sub_0_r, take_ge by lia.
  unfold wire. by rewrite <- !(assoc_L (++)).
Qed.

(** Longer data is cut off at the length that fits the field, and no error says so. *)
Theorem encode_truncates c dst : in_width 8 (command_id c) -> 65535 < Z.of_nat (length (data c)) ->
  encode c dst = Ok (dst ++ wire {| command_id := command_id c; request_id := request_id c;
                                    data := take (Z.to_nat 65535) (data c) |}).
Proof.
  intros Hc Hl. unfold encode. rewrite decide_True by lia.
  rewrite put_u8_spec, !put_u16_be_spec, slice_range_Ok by (done || lia).
  cbn [mbind result_bind]. rewrite drop_0, Nat.sub_0_r. unfold wire. cbn [command_id request_id data].
  rewrite length_take_le by lia. rewrite Z2Nat.id by lia. by rewrite <- !(assoc_L (++)).
Qed.

(** ** The decoder inside a command

    [at_state st c k]: the decoder has taken the first [k] bytes of [c]. *)
Inductive at_state (c : Command) : DecoderState -> nat -> Prop :=
| at_magic : at_state c WaitingForMagic 0
| at_command_id : at_state c WaitingForCommandId 3
| at_request_id : at_state c (WaitingForRequestId (command_id c)) 4
| at_length : at_state c (WaitingForLength (command_id c) (request_id c)) 6
| at_data : at_state c (WaitingForData (command_id c) (request_id c) (length (data c))) 8.

(** The decoder returns [c] once it has seen this many bytes of it and of what follows. *)
Definition needs (c : Command) : nat := Nat.max 9 (length (wire c)).

Lemma app_prefix_eq (a b x y : list Z) :
  a ++ b = x ++ y -> (length x <= length a)%nat -> exists z, a = x ++ z /\ y = z ++ b.
Proof.
  intros E Hl. exists (drop (length x) a).
  apply (f_equal (take (length x))) in E as E1. apply (f_equal (drop (length x))) in E as E2.
  rewrite take_app_le, take_app_length in E1 by done. rewrite drop_app_le, drop_app_length in E2 by done.
  split; [by rewrite <- E1 at 1; rewrite take_drop|done].
Qed.

Definition step_result c k (buf rest tl : list Z) (r : bool * option Command * DecoderState * list Z) : Prop :=
  match r with
  | (true, None, st', buf') => exists k', at_state c st' k' /\ (k < k')%nat /\
      (k' + length buf' = k + length buf)%nat /\ buf' ++ rest = drop k' (wire c) ++ tl
  | (false, None, st', buf') => at_state c st' k /\ (3 <= k)%nat /\ buf' = buf /\
      (k + length buf < length (wire c))%nat
  | (_, Some c', st', buf') => c' = c /\ st' = WaitingForMagic /\ k = 8%nat /\ buf = data c ++ buf'
  end.

Lemma drop_wire c :
  drop 3 (wire c) = [command_id c] ++ to_be_bytes 2 (request_id c) ++
    to_be_bytes 2 (Z.of_nat (length (data c))) ++ data c /\
  drop 4 (wire c) = to_be_bytes 2 (request_id c) ++ to_be_bytes 2 (Z.of_nat (length (data c))) ++ data c /\
  drop 6 (wire c) = to_be_bytes 2 (Z.of_nat (length (data c))) ++ data c /\
  drop 8 (wire c) = data c.
Proof. split_and!; reflexivity. Qed.

Lemma decode_step_spec c st k buf rest tl : command_ok c -> at_state c st k ->
  buf ++ rest = drop k (wire c) ++ tl -> buf <> [] -> (k = 0 -> 3 <= length buf)%nat ->
  exists r, decode_step st buf = Ok r /\ step_result c k buf rest tl r.
Proof.
  intros (Hc & Hr & Hl) Hst E Hb H3. destruct (drop_wire c) as (E3 & E4 & E6 & E8).
  destruct Hst; cbn [decode_step].
  - unfold wire in E. rewrite drop_0, <- (assoc_L (++)) in E. specialize (H3 eq_refl).
    apply app_prefix_eq in E as (z & -> & E); [|cbn; lia].
    assert (find_subsequence (MAGIC_PREFIX ++ z) MAGIC_PREFIX = Some 0%nat) as ->.
    { cbn [app find_subsequence MAGIC_PREFIX]. by rewrite decide_True. }
    rewrite advance_spec, decide_True by (cbn; lia). cbn [mbind result_bind].
    eexists. split; [reflexivity|]. exists 3%nat. split; [constructor|]. split; [lia|].
    cbn [MAGIC_PREFIX length Nat.add app drop]. rewrite drop_0. split; [lia|]. rewrite E3. by rewrite <- E.
  - rewrite E3, <- (assoc_L (++)) in E. destruct buf as [|x buf]; [done|].
    injection E as -> E. rewrite decide_False by (cbn; lia). cbn [unwrap lookup list_lookup mbind result_bind].
    rewrite advance_spec, decide_True by (cbn; lia). cbn [mbind result_bind].
    eexists. split; [reflexivity|]. exists 4%nat. split; [constructor|]. split; [lia|].
    cbn [drop length]. rewrite drop_0. split; [lia|]. by rewrite E4.
  - case_decide as Hd.
    { eexists. split; [reflexivity|]. split; [constructor|]. rewrite length_command_wire. split_and!; [lia|done|lia]. }
    rewrite E4, <- (assoc_L (++)) in E.
    apply app_prefix_eq in E as (z & -> & E); [|rewrite length_to_be_bytes; lia].
    rewrite read_u16_be_spec by done. cbn [mbind result_bind].
    rewrite advance_spec, decide_True by lia. cbn [mbind result_bind].
    eexists. split; [reflexivity|]. exists 6%nat. split; [constructor|]. split; [lia|].
    rewrite drop_app_length' by (by rewrite length_to_be_bytes).
    rewrite length_app, length_to_be_bytes. split; [lia|]. by rewrite E6.
  - case_decide as Hd.
    { eexists. split; [reflexivity|]. split; [constructor|]. rewrite length_command_wire. split_and!; [lia|done|lia]. }
    rewrite E6, <- (assoc_L (++)) in E.
    apply app_prefix_eq in E as (z & -> & E); [|rewrite length_to_be_bytes; lia].
    rewrite read_u16_be_spec by (unfold in_width; lia). cbn [mbind result_bind].
    rewrite advance_spec, decide_True by lia. cbn [mbind result_bind].
    eexists. split; [reflexivity|]. exists 8%nat. rewrite Nat2Z.id. split; [constructor|]. split; [lia|].
    rewrite drop_app_length' by (by rewrite length_to_be_bytes).
    rewrite length_app, length_to_be_bytes. split; [lia|]. by rewrite E8.
  - case_decide as Hd.
    { eexists. split; [reflexivity|]. split; [constructor|]. rewrite length_command_wire. split_and!; [lia|done|lia]. }
    rewrite E8 in E. apply app_prefix_eq in E as (z & -> & E); [|lia].
    rewrite split_to_spec, decide_True by lia. cbn [mbind result_bind].
    rewrite take_app_length, drop_app_length.
    eexists. split; [reflexivity|]. by destruct c.
Qed.

(** The number of rounds from a state on *)
Definition rounds (k : nat) : nat :=
  match k with O => 6 | 3%nat => 5 | 4%nat => 4 | 6%nat => 3 | _ => 2 end%nat.

Lemma decode_loop_spec fuel c st k buf rest tl : command_ok c -> at_state c st k -> (rounds k <= fuel)%nat ->
  buf ++ rest = drop k (wire c) ++ tl -> (k = 0 -> 3 <= length buf)%nat ->
  if decide (needs c <= k + length buf)%nat
  then exists buf', decode_loop fuel true None st buf = Ok (Some c, WaitingForMagic, buf') /\
    buf' ++ rest = tl /\ (k + length buf = length (wire c) + length buf')%nat
  else exists st' k' buf', decode_loop fuel true None st buf = Ok (None, st', buf') /\
    at_state c st' k' /\ (3 <= k')%nat /\ (k' + length buf' = k + length buf)%nat /\
    buf' ++ rest = drop k' (wire c) ++ tl.
Proof.
  intros Hc. revert st k buf. induction fuel as [|fuel IH]; intros st k buf Hst Hf E H3.
  { unfold rounds in Hf. destruct Hst; lia. }
  cbn [decode_loop]. destruct (decide (0 < length buf)%nat) as [Hb|Hb]; cycle 1.
  { rewrite (decide_False (P := None = None /\ _)) by tauto.
    rewrite (decide_False (P := (needs c <= _)%nat)) by (unfold needs; destruct Hst; lia).
    exists st, k, buf. split_and!; try done. destruct Hst; lia. }
  rewrite (decide_True (P := None = None /\ _)) by done.
  destruct (decode_step_spec c st k buf rest tl Hc Hst E) as (r & -> & Hr);
    [intros ->; cbn in Hb; lia|done|].
  cbn [mbind result_bind]. pose proof (length_command_wire c) as Hw.
  destruct r as [[[[] [c'|]] st'] buf']; cbn [step_result] in Hr.
  - destruct Hr as (-> & -> & -> & ->). rewrite decide_True by (unfold needs; rewrite length_app in *; lia).
    exists buf'. split; [by destruct fuel; [cbn in Hf; lia|]|]. rewrite (proj2 (proj2 (proj2 (drop_wire c)))) in E.
    rewrite <- (assoc_L (++)) in E. apply (inj _) in E. rewrite length_app. split; [done|lia].
  - destruct Hr as (k' & Hst' & Hk & Hlen & E').
    rewrite <- Hlen. apply IH; try done.
    + unfold rounds in *. destruct Hst, Hst'; lia.
    + destruct Hst'; lia.
  - destruct Hr as (-> & -> & -> & ->). rewrite decide_True by (unfold needs; rewrite length_app in *; lia).
    exists buf'. split; [by destruct fuel; [cbn in Hf; lia|]|]. rewrite (proj2 (proj2 (proj2 (drop_wire c)))) in E.
    rewrite <- (assoc_L (++)) in E. apply (inj _) in E. rewrite length_app. split; [done|lia].
  - destruct Hr as (Hst' & Hk & -> & Hlen). rewrite decide_False by (unfold needs; lia).
    destruct fuel; [unfold rounds in Hf; destruct Hst; lia|].
    exists st', k, buf. split_and!; try done.
Qed.

(** ** The decoder in a stream of commands *)

(** [m] bytes of the commands [cs] have arrived; what is to come is [rest]. *)
Definition at_stream (cs : list Command) (m : nat) (st : DecoderState) (buf rest : list Z) : Prop :=
  match cs with
  | [] => st = WaitingForMagic /\ buf = [] /\ rest = []
  | c :: cs => exists k, at_state c st k /\ m = (k + length buf)%nat /\
      buf ++ rest = drop k (wire c) ++ stream cs
  end.

(** What [m] bytes of the commands make the decoder deliver, which commands it is then in, and how
    far; [None] is a panic. *)
Fixpoint received (cs : list Command) (m : nat) : option (list Command * list Command * nat) :=
  match cs with
  | [] => Some ([], [], 0%nat)
  | c :: cs' =>
      if decide (m = 0)%nat then Some ([], cs, m)
      else if decide (m < 3)%nat then None
      else if decide (m < needs c)%nat then Some ([], cs, m)
      else '(d, r, m') ← received cs' (m - length (wire c)); Some (c :: d, r, m')
  end.

Lemma find_subsequence_short buf : (length buf < 3)%nat -> find_subsequence buf MAGIC_PREFIX = None.
Proof.
  destruct buf as [|a [|b [|c buf]]]; cbn [length]; intros ?; [..|lia];
    cbn [find_subsequence MAGIC_PREFIX length take]; by rewrite !decide_False by done.
Qed.

Lemma decode_short buf : (0 < length buf < 3)%nat -> decode WaitingForMagic buf = Err Panic.
Proof.
  intros Hb. unfold decode. cbn [decode_loop].
  rewrite decide_True by (split_and!; [done|done|lia]). cbn [decode_step].
  rewrite find_subsequence_short by lia. unfold size_sub.
  rewrite decide_False by (cbn; lia). done.
Qed.

Lemma decode_nil st : decode st [] = Ok (None, st, []).
Proof. unfold decode. cbn [decode_loop]. rewrite decide_False; [done|]. cbn. lia. Qed.

Lemma at_stream_start cs buf rest : buf ++ rest = stream cs ->
  at_stream cs (length buf) WaitingForMagic buf rest.
Proof.
  destruct cs as [|c cs]; cbn.
  - by intros [-> ->]%app_nil.
  - intros E. exists 0%nat. by split; [constructor|].
Qed.

Lemma decode_all_spec fuel cs m st buf rest : Forall command_ok cs -> (m < 8 * fuel)%nat ->
  at_stream cs m st buf rest ->
  match received cs m with
  | None => decode_all fuel st buf = Err Panic
  | Some (d, r, m') => exists st' buf',
      decode_all fuel st buf = Ok (d, st', buf') /\ at_stream r m' st' buf' rest
  end.
Proof.
  revert cs m st buf. induction fuel as [|fuel IH]; intros cs m st buf Hok Hf Hs; [lia|].
  destruct cs as [|c cs].
  { destruct Hs as (-> & -> & ->). cbn [received decode_all]. rewrite decode_nil. by do 2 eexists. }
  apply Forall_cons in Hok as [Hc Hok]. destruct Hs as (k & Hst & Hm & E).
  cbn [received decode_all]. case_decide as Hm0.
  { assert (k = 0 /\ buf = [])%nat as [-> ->] by (destruct buf; cbn in Hm; [split; [lia|done]|lia]).
    rewrite decode_nil. cbn. do 2 eexists. split; [done|]. by exists 0%nat. }
  case_decide as H3.
  { assert (k = 0%nat) as -> by (destruct Hst; lia). inversion Hst; subst.
    rewrite decode_short by lia. done. }
  pose proof (decode_loop_spec 6 c st k buf rest (stream cs) Hc Hst ltac:(destruct Hst; cbn; lia) E ltac:(lia)) as Hd.
  rewrite <- Hm in Hd. unfold decode. destruct (decide (m < needs c)%nat) as [Hn|Hn].
  - rewrite decide_False in Hd by lia. destruct Hd as (st' & k' & buf' & -> & Hst' & _ & Hl & E').
    cbn. do 2 eexists. split; [done|]. exists k'. by split_and!; [|lia|].
  - rewrite decide_True in Hd by lia. destruct Hd as (buf' & -> & E' & Hl).
    cbn [mbind result_bind].
    specialize (IH cs (m - length (wire c))%nat WaitingForMagic buf' Hok).
    rewrite length_command_wire in *.
    assert (Hb : (m - (8 + length (data c)) = length buf')%nat) by lia.
    rewrite Hb in *. specialize (IH ltac:(lia) (at_stream_start _ _ _ E')).
    destruct (received cs (length buf')) as [[[d r] m']|]; cbn [mbind option_bind].
    + destruct IH as (st2 & buf2 & -> & Hs2). by do 2 eexists.
    + by rewrite IH.
Qed.

Lemma received_more cs m y d r m' : received cs m = Some (d, r, m') ->
  received cs (m + y) = '(d2, r2, m2) ← received r (m' + y); Some (d ++ d2, r2, m2).
Proof.
  revert m d. induction cs as [|c cs IH]; intros m d; cbn [received].
  { by intros [= <- <- <-]. }
  destruct (decide (m = 0)%nat) as [->|Hm0].
  { intros [= <- <- <-]. change (received (c :: cs) y = '(d2, r2, m2) ← received (c :: cs) y; Some ([] ++ d2, r2, m2)).
    by destruct (received (c :: cs) y) as [[[??]?]|]. }
  destruct (decide (m < 3)%nat) as [H3|H3]; [done|].
  destruct (decide (m < needs c)%nat) as [Hn|Hn].
  { intros [= <- <- <-].
    change (received (c :: cs) (m + y) = '(d2, r2, m2) ← received (c :: cs) (m + y); Some ([] ++ d2, r2, m2)).
    by destruct (received (c :: cs) (m + y)) as [[[??]?]|]. }
  destruct (received cs (m - length (wire c))) as [[[d1 r1] m1]|] eqn:E; [|done].
  intros [= <- <- <-]. rewrite !decide_False by lia.
  replace (m + y - length (wire c))%nat with (m - length (wire c) + y)%nat by (unfold needs in Hn; lia).
  rewrite (IH _ _ E). by destruct (received r1 (m1 + y)) as [[[??]?]|].
Qed.

Lemma received_settled cs m d r m' :
  received cs m = Some (d, r, m') -> received r m' = Some ([], r, m').
Proof.
  revert m d. induction cs as [|c cs IH]; intros m d E.
  { by injection E as <- <- <-. }
  pose proof E as E0. cbn [received] in E. repeat case_decide; try done.
  - injection E as <- <- <-. exact E0.
  - injection E as <- <- <-. exact E0.
  - destruct (received cs (m - length (wire c))) as [[[d1 r1] m1]|] eqn:E1; [|done].
    injection E as <- <- <-. eauto.
Qed.

Lemma received_ok cs m d r m' : Forall command_ok cs -> received cs m = Some (d, r, m') -> Forall command_ok r.
Proof.
  revert m d. induction cs as [|c cs IH]; intros m d Hok E.
  { by injection E as <- <- <-. }
  cbn [received] in E. repeat case_decide; simplify_eq; try done.
  destruct (received cs _) as [[[d1 r1] m1]|] eqn:E1; [|done].
  injection E as <- <- <-. apply Forall_cons in Hok as [_ Hok]. eauto.
Qed.

(** One piece more *)
Lemma at_stream_more cs m st buf piece rest : at_stream cs m st buf (piece ++ rest) ->
  at_stream cs (m + length piece) st (buf ++ piece) rest \/ cs = [].
Proof.
  destruct cs as [|c cs]; [auto|]. intros (k & Hst & -> & E). left. exists k.
  rewrite length_app. split_and!; [done|lia|]. by rewrite <- (assoc_L (++)).
Qed.

Lemma at_stream_length cs m st buf rest : at_stream cs m st buf rest -> (m <= 8 + length buf)%nat \/ cs = [].
Proof. destruct cs as [|c cs]; [auto|]. intros (k & Hst & -> & _). left. destruct Hst; lia. Qed.

Lemma framed_nil pieces : mjoin pieces = [] -> framed pieces WaitingForMagic [] = Ok ([], WaitingForMagic, []).
Proof.
  induction pieces as [|p ps IH]; [done|]. intros [-> E]%app_nil. cbn [framed app].
  change (2 + length [])%nat with 2%nat. cbn [decode_all]. rewrite decode_nil. cbn [mbind result_bind].
  by rewrite IH.
Qed.

Lemma framed_spec pieces cs m st buf : Forall command_ok cs ->
  at_stream cs m st buf (mjoin pieces) -> received cs m = Some ([], cs, m) ->
  ((forall i, is_Some (received cs (m + length (mjoin (take i pieces))))) ->
    exists d r m' st' buf', received cs (m + length (mjoin pieces)) = Some (d, r, m') /\
      framed pieces st buf = Ok (d, st', buf')) /\
  ((exists i, received cs (m + length (mjoin (take i pieces))) = None) -> framed pieces st buf = Err Panic).
Proof.
  revert cs m st buf. induction pieces as [|p ps IH]; intros cs m st buf Hok Hs Hset.
  { cbn. rewrite Nat.add_0_r. split; [intros _; naive_solver|].
    intros [i Hi]. rewrite firstn_nil in Hi. cbn in Hi. rewrite Nat.add_0_r in Hi. congruence. }
  destruct cs as [|c cs].
  { destruct Hs as (-> & -> & E). rewrite (framed_nil (p :: ps)) by done.
    split; [|by intros [i Hi]]. cbn [received]. naive_solver. }
  set (l := c :: cs) in *. change (mjoin (p :: ps)) with (p ++ mjoin ps) in *.
  destruct (at_stream_more _ _ _ _ _ _ Hs) as [Hs'|]; [|done].
  destruct (at_stream_length _ _ _ _ _ Hs') as [Hl|]; [|done].
  pose proof (decode_all_spec (2 + length (buf ++ p)) l (m + length p) st (buf ++ p) (mjoin ps) Hok ltac:(lia) Hs') as Hd.
  cbn [framed]. destruct (received l (m + length p)) as [[[d r] m']|] eqn:E.
  - destruct Hd as (st' & buf' & -> & Hs2). cbn [mbind result_bind].
    destruct (IH r m' st' buf') as [IH1 IH2]; [by eapply received_ok|done|by eapply received_settled|].
    assert (Hmore : forall x, received l (m + (length p + x)) =
      '(d2, r2, m2) ← received r (m' + x); Some (d ++ d2, r2, m2)).
    { intros x. rewrite Nat.add_assoc. by apply received_more. }
    rewrite length_app, Hmore. split.
    + intros Hall. destruct IH1 as (d2 & r2 & m2 & st2 & buf2 & -> & ->).
      { intros i. specialize (Hall (S i)). cbn [take mjoin list_join] in Hall.
        change (mjoin (p :: take i ps)) with (p ++ mjoin (take i ps)) in Hall.
        rewrite length_app, Hmore in Hall. destruct (received r (m' + length (mjoin (take i ps)))) eqn:E2; [done|]. by destruct Hall. }
      cbn. naive_solver.
    + intros [i Hi]. destruct i as [|i].
      { change (received l (m + 0) = None) in Hi. rewrite Nat.add_0_r in Hi. congruence. }
      change (mjoin (take (S i) (p :: ps))) with (p ++ mjoin (take i ps)) in Hi.
      rewrite length_app, Hmore in Hi. rewrite IH2; [done|]. exists i.
      destruct (received r (m' + length (mjoin (take i ps)))) as [[[??]?]|] eqn:E2; [|done].
      rewrite ?E2 in Hi. done.
  - rewrite Hd. split; [|done]. intros Hall. specialize (Hall 1%nat).
    change (mjoin (take 1 (p :: ps))) with (p ++ []) in Hall. rewrite app_nil_r, E in Hall. by destruct Hall.
Qed.

(** ** Where the delivery may be cut *)

(** A cut is bad one or two bytes behind the beginning of a command. *)
Definition bad_cut (cs : list Command) (m : nat) : Prop :=
  exists i, (i < length cs)%nat /\
    (m = length (stream (take i cs)) + 1 \/ m = length (stream (take i cs)) + 2)%nat.

Lemma bad_cut_cons c cs m : bad_cut (c :: cs) m <->
  (m = 1 \/ m = 2)%nat \/ (length (wire c) <= m)%nat /\ bad_cut cs (m - length (wire c)).
Proof.
  unfold bad_cut. split.
  - intros ([|i] & Hi & Hm); cbn [take] in Hm.
    + left. change (length (stream [])) with 0%nat in Hm. lia.
    + right. change (stream (c :: take i cs)) with (wire c ++ stream (take i cs)) in Hm.
      rewrite length_app in Hm. cbn [length] in Hi. split; [lia|]. exists i. lia.
  - intros [Hm|[Hl (i & Hi & Hm)]].
    + exists 0%nat. cbn [take length]. change (length (stream [])) with 0%nat. lia.
    + exists (S i). cbn [take length]. change (stream (c :: take i cs)) with (wire c ++ stream (take i cs)).
      rewrite length_app. lia.
Qed.

Lemma bad_cut_pos cs m : bad_cut cs m -> (0 < m)%nat.
Proof. intros (i & _ & Hm). lia. Qed.

Lemma received_None cs m : received cs m = None <-> bad_cut cs m.
Proof.
  revert m. induction cs as [|c cs IH]; intros m; cbn [received].
  { split; [done|]. intros (i & Hi & _). cbn in Hi. lia. }
  rewrite bad_cut_cons, <- IH. rewrite length_command_wire. unfold needs. rewrite length_command_wire.
  pose proof (proj1 (IH (m - (8 + length (data c)))%nat)) as Hp.
  destruct (decide (m = 0)%nat); [split; [done|lia]|].
  destruct (decide (m < 3)%nat); [split; [lia|done]|].
  destruct (decide (m < _)%nat).
  - split; [done|]. intros [?|[? Hr]]; [lia|]. apply Hp, bad_cut_pos in Hr. lia.
  - destruct (received cs _) as [[[??]?]|].
    + split; [done|]. intros [?|[_ ?]]; [lia|done].
    + split; [|done]. intros _. right. split; [lia|done].
Qed.

(** What is delivered in the end: a command without data is held back until a byte follows
    it. *)
Fixpoint deliverable (cs : list Command) : list Command :=
  match cs with
  | [] => []
  | [c] => if decide (data c = []) then [] else [c]
  | c :: cs => c :: deliverable cs
  end.

Lemma received_stream cs : exists r m, received cs (length (stream cs)) = Some (deliverable cs, r, m).
Proof.
  induction cs as [|c [|c' cs] IH]; [by do 2 eexists|..].
  - change (stream [c]) with (wire c ++ []). rewrite app_nil_r. cbn [received deliverable].
    unfold needs. rewrite length_command_wire. rewrite !decide_False by lia.
    destruct (data c) as [|x d]; cbn [length].
    + rewrite decide_True by lia. by do 2 eexists.
    + rewrite decide_False by lia. by do 2 eexists.
  - destruct IH as (r & m & E). set (l := c' :: cs) in *.
    change (stream (c :: l)) with (wire c ++ stream l). rewrite length_app.
    change (deliverable (c :: l)) with (c :: deliverable l). cbn [received].
    assert (8 <= length (stream l))%nat.
    { unfold l. change (stream (c' :: cs)) with (wire c' ++ stream cs). rewrite length_app, length_command_wire. lia. }
    unfold needs. rewrite length_command_wire. rewrite !decide_False by lia.
    replace (8 + length (data c) + length (stream l) - (8 + length (data c)))%nat with (length (stream l)) by lia.
    rewrite E. by do 2 eexists.
Qed.

(** Writing the commands one after the other. *)
Fixpoint encode_all (cs : list Command) (dst : list Z) : exec (list Z) :=
  match cs with [] => Ok dst | c :: cs => dst ← encode c dst; encode_all cs dst end.
Lemma encode_all_spec cs dst : Forall command_ok cs -> encode_all cs dst = Ok (dst ++ stream cs).
Proof.
  intros Hok. revert dst. induction Hok as [|c cs Hc Hok IH]; intros dst; cbn [encode_all].
  - by rewrite app_nil_r.
  - rewrite encode_spec by done. cbn [mbind result_bind]. rewrite IH, <- (assoc_L (++)). done.
Qed.

(** C21: Whatever the pieces in which the port delivers the bytes that the encoder wrote, the
    decoder delivers the commands, in order, save that a last one without data is held back
    until another byte comes; unless the delivery is cut one or two bytes behind the beginning of a
    command: then, and only then, the decoder panics. *)
Theorem codec_delivers (cs : list Command) (pieces : list (list Z)) :
  Forall command_ok cs -> encode_all cs [] = Ok (mjoin pieces) ->
  let cuts i := length (mjoin (take i pieces)) in
  ((forall i, ~ bad_cut cs (cuts i)) ->
    exists st buf, framed pieces new [] = Ok (deliverable cs, st, buf)) /\
  ((exists i, bad_cut cs (cuts i)) -> framed pieces new [] = Err Panic).
Proof.
  intros Hok E cuts. rewrite encode_all_spec in E by done. injection E as E. cbn [app] in E.
  destruct (framed_spec pieces cs 0 WaitingForMagic []) as [H1 H2]; [done|..].
  { apply (at_stream_start cs []). by rewrite E. }
  { by destruct cs. }
  split.
  - intros Hc. destruct H1 as (d & r & m & st & buf & Er & Ef).
    { intros i. apply not_eq_None_Some. rewrite received_None. apply Hc. }
    rewrite <- E in Er. destruct (received_stream cs) as (r' & m' & Es). cbn [Nat.add] in Er.
    exists st, buf. unfold new. congruence.
  - intros [i Hi]. apply H2. exists i. by apply received_None.
Qed.
End theory.

#[local] Existing Instance BytesBuf_reference.
#[local] Existing Instance BytesBuf_reference_laws.

Definition sample_commands : list Command :=
  [{| command_id := 128; request_id := 258; data := [1; 2; 3] |};
   {| command_id := 192; request_id := 0; data := [] |}].
Definition good_pieces : list (list Z) :=
  [[90; 80; 66]; [128; 1; 2; 0; 3; 1]; [2; 3; 90; 80; 66; 192]; [0; 0; 0; 0]].
Definition bad_pieces : list (list Z) :=
  [[90; 80; 66]; [128; 1; 2; 0; 3; 1]; [2; 3; 90]; [80; 66; 192; 0; 0; 0; 0]].

Lemma sample_ok : Forall command_ok sample_commands.
Proof. repeat constructor; unfold in_width; cbn; lia. Qed.

Lemma codec_delivers_witness :
  encode_all sample_commands [] = Ok (mjoin bad_pieces) /\ framed bad_pieces new [] = Err Panic.
Proof.
  assert (E : encode_all sample_commands [] = Ok (mjoin bad_pieces)) by reflexivity.
  split; [exact E|]. apply (codec_delivers sample_commands bad_pieces sample_ok E).
  exists 3%nat, 1%nat. split; [cbn; lia|]. vm_compute. auto.
Defined.
Example good_pieces_delivered :
  framed good_pieces new [] =
    Ok ([{| command_id := 128; request_id := 258; data := [1; 2; 3] |}], WaitingForData 192 0 0, []).
Proof. reflexivity. Qed.
