(* ===== verification/RawService.v ===== *)
(** * Calls over the serial line ([old_src/radio_bridge/raw_service.rs])

    The dispatcher numbers the calls and keeps, for each that is outstanding, the sender of
    the channel its caller waits on; incoming commands answer calls or carry packets. A
    sender is named by the caller's token, and sending on it is an entry of [resolved]; what
    goes out on the two unbounded channels is kept in order. The channels' other ends are
    taken to be there. *)

From Stdlib Require Import ZArith Lia.
From S2P Require Import Prelude.
From S2P Require Import Bytes.
From S2P Require Import SerialProtocol.

#[local] Open Scope Z_scope.

Module OldRaw.

Inductive RequestCommand :=
| RadioPrepare | RadioTransmit | RadioSend | RadioChannelClear | RadioOn | RadioOff
| RadioGetValue | RadioSetValue | RadioGetObject | RadioSetObject | RadioInitPendingTable
| RadioSetPending.
Definition request_command_as_num (c : RequestCommand) : Z :=
  match c with
  | RadioPrepare => 0 | RadioTransmit => 1 | RadioSend => 2 | RadioChannelClear => 3
  | RadioOn => 4 | RadioOff => 5 | RadioGetValue => 6 | RadioSetValue => 7
  | RadioGetObject => 8 | RadioSetObject => 9 | RadioInitPendingTable => 10 | RadioSetPending => 11
  end.

Record Request := { command_id : RequestCommand; data : list Z }.

Inductive Error := BridgeError (data : list Z) | OneshotError.
#[global] Instance Error_eq_dec : EqDecision Error.
Proof. solve_decision. Defined.

(** ** The dispatcher *)

Record Dispatcher := {
  next_available_request_id : Z;
  in_flight : gmap Z N;
  (** what was sent to the callers, in order *)
  resolved : list (N * result Error (list Z));
}.

Definition dispatcher_new : Dispatcher :=
  {| next_available_request_id := 0; in_flight := ∅; resolved := [] |}.

(** [u16 + 1], which overflows *)
Definition u16_succ (x : Z) : exec Z := if decide (x + 1 < 65536) then Ok (x + 1) else Err Panic.

Definition new_request (token : N) (d : Dispatcher) : exec (Z * Dispatcher) :=
  let request_id := next_available_request_id d in
  next ← u16_succ (next_available_request_id d);
  Ok (request_id,
      {| next_available_request_id := next;
         in_flight := <[request_id := token]> (in_flight d); resolved := resolved d |}).

(** [resolve] and [reject] *)
Definition answer (request_id : Z) (r : result Error (list Z)) (d : Dispatcher) : Dispatcher :=
  match in_flight d !! request_id with
  | Some token =>
      {| next_available_request_id := next_available_request_id d;
         in_flight := delete request_id (in_flight d); resolved := resolved d ++ [(token, r)] |}
  | None => d
  end.
Definition resolve (request_id : Z) (data : list Z) : Dispatcher -> Dispatcher :=
  answer request_id (Ok data).
Definition reject (request_id : Z) (error : list Z) : Dispatcher -> Dispatcher :=
  answer request_id (Err (BridgeError error)).

(** ** The service *)

Record IncomingPacket := { packet : list Z; rssi : Z; link_quality : Z }.

Record RadioBridgeService := {
  dispatcher : Dispatcher;
  (** the commands sent to the serial output, and the packets sent to the packet stream *)
  command_sink : list Serial.Command;
  packet_output : list IncomingPacket;
}.

Definition service_new : RadioBridgeService :=
  {| dispatcher := dispatcher_new; command_sink := []; packet_output := [] |}.

Section service.
Context `{!BytesBuf}.

Definition handle_incoming_command (cmd : Serial.Command) (s : RadioBridgeService) :
    exec RadioBridgeService :=
  if decide (Serial.command_id cmd = 128) then
    Ok {| dispatcher := resolve (Serial.request_id cmd) (Serial.data cmd) (dispatcher s);
          command_sink := command_sink s; packet_output := packet_output s |}
  else if decide (Serial.command_id cmd = 129) then
    Ok {| dispatcher := reject (Serial.request_id cmd) (Serial.data cmd) (dispatcher s);
          command_sink := command_sink s; packet_output := packet_output s |}
  else if decide (Serial.command_id cmd = 192) then
    let d := Serial.data cmd in
    if decide (2 < length d)%nat then
      p ← slice_to (length d - 2) d;
      r ← unwrap (d !! (length d - 2)%nat);
      q ← unwrap (d !! (length d - 1)%nat);
      Ok {| dispatcher := dispatcher s; command_sink := command_sink s;
            packet_output := packet_output s ++ [{| packet := p; rssi := r; link_quality := q |}] |}
    else Ok s
  else Ok s.

(** [call], by the caller with this token *)
Definition call (token : N) (request : Request) (s : RadioBridgeService) : exec RadioBridgeService :=
  '(id, d) ← new_request token (dispatcher s);
  Ok {| dispatcher := d;
        command_sink := command_sink s ++
          [{| Serial.command_id := request_command_as_num (command_id request);
              Serial.request_id := id; Serial.data := data request |}];
        packet_output := packet_output s |}.
End service.
End OldRaw.
