(* ===== verification/RawServiceTheory.v ===== *)
(** * Calls over the serial line: who is answered, by what *)

From Stdlib Require Import ZArith Lia.
From S2P Require Import Prelude.
From S2P Require Import Bytes.
From S2P Require Import SerialProtocol.
From S2P Require Import RawService.

#[local] Open Scope Z_scope.

Import OldRaw.

(** What happens to the service; the tokens number the calls. *)
Inductive event := ECall (r : Request) | EIncoming (c : Serial.Command).

Fixpoint requests (evs : list event) : list Request :=
  match evs with [] => [] | ECall r :: evs => r :: requests evs | EIncoming _ :: evs => requests evs end.
Fixpoint incoming (evs : list event) : list Serial.Command :=
  match evs with [] => [] | ECall _ :: evs => incoming evs | EIncoming c :: evs => c :: incoming evs end.

(** ** The specification *)

(** The command that the [i]-th call sends *)
Definition sent (i : nat) (r : Request) : Serial.Command :=
  {| Serial.command_id := request_command_as_num (command_id r);
     Serial.request_id := Z.of_nat i; Serial.data := data r |}.

(** What follows the [i]-th call; the first answer with an id; the answer to the [i]-th call *)
Fixpoint after_call (i : nat) (evs : list event) : option (list event) :=
  match evs with
  | [] => None
  | ECall _ :: evs => match i with O => Some evs | S i => after_call i evs end
  | EIncoming _ :: evs => after_call i evs
  end.
Definition answers (id : Z) (c : Serial.Command) : option (result Error (list Z)) :=
  if decide (Serial.request_id c <> id) then None
  else if decide (Serial.command_id c = 128) then Some (Ok (Serial.data c))
  else if decide (Serial.command_id c = 129) then Some (Err (BridgeError (Serial.data c)))
  else None.
Definition spec_answer (i : nat) (evs : list event) : option (result Error (list Z)) :=
  after_call i evs ≫= fun l => head (omap (answers (Z.of_nat i)) (incoming l)).

(** The packets: a command of that kind with more than its two bytes of measurements *)
Definition packet_of (c : Serial.Command) : option IncomingPacket :=
  let d := Serial.data c in
  if decide (Serial.command_id c = 192 /\ (2 < length d)%nat) then
    r ← d !! (length d - 2)%nat; q ← d !! (length d - 1)%nat;
    Some {| packet := take (length d - 2) d; rssi := r; link_quality := q |}
  else None.

Section theory.
Context `{!BytesBuf}.

Definition step (e : event) (n : nat) (s : RadioBridgeService) : exec RadioBridgeService :=
  match e with
  | ECall r => call (N.of_nat n) r s
  | EIncoming c => handle_incoming_command c s
  end.
Fixpoint run_events (evs : list event) (n : nat) (s : RadioBridgeService) : exec RadioBridgeService :=
  match evs with
  | [] => Ok s
  | e :: evs =>
      s ← step e n s;
      run_events evs (match e with ECall _ => S n | EIncoming _ => n end) s
  end.

Context `{!BytesBufLaws}.

(** ** One event more *)

Lemma requests_app l k : requests (l ++ k) = requests l ++ requests k.
Proof. induction l as [|[] l IH]; cbn; by rewrite ?IH. Qed.
Lemma incoming_app l k : incoming (l ++ k) = incoming l ++ incoming k.
Proof. induction l as [|[] l IH]; cbn; by rewrite ?IH. Qed.

Lemma run_events_snoc evs e n s :
  run_events (evs ++ [e]) n s = s ← run_events evs n s; step e (n + length (requests evs)) s.
Proof.
  revert n s. induction evs as [|e' evs IH]; intros n s; cbn [app run_events].
  - cbn. rewrite Nat.add_0_r. by destruct (step e n s).
  - destruct (step e' n s) as [s'|]; [|done]. cbn [mbind result_bind]. rewrite IH.
    destruct (run_events evs _ s'); [|done]. cbn [mbind result_bind].
    destruct e'; cbn [requests length]; by rewrite <- ?Nat.add_succ_comm.
Qed.

Lemma after_call_Some i evs l : after_call i evs = Some l -> (i < length (requests evs))%nat.
Proof.
  revert i. induction evs as [|[] evs IH]; intros i; cbn; [done| |by apply IH].
  destruct i as [|i]; [lia|]. intros ?%IH. lia.
Qed.
Lemma after_call_None i evs : after_call i evs = None -> (length (requests evs) <= i)%nat.
Proof.
  revert i. induction evs as [|[] evs IH]; intros i; cbn; [lia| |by apply IH].
  destruct i as [|i]; [done|]. intros ?%IH. lia.
Qed.
Lemma after_call_app i evs k l : after_call i evs = Some l -> after_call i (evs ++ k) = Some (l ++ k).
Proof.
  revert i. induction evs as [|[] evs IH]; intros i; cbn; [done| |by apply IH].
  destruct i as [|i]; [by intros [= ->]|]. by apply IH.
Qed.
Lemma after_call_past i evs k : after_call i evs = None ->
  after_call i (evs ++ k) = after_call (i - length (requests evs)) k.
Proof.
  revert i. induction evs as [|[] evs IH]; intros i; cbn; [by rewrite Nat.sub_0_r| |by apply IH].
  destruct i as [|i]; [done|]. intros ?. cbn. by apply IH.
Qed.

Lemma spec_answer_call i evs r : spec_answer i (evs ++ [ECall r]) = spec_answer i evs.
Proof.
  unfold spec_answer. destruct (after_call i evs) as [l|] eqn:E.
  - rewrite (after_call_app _ _ _ _ E). cbn. by rewrite incoming_app, app_nil_r.
  - rewrite after_call_past by done. by destruct (i - _)%nat.
Qed.
Lemma spec_answer_incoming i evs c : spec_answer i (evs ++ [EIncoming c]) =
  match spec_answer i evs with
  | Some r => Some r
  | None => if decide (i < length (requests evs))%nat then answers (Z.of_nat i) c else None
  end.
Proof.
  unfold spec_answer. destruct (after_call i evs) as [l|] eqn:E.
  - rewrite (after_call_app _ _ _ _ E), decide_True by by eapply after_call_Some. cbn.
    rewrite incoming_app, omap_app, head_app. cbn.
    destruct (head (omap _ _)); [done|]. by destruct (answers (Z.of_nat i) c).
  - rewrite after_call_past by done. rewrite decide_False by (apply after_call_None in E; lia). done.
Qed.
Lemma spec_answer_lt i evs r : spec_answer i evs = Some r -> (i < length (requests evs))%nat.
Proof. unfold spec_answer. destruct (after_call i evs) eqn:E; [|done]. intros _. by eapply after_call_Some. Qed.

(** ** The invariant *)

Record matches (evs : list event) (d : Dispatcher) : Prop := {
  matches_next : next_available_request_id d = Z.of_nat (length (requests evs));
  matches_in_flight id t : in_flight d !! id = Some t <-> exists i,
    id = Z.of_nat i /\ t = N.of_nat i /\ (i < length (requests evs))%nat /\ spec_answer i evs = None;
  matches_resolved i r : (N.of_nat i, r) ∈ resolved d <-> spec_answer i evs = Some r;
  matches_once : NoDup (fst <$> resolved d);
}.

Lemma matches_new : matches [] dispatcher_new.
Proof.
  split; cbn.
  - done.
  - intros id t. rewrite lookup_empty. split; [done|]. intros (i & _ & _ & ? & _). lia.
  - intros i r. split; [by intros ?%not_elem_of_nil|done].
  - apply NoDup_nil_2.
Qed.

Lemma matches_call evs d r : matches evs d -> Z.of_nat (length (requests evs)) < 65535 ->
  exists d', new_request (N.of_nat (length (requests evs))) d = Ok (Z.of_nat (length (requests evs)), d') /\
    matches (evs ++ [ECall r]) d'.
Proof.
  intros [Hn Hi Hr Ho] Hlt. unfold new_request, u16_succ. rewrite Hn, decide_True by lia.
  eexists. split; [reflexivity|]. split; cbn [next_available_request_id in_flight resolved].
  - rewrite requests_app, length_app. cbn. lia.
  - intros id t. rewrite requests_app, length_app. cbn [requests length].
    setoid_rewrite spec_answer_call.
    destruct (decide (id = Z.of_nat (length (requests evs)))) as [->|Hid].
    + rewrite lookup_insert_eq. split.
      * intros [= <-]. exists (length (requests evs)). split_and!; try done; [lia|].
        destruct (spec_answer _ evs) eqn:E; [|done]. apply spec_answer_lt in E. lia.
      * intros (i & ?%Nat2Z.inj & -> & _). by subst.
    + rewrite lookup_insert_ne, Hi by done. apply exist_proper. intros i. intuition lia.
  - intros i x. by rewrite spec_answer_call.
  - done.
Qed.

Lemma requests_incoming evs c : requests (evs ++ [EIncoming c]) = requests evs.
Proof. by rewrite requests_app, app_nil_r. Qed.

Lemma matches_quiet evs d c : (forall id, answers id c = None) -> matches evs d ->
  matches (evs ++ [EIncoming c]) d.
Proof.
  intros Hq [Hn Hi Hr Ho].
  assert (E : forall i, spec_answer i (evs ++ [EIncoming c]) = spec_answer i evs).
  { intros i. rewrite spec_answer_incoming, Hq. destruct (spec_answer i evs); [done|]. by case_decide. }
  split; rewrite ?requests_incoming; try done.
  - setoid_rewrite E. apply Hi.
  - intros i r. by rewrite E.
Qed.

Lemma matches_answer evs d c x :
  (forall id, answers id c = if decide (Serial.request_id c = id) then Some x else None) ->
  matches evs d -> matches (evs ++ [EIncoming c]) (answer (Serial.request_id c) x d).
Proof.
  intros Ha [Hn Hi Hr Ho].
  assert (E : forall i, spec_answer i (evs ++ [EIncoming c]) = match spec_answer i evs with
    | Some r => Some r
    | None => if decide (i < length (requests evs) /\ Serial.request_id c = Z.of_nat i)%nat then Some x else None
    end).
  { intros i. rewrite spec_answer_incoming, Ha. destruct (spec_answer i evs); [done|].
    repeat case_decide; tauto. }
  unfold answer. destruct (in_flight d !! Serial.request_id c) as [t|] eqn:Ef.
  - pose proof Ef as (i0 & Eid & -> & Hlt & Hs)%Hi.
    split; cbn [next_available_request_id in_flight resolved]; rewrite ?requests_incoming; try done.
    + intros id t. setoid_rewrite E. destruct (decide (id = Serial.request_id c)) as [->|Hid].
      * rewrite lookup_delete_eq. split; [done|]. intros (i & Hi1 & _ & Hi2 & Hi3).
        rewrite Hi1 in Hi3. destruct (spec_answer i evs); [done|]. rewrite decide_True in Hi3; done.
      * rewrite lookup_delete_ne, Hi by done. apply exist_proper. intros i.
        split; intros (-> & -> & Hl & Hx); split_and!; try done.
        -- rewrite Hx. rewrite decide_False; [done|]. intros [_ ?]. by destruct Hid.
        -- by destruct (spec_answer i evs).
    + intros i r. rewrite elem_of_app, list_elem_of_singleton, Hr, E.
      destruct (spec_answer i evs) as [y|] eqn:Ei.
      * split; [|auto]. intros [?|[= Hii _]]; [done|]. apply Nat2N.inj in Hii as ->. congruence.
      * case_decide as Hd.
        -- destruct Hd as [Hd1 Hd2]. split; [intros [?|[= _ <-]]; done|intros [= <-]].
           right. f_equal. f_equal. lia.
        -- split; [|done]. intros [?|[= Hii _]]; [done|]. apply Nat2N.inj in Hii as ->. destruct Hd. split; [lia|done].
    + rewrite fmap_app. apply NoDup_app. split_and!; [done| |apply NoDup_singleton].
      intros t [[t' y] [-> Hin]]%list_elem_of_fmap. cbn. intros ->%list_elem_of_singleton.
      apply Hr in Hin. congruence.
  - assert (E' : forall i, spec_answer i (evs ++ [EIncoming c]) = spec_answer i evs).
    { intros i. rewrite E. destruct (spec_answer i evs) eqn:Ei; [done|]. rewrite decide_False; [done|].
      intros [Hlt Hid]. assert (in_flight d !! Serial.request_id c = Some (N.of_nat i)); [|congruence].
      apply Hi. by exists i. }
    split; rewrite ?requests_incoming; try done.
    + setoid_rewrite E'. apply Hi.
    + intros i r. by rewrite E'.
Qed.

(** ** Every run *)

Record bridge_ok (evs : list event) (s : RadioBridgeService) : Prop := {
  bridge_matches : matches evs (dispatcher s);
  bridge_sent : command_sink s = imap sent (requests evs);
  bridge_packets : packet_output s = omap packet_of (incoming evs);
}.

Lemma handle_incoming_ok evs s c : bridge_ok evs s ->
  exists s', handle_incoming_command c s = Ok s' /\ bridge_ok (evs ++ [EIncoming c]) s'.
Proof.
  intros [Hm Hs Hp]. unfold handle_incoming_command.
  assert (Hkeep : forall d p, matches (evs ++ [EIncoming c]) d -> p = omap packet_of (incoming evs ++ [c]) ->
    bridge_ok (evs ++ [EIncoming c]) {| dispatcher := d; command_sink := command_sink s; packet_output := p |}).
  { intros d p ? ->. split; [done|by rewrite requests_incoming|by rewrite incoming_app]. }
  assert (Hno : Serial.command_id c <> 192 -> packet_output s = omap packet_of (incoming evs ++ [c])).
  { intros Hc. rewrite omap_app, <- Hp. cbn. unfold packet_of. rewrite decide_False by tauto. by rewrite app_nil_r. }
  case_decide as H128; [|case_decide as H129; [|case_decide as H192]].
  - eexists. split; [reflexivity|]. apply Hkeep; [|apply Hno; lia]. apply matches_answer; [|done].
    intros id. unfold answers. repeat case_decide; try done; lia.
  - eexists. split; [reflexivity|]. apply Hkeep; [|apply Hno; lia]. apply matches_answer; [|done].
    intros id. unfold answers. repeat case_decide; try done; lia.
  - assert (matches (evs ++ [EIncoming c]) (dispatcher s)).
    { apply matches_quiet; [|done]. intros id. unfold answers. repeat case_decide; try done; lia. }
    case_decide as Hd.
    + rewrite slice_to_spec, decide_True by lia. cbn [mbind result_bind].
      destruct (lookup_lt_is_Some_2 (Serial.data c) (length (Serial.data c) - 2)) as [r Er]; [lia|].
      destruct (lookup_lt_is_Some_2 (Serial.data c) (length (Serial.data c) - 1)) as [q Eq]; [lia|].
      rewrite Er, Eq. cbn [unwrap mbind result_bind].
      eexists. split; [reflexivity|]. apply Hkeep; [done|]. rewrite omap_app, <- Hp. cbn.
      unfold packet_of. rewrite decide_True by done. by rewrite Er, Eq.
    + eexists. split; [reflexivity|]. destruct s. apply Hkeep; [done|]. rewrite omap_app, <- Hp. cbn.
      unfold packet_of. rewrite decide_False by tauto. by rewrite app_nil_r.
  - eexists. split; [reflexivity|]. destruct s. apply Hkeep; [|by apply Hno].
    apply matches_quiet; [|done]. intros id. unfold answers. repeat case_decide; try done; lia.
Qed.

Lemma bridge_run evs : Z.of_nat (length (requests evs)) <= 65535 ->
  exists s, run_events evs 0 service_new = Ok s /\ bridge_ok evs s.
Proof.
  induction evs as [|e evs IH] using rev_ind; intros Hl.
  { eexists. split; [reflexivity|]. split; [apply matches_new|done|done]. }
  rewrite requests_app, length_app in Hl. destruct IH as (s & E & Hok); [lia|].
  rewrite run_events_snoc, E. cbn [mbind result_bind Nat.add]. destruct e as [r|c].
  - cbn [requests length] in Hl. cbn [step]. unfold call.
    destruct Hok as [Hm Hs Hp]. destruct (matches_call evs (dispatcher s) r Hm) as (d' & -> & Hd'); [lia|].
    cbn [mbind result_bind]. eexists. split; [reflexivity|]. split; cbn [dispatcher command_sink packet_output].
    + done.
    + rewrite requests_app, imap_app, <- Hs. cbn. by rewrite Nat.add_0_r.
    + by rewrite incoming_app, app_nil_r.
  - by apply handle_incoming_ok.
Qed.

Lemma bridge_exhausted evs : 65535 < Z.of_nat (length (requests evs)) ->
  run_events evs 0 service_new = Err Panic.
Proof.
  induction evs as [|e evs IH] using rev_ind; intros Hl; [cbn in Hl; lia|].
  rewrite run_events_snoc. rewrite requests_app, length_app in Hl.
  destruct (decide (65535 < Z.of_nat (length (requests evs)))) as [Hd|Hd]; [by rewrite IH|].
  destruct e as [r|c]; cbn [requests length] in Hl; [|lia].
  destruct (bridge_run evs) as (s & -> & [Hm _ _]); [lia|]. cbn [mbind result_bind step]. unfold call, new_request, u16_succ.
  rewrite (matches_next _ _ Hm), decide_False by lia. done.
Qed.

(** C28: The bridge gives the [i]-th of its first 65535 calls the id [i], sends the requests
    in order, and answers each caller at most once: with the data, or the error, of the first
    answer with its id that comes in after the call, whatever else comes in. Packets are passed on
    in order with the two bytes of their measurements split off. One call more panics. *)
Theorem calls_answered (evs : list event) :
  (Z.of_nat (length (requests evs)) <= 65535 ->
    exists s, run_events evs 0 service_new = Ok s /\
      command_sink s = imap sent (requests evs) /\
      packet_output s = omap packet_of (incoming evs) /\
      NoDup (fst <$> resolved (dispatcher s)) /\
      forall i r, (N.of_nat i, r) ∈ resolved (dispatcher s) <-> spec_answer i evs = Some r) /\
  (65535 < Z.of_nat (length (requests evs)) -> run_events evs 0 service_new = Err Panic).
Proof.
  split; [|apply bridge_exhausted].
  intros Hl. destruct (bridge_run evs Hl) as (s & E & [[_ _ Hr Ho] Hs Hp]). by exists s.
Qed.
End theory.

#[local] Existing Instance BytesBuf_reference.
#[local] Existing Instance BytesBuf_reference_laws.

Definition sample_events : list event :=
  [ECall {| command_id := RadioOn; data := [] |};
   EIncoming {| Serial.command_id := 192; Serial.request_id := 0; Serial.data := [1; 2; 3] |};
   ECall {| command_id := RadioSend; data := [7] |};
   EIncoming {| Serial.command_id := 129; Serial.request_id := 1; Serial.data := [9] |};
   EIncoming {| Serial.command_id := 128; Serial.request_id := 0; Serial.data := [0; 1] |};
   EIncoming {| Serial.command_id := 128; Serial.request_id := 1; Serial.data := [] |}].

Lemma calls_answered_witness :
  exists s, run_events sample_events 0 service_new = Ok s /\
    (N.of_nat 1, Err (BridgeError [9])) ∈ resolved (dispatcher s).
Proof.
  destruct (proj1 (calls_answered sample_events)) as (s & E & _ & _ & _ & Hr); [cbn; lia|].
  exists s. split; [exact E|]. apply Hr. reflexivity.
Defined.
