(* ===== verification/BridgeService.v ===== *)
(** * Typed calls of the radio bridge ([old_src/radio_bridge/service.rs])

    Every method makes a raw request and gives a function that reads its answer; [Call]
    holds the two, and [Failed] is a future that is an error from the start. What connects
    them is the raw service ([RawService.v]). [typed_answers] says which answers each method
    accepts. *)

From Stdlib Require Import ZArith Lia.
From S2P Require Import Prelude.
From S2P Require Import Bytes.
From S2P Require Import RawService.

#[local] Open Scope Z_scope.

Module Bridge.

Inductive RadioParam :=
| PowerMode | Channel | PanId | ShortAddress | RxMode | TxMode | TxPower | CcaThreshold | Rssi
| LastRssi | LastLinkQuality | LongAddress | LastPacketTimestamp | ChannelMin | ChannelMax
| TxPowerMin | TxPowerMax.
Definition radio_param_as_num (p : RadioParam) : Z :=
  match p with
  | PowerMode => 0 | Channel => 1 | PanId => 2 | ShortAddress => 3 | RxMode => 4 | TxMode => 5
  | TxPower => 6 | CcaThreshold => 7 | Rssi => 8 | LastRssi => 9 | LastLinkQuality => 10
  | LongAddress => 11 | LastPacketTimestamp => 12 | ChannelMin => 13 | ChannelMax => 14
  | TxPowerMin => 15 | TxPowerMax => 16
  end.

Inductive Error :=
| RawError (e : OldRaw.Error) | UnexpectedResponseSize | ErrorCode (code : Z) | Unsupported.

Class FromToRadioValue (A : Type) := {
  to_radio_value : A -> result Error Z;
  from_radio_value : Z -> result Error A;
}.

#[global] Instance u16_value : FromToRadioValue Z :=
  {| to_radio_value x := Ok x; from_radio_value x := Ok x |}.

#[global] Instance bool_value : FromToRadioValue bool := {|
  to_radio_value b := match b with true => Ok 1 | false => Ok 0 end;
  from_radio_value value :=
    if decide (value = 0) then Ok false else if decide (value = 1) then Ok true else Err Unsupported;
|}.

Record RadioRxMode := { address_filter : bool; autoack : bool; poll_mode : bool }.
#[global] Instance RadioRxMode_eq_dec : EqDecision RadioRxMode.
Proof. solve_decision. Defined.

#[global] Instance rx_mode_value : FromToRadioValue RadioRxMode := {|
  to_radio_value m :=
    Ok (Z.lor (Z.lor (Z.shiftl (Z.b2z (address_filter m)) 0) (Z.shiftl (Z.b2z (autoack m)) 1))
          (Z.shiftl (Z.b2z (poll_mode m)) 2));
  from_radio_value param :=
    if decide (Z.shiftr param 3 <> 0) then Err Unsupported
    else Ok {| address_filter := negb (Z.land (Z.shiftr param 0) 1 =? 0);
               autoack := negb (Z.land (Z.shiftr param 1) 1 =? 0);
               poll_mode := negb (Z.land (Z.shiftr param 2) 1 =? 0) |};
|}.

(** ** The calls *)

(** The answer of a call, and what its future makes of it: a panic, an error or a value *)
Abbreviation answer_reader A := (result OldRaw.Error (list Z) -> exec (result Error A)).
Inductive outgoing (A : Type) :=
| Call (request : OldRaw.Request) (read : answer_reader A)
| Failed (e : Error).
Arguments Call {A}. Arguments Failed {A}.

Section service.
Context `{!BytesBuf}.

(** [data?], [map_err(Error::RawError)] *)
Definition on_data {A} (r : result OldRaw.Error (list Z)) (f : list Z -> exec (result Error A)) :
    exec (result Error A) :=
  match r with Err e => Ok (Err (RawError e)) | Ok data => f data end.

Definition get_object (param : RadioParam) (expected_size : nat) : outgoing (list Z) :=
  let request_data := put_u16_be (radio_param_as_num param) [] in
  let request_data := put_u16_be (Z.of_nat expected_size mod 2 ^ 16) request_data in
  Call {| OldRaw.command_id := OldRaw.RadioGetObject; OldRaw.data := request_data |}
    (fun r => on_data r (fun data =>
      if decide (length data < 2)%nat then Ok (Err UnexpectedResponseSize)
      else
        '(retval, data) ← get_u16_be data;
        if decide (retval <> 0) then Ok (Err (ErrorCode retval))
        else if decide (length data < expected_size)%nat then Ok (Err UnexpectedResponseSize)
        else Ok (Ok data))).

Definition get_long_address : outgoing Z :=
  match get_object LongAddress 8 with
  | Call request read => Call request (fun r =>
      x ← read r;
      match x with Err e => Ok (Err e) | Ok data => '(a, _) ← get_u64_be data; Ok (Ok a) end)
  | Failed e => Failed e
  end.

Definition get_value {A} `{FromToRadioValue A} (param : RadioParam) : outgoing A :=
  let request_data := put_u16_be (radio_param_as_num param) [] in
  Call {| OldRaw.command_id := OldRaw.RadioGetValue; OldRaw.data := request_data |}
    (fun r => on_data r (fun data =>
      if decide (length data < 2)%nat then Ok (Err UnexpectedResponseSize)
      else
        '(retval, data) ← get_u16_be data;
        if decide (retval <> 0) then Ok (Err (ErrorCode retval))
        else if decide (length data < 2)%nat then Ok (Err UnexpectedResponseSize)
        else '(v, _) ← get_u16_be data; Ok (from_radio_value v))).

(** The status at the front of an answer without a value *)
Definition expect_status (expected : Z) : answer_reader unit := fun r => on_data r (fun data =>
  if decide (length data < 2)%nat then Ok (Err UnexpectedResponseSize)
  else
    '(retval, _) ← get_u16_be data;
    if decide (retval = expected) then Ok (Ok tt) else Ok (Err (ErrorCode retval))).

Definition set_value {A} `{FromToRadioValue A} (param : RadioParam) (value : A) : outgoing unit :=
  match to_radio_value value with
  | Ok request_value =>
      let request_data := put_u16_be (radio_param_as_num param) [] in
      let request_data := put_u16_be request_value request_data in
      Call {| OldRaw.command_id := OldRaw.RadioSetValue; OldRaw.data := request_data |} (expect_status 0)
  | Err x => Failed x
  end.

Definition get_power_mode : outgoing bool := get_value PowerMode.
Definition set_power_mode (v : bool) := set_value PowerMode v.
Definition get_channel : outgoing Z := get_value Channel.
Definition set_channel (v : Z) := set_value Channel v.
Definition get_pan_id : outgoing Z := get_value PanId.
Definition set_pan_id (v : Z) := set_value PanId v.
Definition get_short_address : outgoing Z := get_value ShortAddress.
Definition set_short_address (v : Z) := set_value ShortAddress v.
Definition get_rx_mode : outgoing RadioRxMode := get_value RxMode.
Definition set_rx_mode (v : RadioRxMode) := set_value RxMode v.
Definition get_tx_power : outgoing Z := get_value TxPower.
Definition set_tx_power (v : Z) := set_value TxPower v.
Definition get_channel_min : outgoing Z := get_value ChannelMin.
Definition set_channel_min (v : Z) := set_value ChannelMin v.
Definition get_channel_max : outgoing Z := get_value ChannelMax.
Definition set_channel_max (v : Z) := set_value ChannelMax v.
Definition get_tx_power_min : outgoing Z := get_value TxPowerMin.
Definition set_tx_power_min (v : Z) := set_value TxPowerMin v.
Definition get_tx_power_max : outgoing Z := get_value TxPowerMax.
Definition set_tx_power_max (v : Z) := set_value TxPowerMax v.

Definition send (data : list Z) : outgoing unit :=
  Call {| OldRaw.command_id := OldRaw.RadioSend; OldRaw.data := data |} (expect_status 0).

Definition on : outgoing unit :=
  Call {| OldRaw.command_id := OldRaw.RadioOn; OldRaw.data := [] |} (expect_status 1).

Definition init_pending_data_table : outgoing unit :=
  Call {| OldRaw.command_id := OldRaw.RadioInitPendingTable; OldRaw.data := [] |} (expect_status 0).

Definition set_pending_data_ext (index : nat) (address : option Z) : outgoing unit :=
  let request_data := put_u8 (Z.lor 128 (Z.of_nat index mod 2 ^ 8)) [] in
  let request_data := match address with Some a => put_u64_le a request_data | None => request_data end in
  Call {| OldRaw.command_id := OldRaw.RadioSetPending; OldRaw.data := request_data |} (expect_status 0).

Definition set_pending_data_short (index : nat) (address : option (Z * Z)) : outgoing unit :=
  let request_data := put_u8 (Z.land 127 (Z.of_nat index mod 2 ^ 8)) [] in
  let request_data :=
    match address with
    | Some (panid, a) => put_u16_le a (put_u16_le panid request_data)
    | None => request_data
    end in
  Call {| OldRaw.command_id := OldRaw.RadioSetPending; OldRaw.data := request_data |} (expect_status 0).
End service.

(** [test_radio_rx_mode_tofrom] *)
Definition test_radio_rx_mode_tofrom : bool :=
  forallb (fun '(input, m) =>
    match from_radio_value (A := RadioRxMode) input with
    | Ok parsed => bool_decide (parsed = m) &&
        match to_radio_value parsed with Ok v => v =? input | Err _ => false end
    | Err _ => false
    end)
    [(0, {| address_filter := false; autoack := false; poll_mode := false |});
     (1, {| address_filter := true; autoack := false; poll_mode := false |});
     (2, {| address_filter := false; autoack := true; poll_mode := false |});
     (4, {| address_filter := false; autoack := false; poll_mode := true |});
     (7, {| address_filter := true; autoack := true; poll_mode := true |})].
Example radio_rx_mode_tofrom_passes : test_radio_rx_mode_tofrom = true.
Proof. reflexivity. Qed.
End Bridge.
