(* ===== verification/BridgeServiceTheory.v ===== *)
(** * Typed calls of the radio bridge: which answers they accept *)

From Stdlib Require Import ZArith Lia.
From S2P Require Import Prelude.
From S2P Require Import Bytes.
From S2P Require Import RawService.
From S2P Require Import BridgeService.

#[local] Open Scope Z_scope.

Import Bridge.

(** ** Values and their registers

    Converting a value and reading it back are inverse to each other on sixteen bits. *)
Class RadioValueLaws (A : Type) `{FromToRadioValue A} := {
  value_ok : A -> Prop;
  to_radio_value_ok a : value_ok a ->
    exists v, to_radio_value a = Ok v /\ in_width 16 v /\ from_radio_value v = Ok a;
  from_radio_value_ok v a : in_width 16 v -> from_radio_value v = Ok a ->
    value_ok a /\ to_radio_value a = Ok v;
}.

#[global] Instance u16_laws : RadioValueLaws Z.
Proof.
  refine {| value_ok := in_width 16 |}.
  - intros a Ha. by exists a.
  - by intros v a Hv [= <-].
Defined.

#[global] Instance bool_laws : RadioValueLaws bool.
Proof.
  refine {| value_ok _ := True |}.
  - intros [] _; [exists 1|exists 0]; by split_and!.
  - intros v a Hv. cbn. repeat case_decide; intros [= <-]; subst; done.
Defined.

#[global] Instance rx_mode_laws : RadioValueLaws RadioRxMode.
Proof.
  refine {| value_ok _ := True |}.
  - intros [[] [] []] _; eexists; split_and!; try reflexivity; done.
  - intros v a Hv. cbn [from_radio_value rx_mode_value]. case_decide as Hs; [done|].
    intros [= <-]. split; [done|].
    assert (0 <= v < 8) as Hv8.
    { unfold in_width in Hv. rewrite Z.shiftr_div_pow2 in Hs by lia.
      apply Z.div_small_iff in Hs; lia. }
    assert (v = 0 \/ v = 1 \/ v = 2 \/ v = 3 \/ v = 4 \/ v = 5 \/ v = 6 \/ v = 7) as Hc by lia.
    by repeat destruct Hc as [->|Hc]; [..|subst].
Defined.

Section theory.
Context `{!BytesBuf, !BytesBufLaws}.

(** Reading never panics, and the answers it takes as [a] are those of [P]. *)
Definition accepts {A} (read : answer_reader A) (P : list Z -> A -> Prop) : Prop :=
  (forall e, read (Err e) = Ok (Err (RawError e))) /\
  (forall data, bytes_ok data -> exists x, read (Ok data) = Ok x /\ forall a, x = Ok a <-> P data a).

Lemma bytes_front n data : bytes_ok data -> (n <= length data)%nat ->
  exists v, in_width (8 * Z.of_nat n) v /\ data = to_be_bytes n v ++ drop n data /\ bytes_ok (drop n data).
Proof.
  intros Hb Hn. exists (from_be_bytes (take n data)).
  assert (bytes_ok (take n data)) as Ht by by apply Forall_take.
  pose proof (from_be_bytes_range _ Ht) as Hw. pose proof (to_from_be_bytes _ Ht) as He.
  rewrite length_take_le in Hw, He by done. split; [done|].
  rewrite He, take_drop. split; [done|by apply Forall_drop].
Qed.

Lemma front_inj n v w l k : in_width (8 * Z.of_nat n) v -> in_width (8 * Z.of_nat n) w ->
  to_be_bytes n v ++ l = to_be_bytes n w ++ k -> v = w /\ l = k.
Proof.
  intros Hv Hw E. apply app_inj_1 in E as [E ->]; [|by rewrite !length_to_be_bytes].
  split; [|done]. rewrite <- (from_to_be_bytes n v), <- (from_to_be_bytes n w) by done. by rewrite E.
Qed.

(** What an answer with status 0 carries *)
Lemma status_front data : bytes_ok data -> ~ (length data < 2)%nat ->
  exists v rest, in_width 16 v /\ data = to_be_bytes 2 v ++ rest /\ bytes_ok rest /\
    get_u16_be data = Ok (v, rest).
Proof.
  intros Hb Hl. destruct (bytes_front 2 data Hb) as (v & Hv & E & Hr); [lia|].
  exists v, (drop 2 data). split_and!; try done. rewrite E at 1. by apply get_u16_be_spec.
Qed.

Lemma short_front n v l : (n <= length (to_be_bytes n v ++ l))%nat.
Proof. rewrite length_app, length_to_be_bytes. lia. Qed.

Lemma accepts_status expected : in_width 16 expected ->
  accepts (expect_status expected) (fun data _ => exists rest, data = to_be_bytes 2 expected ++ rest).
Proof.
  intros Hx. split; [done|]. intros data Hb. unfold expect_status, on_data. case_decide as Hl.
  { eexists. split; [reflexivity|]. intros a. split; [done|]. intros [rest ->].
    pose proof (short_front 2 expected rest). lia. }
  destruct (status_front data Hb Hl) as (v & rest & Hv & -> & _ & ->). cbn [mbind result_bind].
  case_decide as He; (eexists; split; [reflexivity|]); intros [].
  - subst. split; [by exists rest|done].
  - split; [done|]. intros [rest' E]. by apply front_inj in E as [? _].
Qed.

Lemma accepts_get_value {A} `{RadioValueLaws A} param :
  match get_value (A := A) param with
  | Call req read => OldRaw.data req = to_be_bytes 2 (radio_param_as_num param) /\
      accepts read (fun data a => exists v rest, in_width 16 v /\ value_ok a /\
        to_radio_value a = Ok v /\ data = to_be_bytes 2 0 ++ to_be_bytes 2 v ++ rest)
  | Failed _ => False
  end.
Proof.
  unfold get_value. split; [by rewrite put_u16_be_spec|]. split; [done|]. intros data Hb.
  cbn [on_data]. case_decide as Hl.
  { eexists. split; [reflexivity|]. intros a. split; [done|].
    intros (v & rest & _ & _ & _ & ->). pose proof (short_front 2 0 (to_be_bytes 2 v ++ rest)). lia. }
  destruct (status_front data Hb Hl) as (s & rest & Hs & -> & Hbr & ->). cbn [mbind result_bind].
  case_decide as Hs0.
  { eexists. split; [reflexivity|]. intros a. split; [done|].
    intros (v & rest' & _ & _ & _ & E). by apply front_inj in E as [? _]. }
  subst s. case_decide as Hl2.
  { eexists. split; [reflexivity|]. intros a. split; [done|].
    intros (v & rest' & _ & _ & _ & E). apply front_inj in E as [_ ->]; [|done..].
    pose proof (short_front 2 v rest'). lia. }
  destruct (status_front rest Hbr Hl2) as (v & rest2 & Hv & -> & _ & ->). cbn [mbind result_bind].
  eexists. split; [reflexivity|]. intros a. split.
  - intros Ha. destruct (from_radio_value_ok _ _ Hv Ha). by exists v, rest2.
  - intros (w & rest' & Hw & Hok & Hto & E). apply front_inj in E as [_ E]; [|done..].
    apply front_inj in E as [-> _]; [|done..]. destruct (to_radio_value_ok a Hok) as (w' & ? & _ & ?). congruence.
Qed.

Lemma accepts_get_long_address :
  match get_long_address with
  | Call req read =>
      OldRaw.data req = to_be_bytes 2 (radio_param_as_num LongAddress) ++ to_be_bytes 2 8 /\
      accepts read (fun data a => in_width 64 a /\
        exists rest, data = to_be_bytes 2 0 ++ to_be_bytes 8 a ++ rest)
  | Failed _ => False
  end.
Proof.
  unfold get_long_address, get_object. split; [by rewrite !put_u16_be_spec|]. split; [done|]. intros data Hb.
  cbn [on_data]. case_decide as Hl.
  { eexists. split; [reflexivity|]. intros a. split; [done|].
    intros (_ & rest & ->). pose proof (short_front 2 0 (to_be_bytes 8 a ++ rest)). lia. }
  destruct (status_front data Hb Hl) as (s & rest & Hs & -> & Hbr & ->). cbn [mbind result_bind].
  case_decide as Hs0.
  { eexists. split; [reflexivity|]. intros a. split; [done|].
    intros (_ & rest' & E). by apply front_inj in E as [? _]. }
  subst s. case_decide as Hl2.
  { eexists. split; [reflexivity|]. intros a. split; [done|].
    intros (_ & rest' & E). apply front_inj in E as [_ ->]; [|done..].
    pose proof (short_front 8 a rest'). lia. }
  destruct (bytes_front 8 rest Hbr) as (v & Hv & E & _); [lia|].
  cbn [mbind result_bind]. rewrite E, get_u64_be_spec by done. cbn [mbind result_bind].
  eexists. split; [reflexivity|]. intros a. split.
  - intros [= <-]. split; [done|]. by eexists.
  - intros (Ha & rest' & E'). apply front_inj in E' as [_ E']; [|done..]. by apply front_inj in E' as [-> _].
Qed.

(** No answer of the radio, whatever its bytes, makes a typed call panic, and each call
    succeeds on exactly one form of answer: reading a value of any of the three types, on the
    status 0 and the two bytes that setting that value would send (which are asked for under
    the parameter's number); setting one, on the status 0; turning on, on the status 1; the
    long address, on the status 0 and eight bytes. *)
Theorem typed_answers {A} `{RadioValueLaws A} (param : RadioParam) (value : A) :
  value_ok value ->
  match get_value (A := A) param with
  | Call req read => OldRaw.data req = to_be_bytes 2 (radio_param_as_num param) /\
      accepts read (fun data a => exists v rest, in_width 16 v /\ value_ok a /\
        to_radio_value a = Ok v /\ data = to_be_bytes 2 0 ++ to_be_bytes 2 v ++ rest)
  | Failed _ => False
  end /\
  match set_value param value with
  | Call req read =>
      (exists v, to_radio_value value = Ok v /\
        OldRaw.data req = to_be_bytes 2 (radio_param_as_num param) ++ to_be_bytes 2 v) /\
      accepts read (fun data _ => exists rest, data = to_be_bytes 2 0 ++ rest)
  | Failed _ => False
  end /\
  match on with
  | Call _ read => accepts read (fun data _ => exists rest, data = to_be_bytes 2 1 ++ rest)
  | Failed _ => False
  end /\
  match get_long_address with
  | Call req read =>
      OldRaw.data req = to_be_bytes 2 (radio_param_as_num LongAddress) ++ to_be_bytes 2 8 /\
      accepts read (fun data a => in_width 64 a /\
        exists rest, data = to_be_bytes 2 0 ++ to_be_bytes 8 a ++ rest)
  | Failed _ => False
  end.
Proof.
  intros Hv. split; [apply accepts_get_value|]. split; [|split].
  - unfold set_value. destruct (to_radio_value_ok value Hv) as (v & E & Hw & _). rewrite E.
    split; [exists v; by rewrite !put_u16_be_spec|]. by apply accepts_status.
  - by apply accepts_status.
  - apply accepts_get_long_address.
Qed.

(** ** Slots of the pending table *)

Lemma slot_ext i : 0 <= i < 128 -> Z.lor 128 i = 128 + i.
Proof.
  intros Hi. assert (Z.land 128 i = 0) as Hl.
  { apply Z.bits_inj'. intros n Hn. rewrite Z.land_spec, Z.bits_0. change 128 with (2 ^ 7).
    rewrite Z.pow2_bits_eqb by lia. destruct (Z.eqb_spec 7 n) as [<-|]; [|done].
    by apply (testbit_above 7). }
  rewrite Z.add_nocarry_lxor by done. symmetry. by apply Z.lxor_lor.
Qed.
Lemma slot_short i : 0 <= i < 128 -> Z.land 127 i = i.
Proof.
  intros Hi. rewrite Z.land_comm. change 127 with (Z.ones 7). rewrite Z.land_ones by lia.
  apply Z.mod_small. lia.
Qed.

(** Slots below 128: the requests of the two tables differ in the first bit. *)
Theorem pending_request_bytes i j a b : (i < 128)%nat -> (j < 128)%nat ->
  (forall x, a = Some x -> in_width 64 x) ->
  (forall p x, b = Some (p, x) -> in_width 16 p /\ in_width 16 x) ->
  exists req1 read1 req2 read2,
    set_pending_data_ext i a = Call req1 read1 /\ set_pending_data_short j b = Call req2 read2 /\
    OldRaw.data req1 = (128 + Z.of_nat i) :: match a with Some x => to_le_bytes 8 x | None => [] end /\
    OldRaw.data req2 = Z.of_nat j ::
      match b with Some (p, x) => to_le_bytes 2 p ++ to_le_bytes 2 x | None => [] end.
Proof.
  intros Hi Hj Ha Hb. do 4 eexists. split; [reflexivity|]. split; [reflexivity|]. cbn [OldRaw.data].
  rewrite !Z.mod_small by lia. rewrite !put_u8_spec.
  - rewrite slot_ext, slot_short by lia. destruct a as [x|], b as [[p x']|];
      rewrite ?put_u64_le_spec, ?put_u16_le_spec; cbn [app]; by rewrite <- ?(assoc_L (++)).
  - rewrite slot_short by lia. unfold in_width. lia.
  - rewrite slot_ext by lia. unfold in_width. lia.
Qed.
End theory.

#[local] Existing Instance BytesBuf_reference.
#[local] Existing Instance BytesBuf_reference_laws.

Lemma typed_answers_witness : in_width 16 25 /\
  match set_value Channel 25 with
  | Call req read =>
      (exists v, to_radio_value 25 = Ok v /\
        OldRaw.data req = to_be_bytes 2 (radio_param_as_num Channel) ++ to_be_bytes 2 v) /\
      accepts read (fun data _ => exists rest, data = to_be_bytes 2 0 ++ rest)
  | Failed _ => False
  end.
Proof.
  assert (in_width 16 25) as Hw by (unfold in_width; lia).
  split; [exact Hw|]. exact (proj1 (proj2 (typed_answers Channel 25 Hw))).
Defined.
