(* ===== verification/OldDeviceQueue.v ===== *)
(** * The first version's queue for one device ([old_src/ieee802154/mac/device_queue.rs])

    A state machine whose events return the action that their caller has to take. A frame's
    callback is the sender of a channel; it is named by a token, and what an event sends on
    such channels is returned with its action. [OldDeviceQueueTheory.v] shows that every
    frame is reported exactly once and in order, after how many attempts, and when as
    delivered. *)

From Stdlib Require Import ZArith Lia.
From S2P Require Import Prelude.
From S2P Require Import Async.
From S2P Require Import OldFrame.

Module ODQ.

Inductive DeviceQueueError := DataRequestTimeout | RetryLimitReached | ChannelDropped.
#[global] Instance DeviceQueueError_eq_dec : EqDecision DeviceQueueError.
Proof. solve_decision. Defined.

Record DeviceQueueItem := {
  frame : OldFrame.Frame;
  wait_for_datarequest : bool;
  max_wait_for_datarequest : option Duration;
  retries : nat;
  callback : N;
}.

Inductive DeviceQueue :=
| Idle
| WaitingForDataRequest (front : DeviceQueueItem) (queue : list DeviceQueueItem)
| SendStarted (front : DeviceQueueItem) (queue : list DeviceQueueItem) (wait_for_ack : option Z)
| WaitingForAck (front : DeviceQueueItem) (queue : list DeviceQueueItem) (wait_for_ack : Z).

Inductive DeviceQueueAction :=
| StartTimer (d : Duration)
| StopTimer
| StopTimerStartSend (f : OldFrame.Frame).

(** What is sent on the callbacks, and an event's new state and action with it *)
Abbreviation report := (N * result DeviceQueueError unit)%type.
Abbreviation outcome := (DeviceQueue * option DeviceQueueAction * list report)%type.

(** [DeviceQueueItem::new], for the channel with this token *)
Definition item_new (token : N) (f : OldFrame.Frame) (receiver_on_when_idle : bool)
    (max_wait : option Duration) (retries : nat) : DeviceQueueItem :=
  {| frame := f; wait_for_datarequest := negb receiver_on_when_idle;
     max_wait_for_datarequest := max_wait; retries := retries; callback := token |}.

Definition is_idle (q : DeviceQueue) : bool := match q with Idle => true | _ => false end.

Definition start_send (front : DeviceQueueItem) (queue : list DeviceQueueItem) :
    DeviceQueue * option DeviceQueueAction :=
  match wait_for_datarequest front with
  | false =>
      (SendStarted front queue (OldFrame.expect_ack (frame front)),
       Some (StopTimerStartSend (frame front)))
  | true => (WaitingForDataRequest front queue, StartTimer <$> max_wait_for_datarequest front)
  end.

Definition restart_from_queue (queue : list DeviceQueueItem) : DeviceQueue * option DeviceQueueAction :=
  match queue with
  | front :: queue => start_send front queue
  | [] => (Idle, Some StopTimer)
  end.

(** [front.callback.send(..)] and then the next frame *)
Definition report_front (front : DeviceQueueItem) (r : result DeviceQueueError unit)
    (queue : list DeviceQueueItem) : outcome :=
  (restart_from_queue queue, [(callback front, r)]).

Definition set_retries (n : nat) (i : DeviceQueueItem) : DeviceQueueItem :=
  {| frame := frame i; wait_for_datarequest := wait_for_datarequest i;
     max_wait_for_datarequest := max_wait_for_datarequest i; retries := n; callback := callback i |}.

Definition retry_send (front : DeviceQueueItem) (queue : list DeviceQueueItem) : outcome :=
  if decide (retries front < 1)%nat then report_front front (Err RetryLimitReached) queue
  else (start_send (set_retries (retries front - 1) front) queue, []).

Definition enqueue (item : DeviceQueueItem) (q : DeviceQueue) : outcome :=
  match q with
  | Idle => (start_send item [], [])
  | WaitingForDataRequest front queue => (WaitingForDataRequest front (queue ++ [item]), None, [])
  | SendStarted front queue w => (SendStarted front (queue ++ [item]) w, None, [])
  | WaitingForAck front queue w => (WaitingForAck front (queue ++ [item]) w, None, [])
  end.

Definition on_timer (q : DeviceQueue) : outcome :=
  match q with
  | WaitingForDataRequest front queue => report_front front (Err DataRequestTimeout) queue
  | WaitingForAck front queue _ => retry_send front queue
  | x => (x, None, [])
  end.

Definition on_data_request (q : DeviceQueue) : outcome :=
  match q with
  | WaitingForDataRequest front queue =>
      (SendStarted front queue (OldFrame.expect_ack (frame front)),
       Some (StopTimerStartSend (frame front)), [])
  | x => (x, None, [])
  end.

Definition on_send_result (success : bool) (q : DeviceQueue) : outcome :=
  match q with
  | SendStarted front queue wait_for_ack =>
      if negb success then retry_send front queue
      else
        match wait_for_ack with
        | Some w => (WaitingForAck front queue w, Some (StartTimer (from_millis 250)), [])
        | None => report_front front (Ok tt) queue
        end
  | x => (x, None, [])
  end.

Definition on_ack (ack : Z) (q : DeviceQueue) : outcome :=
  match q with
  | SendStarted front queue wait_for_ack =>
      (SendStarted front queue (if decide (wait_for_ack = Some ack) then None else wait_for_ack), None, [])
  | WaitingForAck front queue wait_for_ack =>
      if decide (wait_for_ack = ack) then report_front front (Ok tt) queue
      else (WaitingForAck front queue wait_for_ack, None, [])
  | x => (x, None, [])
  end.
End ODQ.
