(* ===== verification/OldDeviceQueueTheory.v ===== *)
(** * The first version's device queue: in order, exactly once, and what a report means *)

From Stdlib Require Import ZArith Lia.
From S2P Require Import Prelude.
From S2P Require Import Async.
From S2P Require Import OldFrame.
From S2P Require Import OldDeviceQueue.

Import ODQ.

(** ** Runs and their logs *)

Inductive dq_event :=
| EnqueueItem (i : DeviceQueueItem) | TimerFired | DataRequested | SendDone (success : bool) | AckCame (a : Z).

Definition dq_handle (e : dq_event) (q : DeviceQueue) : outcome :=
  match e with
  | EnqueueItem i => enqueue i q
  | TimerFired => on_timer q
  | DataRequested => on_data_request q
  | SendDone b => on_send_result b q
  | AckCame a => on_ack a q
  end.

(** What is seen of a queue: frames that are given to it, acknowledgements, frames that are
    given to the radio, and reports. *)
Inductive obs :=
| Enqueued (i : DeviceQueueItem) | Acked (a : Z) | Started (t : N) | Reported (t : N) (r : result DeviceQueueError unit).

Definition items (q : DeviceQueue) : list DeviceQueueItem :=
  match q with
  | Idle => []
  | WaitingForDataRequest f l | SendStarted f l _ | WaitingForAck f l _ => f :: l
  end.

Definition seen (e : dq_event) : list obs :=
  match e with EnqueueItem i => [Enqueued i] | AckCame a => [Acked a] | _ => [] end.
Definition started_by (q : DeviceQueue) (a : option DeviceQueueAction) : list obs :=
  match a, items q with Some (StopTimerStartSend _), i :: _ => [Started (callback i)] | _, _ => [] end.
Definition dq_step (e : dq_event) (q : DeviceQueue) : DeviceQueue * list obs :=
  let '(q', a, rs) := dq_handle e q in
  (q', seen e ++ ((fun '(t, r) => Reported t r) <$> rs) ++ started_by q' a).
Fixpoint dq_run (es : list dq_event) (q : DeviceQueue) (log : list obs) : DeviceQueue * list obs :=
  match es with
  | [] => (q, log)
  | e :: es => let '(q, new) := dq_step e q in dq_run es q (log ++ new)
  end.

(** ** What a log says *)

Definition enqueued (log : list obs) : list DeviceQueueItem :=
  omap (fun o => match o with Enqueued i => Some i | _ => None end) log.
Definition reported (log : list obs) : list N :=
  omap (fun o => match o with Reported t _ => Some t | _ => None end) log.
Definition started (log : list obs) : list N :=
  omap (fun o => match o with Started t => Some t | _ => None end) log.
Definition attempts (t : N) (log : list obs) : nat := length (filter (fun x => t = x) (started log)).
(** Since [t] was last sent, an acknowledgement numbered [a] has come. *)
Definition acked_since (t : N) (a : Z) (log : list obs) : Prop :=
  exists l1 l2, log = l1 ++ Started t :: l2 /\ Started t ∉ l2 /\ Acked a ∈ l2.

(** What a report on [i] says, when [log] is what came before *)
Definition meaning (log : list obs) (i : DeviceQueueItem) (r : result DeviceQueueError unit) : Prop :=
  match r with
  | Ok _ => (1 <= attempts (callback i) log <= retries i + 1)%nat /\
      forall a, OldFrame.expect_ack (frame i) = Some a -> acked_since (callback i) a log
  | Err RetryLimitReached => attempts (callback i) log = (retries i + 1)%nat
  | Err DataRequestTimeout => (attempts (callback i) log <= retries i)%nat /\ wait_for_datarequest i = true
  | Err ChannelDropped => False
  end.

(** ** The invariant *)

(** [i] is an enqueued frame that was sent [n] times more than it lost retries. *)
Definition tried (log : list obs) (i : DeviceQueueItem) (n : nat) : Prop := exists i0,
  i0 ∈ enqueued log /\ callback i = callback i0 /\ frame i = frame i0 /\
  wait_for_datarequest i = wait_for_datarequest i0 /\
  (retries i <= retries i0)%nat /\ (attempts (callback i) log + retries i = retries i0 + n)%nat.
Definition fresh (log : list obs) (i : DeviceQueueItem) : Prop :=
  i ∈ enqueued log /\ attempts (callback i) log = 0%nat.

Definition front_ok (log : list obs) (q : DeviceQueue) : Prop :=
  match q with
  | Idle => True
  | WaitingForDataRequest f _ => tried log f 0 /\ wait_for_datarequest f = true
  | SendStarted f _ w => tried log f 1 /\
      (w = OldFrame.expect_ack (frame f) \/
       w = None /\ forall a, OldFrame.expect_ack (frame f) = Some a -> acked_since (callback f) a log)
  | WaitingForAck f _ w => tried log f 1 /\ OldFrame.expect_ack (frame f) = Some w
  end.

Definition history_ok (log : list obs) : Prop := forall l1 t r l2,
  log = l1 ++ Reported t r :: l2 ->
  (exists i, i ∈ enqueued l1 /\ callback i = t /\ meaning l1 i r) /\ Started t ∉ l2.

Record dq_inv (log : list obs) (q : DeviceQueue) : Prop := {
  inv_order : callback <$> enqueued log = reported log ++ (callback <$> items q);
  inv_started t : t ∈ started log -> t ∈ callback <$> enqueued log;
  inv_fresh : Forall (fresh log) (tail (items q));
  inv_front : front_ok log q;
  inv_history : history_ok log;
}.

Lemma enqueued_app l k : enqueued (l ++ k) = enqueued l ++ enqueued k.
Proof. apply omap_app. Qed.
Lemma reported_app l k : reported (l ++ k) = reported l ++ reported k.
Proof. apply omap_app. Qed.
Lemma started_app l k : started (l ++ k) = started l ++ started k.
Proof. apply omap_app. Qed.
Lemma attempts_app t l k : attempts t (l ++ k) = (attempts t l + attempts t k)%nat.
Proof. unfold attempts. by rewrite started_app, filter_app, length_app. Qed.

Lemma attempts_none t l : t ∉ started l -> attempts t l = 0%nat.
Proof.
  unfold attempts. induction (started l) as [|x k IH]; [done|]. intros [Hx Hk]%not_elem_of_cons.
  by rewrite filter_cons_False, IH.
Qed.

Lemma history_snoc log o : history_ok log ->
  (forall t r, o = Reported t r -> exists i, i ∈ enqueued log /\ callback i = t /\ meaning log i r) ->
  (forall t, o = Started t -> t ∉ reported log) -> history_ok (log ++ [o]).
Proof.
  intros Hh Hr Hs l1 t r l2 E. destruct l2 as [|x l2 _] using rev_ind.
  - apply app_inj_tail in E as [-> ->]. split; [by apply Hr|apply not_elem_of_nil].
  - change (Reported t r :: l2 ++ [x]) with ((Reported t r :: l2) ++ [x]) in E.
    rewrite (assoc_L (++)) in E. apply app_inj_tail in E as [-> ->].
    destruct (Hh l1 t r l2 eq_refl) as [Hm Hn]. split; [done|].
    intros [?| <-%list_elem_of_singleton]%elem_of_app; [done|].
    apply (Hs t eq_refl). rewrite reported_app. apply elem_of_app. right. apply list_elem_of_here.
Qed.

(** The state between a report, or a lost attempt, and the next sending *)
Record waiting (log : list obs) (l : list DeviceQueueItem) : Prop := {
  wait_order : callback <$> enqueued log = reported log ++ (callback <$> l);
  wait_started t : t ∈ started log -> t ∈ callback <$> enqueued log;
  wait_fresh : Forall (fresh log) (tail l);
  wait_front : match l with [] => True | f :: _ => tried log f 0 end;
  wait_history : history_ok log;
}.

Lemma fresh_tried log i : fresh log i -> tried log i 0.
Proof. intros [Hi Ha]. exists i. by rewrite Ha. Qed.

Lemma acked_since_app t a l k : Started t ∉ k -> acked_since t a l -> acked_since t a (l ++ k).
Proof.
  intros Hk (l1 & l2 & -> & Hn & Ha). exists l1, (l2 ++ k). rewrite <- (assoc_L (++)).
  split; [done|]. rewrite !elem_of_app. tauto.
Qed.

(** Adding what does not send [i] *)
Lemma tried_app log i n k : started k = [] -> tried log i n -> tried (log ++ k) i n.
Proof.
  intros Hk (i0 & Hi & ? & ? & ? & ? & Ha). exists i0. rewrite enqueued_app, elem_of_app, attempts_app.
  assert (attempts (callback i) k = 0%nat) as -> by (unfold attempts; by rewrite Hk).
  split_and!; try done; [by left|lia].
Qed.
Lemma fresh_app log i k : callback i ∉ started k -> fresh log i -> fresh (log ++ k) i.
Proof.
  intros Hk [Hi Ha]. split; [rewrite enqueued_app; apply elem_of_app; by left|].
  by rewrite attempts_app, Ha, attempts_none.
Qed.
Lemma Forall_fresh_app log l k : started k = [] -> Forall (fresh log) l -> Forall (fresh (log ++ k)) l.
Proof.
  intros Hk Hl. eapply Forall_impl; [exact Hl|]. intros i Hi. apply fresh_app; [|done].
  rewrite Hk. apply not_elem_of_nil.
Qed.

(** ** Sending the next frame *)

Lemma sent_inv log f l : NoDup (callback <$> enqueued log) -> waiting log (f :: l) ->
  dq_inv (log ++ [Started (callback f)]) (SendStarted f l (OldFrame.expect_ack (frame f))).
Proof.
  intros Hn [Ho Hs Hf Ht Hh].
  pose proof Hn as Hn'. rewrite Ho in Hn'.
  apply NoDup_app in Hn' as (_ & Hd & [Hx _]%NoDup_cons).
  assert (Hr : reported (log ++ [Started (callback f)]) = reported log) by (by rewrite reported_app, app_nil_r).
  assert (He : enqueued (log ++ [Started (callback f)]) = enqueued log) by (by rewrite enqueued_app, app_nil_r).
  split; rewrite ?Hr, ?He; try done.
  + intros t. rewrite started_app. intros [?| ->%list_elem_of_singleton]%elem_of_app; [by apply Hs|].
    rewrite Ho. cbn. apply elem_of_app. right. apply list_elem_of_here.
  + cbn [items tail] in *. rewrite Forall_forall in *. intros i Hi.
    apply fresh_app; [|by apply Hf]. cbn. intros Ec%list_elem_of_singleton. apply Hx. rewrite <- Ec. by apply list_elem_of_fmap_2.
  + cbn. split; [|by left]. destruct Ht as (i0 & Hi & ? & ? & ? & ? & Ha). exists i0.
    rewrite He, attempts_app. unfold attempts at 2. cbn. rewrite decide_True by done. cbn.
    split_and!; try done. lia.
  + apply history_snoc; [done|done|]. intros t [= <-] Ht'. apply (Hd _ Ht'), list_elem_of_here.
Qed.

Lemma start_inv log f l q a : NoDup (callback <$> enqueued log) -> waiting log (f :: l) ->
  start_send f l = (q, a) -> dq_inv (log ++ started_by q a) q.
Proof.
  intros Hn Hw E. unfold start_send in E.
  destruct (wait_for_datarequest f) eqn:Ew; injection E as <- <-; [|by apply sent_inv].
  assert (started_by (WaitingForDataRequest f l) (StartTimer <$> max_wait_for_datarequest f) = []) as ->
    by by destruct (max_wait_for_datarequest f).
  destruct Hw as [Ho Hs Hf Ht Hh]. rewrite app_nil_r. by split.
Qed.

Lemma restart_inv log l q a : NoDup (callback <$> enqueued log) -> waiting log l ->
  restart_from_queue l = (q, a) -> dq_inv (log ++ started_by q a) q.
Proof.
  intros Hn Hw E. destruct l as [|f l]; cbn in E.
  - injection E as <- <-. destruct Hw. rewrite app_nil_r. by split.
  - by apply (start_inv log f l).
Qed.

(** ** Reports and retries *)

Lemma report_waiting log q f l r : dq_inv log q -> items q = f :: l ->
  (exists i, i ∈ enqueued log /\ callback i = callback f /\ meaning log i r) ->
  waiting (log ++ [Reported (callback f) r]) l.
Proof.
  intros [Ho Hs Hf _ Hh] E Hm. rewrite E in *. cbn [tail] in Hf.
  split; rewrite ?enqueued_app, ?reported_app, ?started_app, ?app_nil_r.
  - rewrite Ho. cbn. by rewrite <- (assoc_L (++)).
  - done.
  - apply Forall_fresh_app; [done|]. destruct l; [done|]. by apply Forall_cons in Hf as [_ ?].
  - destruct l as [|f' l]; [done|]. apply Forall_cons in Hf as [Hf _].
    apply tried_app; [done|]. by apply fresh_tried.
  - apply history_snoc; [done| |done]. intros t r' [= <- <-]. done.
Qed.

Lemma report_inv log q f l r q' a rs : NoDup (callback <$> enqueued log) -> dq_inv log q -> items q = f :: l ->
  (exists i, i ∈ enqueued log /\ callback i = callback f /\ meaning log i r) ->
  report_front f r l = (q', a, rs) ->
  dq_inv (log ++ ((fun '(t, r) => Reported t r) <$> rs) ++ started_by q' a) q'.
Proof.
  intros Hn Hq E Hm Hr. unfold report_front in Hr. injection Hr as Hr <-. rewrite (assoc_L (++)).
  apply (restart_inv _ l); [by rewrite enqueued_app, app_nil_r| |done].
  by eapply report_waiting.
Qed.

Lemma retry_inv log q f l q' a rs : NoDup (callback <$> enqueued log) -> dq_inv log q ->
  items q = f :: l -> tried log f 1 -> retry_send f l = (q', a, rs) ->
  dq_inv (log ++ ((fun '(t, r) => Reported t r) <$> rs) ++ started_by q' a) q'.
Proof.
  intros Hn Hq E Ht Hr. unfold retry_send in Hr. case_decide as Hd.
  - eapply report_inv; try done. destruct Ht as (i0 & Hi & Hc & _ & _ & _ & Ha).
    exists i0. split_and!; [done|done|]. cbn. rewrite <- Hc. lia.
  - injection Hr as Hr <-. cbn [fmap list_fmap app]. eapply start_inv; [done| |exact Hr].
    destruct Hq as [Ho Hs Hf _ Hh]. rewrite E in *. split; try done.
    destruct Ht as (i0 & Hi & ? & ? & ? & ? & Ha). exists i0. cbn. split_and!; try done; lia.
Qed.

(** ** Every step *)

Lemma attempted t log : (1 <= attempts t log)%nat ->
  exists l1 l2, log = l1 ++ Started t :: l2 /\ Started t ∉ l2.
Proof.
  induction log as [|o log IH] using rev_ind; [cbn; lia|]. rewrite attempts_app. intros Ha.
  assert (o = Started t \/ attempts t [o] = 0%nat) as [->|Ho].
  { destruct o as [| |t'|]; [by right..| |by right]. destruct (decide (t' = t)) as [->|]; [by left|right].
    apply attempts_none. cbn. by intros ->%list_elem_of_singleton. }
  - exists log, []. split; [done|apply not_elem_of_nil].
  - destruct IH as (l1 & l2 & -> & Hn); [lia|]. exists l1, (l2 ++ [o]). rewrite <- (assoc_L (++)).
    split; [done|]. intros [?|<-%list_elem_of_singleton]%elem_of_app; [done|].
    cbn in Ho. unfold attempts in Ho. cbn in Ho. by rewrite decide_True in Ho.
Qed.

Lemma acked_now log f a : tried log f 1 -> acked_since (callback f) a (log ++ [Acked a]).
Proof.
  intros (i0 & _ & _ & _ & _ & Hr & Ha). destruct (attempted (callback f) log) as (l1 & l2 & -> & Hn); [lia|].
  exists l1, (l2 ++ [Acked a]). rewrite <- (assoc_L (++)). split; [done|]. split.
  - intros [?|?%list_elem_of_singleton]%elem_of_app; done.
  - apply elem_of_app. right. apply list_elem_of_here.
Qed.

(** Delivered *)
Lemma ok_meaning log f : tried log f 1 ->
  (forall a, OldFrame.expect_ack (frame f) = Some a -> acked_since (callback f) a log) ->
  exists i, i ∈ enqueued log /\ callback i = callback f /\ meaning log i (Ok tt).
Proof.
  intros (i0 & Hi & Hc & Hf & _ & Hr & Ha) Hack. exists i0. split_and!; [done|done|].
  cbn. rewrite <- Hc, <- Hf. split; [lia|done].
Qed.


Lemma front_ok_app log q k : started k = [] -> front_ok log q -> front_ok (log ++ k) q.
Proof.
  intros Hk. assert (forall t, Started t ∉ k) as Hno.
  { intros t Ht. assert (t ∈ started k) as Hi; [|rewrite Hk in Hi; by apply not_elem_of_nil in Hi].
    apply list_elem_of_omap. by exists (Started t). }
  destruct q as [|f l|f l w|f l w]; cbn; [done|..].
  - intros [? ?]. split; [by apply tried_app|done].
  - intros [? Hw]. split; [by apply tried_app|]. destruct Hw as [->|[-> Hw]]; [by left|right].
    split; [done|]. intros a Ha. apply acked_since_app; auto.
  - intros [? ?]. split; [by apply tried_app|done].
Qed.

Lemma quiet_inv log q o : started [o] = [] -> reported [o] = [] -> enqueued [o] = [] ->
  dq_inv log q -> dq_inv (log ++ [o]) q.
Proof.
  intros Hs Hr He [Ho Hst Hf Hfr Hh].
  split; rewrite ?enqueued_app, ?reported_app, ?started_app, ?He, ?Hr, ?Hs, ?app_nil_r; try done.
  - by apply Forall_fresh_app.
  - by apply front_ok_app.
  - apply history_snoc; [done|..].
    + intros t r ->. done.
    + intros t ->. done.
Qed.

Lemma enqueued_waiting log l i : NoDup (callback <$> enqueued (log ++ [Enqueued i])) ->
  dq_inv log l -> fresh (log ++ [Enqueued i]) i.
Proof.
  rewrite enqueued_app, fmap_app. intros (_ & Hd & _)%NoDup_app [_ Hs _ _ _]. split.
  - rewrite enqueued_app. apply elem_of_app. right. apply list_elem_of_here.
  - rewrite attempts_app. rewrite !attempts_none; [done|apply not_elem_of_nil|].
    intros Hi%Hs. apply (Hd _ Hi), list_elem_of_here.
Qed.

(** [q'] is [q] with one more frame at the end. *)
Lemma append_inv log q q' i : NoDup (callback <$> enqueued (log ++ [Enqueued i])) -> dq_inv log q ->
  items q' = items q ++ [i] -> items q <> [] -> front_ok (log ++ [Enqueued i]) q' ->
  dq_inv (log ++ [Enqueued i]) q'.
Proof.
  intros Hn Hq E Hne Hfr. pose proof (enqueued_waiting _ _ _ Hn Hq) as Hi. destruct Hq as [Ho Hs Hf _ Hh].
  split; [|intros t|..|done|]; rewrite ?enqueued_app, ?reported_app, ?started_app, ?app_nil_r.
  - rewrite E, !fmap_app, Ho, <- (assoc_L (++)). done.
  - intros ?%Hs. rewrite fmap_app. apply elem_of_app. by left.
  - rewrite E. destruct (items q) as [|f l]; [done|]. cbn in *. apply Forall_app. split; [|by apply Forall_singleton].
    by apply Forall_fresh_app.
  - apply history_snoc; done.
Qed.

Lemma first_waiting log i : NoDup (callback <$> enqueued (log ++ [Enqueued i])) -> dq_inv log Idle ->
  waiting (log ++ [Enqueued i]) [i].
Proof.
  intros Hn Hq. pose proof (enqueued_waiting _ _ _ Hn Hq) as Hi. destruct Hq as [Ho Hs _ _ Hh].
  split; [|intros t|done|by apply fresh_tried|]; rewrite ?enqueued_app, ?reported_app, ?started_app, ?app_nil_r.
  - rewrite fmap_app, Ho, app_nil_r. done.
  - intros ?%Hs. rewrite fmap_app. apply elem_of_app. by left.
  - apply history_snoc; done.
Qed.

Lemma old_dq_step_inv log e q q' new : dq_step e q = (q', new) ->
  NoDup (callback <$> enqueued (log ++ new)) -> dq_inv log q -> dq_inv (log ++ new) q'.
Proof.
  unfold dq_step. destruct (dq_handle e q) as [[q1 a] rs] eqn:Eh. intros [= <- <-] Hn Hq.
  assert (Hn1 : NoDup (callback <$> enqueued (log ++ seen e))).
  { rewrite !enqueued_app, !fmap_app in Hn. rewrite enqueued_app, fmap_app. rewrite (assoc_L (++)) in Hn.
    by apply NoDup_app in Hn as [? _]. }
  assert (Hn0 : NoDup (callback <$> enqueued log)).
  { rewrite enqueued_app, fmap_app in Hn1. by apply NoDup_app in Hn1 as [? _]. }
  clear Hn. pose proof (inv_front _ _ Hq) as Hfr.
  destruct e as [i| | |b|x]; cbn [seen dq_handle app] in *.
  - rewrite cons_middle, (assoc_L (++)).
    destruct q as [|f l|f l w|f l w]; cbn in Eh; [injection Eh as Eh <-|injection Eh as <- <- <-..];
      cbn [fmap list_fmap app].
    + apply (start_inv _ i []); [done|by apply first_waiting|done].
    + rewrite app_nil_r. eapply append_inv; [done|exact Hq|done|done|].
      by apply (front_ok_app log (WaitingForDataRequest f l)).
    + rewrite app_nil_r. eapply append_inv; [done|exact Hq|done|done|].
      by apply (front_ok_app log (SendStarted f l w)).
    + rewrite app_nil_r. eapply append_inv; [done|exact Hq|done|done|].
      by apply (front_ok_app log (WaitingForAck f l w)).
  - destruct q as [|f l|f l w|f l w]; cbn in Eh; try (injection Eh as <- <- <-; by rewrite app_nil_r).
    + eapply report_inv; [done|exact Hq|done| |exact Eh]. destruct Hfr as [(i0 & Hi & Hc & _ & Hw & Hr & Ha) Hwf].
      exists i0. split_and!; [done|done|]. cbn. rewrite <- Hc, <- Hw. split; [lia|done].
    + eapply retry_inv; [done|exact Hq|done|apply Hfr|exact Eh].
  - destruct q as [|f l|f l w|f l w]; cbn in Eh; injection Eh as <- <- <-; try by rewrite app_nil_r.
    apply sent_inv; [done|]. destruct Hq, Hfr. by split.
  - destruct q as [|f l|f l w|f l w]; cbn in Eh; try (injection Eh as <- <- <-; by rewrite app_nil_r).
    destruct Hfr as [Ht Hw]. destruct b; cbn in Eh; [destruct w as [w|]|].
    + injection Eh as <- <- <-. rewrite app_nil_r. destruct Hq, Hw as [Hw|[? _]]; [|done]. by split.
    + eapply report_inv; [done|exact Hq|done| |exact Eh]. apply ok_meaning; [done|].
      destruct Hw as [Hw|[_ Hw]]; [by rewrite <- Hw|done].
    + eapply retry_inv; [done|exact Hq|done|exact Ht|exact Eh].
  - pose proof (quiet_inv _ _ (Acked x) eq_refl eq_refl eq_refl Hq) as Hq1.
    rewrite cons_middle, (assoc_L (++)).
    destruct q as [|f l|f l w|f l w]; cbn in Eh; try (injection Eh as <- <- <-; by rewrite app_nil_r).
    + injection Eh as <- <- <-. rewrite app_nil_r. case_decide as Hwx; [|done]. subst w.
      destruct Hq1 as [? ? ? [Ht1 _] ?]. split; [done..| |done]. split; [done|right]. split; [done|].
      intros y Hy. destruct Hfr as [Ht [Hw|[? _]]]; [|done]. rewrite Hy in Hw. injection Hw as <-.
      by apply acked_now.
    + case_decide as Hwx; [|injection Eh as <- <- <-; by rewrite app_nil_r]. subst w.
      eapply report_inv; [done|exact Hq1|done| |exact Eh]. destruct Hfr as [Ht Hw].
      apply ok_meaning; [by apply tried_app|]. intros y Hy. rewrite Hw in Hy. injection Hy as <-.
      by apply acked_now.
Qed.

Lemma dq_run_inv es q log q' log' : dq_run es q log = (q', log') ->
  NoDup (callback <$> enqueued log') -> dq_inv log q -> dq_inv log' q' /\ exists new, log' = log ++ new.
Proof.
  revert q log. induction es as [|e es IH]; intros q log; cbn [dq_run].
  - intros [= <- <-] _ Hq. split; [done|]. exists []. by rewrite app_nil_r.
  - destruct (dq_step e q) as [q1 new] eqn:E. intros Hr Hn Hq.
    assert (exists k, log' = (log ++ new) ++ k) as [k Hk].
    { clear -Hr. revert q1 new Hr. generalize log. induction es as [|e es IH]; intros l q1 new; cbn [dq_run].
      - intros [= <- <-]. exists []. by rewrite app_nil_r.
      - destruct (dq_step e q1) as [q2 n2]. intros Hr. destruct (IH (l ++ new) q2 n2 Hr) as [k ->].
        exists (n2 ++ k). by rewrite (assoc_L (++)). }
    destruct (IH q1 (log ++ new) Hr Hn) as [Hq' _].
    + eapply old_dq_step_inv; [exact E| |done]. subst log'. rewrite enqueued_app, fmap_app in Hn.
      by apply NoDup_app in Hn as [? _].
    + split; [done|]. exists (new ++ k). by rewrite Hk, (assoc_L (++)).
Qed.

Lemma dq_inv_new : dq_inv [] Idle.
Proof.
  split; [done| |constructor|done|].
  - intros t ?%not_elem_of_nil. done.
  - intros [|] ????; done.
Qed.

(** C27: Whatever comes in which order, frames enqueued under different tokens are reported in
    the order they were enqueued in, each once; those not yet reported are those in the
    queue. A report means what it says, by what happened before it: a delivered frame was
    sent, at most once more than its retries, and since it was last sent the acknowledgement
    came that it asked for; a frame whose retries ran out was sent exactly once more; one
    that timed out waited for a data request. A frame that is reported is not sent again. *)
Theorem old_queue_reports (es : list dq_event) q log :
  dq_run es Idle [] = (q, log) -> NoDup (callback <$> enqueued log) ->
  callback <$> enqueued log = reported log ++ (callback <$> items q) /\
  forall l1 t r l2, log = l1 ++ Reported t r :: l2 ->
    (exists i, i ∈ enqueued l1 /\ callback i = t /\ meaning l1 i r) /\ Started t ∉ l2.
Proof.
  intros Hr Hn. destruct (dq_run_inv _ _ _ _ _ Hr Hn dq_inv_new) as [[Ho _ _ _ Hh] _]. by split.
Qed.

Definition sample_frame : OldFrame.Frame :=
  {| OldFrame.frame_pending := false; OldFrame.acknowledge_request := true;
     OldFrame.sequence_number := Some 7%Z; OldFrame.destination := OldFrame.ASShort 1 2;
     OldFrame.source := OldFrame.ASShort 1 0; OldFrame.frame_type := OldFrame.Data;
     OldFrame.payload := [] |}.
Definition sample_run : list dq_event :=
  [EnqueueItem (item_new 0 sample_frame false (Some (from_secs 10)) 1); EnqueueItem (item_new 1 sample_frame true None 0);
   DataRequested; SendDone true; TimerFired; DataRequested; SendDone true; AckCame 7; SendDone false].

Lemma old_queue_reports_witness :
  reported (snd (dq_run sample_run Idle [])) = [0%N; 1%N] /\
  callback <$> enqueued (snd (dq_run sample_run Idle [])) =
    reported (snd (dq_run sample_run Idle [])) ++ (callback <$> items (fst (dq_run sample_run Idle []))).
Proof.
  split; [reflexivity|].
  apply (old_queue_reports sample_run (fst (dq_run sample_run Idle [])) (snd (dq_run sample_run Idle [])) eq_refl).
  apply (bool_decide_unpack _). vm_compute. exact I.
Defined.
