(* ===== verification/DelayQueue.v ===== *)
(** * Queues of timers ([old_src/delayqueue.rs], [old_src/saved_waker.rs])

    [DelayQueue] wraps the delay queue of [tokio], which is not part of the repository:
    [TokioDelayQueue] is its interface and [TokioDelayQueueLaws] what its documentation
    promises of the values in it; what has run out when it is polled is up to an
    environment. A queue that has ended takes and gives nothing. *)

From Stdlib Require Import ZArith Lia.
From S2P Require Import Prelude.
From S2P Require Import Async.

(** ** The contract of [tokio::timer::DelayQueue] *)

Class TokioDelayQueue (V : Type) := {
  tdq : Type;
  tdq_key : Type;
  tdq_key_eq :: EqDecision tdq_key;
  tdq_key_countable :: Countable tdq_key;
  tdq_error : Type;
  (** what the clock says when the queue is polled *)
  tdq_env : Type;
  tdq_new : tdq;
  tdq_insert_at : V -> N -> tdq -> tdq_key * tdq;
  tdq_insert : V -> Duration -> tdq -> tdq_key * tdq;
  tdq_remove : tdq_key -> tdq -> exec (V * tdq);
  tdq_reset_at : tdq_key -> N -> tdq -> exec tdq;
  tdq_reset : tdq_key -> Duration -> tdq -> exec tdq;
  tdq_clear : tdq -> tdq;
  tdq_poll : tdq_env -> tdq -> Poll (option (result tdq_error V)) * tdq;
}.

(** Inserting gives a key of its own; removing and resetting a key that is not in the queue
    panic; a value that is polled is one of the queue, and leaves it. *)
Class TokioDelayQueueLaws (V : Type) `{TokioDelayQueue V} := {
  tdq_contents : tdq -> gmap tdq_key V;
  tdq_new_spec : tdq_contents tdq_new = ∅;
  tdq_insert_at_spec v t q : tdq_contents q !! (tdq_insert_at v t q).1 = None /\
    tdq_contents (tdq_insert_at v t q).2 = <[(tdq_insert_at v t q).1 := v]> (tdq_contents q);
  tdq_insert_spec v t q : tdq_contents q !! (tdq_insert v t q).1 = None /\
    tdq_contents (tdq_insert v t q).2 = <[(tdq_insert v t q).1 := v]> (tdq_contents q);
  tdq_remove_spec k q :
    match tdq_contents q !! k with
    | Some v => exists q', tdq_remove k q = Ok (v, q') /\ tdq_contents q' = delete k (tdq_contents q)
    | None => tdq_remove k q = Err Panic
    end;
  tdq_reset_at_spec k t q :
    match tdq_contents q !! k with
    | Some _ => exists q', tdq_reset_at k t q = Ok q' /\ tdq_contents q' = tdq_contents q
    | None => tdq_reset_at k t q = Err Panic
    end;
  tdq_reset_spec k t q :
    match tdq_contents q !! k with
    | Some _ => exists q', tdq_reset k t q = Ok q' /\ tdq_contents q' = tdq_contents q
    | None => tdq_reset k t q = Err Panic
    end;
  tdq_clear_spec q : tdq_contents (tdq_clear q) = ∅;
  tdq_poll_spec e q :
    match tdq_poll e q with
    | (Ready (Some (Ok v)), q') => exists k, tdq_contents q !! k = Some v /\
        tdq_contents q' = delete k (tdq_contents q)
    | (_, q') => tdq_contents q' = tdq_contents q
    end;
}.

(** An instance: the environment says which key has run out. *)
#[local] Definition reference_insert {V} (v : V) (q : gmap N V * N) : N * (gmap N V * N) :=
  let k := fresh (dom q.1) in (k, (<[k := v]> q.1, q.2)).
Definition TokioDelayQueue_reference (V : Type) : TokioDelayQueue V := {|
  tdq := gmap N V * N;
  tdq_key := N;
  tdq_error := unit;
  tdq_env := option N;
  tdq_new := (∅, 0%N);
  tdq_insert_at v _ q := reference_insert v q;
  tdq_insert v _ q := reference_insert v q;
  tdq_remove k q := v ← unwrap (q.1 !! k); Ok (v, (delete k q.1, q.2));
  tdq_reset_at k _ q := _ ← unwrap (q.1 !! k); Ok q;
  tdq_reset k _ q := _ ← unwrap (q.1 !! k); Ok q;
  tdq_clear q := (∅, q.2);
  tdq_poll e q :=
    match e ≫= fun k => v ← q.1 !! k; Some (k, v) with
    | Some (k, v) => (Ready (Some (Ok v)), (delete k q.1, q.2))
    | None => (Pending, q)
    end;
|}.

Lemma TokioDelayQueue_reference_laws V : @TokioDelayQueueLaws V (TokioDelayQueue_reference V).
Proof.
  refine {| tdq_contents := (fun q => q.1) : @tdq V (TokioDelayQueue_reference V) -> gmap N V |}; try done.
  - intros v t q. split; [|reflexivity]. apply (not_elem_of_dom (D := gset N)), is_fresh.
  - intros v t q. split; [|reflexivity]. apply (not_elem_of_dom (D := gset N)), is_fresh.
  - intros k [m n]. destruct (m !! k) as [v|] eqn:E; cbn in *; rewrite ?E; cbn; [by eexists|done].
  - intros k t [m n]. destruct (m !! k) as [v|] eqn:E; cbn in *; rewrite ?E; cbn; [by eexists|done].
  - intros k t [m n]. destruct (m !! k) as [v|] eqn:E; cbn in *; rewrite ?E; cbn; [by eexists|done].
  - intros [k|] [m n]; cbn; [|done]. destruct (m !! k) as [v|] eqn:E; cbn; [|done]. by exists k.
Defined.

Module DelayQ.

(** ** [SavedWaker] *)

Definition SavedWaker := option Waker.
Definition saved_new : SavedWaker := None.
Definition saved_set (w : Waker) (_ : SavedWaker) : SavedWaker := Some w.
(** The task to wake, and what is left *)
Definition saved_wake (s : SavedWaker) : option Waker * SavedWaker := (s, None).

(** ** [DelayQueue] *)

Section delayqueue.
Context {V : Type} `{!TokioDelayQueue V}.

Record DelayQueue := { inner : tdq; finished : bool; waker : option Waker }.

(** [Key] and [Expired] hold nothing when they come from a queue that has ended. *)
Abbreviation Key := (option tdq_key).
Abbreviation Expired := (option V).
Definition get_ref (e : Expired) : exec V := unwrap e.

Definition new : DelayQueue := {| inner := tdq_new; finished := false; waker := None |}.

Definition wake_me (q : DelayQueue) : DelayQueue :=
  {| inner := inner q; finished := finished q; waker := None |}.
Definition set_inner (i : tdq) (q : DelayQueue) : DelayQueue :=
  {| inner := i; finished := finished q; waker := waker q |}.

Definition insert_at (value : V) (when : N) (q : DelayQueue) : Key * DelayQueue :=
  if finished q then (None, q)
  else
    let '(k, i) := tdq_insert_at value when (inner q) in
    (Some k, wake_me (set_inner i q)).

Definition insert (value : V) (timeout : Duration) (q : DelayQueue) : Key * DelayQueue :=
  if finished q then (None, q)
  else
    let '(k, i) := tdq_insert value timeout (inner q) in
    (Some k, wake_me (set_inner i q)).

Definition remove (key : Key) (q : DelayQueue) : exec (Expired * DelayQueue) :=
  if finished q then Ok (None, q)
  else
    match key with
    | Some k => '(v, i) ← tdq_remove k (inner q); Ok (Some v, set_inner i q)
    | None => Ok (None, q)
    end.

Definition reset_at (key : Key) (when : N) (q : DelayQueue) : exec DelayQueue :=
  if finished q then Ok q
  else
    match key with
    | Some k => i ← tdq_reset_at k when (inner q); Ok (wake_me (set_inner i q))
    | None => Ok q
    end.

Definition reset (key : Key) (timeout : Duration) (q : DelayQueue) : exec DelayQueue :=
  if finished q then Ok q
  else
    match key with
    | Some k => i ← tdq_reset k timeout (inner q); Ok (wake_me (set_inner i q))
    | None => Ok q
    end.

Definition clear (q : DelayQueue) : DelayQueue :=
  if finished q then q else wake_me (set_inner (tdq_clear (inner q)) q).

(** [end] *)
Definition end_queue (q : DelayQueue) : DelayQueue :=
  wake_me {| inner := tdq_clear (inner q); finished := true; waker := waker q |}.

Definition poll_next (env : tdq_env) (w : Waker) (q : DelayQueue) :
    Poll (option (result tdq_error Expired)) * DelayQueue :=
  if finished q then (Ready None, q)
  else
    match tdq_poll env (inner q) with
    | (r, i) =>
        (match r with
         | Ready None => Pending
         | Ready (Some (Ok x)) => Ready (Some (Ok (Some x)))
         | Ready (Some (Err e)) => Ready (Some (Err e))
         | Pending => Pending
         end, {| inner := i; finished := false; waker := Some w |})
    end.
End delayqueue.
Arguments DelayQueue V {_}.
End DelayQ.
