(* ===== verification/CacheMap.v ===== *)
(** * The map whose entries expire ([old_src/cachemap.rs])

    Entries with a time to live, each with its timer in a [DelayQueue]. The map is behind a
    lock and is polled by a task of its own; a call takes the lock for its whole length, so
    that calls and polls are the steps of the model. [cache_map_step] says what each step does
    and that every entry has one timer, so that one that was inserted again does not expire
    by its old one; [cache_wakes_its_task] is about the task. *)

From Stdlib Require Import ZArith Lia.
From S2P Require Import Prelude.
From S2P Require Import Async.
From S2P Require Import DelayQueue.

Module Cache.
Section cachemap.
Context {K V : Type} `{Countable K} `{!TokioDelayQueue K}.

Record CacheMapInternal := {
  entries : gmap K (V * option tdq_key);
  expirations : DelayQ.DelayQueue K;
}.

Definition new : CacheMapInternal := {| entries := ∅; expirations := DelayQ.new |}.

Definition insert (key : K) (value : V) (ttl : Duration) (m : CacheMapInternal) :
    exec (option V * CacheMapInternal) :=
  let '(delay, q) := DelayQ.insert key ttl (expirations m) in
  let old := entries m !! key in
  let es := <[key := (value, delay)]> (entries m) in
  match old with
  | Some (old_value, old_delay) =>
      '(_, q) ← DelayQ.remove old_delay q;
      Ok (Some old_value, {| entries := es; expirations := q |})
  | None => Ok (None, {| entries := es; expirations := q |})
  end.

Definition get (key : K) (m : CacheMapInternal) : option V := fst <$> entries m !! key.

Definition remove (key : K) (m : CacheMapInternal) : exec (option V * CacheMapInternal) :=
  match entries m !! key with
  | Some (value, delay) =>
      '(_, q) ← DelayQ.remove delay (expirations m);
      Ok (Some value, {| entries := delete key (entries m); expirations := q |})
  | None => Ok (None, m)
  end.

(** [poll], over what the clock says each time round the loop; when it has nothing more to
    say, the delay queue is pending. An error of the delay queue is printed. *)
Fixpoint poll (envs : list tdq_env) (w : Waker) (m : CacheMapInternal) :
    exec (Poll unit * CacheMapInternal) :=
  match envs with
  | [] => Ok (if DelayQ.finished (expirations m) then Ready tt else Pending, m)
  | env :: envs =>
      let '(r, q) := DelayQ.poll_next env w (expirations m) in
      match r with
      | Pending => Ok (Pending, {| entries := entries m; expirations := q |})
      | Ready None => Ok (Ready tt, {| entries := entries m; expirations := q |})
      | Ready (Some (Ok entry)) =>
          key ← DelayQ.get_ref entry;
          poll envs w {| entries := delete key (entries m); expirations := q |}
      | Ready (Some (Err _)) => poll envs w {| entries := entries m; expirations := q |}
      end
  end.

(** [drop] of the [CacheMap]: the polling task finishes. *)
Definition drop_map (m : CacheMapInternal) : CacheMapInternal :=
  {| entries := entries m; expirations := DelayQ.end_queue (expirations m) |}.

(** ** One timer for each entry *)

Context `{!TokioDelayQueueLaws K}.

Definition timers (m : CacheMapInternal) : gmap tdq_key K := tdq_contents (DelayQ.inner (expirations m)).

Record one_timer (m : CacheMapInternal) : Prop := {
  ot_running : DelayQ.finished (expirations m) = false;
  ot_entry k v d : entries m !! k = Some (v, d) -> exists t, d = Some t /\ timers m !! t = Some k;
  ot_timer t k : timers m !! t = Some k -> exists v, entries m !! k = Some (v, Some t);
}.

Lemma one_timer_new : one_timer new.
Proof.
  split; cbn; [done|..]; unfold timers; cbn; intros *; [by rewrite lookup_empty|].
  by rewrite tdq_new_spec, lookup_empty.
Qed.

Lemma ot_inj m t t' k : one_timer m -> timers m !! t = Some k -> timers m !! t' = Some k -> t = t'.
Proof. intros Hm [v E]%(ot_timer _ Hm) [v' E']%(ot_timer _ Hm). congruence. Qed.

(** The entry [k], whose timer is [t], goes. *)
Lemma one_timer_delete m k t q : one_timer m -> timers m !! t = Some k ->
  DelayQ.finished q = false -> tdq_contents (DelayQ.inner q) = delete t (timers m) ->
  one_timer {| entries := delete k (entries m); expirations := q |}.
Proof.
  intros Hm Ht Hf Hq. split; cbn [entries expirations]; [done|..]; unfold timers; cbn [expirations]; rewrite Hq.
  - intros k' v d [Hk E]%lookup_delete_Some. destruct (ot_entry _ Hm _ _ _ E) as (t' & -> & E').
    exists t'. split; [done|]. rewrite lookup_delete_ne; [done|]. intros ->. congruence.
  - intros t' k' [Ht' E]%lookup_delete_Some. destruct (ot_timer _ Hm _ _ E) as [v E'].
    exists v. rewrite lookup_delete_ne; [done|]. intros ->. destruct Ht'. by eapply ot_inj.
Qed.

(** A new entry, with a new timer *)
Lemma one_timer_insert m k v t q : one_timer m -> entries m !! k = None -> timers m !! t = None ->
  DelayQ.finished q = false -> tdq_contents (DelayQ.inner q) = <[t := k]> (timers m) ->
  one_timer {| entries := <[k := (v, Some t)]> (entries m); expirations := q |}.
Proof.
  intros Hm Hk Ht Hf Hq. split; cbn [entries expirations]; [done|..]; unfold timers; cbn [expirations]; rewrite Hq.
  - intros k' v' d [[<- [= <- <-]]|[Hk' E]]%lookup_insert_Some.
    + exists t. by rewrite lookup_insert_eq.
    + destruct (ot_entry _ Hm _ _ _ E) as (t' & -> & E'). exists t'. split; [done|].
      rewrite lookup_insert_ne; [done|]. intros <-. congruence.
  - intros t' k' [[<- <-]|[Ht' E]]%lookup_insert_Some.
    + exists v. by rewrite lookup_insert_eq.
    + destruct (ot_timer _ Hm _ _ E) as [v' E']. exists v'.
      rewrite lookup_insert_ne; [done|]. intros <-. congruence.
Qed.

(** ** The operations *)

Lemma cache_remove_spec k m : one_timer m ->
  exists m', remove k m = Ok (get k m, m') /\ one_timer m' /\ entries m' = delete k (entries m).
Proof.
  intros Hm. unfold remove, get. destruct (entries m !! k) as [[v d]|] eqn:E; cbn [fmap option_fmap option_map].
  - destruct (ot_entry _ Hm _ _ _ E) as (t & -> & Et). unfold DelayQ.remove. rewrite (ot_running _ Hm).
    pose proof (tdq_remove_spec t (DelayQ.inner (expirations m))) as Hr. unfold timers in Et. rewrite Et in Hr.
    destruct Hr as (q' & -> & Hq). cbn [mbind result_bind]. eexists. split; [reflexivity|].
    split; [|done]. apply (one_timer_delete m k t); [done|done|apply Hm|done].
  - eexists. split; [reflexivity|]. split; [done|]. by rewrite delete_id.
Qed.

Lemma cache_insert_spec k v ttl m : one_timer m ->
  exists m', insert k v ttl m = Ok (get k m, m') /\ one_timer m' /\
    (exists t, entries m' = <[k := (v, Some t)]> (entries m) /\ timers m !! t = None).
Proof.
  intros Hm. unfold insert, get, DelayQ.insert. rewrite (ot_running _ Hm).
  pose proof (tdq_insert_spec k ttl (DelayQ.inner (expirations m))) as [Hn Hc].
  destruct (tdq_insert k ttl (DelayQ.inner (expirations m))) as [t i] eqn:Ei. cbn in Hn, Hc.
  destruct (entries m !! k) as [[v0 d0]|] eqn:E; cbn [fmap option_fmap option_map].
  - destruct (ot_entry _ Hm _ _ _ E) as (t0 & -> & Et0). unfold DelayQ.remove. cbn.
    rewrite (ot_running _ Hm). pose proof (tdq_remove_spec t0 i) as Hr.
    assert (t <> t0) as Hne by (intros ->; unfold timers in Et0; congruence).
    unfold timers in Et0. rewrite Hc, lookup_insert_ne, Et0 in Hr by done.
    destruct Hr as (q' & -> & Hq). cbn [mbind result_bind]. eexists. split; [reflexivity|].
    split; [|by exists t]. rewrite <- insert_delete_eq.
    (* as if the old entry were removed first *)
    pose proof (tdq_remove_spec t0 (DelayQ.inner (expirations m))) as Hr. rewrite Et0 in Hr.
    destruct Hr as (i1 & _ & Hi1).
    pose proof (one_timer_delete m k t0 (DelayQ.set_inner i1 (expirations m)) Hm Et0 (ot_running _ Hm) Hi1) as Hm1.
    eapply (one_timer_insert _ k v t _ Hm1); cbn [entries].
    + apply lookup_delete_eq.
    + unfold timers. cbn. rewrite Hi1. rewrite lookup_delete_ne by done. exact Hn.
    + cbn. apply Hm.
    + unfold timers. cbn. rewrite Hq, Hi1. by rewrite delete_insert_ne.
  - eexists. split; [reflexivity|]. split; [|by exists t].
    apply one_timer_insert; [done|done|done|cbn; apply Hm|done].
Qed.

Lemma cache_poll_spec envs w m : one_timer m ->
  exists m' (gone : gset K), poll envs w m = Ok (Pending, m') /\ one_timer m' /\
    gone ⊆ dom (entries m) /\ entries m' = filter (fun e => e.1 ∉ gone) (entries m).
Proof.
  revert m. induction envs as [|e envs IH]; intros m Hm; cbn [poll].
  { rewrite (ot_running _ Hm). exists m, ∅. split_and!; [done|done|set_solver|].
    symmetry. apply map_filter_id. set_solver. }
  unfold DelayQ.poll_next. rewrite (ot_running _ Hm).
  pose proof (tdq_poll_spec e (DelayQ.inner (expirations m))) as Hp.
  destruct (tdq_poll e (DelayQ.inner (expirations m))) as [r i].
  assert (Hquiet : tdq_contents i = timers m ->
    one_timer {| entries := entries m; expirations := {| DelayQ.inner := i; DelayQ.finished := false; DelayQ.waker := Some w |} |}).
  { intros Hi. destruct Hm as [_ He Ht]. unfold timers in *. by split; cbn [entries expirations]; [|unfold timers; cbn; rewrite Hi..]. }
  assert (Hsame : entries m = filter (fun e => e.1 ∉ (∅ : gset K)) (entries m)).
  { symmetry. apply map_filter_id. set_solver. }
  destruct r as [[[k|x]|]|].
  - destruct Hp as (t & Et & Hi). cbn [DelayQ.get_ref unwrap mbind result_bind].
    destruct (IH _ (one_timer_delete m k t {| DelayQ.inner := i; DelayQ.finished := false; DelayQ.waker := Some w |}
      Hm Et eq_refl Hi)) as (m' & gone & -> & Hm' & Hg & E).
    exists m', ({[k]} ∪ gone). destruct (ot_timer _ Hm _ _ Et) as [v Ek]. cbn [entries] in Hg, E.
    split_and!; [done|done| |].
    + rewrite dom_delete_L in Hg. apply union_subseteq. split; [|set_solver].
      apply singleton_subseteq_l, elem_of_dom. by eexists.
    + rewrite E. apply map_eq. intros k'. apply option_eq. intros x.
      rewrite !map_lookup_filter_Some, lookup_delete_Some. cbn. set_solver.
  - destruct (IH _ (Hquiet Hp)) as (m' & gone & -> & ? & ? & ?). by exists m', gone.
  - exists {| entries := entries m; expirations := {| DelayQ.inner := i; DelayQ.finished := false; DelayQ.waker := Some w |} |}, ∅.
    split_and!; [done|by apply Hquiet|set_solver|done].
  - exists {| entries := entries m; expirations := {| DelayQ.inner := i; DelayQ.finished := false; DelayQ.waker := Some w |} |}, ∅.
    split_and!; [done|by apply Hquiet|set_solver|done].
Qed.

(** ** Every run *)

Inductive reachable : CacheMapInternal -> Prop :=
| reach_new : reachable new
| reach_insert k v ttl m o m' : reachable m -> insert k v ttl m = Ok (o, m') -> reachable m'
| reach_remove k m o m' : reachable m -> remove k m = Ok (o, m') -> reachable m'
| reach_poll envs w m r m' : reachable m -> poll envs w m = Ok (r, m') -> reachable m'.

Lemma reachable_one_timer m : reachable m -> one_timer m.
Proof.
  induction 1 as [|k v ttl m o m' _ IH E|k m o m' _ IH E|envs w m r m' _ IH E].
  - apply one_timer_new.
  - destruct (cache_insert_spec k v ttl m IH) as (m1 & E1 & ? & _). congruence.
  - destruct (cache_remove_spec k m IH) as (m1 & E1 & ? & _). congruence.
  - destruct (cache_poll_spec envs w m IH) as (m1 & gone & E1 & ? & _). congruence.
Qed.

(** In every state the map can get into, no call and no poll panics; inserting and removing
    return the value there was and change the map as they say; a poll takes out some of
    the entries, and stays pending; and every entry has exactly one timer: an entry inserted
    again has a new one, and expires by no other. *)
Theorem cache_map_step m : reachable m ->
  (forall k v ttl, exists m', insert k v ttl m = Ok (get k m, m') /\
    exists t, entries m' = <[k := (v, Some t)]> (entries m) /\ timers m !! t = None) /\
  (forall k, exists m', remove k m = Ok (get k m, m') /\ entries m' = delete k (entries m)) /\
  (forall envs w, exists m' (gone : gset K), poll envs w m = Ok (Pending, m') /\
    gone ⊆ dom (entries m) /\ entries m' = filter (fun e => e.1 ∉ gone) (entries m)) /\
  (forall k t, timers m !! t = Some k <-> exists v, entries m !! k = Some (v, Some t)).
Proof.
  intros Hm%reachable_one_timer. split_and!.
  - intros k v ttl. destruct (cache_insert_spec k v ttl m Hm) as (m' & ? & _ & ?). by exists m'.
  - intros k. destruct (cache_remove_spec k m Hm) as (m' & ? & _ & ?). by exists m'.
  - intros envs w. destruct (cache_poll_spec envs w m Hm) as (m' & gone & ? & _ & ? & ?). by exists m', gone.
  - intros k t. split; [apply (ot_timer _ Hm)|]. intros [v E].
    destruct (ot_entry _ Hm _ _ _ E) as (t' & [= <-] & ?). done.
Qed.

(** ** The map and the task that polls it

    [CacheMap] shares the map behind a lock with [CacheMapPollMe], a task of its own that is
    spawned when the map is made. The task is polled when it has been woken: by the queue's
    waker, which a call takes out and wakes, or by a timer. *)

Record CacheMap := { shared : CacheMapInternal; notified : bool; ended : bool }.

Definition cache_new : CacheMap := {| shared := new; notified := true; ended := false |}.

(** The task is woken when a call takes its waker out. *)
Definition after_call (m : CacheMapInternal) (c : CacheMap) : CacheMap :=
  {| shared := m;
     notified := notified c ||
       match DelayQ.waker (expirations (shared c)), DelayQ.waker (expirations m) with
       | Some _, None => true
       | _, _ => false
       end;
     ended := ended c |}.

Definition cache_insert (key : K) (value : V) (ttl : Duration) (c : CacheMap) : exec (option V * CacheMap) :=
  '(o, m) ← insert key value ttl (shared c); Ok (o, after_call m c).
Definition cache_get (key : K) (c : CacheMap) : option V := get key (shared c).
Definition cache_remove (key : K) (c : CacheMap) : exec (option V * CacheMap) :=
  '(o, m) ← remove key (shared c); Ok (o, after_call m c).
(** [Drop] *)
Definition cache_drop (c : CacheMap) : CacheMap := after_call (drop_map (shared c)) c.

(** A timer runs out, or whatever else wakes the task. *)
Definition cache_wake (c : CacheMap) : CacheMap := {| shared := shared c; notified := true; ended := ended c |}.
(** [CacheMapPollMe::poll], of a task that has been woken and has not ended *)
Definition cache_poll (envs : list tdq_env) (w : Waker) (c : CacheMap) : exec CacheMap :=
  if notified c && negb (ended c) then
    '(r, m) ← poll envs w (shared c);
    Ok {| shared := m; notified := false; ended := match r with Ready _ => true | Pending => false end |}
  else Ok c.

(** A poll that has asked the queue has left its waker there. *)
Lemma poll_leaves_waker envs w m r m' : envs <> [] -> poll envs w m = Ok (r, m') ->
  DelayQ.finished (expirations m') = DelayQ.finished (expirations m) /\
  (DelayQ.finished (expirations m) = false -> DelayQ.waker (expirations m') = Some w).
Proof.
  revert m. induction envs as [|e envs IH]; intros m Hne; [done|]. cbn [poll]. unfold DelayQ.poll_next.
  destruct (DelayQ.finished (expirations m)) eqn:Ef; [intros [= <- <-]; cbn; by rewrite Ef|].
  destruct (tdq_poll e (DelayQ.inner (expirations m))) as [[[[k|x]|]|] i]; cbn [DelayQ.get_ref unwrap mbind result_bind].
  3,4: by intros [= <- <-].
  all: destruct envs as [|e' envs]; [by intros [= <- <-]|]; intros E; apply IH in E; [|done]; exact E.
Qed.

(** What has been asked of the task's queue: no wake-up is lost. *)
Definition waits_well (c : CacheMap) : Prop :=
  ended c = true \/ notified c = true \/
  DelayQ.finished (expirations (shared c)) = false /\ is_Some (DelayQ.waker (expirations (shared c))).

Inductive cache_reachable : CacheMap -> Prop :=
| cache_made : cache_reachable cache_new
| cache_inserted k v ttl c o c' : cache_reachable c -> cache_insert k v ttl c = Ok (o, c') -> cache_reachable c'
| cache_removed k c o c' : cache_reachable c -> cache_remove k c = Ok (o, c') -> cache_reachable c'
| cache_dropped c : cache_reachable c -> cache_reachable (cache_drop c)
| cache_woken c : cache_reachable c -> cache_reachable (cache_wake c)
| cache_polled envs w c c' : cache_reachable c -> envs <> [] -> cache_poll envs w c = Ok c' -> cache_reachable c'.

Lemma after_call_waits m c : waits_well c ->
  DelayQ.finished (expirations m) = DelayQ.finished (expirations (shared c)) \/ DelayQ.waker (expirations m) = None ->
  waits_well (after_call m c).
Proof.
  unfold waits_well, after_call. cbn [ended notified shared]. intros [He|[Hn|[Hf [w Hw]]]] Hm; [by left|rewrite Hn; auto|].
  rewrite Hw. destruct (DelayQ.waker (expirations m)) as [w'|]; [|rewrite orb_true_r; auto].
  destruct Hm as [Hm|?]; [|done]. right; right. rewrite Hm. eauto.
Qed.

Lemma queue_remove_keeps k q o q' : DelayQ.remove k q = Ok (o, q') -> DelayQ.finished q' = DelayQ.finished q.
Proof.
  unfold DelayQ.remove. destruct (DelayQ.finished q) eqn:Ef; [by intros [= <- <-]|].
  destruct k as [k|]; [|by intros [= <- <-]]. destruct (tdq_remove k (DelayQ.inner q)) as [[v i]|]; [|done].
  by intros [= <- <-].
Qed.

Lemma cache_reachable_waits c : cache_reachable c -> waits_well c.
Proof.
  induction 1 as [|k v ttl c o c' _ IH E|k c o c' _ IH E|c _ IH|c _ IH|envs w c c' _ IH Hne E].
  - right; by left.
  - unfold cache_insert, insert in E. apply result_bind_Ok in E as ([o1 m] & E & [= <- <-]). apply after_call_waits; [done|left].
    assert (DelayQ.finished (DelayQ.insert k ttl (expirations (shared c))).2 = DelayQ.finished (expirations (shared c))) as Hf.
    { unfold DelayQ.insert. destruct (DelayQ.finished (expirations (shared c))) eqn:Ef; cbn; [done|]. destruct (tdq_insert _ _ _). cbn. by rewrite Ef. }
    destruct (DelayQ.insert _ _ _) as [d q]. cbn [snd] in Hf. destruct (entries (shared c) !! k) as [[ov od]|].
    + apply result_bind_Ok in E as ([x q'] & Er & [= <- <-]). apply queue_remove_keeps in Er. cbn. congruence.
    + by injection E as <- <-.
  - unfold cache_remove, remove in E. apply result_bind_Ok in E as ([o1 m] & E & [= <- <-]). apply after_call_waits; [done|left].
    destruct (entries (shared c) !! k) as [[ov od]|]; [|by injection E as <- <-].
    apply result_bind_Ok in E as ([x q'] & Er & [= <- <-]). by apply queue_remove_keeps in Er.
  - apply after_call_waits; [done|by right].
  - right; by left.
  - unfold cache_poll in E. destruct (notified c && negb (ended c)); [|by injection E as <-].
    apply result_bind_Ok in E as ([r m] & E & [= <-]).
    destruct (poll_leaves_waker _ _ _ _ _ Hne E) as [Hf Hw].
    unfold waits_well. cbn [ended notified shared]. destruct r as [u|]; [by left|right; right].
    destruct (DelayQ.finished (expirations (shared c))) eqn:Ef; [|rewrite Hf, Hw; eauto].
    exfalso. destruct envs as [|e envs]; [done|]. cbn in E. unfold DelayQ.poll_next in E. by rewrite Ef in E.
Qed.

(** No wake-up is lost: in every state, unless the task has ended, it has been woken or its waker
    is in the queue; so inserting, which may make an earlier expiry, and dropping the map wake
    it, and a poll after dropping ends it. *)
Theorem cache_wakes_its_task c : cache_reachable c -> ended c = false ->
  (forall k v ttl o c', DelayQ.finished (expirations (shared c)) = false ->
     cache_insert k v ttl c = Ok (o, c') -> notified c' = true) /\
  notified (cache_drop c) = true /\
  (forall envs w, envs <> [] -> exists c', cache_poll envs w (cache_drop c) = Ok c' /\ ended c' = true).
Proof.
  intros Hr He. pose proof (cache_reachable_waits c Hr) as [?|Hw]; [congruence|].
  assert (notified (cache_drop c) = true) as Hd.
  { destruct Hw as [Hn|[_ [w Hw]]]; cbn; [by rewrite Hn|]. by rewrite Hw, orb_true_r. }
  split_and!; [|exact Hd|].
  - intros k v ttl o c' Hf E. unfold cache_insert, insert in E. apply result_bind_Ok in E as ([o1 m] & E & [= <- <-]).
    cbn [notified after_call]. destruct Hw as [->|[_ [w Hw]]]; [done|].
    assert (DelayQ.waker (expirations m) = None) as ->; [|by rewrite Hw, orb_true_r].
    unfold DelayQ.insert in E. rewrite Hf in E. destruct (tdq_insert _ _ _) as [d i].
    destruct (entries (shared c) !! k) as [[ov od]|]; [|by injection E as <- <-].
    apply result_bind_Ok in E as ([x q'] & Er & [= <- <-]). unfold DelayQ.remove in Er. cbn in Er. rewrite Hf in Er.
    cbn [expirations]. destruct od as [t|]; [|by injection Er as <- <-]. by apply result_bind_Ok in Er as ([y i'] & _ & [= <- <-]).
  - intros [|e envs] w Hne; [done|]. unfold cache_poll. rewrite Hd. cbn [ended cache_drop after_call]. rewrite He.
    cbn. eauto.
Qed.
End cachemap.
Arguments CacheMapInternal K V {_ _ _}.

#[local] Existing Instance TokioDelayQueue_reference.
#[local] Existing Instance TokioDelayQueue_reference_laws.

Lemma cache_map_step_witness : exists m : CacheMapInternal N N,
  reachable m /\ get 5%N m = Some 8%N /\
  exists m', remove 5%N m = Ok (get 5%N m, m') /\ entries m' = delete 5%N (entries m).
Proof.
  destruct (cache_insert_spec 5%N 7%N 10%N (new (K := N)) one_timer_new) as (m1 & E1 & H1 & _).
  destruct (cache_insert_spec 5%N 8%N 10%N m1 H1) as (m2 & E2 & H2 & t & Et & _).
  assert (reachable m2) as Hr by (eapply reach_insert; [eapply reach_insert; [apply reach_new|exact E1]|exact E2]).
  exists m2. split; [exact Hr|]. split; [unfold get; by rewrite Et, lookup_insert_eq|].
  apply (proj1 (proj2 (cache_map_step m2 Hr))).
Defined.
End Cache.
