(* ===== verification/OldQueue.v ===== *)
(** * The first version's queues of all devices ([old_src/ieee802154/mac/queue.rs])

    One [DeviceQueue] for each destination that has frames, the timers they asked for, and
    what they made for the service: frames to send, and destinations whose queue ran empty.
    What the queues report to the callers is kept in [told], with the destination. *)

From Stdlib Require Import ZArith Lia.
From S2P Require Import Prelude.
From S2P Require Import Async.
From S2P Require Import OldFrame.
From S2P Require Import DelayQueue.
From S2P Require Import OldDeviceQueue.

Module OldQueue.

Abbreviation AddressSpecification := OldFrame.AddressSpecification.

Inductive QueueEvent :=
| OutgoingFrame (destination : AddressSpecification) (f : OldFrame.Frame)
| QueueFlushed (destination : AddressSpecification).

Section queue.
Context `{!TokioDelayQueue AddressSpecification}.

Record Queue := {
  queues : gmap AddressSpecification ODQ.DeviceQueue;
  flushed : list AddressSpecification;
  timers : DelayQ.DelayQueue AddressSpecification;
  running_timers : gmap AddressSpecification (option tdq_key);
  outgoing : list (AddressSpecification * OldFrame.Frame);
  stream_waker : DelayQ.SavedWaker;
  told : list (AddressSpecification * ODQ.report);
}.

Definition new : Queue :=
  {| queues := ∅; flushed := []; timers := DelayQ.new; running_timers := ∅; outgoing := [];
     stream_waker := DelayQ.saved_new; told := [] |}.

(** Field updates *)
Definition set_queues m (s : Queue) : Queue :=
  {| queues := m; flushed := flushed s; timers := timers s; running_timers := running_timers s;
     outgoing := outgoing s; stream_waker := stream_waker s; told := told s |}.
Definition set_flushed l (s : Queue) : Queue :=
  {| queues := queues s; flushed := l; timers := timers s; running_timers := running_timers s;
     outgoing := outgoing s; stream_waker := stream_waker s; told := told s |}.
Definition set_timers t r (s : Queue) : Queue :=
  {| queues := queues s; flushed := flushed s; timers := t; running_timers := r;
     outgoing := outgoing s; stream_waker := stream_waker s; told := told s |}.
Definition set_outgoing l w (s : Queue) : Queue :=
  {| queues := queues s; flushed := flushed s; timers := timers s; running_timers := running_timers s;
     outgoing := l; stream_waker := w; told := told s |}.
Definition tell (d : AddressSpecification) (rs : list ODQ.report) (s : Queue) : Queue :=
  {| queues := queues s; flushed := flushed s; timers := timers s; running_timers := running_timers s;
     outgoing := outgoing s; stream_waker := stream_waker s; told := told s ++ (pair d <$> rs) |}.

Definition stop_timer (destination : AddressSpecification) (s : Queue) : exec Queue :=
  match running_timers s !! destination with
  | Some key =>
      '(_, t) ← DelayQ.remove key (timers s);
      Ok (set_timers t (delete destination (running_timers s)) s)
  | None => Ok s
  end.

Definition handle_action (destination : AddressSpecification) (action : ODQ.DeviceQueueAction)
    (s : Queue) : exec Queue :=
  match action with
  | ODQ.StartTimer duration =>
      match running_timers s !! destination with
      | Some key => t ← DelayQ.reset key duration (timers s); Ok (set_timers t (running_timers s) s)
      | None =>
          let '(key, t) := DelayQ.insert destination duration (timers s) in
          Ok (set_timers t (<[destination := key]> (running_timers s)) s)
      end
  | ODQ.StopTimer => stop_timer destination s
  | ODQ.StopTimerStartSend frame =>
      s ← stop_timer destination s;
      Ok (set_outgoing (outgoing s ++ [(destination, frame)]) (DelayQ.saved_wake (stream_waker s)).2 s)
  end.

Definition handle_optional (destination : AddressSpecification) (action : option ODQ.DeviceQueueAction)
    (s : Queue) : exec Queue :=
  match action with Some a => handle_action destination a s | None => Ok s end.

Definition update_and_handle_action (destination : AddressSpecification)
    (fn : ODQ.DeviceQueue -> ODQ.outcome) (s : Queue) : exec Queue :=
  let '(new_state, action, rs) := fn (default ODQ.Idle (queues s !! destination)) in
  let s := tell destination rs (set_queues (delete destination (queues s)) s) in
  let s :=
    if ODQ.is_idle new_state then set_flushed (flushed s ++ [destination]) s
    else set_queues (<[destination := new_state]> (queues s)) s in
  handle_optional destination action s.

(** The frame's future is that of the channel with this token. *)
Definition enqueue (token : N) (frame : OldFrame.Frame) (receiver_on_when_idle : bool) (s : Queue) :
    exec Queue :=
  let destination := OldFrame.destination frame in
  let item := ODQ.item_new token frame receiver_on_when_idle (Some (from_secs 10)) 5 in
  update_and_handle_action destination (ODQ.enqueue item) s.

(** The first loop of [on_ack], in the order in which the map is walked *)
Fixpoint ack_loop (sequence_nr : Z) (order : list AddressSpecification)
    (actions : list (AddressSpecification * ODQ.DeviceQueueAction)) (s : Queue) :
    list (AddressSpecification * ODQ.DeviceQueueAction) * Queue :=
  match order with
  | [] => (actions, s)
  | key :: order =>
      match queues s !! key with
      | None => ack_loop sequence_nr order actions s
      | Some value =>
          let '(new_value, action, rs) := ODQ.on_ack sequence_nr value in
          let s := tell key rs (set_queues (<[key := new_value]> (queues s)) s) in
          let actions := match action with Some a => actions ++ [(key, a)] | None => actions end in
          ack_loop sequence_nr order actions s
      end
  end.
Fixpoint handle_actions (actions : list (AddressSpecification * ODQ.DeviceQueueAction)) (s : Queue) :
    exec Queue :=
  match actions with
  | [] => Ok s
  | (destination, action) :: actions =>
      s ← handle_action destination action s; handle_actions actions s
  end.
Definition on_ack (ord : IterOrder AddressSpecification) (sequence_nr : Z) (s : Queue) : exec Queue :=
  let '(actions, s) := ack_loop sequence_nr (iter_order _ ord 0 (fst <$> map_to_list (queues s))) [] s in
  let s := set_queues (filter (fun e => ODQ.is_idle e.2 = false) (queues s)) s in
  handle_actions actions s.

Definition on_timer (destination : AddressSpecification) (s : Queue) : exec Queue :=
  let s := set_timers (timers s) (delete destination (running_timers s)) s in
  update_and_handle_action destination ODQ.on_timer s.

Definition on_send_result (destination : AddressSpecification) (success : bool) (s : Queue) : exec Queue :=
  update_and_handle_action destination (ODQ.on_send_result success) s.

Definition on_data_request (destination : AddressSpecification) (s : Queue) : exec (bool * Queue) :=
  s ← update_and_handle_action destination ODQ.on_data_request s;
  Ok (match queues s !! destination with Some state => negb (ODQ.is_idle state) | None => false end, s).

(** [poll_next]: the timers, over what the clock says each time round the loop ... *)
Fixpoint poll_timers (envs : list tdq_env) (w : Waker) (s : Queue) : exec Queue :=
  match envs with
  | [] => Ok s
  | env :: envs =>
      let '(r, t) := DelayQ.poll_next env w (timers s) in
      let s := set_timers t (running_timers s) s in
      match r with
      | Ready (Some (Ok expired)) =>
          destination ← DelayQ.get_ref expired; s ← on_timer destination s; poll_timers envs w s
      | Ready (Some (Err _)) => poll_timers envs w s
      | Ready None | Pending => Ok s
      end
  end.
(** ... and the flushed queues. *)
Fixpoint poll_flushed (l : list AddressSpecification) (s : Queue) : Poll (option QueueEvent) * Queue :=
  match l with
  | [] => (Pending, set_flushed [] s)
  | d :: l =>
      match queues s !! d with
      | None => (Ready (Some (QueueFlushed d)), set_flushed l s)
      | Some _ => poll_flushed l s
      end
  end.
Definition poll_next (envs : list tdq_env) (w : Waker) (s : Queue) : exec (Poll (option QueueEvent) * Queue) :=
  let s := set_outgoing (outgoing s) (DelayQ.saved_set w (stream_waker s)) s in
  s ← poll_timers envs w s;
  match outgoing s with
  | (destination, frame) :: rest =>
      Ok (Ready (Some (OutgoingFrame destination frame)), set_outgoing rest (stream_waker s) s)
  | [] => Ok (poll_flushed (flushed s) s)
  end.
End queue.
End OldQueue.
