(* ===== verification/OldQueueTheory.v ===== *)
(** * The first version's queues: their timers, and what becomes of every frame *)

From Stdlib Require Import ZArith Lia.
From S2P Require Import Prelude.
From S2P Require Import Async.
From S2P Require Import OldFrame.
From S2P Require Import DelayQueue.
From S2P Require Import OldDeviceQueue.
From S2P Require Import OldDeviceQueueTheory.
From S2P Require Import OldQueue.

Import OldQueue.

(** ** One queue *)

(** A queue waits for a data request or an acknowledgement. *)
Definition needs_timer (q : ODQ.DeviceQueue) : bool :=
  match q with ODQ.WaitingForDataRequest _ _ | ODQ.WaitingForAck _ _ _ => true | _ => false end.
Definition starts (a : ODQ.DeviceQueueAction) : bool :=
  match a with ODQ.StartTimer _ => true | _ => false end.
(** Every frame has a limit for its wait. *)
Definition limited (q : ODQ.DeviceQueue) : Prop :=
  Forall (fun i => is_Some (ODQ.max_wait_for_datarequest i)) (items q).

(** The action of an event, if it has one, leaves a timer as the new state needs it; without
    one, the need is as it was. *)
Definition timer_follows (q q' : ODQ.DeviceQueue) (a : option ODQ.DeviceQueueAction) : Prop :=
  match a with Some a => needs_timer q' = starts a | None => needs_timer q' = needs_timer q end.

Lemma start_send_follows q f l q' a : is_Some (ODQ.max_wait_for_datarequest f) ->
  ODQ.start_send f l = (q', a) -> timer_follows q q' a /\ is_Some a /\ items q' = f :: l.
Proof.
  intros [d Hd]. unfold ODQ.start_send. destruct (ODQ.wait_for_datarequest f); intros [= <- <-]; [rewrite Hd|]; done.
Qed.

Lemma restart_follows q l q' a : Forall (fun i => is_Some (ODQ.max_wait_for_datarequest i)) l ->
  ODQ.restart_from_queue l = (q', a) -> timer_follows q q' a /\ is_Some a /\ items q' = l.
Proof.
  destruct l as [|f l]; [by intros _ [= <- <-]|]. intros [Hf _]%Forall_cons. by apply start_send_follows.
Qed.

Lemma retry_follows q f l q' a rs : Forall (fun i => is_Some (ODQ.max_wait_for_datarequest i)) (f :: l) ->
  ODQ.retry_send f l = (q', a, rs) -> timer_follows q q' a /\ is_Some a /\ limited q'.
Proof.
  intros Hl. unfold ODQ.retry_send, ODQ.report_front. apply Forall_cons in Hl as [Hf Hl]. case_decide; intros [= E <-].
  - destruct (restart_follows q _ _ _ Hl E) as (? & ? & Ei). unfold limited. by rewrite Ei.
  - destruct (start_send_follows q (ODQ.set_retries (ODQ.retries f - 1) f) _ _ _ Hf E) as (? & ? & Ei). unfold limited. rewrite Ei.
    split_and!; [done..|]. by apply Forall_cons.
Qed.

Lemma report_follows q f r l q' a rs : Forall (fun i => is_Some (ODQ.max_wait_for_datarequest i)) (f :: l) ->
  ODQ.report_front f r l = (q', a, rs) -> timer_follows q q' a /\ is_Some a /\ limited q'.
Proof.
  intros [_ Hl]%Forall_cons [= E <-]. destruct (restart_follows q _ _ _ Hl E) as (? & ? & Ei).
  unfold limited. by rewrite Ei.
Qed.

Definition event_limited (e : dq_event) : Prop :=
  match e with EnqueueItem i => is_Some (ODQ.max_wait_for_datarequest i) | _ => True end.

Lemma handle_follows e q q' a rs : limited q -> event_limited e -> dq_handle e q = (q', a, rs) ->
  timer_follows q q' a /\ limited q'.
Proof.
  intros Hl He. destruct e as [i| | |b|x]; cbn [dq_handle].
  - destruct q; cbn; [|intros [= <- <- <-]; split; [done|]; unfold limited in *; cbn in *;
      rewrite app_comm_cons; apply Forall_app; split; [done|by apply Forall_singleton]..].
    intros [= E <-]. destruct (start_send_follows ODQ.Idle _ _ _ _ He E) as (? & _ & Ei).
    split; [done|]. unfold limited. rewrite Ei. by apply Forall_singleton.
  - destruct q; cbn; try by intros [= <- <- <-].
    + intros E. by destruct (report_follows (ODQ.WaitingForDataRequest front queue) _ _ _ _ _ _ Hl E) as (? & _ & ?).
    + intros E. by destruct (retry_follows (ODQ.WaitingForAck front queue wait_for_ack) _ _ _ _ _ Hl E) as (? & _ & ?).
  - destruct q; cbn; by intros [= <- <- <-].
  - destruct q; cbn; try by intros [= <- <- <-].
    destruct b; cbn; [destruct wait_for_ack as [w|]; [by intros [= <- <- <-]|]|]; intros E.
    + by destruct (report_follows (ODQ.SendStarted front queue None) _ _ _ _ _ _ Hl E) as (? & _ & ?).
    + by destruct (retry_follows (ODQ.SendStarted front queue wait_for_ack) _ _ _ _ _ Hl E) as (? & _ & ?).
  - destruct q; cbn; try by intros [= <- <- <-].
    case_decide; [|by intros [= <- <- <-]]. intros E.
    by destruct (report_follows (ODQ.WaitingForAck front queue wait_for_ack) _ _ _ _ _ _ Hl E) as (? & _ & ?).
Qed.

(** The timer of a waiting queue fires: the action says what becomes of it. *)
Lemma timer_fired_follows q q' a rs : limited q -> needs_timer q = true -> ODQ.on_timer q = (q', a, rs) ->
  is_Some a.
Proof.
  intros Hl Hn. destruct q; try done; cbn; intros E.
  - by destruct (report_follows ODQ.Idle _ _ _ _ _ _ Hl E) as (_ & ? & _).
  - by destruct (retry_follows ODQ.Idle _ _ _ _ _ Hl E) as (_ & ? & _).
Qed.

Section theory.
Context `{!TokioDelayQueue AddressSpecification, !TokioDelayQueueLaws AddressSpecification}.
Implicit Types (s : Queue) (d : AddressSpecification).

Definition state_of s d : ODQ.DeviceQueue := default ODQ.Idle (queues s !! d).

(** ** The timers of the map and those of the delay queue *)

Record timers_ok s : Prop := {
  tm_running : DelayQ.finished (timers s) = false;
  tm_timer d key : running_timers s !! d = Some key ->
    exists t, key = Some t /\ tdq_contents (DelayQ.inner (timers s)) !! t = Some d;
  tm_owner t d : tdq_contents (DelayQ.inner (timers s)) !! t = Some d ->
    running_timers s !! d = Some (Some t);
}.

Definition runs s d : bool := bool_decide (is_Some (running_timers s !! d)).

Lemma timers_ok_delete s d t q : timers_ok s -> running_timers s !! d = Some (Some t) ->
  DelayQ.finished q = false ->
  tdq_contents (DelayQ.inner q) = delete t (tdq_contents (DelayQ.inner (timers s))) ->
  timers_ok (set_timers q (delete d (running_timers s)) s).
Proof.
  intros [Hr Ht Ho] Ed Hf Hq. split; cbn [timers running_timers set_timers]; [done|..]; rewrite Hq.
  - intros d' key [Hd E]%lookup_delete_Some. destruct (Ht _ _ E) as (t' & -> & Et). exists t'.
    split; [done|]. rewrite lookup_delete_ne; [done|]. intros <-. apply Ho in Et as Et'.
    destruct (Ht _ _ Ed) as (t2 & [= <-] & Et2). congruence.
  - intros t' d' [Hd E]%lookup_delete_Some. rewrite lookup_delete_ne; [by apply Ho|].
    intros ->. apply Ho in E. congruence.
Qed.

Lemma stop_timer_spec s d : timers_ok s -> exists s', stop_timer d s = Ok s' /\ timers_ok s' /\
  queues s' = queues s /\ told s' = told s /\ (forall d', runs s' d' = if decide (d' = d) then false else runs s d').
Proof.
  intros Hs. unfold stop_timer. destruct (running_timers s !! d) as [key|] eqn:Ed.
  - destruct (tm_timer _ Hs _ _ Ed) as (t & -> & Et). unfold DelayQ.remove. rewrite (tm_running _ Hs).
    pose proof (tdq_remove_spec t (DelayQ.inner (timers s))) as Hr. rewrite Et in Hr.
    destruct Hr as (q' & -> & Hq). cbn [mbind result_bind]. eexists. split; [reflexivity|].
    split; [apply (timers_ok_delete s d t); [done|done|apply Hs|done]|]. split_and!; [done|done|].
    intros d'. unfold runs. cbn [running_timers set_timers]. destruct (decide (d' = d)) as [->|].
    + by rewrite lookup_delete_eq, bool_decide_false by by intros [].
    + by rewrite lookup_delete_ne.
  - exists s. split_and!; try done. intros d'. unfold runs. destruct (decide (d' = d)) as [->|]; [|done].
    rewrite Ed. by rewrite bool_decide_false by by intros [].
Qed.

Lemma handle_action_spec s d a : timers_ok s -> exists s', handle_action d a s = Ok s' /\ timers_ok s' /\
  queues s' = queues s /\ told s' = told s /\
  (forall d', runs s' d' = if decide (d' = d) then starts a else runs s d').
Proof.
  intros Hs. destruct a as [dur| |f]; cbn [handle_action starts].
  - destruct (running_timers s !! d) as [key|] eqn:Ed.
    + destruct (tm_timer _ Hs _ _ Ed) as (t & -> & Et). unfold DelayQ.reset. rewrite (tm_running _ Hs).
      pose proof (tdq_reset_spec t dur (DelayQ.inner (timers s))) as Hr. rewrite Et in Hr.
      destruct Hr as (q' & -> & Hq). cbn [mbind result_bind]. eexists. split; [reflexivity|].
      split; [|split_and!; [done|done|]].
      * destruct Hs. split; cbn; rewrite ?Hq; done.
      * intros d'. unfold runs. cbn. destruct (decide (d' = d)) as [->|]; [|done]. rewrite Ed.
        by rewrite bool_decide_true by by eexists.
    + unfold DelayQ.insert. rewrite (tm_running _ Hs).
      pose proof (tdq_insert_spec d dur (DelayQ.inner (timers s))) as [Hn Hc].
      destruct (tdq_insert d dur (DelayQ.inner (timers s))) as [t i]. cbn in Hn, Hc.
      eexists. split; [reflexivity|]. split; [|split_and!; [done|done|]].
      * destruct Hs as [Hr Ht Ho]. split; cbn; [done|..]; rewrite ?Hc.
        -- intros d' key [[<- <-]|[Hd E]]%lookup_insert_Some.
           ++ exists t. by rewrite lookup_insert_eq.
           ++ destruct (Ht _ _ E) as (t' & -> & Et). exists t'. split; [done|].
              rewrite lookup_insert_ne; [done|]. intros <-. congruence.
        -- intros t' d' [[<- <-]|[Hd E]]%lookup_insert_Some; [by rewrite lookup_insert_eq|].
           rewrite lookup_insert_ne; [by apply Ho|]. intros <-. apply Ho in E. congruence.
      * intros d'. unfold runs. cbn. destruct (decide (d' = d)) as [->|].
        -- rewrite lookup_insert_eq. by rewrite bool_decide_true by by eexists.
        -- by rewrite lookup_insert_ne.
  - by apply stop_timer_spec.
  - destruct (stop_timer_spec s d Hs) as (s' & -> & Hs' & ? & ? & ?). cbn [mbind result_bind].
    eexists. split; [reflexivity|]. destruct Hs'. by split_and!; [split|..].
Qed.

(** ** The invariant, with actions still to be taken *)

Definition planned (actions : list (AddressSpecification * ODQ.DeviceQueueAction)) d (b : bool) : bool :=
  foldl (fun b '(d', a) => if decide (d = d') then starts a else b) b actions.

Record owed actions s : Prop := {
  ow_timers : timers_ok s;
  ow_limited d : limited (state_of s d);
  ow_needs d : planned actions d (runs s d) = needs_timer (state_of s d);
}.

Definition stored s : Prop := forall d q, queues s !! d = Some q -> ODQ.is_idle q = false.

Lemma planned_snoc actions d' a d b :
  planned (actions ++ [(d', a)]) d b = if decide (d = d') then starts a else planned actions d b.
Proof. unfold planned. by rewrite foldl_app. Qed.

Lemma handle_actions_spec actions s : owed actions s -> exists s', handle_actions actions s = Ok s' /\
  owed [] s' /\ queues s' = queues s /\ told s' = told s.
Proof.
  revert s. induction actions as [|[d a] actions IH]; intros s Hs; [by exists s|].
  cbn [handle_actions]. destruct (handle_action_spec s d a (ow_timers _ _ Hs)) as (s1 & -> & Ht & Eq & Et & Hr).
  cbn [mbind result_bind]. destruct (IH s1) as (s' & -> & Ho & Eq' & Et').
  - split; [done|..]; unfold state_of; rewrite Eq; [apply Hs|]. intros d'. rewrite Hr. apply (ow_needs _ _ Hs d').
  - exists s'. split_and!; [done|done|congruence|congruence].
Qed.

Lemma handle_optional_spec d a s : handle_optional d a s =
  handle_actions (match a with Some a => [(d, a)] | None => [] end) s.
Proof. destruct a as [a|]; [|done]. cbn. by destruct (handle_action d a s). Qed.

(** The queue of [d] goes from [q] to [q'] with the action [a]. *)
Lemma owed_update actions s s1 d q' a :
  timers_ok s1 -> (forall d', runs s1 d' = runs s d') ->
  (forall d', state_of s1 d' = if decide (d' = d) then q' else state_of s d') ->
  (forall d', d' <> d -> planned actions d' (runs s d') = needs_timer (state_of s d')) ->
  (forall d', limited (state_of s d')) -> limited q' ->
  match a with
  | Some a => needs_timer q' = starts a
  | None => planned actions d (runs s d) = needs_timer q'
  end ->
  owed (actions ++ match a with Some a => [(d, a)] | None => [] end) s1.
Proof.
  intros Ht Hr Hq Hn Hl Hl' Ha. split; [done|..].
  - intros d'. rewrite Hq. by case_decide.
  - intros d'. rewrite Hq. destruct a as [a|].
    + rewrite planned_snoc, Hr. case_decide; [done|]. by apply Hn.
    + rewrite app_nil_r, Hr. case_decide as Hd; [by rewrite Hd|]. by apply Hn.
Qed.

Lemma owed_ext actions s s' : owed actions s -> timers s' = timers s -> running_timers s' = running_timers s ->
  (forall d, state_of s' d = state_of s d) -> owed actions s'.
Proof.
  intros [[Hr Ht Ho] Hl Hn] Et Er Es. split.
  - split; rewrite ?Et, ?Er; done.
  - intros d. by rewrite Es.
  - intros d. unfold runs. rewrite Er, Es. apply Hn.
Qed.

(** ** One event for one destination *)

(** Nothing but the queue of [d] changed, and [rs] was reported of it. *)
Definition changes s s' d (q' : ODQ.DeviceQueue) (rs : list ODQ.report) : Prop :=
  (forall d', state_of s' d' = if decide (d' = d) then q' else state_of s d') /\
  told s' = told s ++ (pair d <$> rs).

Lemma update_spec d fn q' a rs s : fn (state_of s d) = (q', a, rs) ->
  timers_ok s -> stored s -> (forall d', limited (state_of s d')) -> limited q' ->
  (forall d', d' <> d -> runs s d' = needs_timer (state_of s d')) ->
  match a with Some a => needs_timer q' = starts a | None => runs s d = needs_timer q' end ->
  exists s', update_and_handle_action d fn s = Ok s' /\ owed [] s' /\ stored s' /\ changes s s' d q' rs.
Proof.
  intros E Ht Hst Hl Hl' Hn Ha. unfold update_and_handle_action.
  change (default ODQ.Idle (queues s !! d)) with (state_of s d). rewrite E.
  set (s1 := if ODQ.is_idle q' then _ else _).
  assert (Hs1 : stored s1 /\ changes s s1 d q' rs /\ timers s1 = timers s /\ running_timers s1 = running_timers s).
  { unfold s1. destruct (ODQ.is_idle q') eqn:Ei; split_and!; try done.
    - intros d' q. cbn. rewrite lookup_delete_Some. intros [_ ?]. by eapply Hst.
    - split; [|reflexivity]. intros d'. unfold state_of. cbn. destruct (decide (d' = d)) as [->|].
      + rewrite lookup_delete_eq. by destruct q'.
      + by rewrite lookup_delete_ne.
    - intros d' q. cbn. rewrite lookup_insert_Some, lookup_delete_Some.
      intros [[_ <-]|[_ [_ ?]]]; [done|]. by eapply Hst.
    - split; [|reflexivity]. intros d'. unfold state_of. cbn. destruct (decide (d' = d)) as [->|].
      + by rewrite lookup_insert_eq.
      + by rewrite lookup_insert_ne, lookup_delete_ne. }
  clearbody s1. destruct Hs1 as (Hst1 & [Hq Htold] & Et & Er). rewrite handle_optional_spec.
  destruct (handle_actions_spec ([] ++ match a with Some a => [(d, a)] | None => [] end) s1) as (s' & E' & Ho & Eq & Etold).
  - apply (owed_update [] s s1 d q' a); try done.
    + destruct Ht. split; rewrite ?Et, ?Er; done.
    + intros d'. unfold runs. by rewrite Er.
  - exists s'. cbn [app] in E'. split_and!; [done|done| |].
    + intros d' q. rewrite Eq. apply Hst1.
    + split; [intros d'; unfold state_of; rewrite Eq; apply Hq|congruence].
Qed.

Lemma event_spec e d q' a rs s : dq_handle e (state_of s d) = (q', a, rs) -> event_limited e ->
  owed [] s -> stored s ->
  exists s', update_and_handle_action d (dq_handle e) s = Ok s' /\ owed [] s' /\ stored s' /\
    changes s s' d q' rs.
Proof.
  intros E He [Ht Hl Hn] Hst. destruct (handle_follows _ _ _ _ _ (Hl d) He E) as [Hf Hl'].
  apply (update_spec d _ q' a); try done.
  - intros d' _. apply (Hn d').
  - destruct a as [a|]; cbn in Hf; [done|]. rewrite Hf. apply (Hn d).
Qed.

Lemma timers_polled s d t q : owed [] s -> tdq_contents (DelayQ.inner (timers s)) !! t = Some d ->
  stored s -> DelayQ.finished q = false ->
  tdq_contents (DelayQ.inner q) = delete t (tdq_contents (DelayQ.inner (timers s))) ->
  exists s' q' a rs, on_timer d (set_timers q (running_timers s) s) = Ok s' /\
    dq_handle TimerFired (state_of s d) = (q', a, rs) /\ owed [] s' /\ stored s' /\ changes s s' d q' rs.
Proof.
  intros [Ht Hl Hn] Et Hst Hf Hq. pose proof (tm_owner _ Ht _ _ Et) as Ed.
  destruct (dq_handle TimerFired (state_of s d)) as [[q' a] rs] eqn:E.
  destruct (handle_follows TimerFired _ _ _ _ (Hl d) I E) as [Hfo Hl'].
  assert (needs_timer (state_of s d) = true) as Hneed.
  { rewrite <- (Hn d). cbn. unfold runs. rewrite Ed. by rewrite bool_decide_true by by eexists. }
  destruct (timer_fired_follows _ _ _ _ (Hl d) Hneed E) as [act ->]. cbn in Hfo.
  destruct (update_spec d (dq_handle TimerFired) q' (Some act) rs (set_timers q (delete d (running_timers s)) s)) as (s' & E' & ? & ? & ?).
  - exact E.
  - by apply (timers_ok_delete s d t).
  - done.
  - done.
  - done.
  - intros d' Hd. etransitivity; [|exact (Hn d')]. cbn. unfold runs. cbn. by rewrite lookup_delete_ne.
  - done.
  - exists s', q', (Some act), rs. by split_and!.
Qed.

(** ** The history of every destination *)

Definition reports (log : list obs) : list ODQ.report :=
  omap (fun o => match o with Reported t r => Some (t, r) | _ => None end) log.
Definition told_for s d : list ODQ.report := snd <$> filter (fun x => x.1 = d) (told s).
Definition given_in (es : list dq_event) : list ODQ.DeviceQueueItem :=
  omap (fun e => match e with EnqueueItem i => Some i | _ => None end) es.

(** Each queue is where a run of its own events gets it, and was heard to report what that
    run reports; [given] are the frames in those events. *)
Definition history s (given : AddressSpecification -> list ODQ.DeviceQueueItem) : Prop :=
  exists ev : AddressSpecification -> list dq_event, forall d,
    state_of s d = (dq_run (ev d) ODQ.Idle []).1 /\
    told_for s d = reports (dq_run (ev d) ODQ.Idle []).2 /\
    given_in (ev d) = given d.

Lemma dq_run_snoc es e q log :
  dq_run (es ++ [e]) q log = let '(q1, l1) := dq_run es q log in let '(q2, n) := dq_step e q1 in (q2, l1 ++ n).
Proof.
  revert q log. induction es as [|e' es IH]; intros q log; cbn [app dq_run].
  - by destruct (dq_step e q).
  - destruct (dq_step e' q) as [q1 n]. apply IH.
Qed.

Lemma reports_step e q q' a rs : dq_handle e q = (q', a, rs) ->
  exists n, dq_step e q = (q', n) /\ reports n = rs.
Proof.
  intros E. unfold dq_step. rewrite E. eexists. split; [reflexivity|]. unfold reports.
  rewrite !omap_app. assert (omap (fun o => match o with Reported t r => Some (t, r) | _ => None end) (seen e) = []) as ->
    by by destruct e.
  assert (omap (fun o => match o with Reported t r => Some (t, r) | _ => None end) (started_by q' a) = []) as ->.
  { unfold started_by. destruct a as [[]|]; [done|done| |done]. by destruct (items q'). }
  rewrite app_nil_r. cbn. clear E. induction rs as [|[t r] rs IH]; cbn; [done|]. by rewrite IH.
Qed.

Lemma filter_pair d d' (rs : list ODQ.report) :
  snd <$> filter (fun x : AddressSpecification * ODQ.report => x.1 = d') (pair d <$> rs) =
  if decide (d' = d) then rs else [].
Proof.
  induction rs as [|r rs IH]; cbn [fmap list_fmap]; [by case_decide|].
  destruct (decide (d' = d)) as [->|Hd].
  - rewrite filter_cons_True by done. cbn [fmap list_fmap]. by rewrite IH.
  - rewrite filter_cons_False by (cbn; congruence). done.
Qed.

Lemma history_step s s' given e d q' a rs : dq_handle e (state_of s d) = (q', a, rs) ->
  changes s s' d q' rs -> history s given ->
  history s' (fun d' => if decide (d' = d) then given d ++ given_in [e] else given d').
Proof.
  intros E [Hq Ht] [ev Hev]. exists (fun d' => if decide (d' = d) then ev d ++ [e] else ev d').
  intros d'. destruct (Hev d') as (Es & Er & Eg). rewrite Hq.
  unfold told_for. rewrite Ht, filter_app, fmap_app, filter_pair. fold (told_for s d').
  destruct (decide (d' = d)) as [->|]; [|by rewrite app_nil_r].
  rewrite dq_run_snoc. destruct (dq_run (ev d) ODQ.Idle []) as [q1 l1]. cbn in Es, Er. subst q1.
  destruct (reports_step _ _ _ _ _ E) as (n & -> & En). cbn. split_and!; [done| |].
  - unfold reports in *. rewrite omap_app. congruence.
  - unfold given_in in *. rewrite omap_app. cbn. congruence.
Qed.

Lemma history_ext s s' given given' : (forall d, state_of s' d = state_of s d) -> told s' = told s ->
  (forall d, given' d = given d) -> history s given -> history s' given'.
Proof.
  intros Hs Ht Hg [ev Hev]. exists ev. intros d. destruct (Hev d) as (? & ? & ?).
  unfold told_for. rewrite Hs, Ht, Hg. by split_and!.
Qed.

(** ** Every operation *)

Record queue_inv s (given : AddressSpecification -> list ODQ.DeviceQueueItem) : Prop := {
  qi_owed : owed [] s;
  qi_stored : stored s;
  qi_history : history s given;
}.

Lemma queue_inv_ext s s' given : timers s' = timers s -> running_timers s' = running_timers s ->
  queues s' = queues s -> told s' = told s -> queue_inv s given -> queue_inv s' given.
Proof.
  intros Et Er Eq Etold [Ho Hs Hh]. split.
  - apply (owed_ext _ s); try done. intros d. unfold state_of. by rewrite Eq.
  - intros d q. rewrite Eq. apply Hs.
  - apply (history_ext s s' given given); [|done|done|done]. intros d. unfold state_of. by rewrite Eq.
Qed.

(** The same frames as before, and [e]'s for [d] *)
Definition with_event (given : AddressSpecification -> list ODQ.DeviceQueueItem) d e :
    AddressSpecification -> list ODQ.DeviceQueueItem :=
  fun d' => if decide (d' = d) then given d ++ given_in [e] else given d'.

Lemma event_inv e d s given : event_limited e -> queue_inv s given ->
  exists s', update_and_handle_action d (dq_handle e) s = Ok s' /\ queue_inv s' (with_event given d e).
Proof.
  intros He [Ho Hs Hh]. destruct (dq_handle e (state_of s d)) as [[q' a] rs] eqn:E.
  destruct (event_spec e d q' a rs s E He Ho Hs) as (s' & E' & ? & ? & Hc).
  exists s'. split; [done|]. split; [done|done|]. by eapply history_step.
Qed.

Lemma same_given s given d e : given_in [e] = [] -> queue_inv s (with_event given d e) -> queue_inv s given.
Proof.
  intros He [Ho Hs Hh]. split; [done|done|]. eapply history_ext; [done|done| |exact Hh].
  intros d'. unfold with_event. rewrite He, app_nil_r. by case_decide; subst.
Qed.

Lemma ack_loop_spec z order actions s given : owed actions s -> history s given ->
  exists actions' s', ack_loop z order actions s = (actions', s') /\ owed actions' s' /\ history s' given.
Proof.
  revert actions s. induction order as [|d order IH]; intros actions s Ho Hh; cbn [ack_loop]; [by do 2 eexists|].
  destruct (queues s !! d) as [q|] eqn:Eq; [|by apply IH].
  assert (state_of s d = q) as Es by (unfold state_of; by rewrite Eq).
  destruct (ODQ.on_ack z q) as [[q' a] rs] eqn:E.
  assert (Eh : dq_handle (AckCame z) (state_of s d) = (q', a, rs)) by by rewrite Es.
  destruct (handle_follows (AckCame z) _ _ _ _ (ow_limited _ _ Ho d) I Eh) as [Hf Hl'].
  set (s1 := tell d rs (set_queues (<[d := q']> (queues s)) s)).
  assert (Hc : changes s s1 d q' rs).
  { split; [|done]. intros d'. unfold state_of, s1. cbn. case_decide as Hd; [subst; by rewrite lookup_insert_eq|].
    by rewrite lookup_insert_ne. }
  assert (Ho1 : owed (actions ++ match a with Some a => [(d, a)] | None => [] end) s1).
  { apply (owed_update actions s s1 d q' a); try done.
    - destruct (ow_timers _ _ Ho). by split.
    - apply Hc.
    - intros d' _. apply (ow_needs _ _ Ho).
    - apply Ho.
    - destruct a as [a|]; cbn in Hf; [done|]. rewrite Hf. apply (ow_needs _ _ Ho). }
  assert (Hh1 : history s1 given).
  { eapply history_ext; [| | |exact (history_step s s1 given (AckCame z) d q' a rs Eh Hc Hh)]; [done|done|].
    intros d'. cbn. rewrite app_nil_r. by case_decide; subst. }
  destruct a as [a|]; [|rewrite app_nil_r in Ho1]; by apply IH.
Qed.

Lemma on_ack_inv ord z s given : queue_inv s given -> exists s', on_ack ord z s = Ok s' /\ queue_inv s' given.
Proof.
  intros [Ho _ Hh]. unfold on_ack.
  destruct (ack_loop_spec z (iter_order _ ord 0 (fst <$> map_to_list (queues s))) [] s given Ho Hh)
    as (actions & s1 & -> & Ho1 & Hh1).
  set (s2 := set_queues _ s1).
  assert (Hq : forall d, state_of s2 d = state_of s1 d).
  { intros d. unfold state_of, s2. cbn. rewrite map_lookup_filter.
    destruct (queues s1 !! d) as [q|]; cbn; [|done]. by destruct q. }
  destruct (handle_actions_spec actions s2) as (s' & E & Ho' & Eq & Et).
  { by apply (owed_ext _ s1). }
  exists s'. split; [done|]. split; [done|..].
  - intros d q. rewrite Eq. unfold s2. cbn. by rewrite map_lookup_filter_Some; intros [_ ?].
  - apply (history_ext s2 s' given given); [intros d; unfold state_of; by rewrite Eq|done|done|].
    by apply (history_ext s1 s2 given given).
Qed.

Lemma timers_quiet s q given : queue_inv s given -> DelayQ.finished q = false ->
  tdq_contents (DelayQ.inner q) = tdq_contents (DelayQ.inner (timers s)) ->
  queue_inv (set_timers q (running_timers s) s) given.
Proof.
  intros [[[Hr Ht Ho] Hl Hn] Hs Hh] Hf Hq. split; [split; [split|..]|..]; cbn; rewrite ?Hq; done.
Qed.

Lemma poll_timers_inv envs w s given : queue_inv s given ->
  exists s', poll_timers envs w s = Ok s' /\ queue_inv s' given.
Proof.
  revert s. induction envs as [|env envs IH]; intros s Hs; cbn [poll_timers]; [by exists s|].
  unfold DelayQ.poll_next. rewrite (tm_running _ (ow_timers _ _ (qi_owed _ _ Hs))).
  pose proof (tdq_poll_spec env (DelayQ.inner (timers s))) as Hp.
  destruct (tdq_poll env (DelayQ.inner (timers s))) as [r i].
  destruct r as [[[d|x]|]|].
  - destruct Hp as (t & Et & Hi). cbn [DelayQ.get_ref unwrap mbind result_bind].
    destruct (timers_polled s d t {| DelayQ.inner := i; DelayQ.finished := false; DelayQ.waker := Some w |}
      (qi_owed _ _ Hs) Et (qi_stored _ _ Hs) eq_refl Hi) as (s1 & q' & a & rs & -> & E & ? & ? & Hc).
    cbn [mbind result_bind]. apply IH. apply (same_given _ _ d TimerFired eq_refl).
    split; [done|done|]. eapply history_step; [exact E|exact Hc|apply Hs].
  - apply IH. by apply timers_quiet.
  - eexists. split; [reflexivity|]. by apply timers_quiet.
  - eexists. split; [reflexivity|]. by apply timers_quiet.
Qed.

Lemma poll_flushed_inv l s given : queue_inv s given -> queue_inv (poll_flushed l s).2 given.
Proof.
  intros Hs. induction l as [|d l IH]; cbn; [by apply (queue_inv_ext s)|].
  destruct (queues s !! d); [done|]. by apply (queue_inv_ext s).
Qed.

Lemma poll_next_inv envs w s given : queue_inv s given ->
  exists r s', poll_next envs w s = Ok (r, s') /\ queue_inv s' given.
Proof.
  intros Hs. unfold poll_next.
  destruct (poll_timers_inv envs w (set_outgoing (outgoing s) (DelayQ.saved_set w (stream_waker s)) s) given)
    as (s1 & -> & Hs1); [by apply (queue_inv_ext s)|].
  cbn [mbind result_bind]. destruct (outgoing s1) as [|[d f] rest].
  - destruct (poll_flushed (flushed s1) s1) as [r s'] eqn:E. exists r, s'. split; [done|].
    pose proof (poll_flushed_inv (flushed s1) s1 given Hs1) as H. by rewrite E in H.
  - do 2 eexists. split; [reflexivity|]. by apply (queue_inv_ext s1).
Qed.

(** ** Every run *)

Definition new_item (token : N) (f : OldFrame.Frame) (rx : bool) : ODQ.DeviceQueueItem :=
  ODQ.item_new token f rx (Some (from_secs 10)) 5.
Definition given_for (l : list (AddressSpecification * ODQ.DeviceQueueItem)) d : list ODQ.DeviceQueueItem :=
  snd <$> filter (fun x => x.1 = d) l.

(** The states the queues can get into, and the frames they were given until then *)
Inductive queue_run : Queue -> list (AddressSpecification * ODQ.DeviceQueueItem) -> Prop :=
| run_new : queue_run new []
| run_enqueue token f rx s l s' : queue_run s l -> enqueue token f rx s = Ok s' ->
    queue_run s' (l ++ [(OldFrame.destination f, new_item token f rx)])
| run_ack ord z s l s' : queue_run s l -> on_ack ord z s = Ok s' -> queue_run s' l
| run_sent d b s l s' : queue_run s l -> on_send_result d b s = Ok s' -> queue_run s' l
| run_request d r s l s' : queue_run s l -> on_data_request d s = Ok (r, s') -> queue_run s' l
| run_poll envs w r s l s' : queue_run s l -> poll_next envs w s = Ok (r, s') -> queue_run s' l.

Lemma enqueue_inv token f rx s given : queue_inv s given -> exists s', enqueue token f rx s = Ok s' /\
  queue_inv s' (with_event given (OldFrame.destination f) (EnqueueItem (new_item token f rx))).
Proof. intros Hs. apply (event_inv (EnqueueItem (new_item token f rx))); [by eexists|done]. Qed.
Lemma sent_event_inv d b s given : queue_inv s given ->
  exists s', on_send_result d b s = Ok s' /\ queue_inv s' given.
Proof.
  intros Hs. destruct (event_inv (SendDone b) d s given I Hs) as (s' & E & Hs').
  exists s'. split; [exact E|]. by apply (same_given _ _ d (SendDone b)).
Qed.
Lemma request_event_inv d s given : queue_inv s given ->
  exists r s', on_data_request d s = Ok (r, s') /\ queue_inv s' given.
Proof.
  intros Hs. destruct (event_inv DataRequested d s given I Hs) as (s' & E & Hs').
  unfold on_data_request. change ODQ.on_data_request with (dq_handle DataRequested). rewrite E.
  do 2 eexists. split; [reflexivity|]. by apply (same_given _ _ d DataRequested).
Qed.

Lemma new_queue_inv : queue_inv new (fun _ => []).
Proof.
  split; [split; [split|..]|..]; cbn.
  - done.
  - intros d key. by rewrite lookup_empty.
  - intros t d. by rewrite tdq_new_spec, lookup_empty.
  - intros d. unfold state_of. cbn. rewrite lookup_empty. constructor.
  - intros d. unfold runs, state_of. cbn. rewrite !lookup_empty. by rewrite bool_decide_false by by intros [].
  - intros d q. cbn. by rewrite lookup_empty.
  - exists (fun _ => []). intros d. unfold state_of. cbn. by rewrite lookup_empty.
Qed.

Lemma given_for_snoc l d i d' : given_for (l ++ [(d, i)]) d' = if decide (d' = d) then given_for l d ++ [i] else given_for l d'.
Proof.
  unfold given_for. rewrite filter_app, fmap_app. destruct (decide (d' = d)) as [->|Hd].
  - by rewrite filter_cons_True by done.
  - rewrite filter_cons_False by (cbn; congruence). by rewrite app_nil_r.
Qed.

Lemma queue_run_inv s l : queue_run s l -> queue_inv s (given_for l).
Proof.
  induction 1 as [|token f rx s l s' _ IH E|ord z s l s' _ IH E|d b s l s' _ IH E|d r s l s' _ IH E|envs w r s l s' _ IH E].
  - apply new_queue_inv.
  - destruct (enqueue_inv token f rx s _ IH) as (s1 & E1 & [Ho Hs Hh]). rewrite E1 in E. injection E as <-. split; [exact Ho|exact Hs|].
    eapply history_ext; [done|done| |exact Hh]. intros d. by rewrite given_for_snoc.
  - destruct (on_ack_inv ord z s _ IH) as (s1 & E1 & Hs1). rewrite E1 in E. by injection E as <-.
  - destruct (sent_event_inv d b s _ IH) as (s1 & E1 & Hs1). rewrite E1 in E. by injection E as <-.
  - destruct (request_event_inv d s _ IH) as (r1 & s1 & E1 & Hs1). rewrite E1 in E. by injection E as _ <-.
  - destruct (poll_next_inv envs w s _ IH) as (r1 & s1 & E1 & Hs1). rewrite E1 in E. by injection E as _ <-.
Qed.

Lemma reports_reported log : (fst <$> reports log) = reported log.
Proof.
  unfold reports, reported. induction log as [|[] log IH]; cbn; try done. by rewrite IH.
Qed.

Lemma enqueued_given es q log : enqueued (dq_run es q log).2 = enqueued log ++ given_in es.
Proof.
  revert q log. induction es as [|e es IH]; intros q log; cbn [dq_run]; [by rewrite app_nil_r|].
  destruct (dq_step e q) as [q1 n] eqn:E. rewrite IH, enqueued_app, <- (assoc_L (++)). f_equal.
  unfold dq_step in E. destruct (dq_handle e q) as [[q2 a] rs]. injection E as _ <-.
  rewrite !enqueued_app. assert (enqueued ((fun '(t, r) => Reported t r) <$> rs) = []) as ->.
  { induction rs as [|[] rs IHr]; [done|]. exact IHr. }
  assert (enqueued (started_by q2 a) = []) as -> by (by destruct a as [[]|]; [..|]; try done; cbn; destruct (items q2)).
  unfold given_in. destruct e; cbn; by rewrite ?app_nil_r.
Qed.

(** Of frames given under different tokens, each destination's are reported once, in order. *)
Lemma queue_run_reports s l : queue_run s l -> NoDup (ODQ.callback <$> (snd <$> l)) -> forall d,
  ODQ.callback <$> given_for l d = (fst <$> told_for s d) ++ (ODQ.callback <$> items (state_of s d)).
Proof.
  intros Hr%queue_run_inv Hn d. destruct (qi_history _ _ Hr) as [ev Hev]. destruct (Hev d) as (Es & Et & Eg).
  rewrite Es, Et, <- Eg, reports_reported.
  pose proof (enqueued_given (ev d) ODQ.Idle []) as He.
  destruct (dq_run (ev d) ODQ.Idle []) as [q log] eqn:E. cbn [fst snd] in *. change (enqueued []) with (@nil ODQ.DeviceQueueItem) in He. cbn [app] in He.
  assert (Hnd : NoDup (ODQ.callback <$> enqueued log)).
  { rewrite He, Eg. eapply sublist_NoDup; [exact Hn|]. apply fmap_sublist. unfold given_for.
    apply fmap_sublist, sublist_filter. }
  destruct (dq_run_inv _ _ _ _ _ E Hnd dq_inv_new) as [[Ho _ _ _ _] _]. by rewrite <- He.
Qed.

(** C26: In every state the queues can get into, whatever timers ran out, acknowledgements came
    and sends succeeded, no operation panics; a timer is running for exactly the destinations
    whose queue waits for a data request or an acknowledgement; and, of the frames given
    under different tokens, each destination's were reported, each once, in the order they
    were given, as far as they are not still in its queue. *)
Theorem old_queues_deliver s l : queue_run s l ->
  (forall token f rx, exists s', enqueue token f rx s = Ok s') /\
  (forall ord z, exists s', on_ack ord z s = Ok s') /\
  (forall d b, exists s', on_send_result d b s = Ok s') /\
  (forall d, exists r s', on_data_request d s = Ok (r, s')) /\
  (forall envs w, exists r s', poll_next envs w s = Ok (r, s')) /\
  (forall d, is_Some (running_timers s !! d) <-> needs_timer (state_of s d) = true) /\
  (NoDup (ODQ.callback <$> (snd <$> l)) -> forall d,
    ODQ.callback <$> given_for l d = (fst <$> told_for s d) ++ (ODQ.callback <$> items (state_of s d))).
Proof.
  intros Hrun. pose proof (queue_run_inv _ _ Hrun) as Hr. split_and!.
  - intros token f rx. destruct (enqueue_inv token f rx s _ Hr) as (s' & E & _). by exists s'.
  - intros ord z. destruct (on_ack_inv ord z s _ Hr) as (s' & E & _). by exists s'.
  - intros d b. destruct (sent_event_inv d b s _ Hr) as (s' & E & _). by exists s'.
  - intros d. destruct (request_event_inv d s _ Hr) as (r & s' & E & _). by exists r, s'.
  - intros envs w. destruct (poll_next_inv envs w s _ Hr) as (r & s' & E & _). by exists r, s'.
  - intros d. rewrite <- (ow_needs _ _ (qi_owed _ _ Hr) d). cbn. unfold runs. by rewrite bool_decide_eq_true.
  - by apply queue_run_reports.
Qed.
End theory.

#[local] Existing Instance TokioDelayQueue_reference.
#[local] Existing Instance TokioDelayQueue_reference_laws.

Lemma old_queues_deliver_witness : exists s,
  queue_run s ([] ++ [(OldFrame.ASShort 1 2, new_item 0 sample_frame false)]) /\
  (is_Some (running_timers s !! OldFrame.ASShort 1 2) <-> needs_timer (state_of s (OldFrame.ASShort 1 2)) = true).
Proof.
  destruct (enqueue_inv 0 sample_frame false new _ new_queue_inv) as (s & E & _).
  pose proof (run_enqueue 0 sample_frame false new [] s run_new E) as Hr. exists s. split; [exact Hr|].
  exact (proj1 (proj2 (proj2 (proj2 (proj2 (proj2 (old_queues_deliver s _ Hr)))))) (OldFrame.ASShort 1 2)).
Defined.

(** A queue that an acknowledgement empties is dropped, but not reported as flushed: the
    service is never told to take the destination's pending bit back. *)
Definition acked_run : exec Queue :=
  s ← enqueue 0 sample_frame false new;
  '(_, s) ← on_data_request (OldFrame.ASShort 1 2) s;
  s ← on_send_result (OldFrame.ASShort 1 2) true s;
  on_ack (iter_identity _) 7 s.
Lemma ack_does_not_flush :
  match acked_run with
  | Ok s => queues s = ∅ /\ flushed s = [] /\ told s = [(OldFrame.ASShort 1 2, (0%N, Ok tt))]
  | Err _ => False
  end.
Proof. vm_compute. repeat split. Qed.
