(* ===== verification/OldQueueEffects.v ===== *)
(** * The first version's queues: what an operation does to what is sent

    [OldQueueTheory.v] follows timers and reports. Here are the frames that are given out to be
    sent: a destination's queue waits for the result of a sending exactly as often as a frame
    of it was launched, and no operation but a new frame makes a destination wait for a data
    request that did not before. *)

From Stdlib Require Import ZArith Lia.
From S2P Require Import Prelude.
From S2P Require Import Async.
From S2P Require Import OldFrame.
From S2P Require Import DelayQueue.
From S2P Require Import OldDeviceQueue.
From S2P Require Import OldDeviceQueueTheory.
From S2P Require Import OldQueue.
From S2P Require Import OldQueueTheory.

Import OldQueue.

(** ** One queue *)

Definition sending (q : ODQ.DeviceQueue) : nat :=
  match q with ODQ.SendStarted _ _ _ => 1 | _ => 0 end.
(** A frame of the queue waits, or will wait, for a data request. *)
Definition waits (q : ODQ.DeviceQueue) : Prop :=
  Exists (fun i => ODQ.wait_for_datarequest i = true) (items q).
Definition launch (d : AddressSpecification) (a : option ODQ.DeviceQueueAction) :
    list (AddressSpecification * OldFrame.Frame) :=
  match a with Some (ODQ.StopTimerStartSend f) => [(d, f)] | _ => [] end.
Definition launches (a : option ODQ.DeviceQueueAction) : nat :=
  match a with Some (ODQ.StopTimerStartSend _) => 1 | _ => 0 end.
(** The sending that an event ends *)
Definition ended (e : dq_event) (q : ODQ.DeviceQueue) : nat :=
  match e with SendDone _ => sending q | _ => 0 end.

Lemma start_send_effect f l q a : ODQ.start_send f l = (q, a) ->
  sending q = launches a /\ items q = f :: l /\ ODQ.is_idle q = false.
Proof.
  unfold ODQ.start_send. destruct (ODQ.wait_for_datarequest f); intros [= <- <-]; [|done].
  by destruct (ODQ.max_wait_for_datarequest f).
Qed.
Lemma restart_effect l q a : ODQ.restart_from_queue l = (q, a) -> sending q = launches a /\ items q = l.
Proof. destruct l; [by intros [= <- <-]|]. intros (? & ? & _)%start_send_effect. done. Qed.
Lemma retry_effect f l q a rs : ODQ.retry_send f l = (q, a, rs) ->
  sending q = launches a /\ (waits q -> Exists (fun i => ODQ.wait_for_datarequest i = true) (f :: l)).
Proof.
  unfold ODQ.retry_send, ODQ.report_front. unfold waits. case_decide; intros [= E _].
  - apply restart_effect in E as [? ->]. split; [done|]. by right.
  - apply start_send_effect in E as (? & -> & _). split; [done|]. rewrite !Exists_cons. done.
Qed.
Lemma report_effect f r l q a rs : ODQ.report_front f r l = (q, a, rs) ->
  sending q = launches a /\ (waits q -> Exists (fun i => ODQ.wait_for_datarequest i = true) (f :: l)).
Proof. intros [= [? Ei]%restart_effect _]. split; [done|]. unfold waits. rewrite Ei. by right. Qed.

Lemma waits_snoc q q' i : items q' = items q ++ [i] ->
  waits q' -> waits q \/ exists j, EnqueueItem i = EnqueueItem j /\ ODQ.wait_for_datarequest j = true.
Proof.
  unfold waits. intros ->. rewrite Exists_app. intros [?|[?|?%Exists_nil]%Exists_cons]; [by left| |done].
  right. by exists i.
Qed.

Lemma handle_effect e q q' a rs : dq_handle e q = (q', a, rs) ->
  (sending q' + ended e q = sending q + launches a)%nat /\
  (waits q' -> waits q \/ exists i, e = EnqueueItem i /\ ODQ.wait_for_datarequest i = true) /\
  (ODQ.is_idle q = true -> ODQ.is_idle q' = true \/ exists i, e = EnqueueItem i).
Proof.
  assert (Hk : forall f l (q1 q2 : ODQ.DeviceQueue) e a, items q1 = f :: l -> ODQ.is_idle q1 = false ->
    (sending q2 + ended e q1 = sending q1 + launches a)%nat /\
    (waits q2 -> Exists (fun i => ODQ.wait_for_datarequest i = true) (f :: l)) ->
    (sending q2 + ended e q1 = sending q1 + launches a)%nat /\
    (waits q2 -> waits q1 \/ exists i, e = EnqueueItem i /\ ODQ.wait_for_datarequest i = true) /\
    (ODQ.is_idle q1 = true -> ODQ.is_idle q2 = true \/ exists i, e = EnqueueItem i)).
  { intros f l q1 q2 e1 a1 Ei Eq [? Hw]. split_and!; [done| |congruence]. intros Hq%Hw. left.
    unfold waits. by rewrite Ei. }
  destruct e as [i| | |b|x], q as [|f l|f l w|f l w]; cbn [dq_handle]; unfold ODQ.enqueue, ODQ.on_timer,
    ODQ.on_data_request, ODQ.on_send_result, ODQ.on_ack; intros E;
    try (injection E as <- <- <-; split_and!; [done|by left|by left]).
  - injection E as E <-. apply start_send_effect in E as (Es & Ei & _). split_and!; [cbn; lia| |by right; eexists].
    unfold waits. rewrite Ei. intros [Hw|Hw]%Exists_cons; [|by apply Exists_nil in Hw]. right. by exists i.
  - injection E as <- <- <-. split_and!; [done|by apply waits_snoc|done].
  - injection E as <- <- <-. split_and!; [done|by apply waits_snoc|done].
  - injection E as <- <- <-. split_and!; [done|by apply waits_snoc|done].
  - apply (Hk f l); [done..|]. apply report_effect in E as [? ?]. cbn. split; [lia|done].
  - apply (Hk f l); [done..|]. apply retry_effect in E as [? ?]. cbn. split; [lia|done].
  - apply (Hk f l); [done..|]. destruct b; cbn [negb] in E.
    + destruct w as [w|]; [by injection E as <- <- <-|]. apply report_effect in E as [? ?]. cbn. split; [lia|done].
    + apply retry_effect in E as [? ?]. cbn. split; [lia|done].
  - apply (Hk f l); [done..|]. case_decide; [|by injection E as <- <- <-].
    apply report_effect in E as [? ?]. cbn. split; [lia|done].
Qed.

(** ** All queues *)

Section effects.
Context `{!TokioDelayQueue AddressSpecification}.
Implicit Types (s : Queue) (d : AddressSpecification).

Definition launched s d : nat := length (filter (fun x => x.1 = d) (outgoing s)).
Definition backlog s : nat := (length (outgoing s) + length (flushed s))%nat.

Lemma stop_timer_effect d s s' : stop_timer d s = Ok s' ->
  outgoing s' = outgoing s /\ flushed s' = flushed s /\ queues s' = queues s.
Proof.
  unfold stop_timer. destruct (running_timers s !! d); [|by intros [= <-]].
  intros E. bind_inv. done.
Qed.

Lemma handle_action_effect d a s s' : handle_action d a s = Ok s' ->
  outgoing s' = outgoing s ++ launch d (Some a) /\ flushed s' = flushed s /\ queues s' = queues s.
Proof.
  destruct a; cbn [handle_action launch]; rewrite ?app_nil_r.
  - destruct (running_timers s !! d); [intros E; by bind_inv|]. destruct (DelayQ.insert _ _ _).
    by intros [= <-].
  - apply stop_timer_effect.
  - intros (s1 & (Eo & Ef & Eq)%stop_timer_effect & E)%result_bind_Ok. injection E as <-. cbn. by rewrite Eo.
Qed.

Lemma update_effect d fn s s' q' a rs : fn (state_of s d) = (q', a, rs) ->
  update_and_handle_action d fn s = Ok s' ->
  outgoing s' = outgoing s ++ launch d a /\
  flushed s' = flushed s ++ (if ODQ.is_idle q' then [d] else []) /\
  queues s' = (if ODQ.is_idle q' then delete d (queues s) else <[d := q']> (delete d (queues s))).
Proof.
  unfold update_and_handle_action. change (default ODQ.Idle (queues s !! d)) with (state_of s d). intros ->.
  destruct (ODQ.is_idle q'), a as [a|]; cbn [handle_optional];
    [intros (Eo & Ef & Eq)%handle_action_effect|intros [= <-]|intros (Eo & Ef & Eq)%handle_action_effect|intros [= <-]];
    rewrite ?Eo, ?Ef, ?Eq; cbn; rewrite ?app_nil_r; done.
Qed.

Lemma state_of_update s s' d q' :
  queues s' = (if ODQ.is_idle q' then delete d (queues s) else <[d := q']> (delete d (queues s))) ->
  forall d', state_of s' d' = if decide (d' = d) then q' else state_of s d'.
Proof.
  intros E d'. unfold state_of. rewrite E. destruct (ODQ.is_idle q') eqn:Ei.
  - case_decide as Hd; [subst; rewrite lookup_delete_eq; by destruct q'|by rewrite lookup_delete_ne].
  - case_decide as Hd; [subst; by rewrite lookup_insert_eq|by rewrite lookup_insert_ne, lookup_delete_ne].
Qed.

Lemma launched_launch s s' d a d' : outgoing s' = outgoing s ++ launch d a ->
  launched s' d' = (launched s d' + if decide (d' = d) then launches a else 0)%nat.
Proof.
  intros E. unfold launched. rewrite E, filter_app, length_app. f_equal.
  destruct a as [[]|]; cbn; try (by case_decide).
  repeat case_decide; try done; congruence.
Qed.

(** ** Operations that end no sending *)

(** [n] bounds what the service will find to do. *)
Record quiet (n : nat) s s' : Prop := {
  qt_sends d : (launched s' d + sending (state_of s d) = launched s d + sending (state_of s' d))%nat;
  qt_waits d : waits (state_of s' d) -> waits (state_of s d);
  qt_size : (size (queues s') <= size (queues s))%nat;
  qt_backlog : (backlog s' <= backlog s + n)%nat;
}.

Lemma quiet_same n s s' : outgoing s' = outgoing s -> queues s' = queues s -> flushed s' = flushed s -> quiet n s s'.
Proof. intros Eo Eq Ef. split; unfold launched, backlog, state_of; rewrite ?Eo, ?Eq, ?Ef; lia || done. Qed.
Lemma quiet_trans n m s s1 s2 : quiet n s s1 -> quiet m s1 s2 -> quiet (n + m) s s2.
Proof.
  intros [S1 W1 Z1 B1] [S2 W2 Z2 B2]. split; [|by eauto|lia|lia].
  intros d. specialize (S1 d). specialize (S2 d). lia.
Qed.

Lemma size_reinsert s d q' :
  (ODQ.is_idle (state_of s d) = true -> ODQ.is_idle q' = true) ->
  (size (if ODQ.is_idle q' then delete d (queues s) else <[d := q']> (delete d (queues s))) <= size (queues s))%nat.
Proof.
  intros Hi. destruct (queues s !! d) as [q|] eqn:E.
  - assert (size (delete d (queues s)) = pred (size (queues s))) as Hd by by apply map_size_delete_Some.
    assert (size (queues s) <> 0%nat).
    { rewrite map_size_ne_0_lookup. by eauto. }
    destruct (ODQ.is_idle q'); [lia|]. rewrite map_size_insert, lookup_delete_eq. lia.
  - rewrite delete_id by done. unfold state_of in Hi. rewrite E in Hi. by rewrite Hi.
Qed.

(** An event that neither ends a sending nor brings a new frame *)
Lemma event_quiet e d s s' : update_and_handle_action d (dq_handle e) s = Ok s' ->
  match e with EnqueueItem _ | SendDone _ => False | _ => True end -> quiet 1 s s'.
Proof.
  intros E He. destruct (dq_handle e (state_of s d)) as [[q' a] rs] eqn:Eh.
  destruct (update_effect _ _ _ _ _ _ _ Eh E) as (Eo & Ef & Eq).
  apply handle_effect in Eh as (Hs & Hw & Hi).
  assert (ended e (state_of s d) = 0%nat) as He0 by by destruct e. rewrite He0 in Hs.
  pose proof (state_of_update _ _ _ _ Eq) as Est. split.
  - intros d'. rewrite (launched_launch _ _ _ _ _ Eo), Est. case_decide; [subst|]; lia.
  - intros d'. rewrite Est. case_decide; [subst|done]. intros [?|(i & -> & _)]%Hw; done.
  - rewrite Eq. apply size_reinsert. intros [?|[i ->]]%Hi; done.
  - unfold backlog. rewrite Eo, Ef, !length_app. destruct (ODQ.is_idle q') eqn:Eidle.
    + assert (launches a = 0%nat) as Ha by (destruct q'; cbn in *; lia || done).
      destruct a as [[]|]; cbn in *; lia.
    + destruct a as [[]|]; cbn; lia.
Qed.

Lemma data_request_quiet d s r s' : on_data_request d s = Ok (r, s') ->
  quiet 1 s s' /\ (r = false -> state_of s' d = ODQ.Idle).
Proof.
  unfold on_data_request. intros (s1 & E & [= <- <-])%result_bind_Ok. split; [by apply (event_quiet DataRequested d)|].
  unfold state_of. destruct (queues s1 !! d) as [[]|]; done.
Qed.

Lemma ack_loop_quiet z order actions s actions' s' : ack_loop z order actions s = (actions', s') ->
  outgoing s' = outgoing s /\ flushed s' = flushed s /\ size (queues s') = size (queues s) /\
  exists new, actions' = actions ++ new /\ (length new <= length order)%nat /\ forall d,
    (length (filter (fun x => x.1 = d) (new ≫= fun x => launch x.1 (Some x.2))) + sending (state_of s d) =
      sending (state_of s' d))%nat /\
    (waits (state_of s' d) -> waits (state_of s d)).
Proof.
  revert actions s. induction order as [|k order IH]; intros actions s; cbn [ack_loop].
  { intros [= <- <-]. split_and!; try done. exists []. rewrite app_nil_r. split_and!; [done..|]. intros d. by split. }
  destruct (queues s !! k) as [q|] eqn:Ek; [|intros (? & ? & ? & new & -> & ? & H)%IH; split_and!; [done..|];
    exists new; split_and!; [done|cbn; lia|done]].
  destruct (ODQ.on_ack z q) as [[q' a] rs] eqn:E.
  assert (state_of s k = q) as Es by (unfold state_of; by rewrite Ek).
  destruct (handle_effect (AckCame z) _ _ _ _ E) as (Hs & Hw & _). cbn [ended] in Hs.
  set (s1 := tell k rs (set_queues (<[k := q']> (queues s)) s)).
  intros (Eo & Ef & Ez & new & -> & Hl & H)%IH. split_and!; [done|done|..].
  { rewrite Ez. cbn. apply map_size_insert_Some. by eauto. }
  assert (Es1 : forall d, state_of s1 d = if decide (d = k) then q' else state_of s d).
  { intros d. unfold state_of, s1. cbn. case_decide; [subst; by rewrite lookup_insert_eq|by rewrite lookup_insert_ne]. }
  exists ((match a with Some a => [(k, a)] | None => [] end) ++ new). split_and!.
  - destruct a; [by rewrite <- (assoc_L (++))|done].
  - rewrite length_app. destruct a; cbn; lia.
  - intros d. destruct (H d) as [Hd Hwd]. rewrite Es1 in Hd, Hwd. rewrite bind_app, filter_app, length_app. split.
    + assert (length (filter (fun x => x.1 = d) (match a with Some a => [(k, a)] | None => [] end ≫= fun x => launch x.1 (Some x.2))) =
        if decide (d = k) then launches a else 0)%nat as ->.
      { destruct a as [[]|]; cbn; try (by case_decide). repeat case_decide; try done; congruence. }
      case_decide; [subst|]; lia.
    + intros Hx%Hwd. case_decide; [subst|done]. apply Hw in Hx as [?|(i & ? & _)]; done.
Qed.

Lemma handle_actions_effect actions s s' : handle_actions actions s = Ok s' ->
  outgoing s' = outgoing s ++ (actions ≫= fun x => launch x.1 (Some x.2)) /\ flushed s' = flushed s /\ queues s' = queues s.
Proof.
  revert s. induction actions as [|[d a] actions IH]; intros s; cbn [handle_actions].
  { intros [= <-]. by rewrite app_nil_r. }
  intros (s1 & (Eo & Ef & Eq)%handle_action_effect & (Eo' & Ef' & Eq')%IH)%result_bind_Ok.
  rewrite Eo', Eo, Ef', Eq'. cbn [mbind list_bind fst snd]. by rewrite <- (assoc_L (++)).
Qed.

Lemma launch_length actions :
  (length (actions ≫= fun x : AddressSpecification * ODQ.DeviceQueueAction => launch x.1 (Some x.2)) <= length actions)%nat.
Proof. induction actions as [|[d []] actions IH]; cbn in *; lia. Qed.

Lemma on_ack_quiet ord z s s' : on_ack ord z s = Ok s' -> quiet (size (queues s)) s s'.
Proof.
  unfold on_ack. set (order := iter_order _ ord 0 (fst <$> map_to_list (queues s))).
  assert (length order = size (queues s)) as Hlen.
  { unfold order. rewrite iter_order_perm, length_fmap. by rewrite length_map_to_list. }
  destruct (ack_loop z order [] s) as [actions s1] eqn:E.
  apply ack_loop_quiet in E as (Eo & Ef & Ez & new & -> & Hl & H). cbn [app].
  set (s2 := set_queues _ s1). intros (Eo' & Ef' & Eq')%handle_actions_effect.
  assert (Es : forall d, state_of s' d = state_of s1 d).
  { intros d. unfold state_of. rewrite Eq'. unfold s2. cbn. rewrite map_lookup_filter.
    destruct (queues s1 !! d) as [[]|]; done. }
  split.
  - intros d. destruct (H d) as [Hd _]. rewrite Es. unfold launched. rewrite Eo', filter_app, length_app. change (outgoing s2) with (outgoing s1). rewrite Eo. lia.
  - intros d. rewrite Es. apply H.
  - rewrite Eq', <- Ez. apply map_size_filter.
  - unfold backlog. rewrite Eo', Ef', length_app. change (outgoing s2) with (outgoing s1).
    change (flushed s2) with (flushed s1). rewrite Eo, Ef. pose proof (launch_length new). lia.
Qed.

Lemma poll_timers_quiet envs w s s' : poll_timers envs w s = Ok s' -> quiet (length envs) s s'.
Proof.
  revert s. induction envs as [|env envs IH]; intros s; cbn [poll_timers]; [intros [= <-]; by apply quiet_same|].
  destruct (DelayQ.poll_next env w (timers s)) as [r t].
  assert (forall r, quiet (length envs) (set_timers t (running_timers s) s) r -> quiet (length (env :: envs)) s r) as Hk.
  { intros r' Hr. change (length (env :: envs)) with (1 + length envs)%nat. eapply quiet_trans; [|exact Hr]. by apply quiet_same. }
  destruct r as [[[x|x]|]|].
  - intros (d & _ & (s1 & E & Hs)%result_bind_Ok)%result_bind_Ok.
    change (length (env :: envs)) with (1 + length envs)%nat. eapply quiet_trans; [|by apply IH].
    apply (event_quiet TimerFired d) in E; [|done].
    change 1%nat with (0 + 1)%nat. eapply quiet_trans; [|exact E]. by apply quiet_same.
  - intros Hs%IH. by apply Hk.
  - intros [= <-]. apply Hk. by apply quiet_same.
  - intros [= <-]. apply Hk. by apply quiet_same.
Qed.

Lemma poll_flushed_effect l s :
  let '(r, s') := poll_flushed l s in
  outgoing s' = outgoing s /\ queues s' = queues s /\
  match r with
  | Pending => flushed s' = []
  | Ready (Some (QueueFlushed d)) => (length (flushed s') < length l)%nat /\ state_of s' d = ODQ.Idle
  | _ => False
  end.
Proof.
  induction l as [|d l IH]; cbn [poll_flushed]; [done|]. destruct (queues s !! d) as [q|] eqn:E.
  - destruct (poll_flushed l s) as [r s']. destruct IH as (? & ? & Hr). split_and!; [done..|].
    destruct r as [[[]|]|]; try done. destruct Hr. split; [cbn; lia|done].
  - cbn. split_and!; [done|done|lia|]. unfold state_of. cbn. by rewrite E.
Qed.

(** What a poll of the queues gives *)
Lemma poll_quiet envs w s r s' : poll_next envs w s = Ok (r, s') ->
  exists s1, quiet (length envs) s s1 /\ queues s' = queues s1 /\
  match r with
  | Ready (Some (OutgoingFrame d f)) => outgoing s1 = (d, f) :: outgoing s' /\ flushed s' = flushed s1
  | Ready (Some (QueueFlushed d)) => outgoing s' = outgoing s1 /\ (backlog s' < backlog s1)%nat /\ state_of s' d = ODQ.Idle
  | Ready None => False
  | Pending => outgoing s' = outgoing s1 /\ backlog s' = 0%nat
  end.
Proof.
  unfold poll_next. intros (s1 & E & H)%result_bind_Ok. apply poll_timers_quiet in E. exists s1. split.
  { change (length envs) with (0 + length envs)%nat. eapply quiet_trans; [|exact E]. by apply quiet_same. }
  destruct (outgoing s1) as [|[d f] rest] eqn:Eo.
  - injection H as H. pose proof (poll_flushed_effect (flushed s1) s1) as He. rewrite H in He.
    destruct He as (Eo' & Eq & Hr). split; [done|]. rewrite Eo in Eo'.
    destruct r as [[[]|]|]; try done; unfold backlog; rewrite ?Eo, Eo'; cbn.
    + destruct Hr. by split_and!.
    + by rewrite Hr.
  - injection H as <- <-. done.
Qed.

(** ** New frames and results of sending *)

Lemma enqueue_effect token f rx s s' : enqueue token f rx s = Ok s' ->
  (forall d, (launched s' d + sending (state_of s d) = launched s d + sending (state_of s' d))%nat) /\
  (forall d, waits (state_of s' d) -> waits (state_of s d) \/ (d = OldFrame.destination f /\ rx = false)).
Proof.
  unfold enqueue. intros E. set (i := ODQ.item_new token f rx (Some (from_secs 10)) 5) in *. set (d := OldFrame.destination f) in *.
  change (ODQ.enqueue i) with (dq_handle (EnqueueItem i)) in E.
  destruct (dq_handle (EnqueueItem i) (state_of s d)) as [[q' a] rs] eqn:Eh.
  destruct (update_effect _ _ _ _ _ _ _ Eh E) as (Eo & Ef & Eq).
  apply handle_effect in Eh as (Hs & Hw & _). cbn [ended] in Hs.
  pose proof (state_of_update _ _ _ _ Eq) as Est. split.
  - intros d'. rewrite (launched_launch _ _ _ _ _ Eo), Est. case_decide; [subst|]; lia.
  - intros d'. rewrite Est. case_decide as Hd; [|by left]. rewrite Hd. intros [?|(i' & [= <-] & Hi)]%Hw; [by left|].
    right. split; [done|]. by destruct rx.
Qed.

Lemma send_result_effect d b s s' : on_send_result d b s = Ok s' ->
  (forall d', (launched s' d' + sending (state_of s d') =
     launched s d' + sending (state_of s' d') + if decide (d' = d) then sending (state_of s d) else 0)%nat) /\
  (forall d', waits (state_of s' d') -> waits (state_of s d')).
Proof.
  unfold on_send_result. intros E. change (ODQ.on_send_result b) with (dq_handle (SendDone b)) in E.
  destruct (dq_handle (SendDone b) (state_of s d)) as [[q' a] rs] eqn:Eh.
  destruct (update_effect _ _ _ _ _ _ _ Eh E) as (Eo & Ef & Eq).
  apply handle_effect in Eh as (Hs & Hw & _). cbn [ended] in Hs.
  pose proof (state_of_update _ _ _ _ Eq) as Est. split.
  - intros d'. rewrite (launched_launch _ _ _ _ _ Eo), Est. case_decide; [subst|]; lia.
  - intros d'. rewrite Est. case_decide; [subst|done]. intros [?|(i & ? & _)]%Hw; done.
Qed.
End effects.
