(* ===== verification/OldMacService.v ===== *)
(** * The first version's MAC service ([old_src/ieee802154/mac/service.rs], [old_src/main.rs])

    What composes the first version: packets of the radio become events and calls of the
    queues, what the queues want to send becomes calls of the radio, and the destinations
    with frames to fetch are kept in the set of pending addresses and its slots in the
    radio. The radio's bridge is the state of [RawService.v]; a call is made when the method
    is called, and its future is the channel of its request id with the function that reads
    the answer. A queued frame's future is the channel numbered by [channels]. *)

From Stdlib Require Import ZArith Lia.
From S2P Require Import Prelude.
From S2P Require Import Async.
From S2P Require Import BiMap.
From S2P Require Import BitField.
From S2P Require Import Bytes.
From S2P Require Import ParseSerialize.
From S2P Require Import OldFrame.
From S2P Require Import MruSet.
From S2P Require Import SerialProtocol.
From S2P Require Import RawService.
From S2P Require Import BridgeService.
From S2P Require Import DelayQueue.
From S2P Require Import OldDeviceQueue.
From S2P Require Import OldQueue.

#[local] Open Scope Z_scope.

Module OldService.

Abbreviation AddressSpecification := OldFrame.AddressSpecification.

Record NodeInformation := { receiver_on_when_idle : bool }.

Inductive Event :=
| BeaconRequest
| AssociationRequest (source : Z) (receive_on_when_idle : bool).

(** The future of a typed call: an error from the start, or the channel of a request and what
    is made of its answer *)
Inductive RadioFuture (A : Type) :=
| FailedCall (e : Bridge.Error)
| AwaitAnswer (channel : N) (read : Bridge.answer_reader A).
Arguments FailedCall {A}. Arguments AwaitAnswer {A}.

(** A call of the bridge: the request goes out at once, under the next request id. *)
Definition call_radio {A} (o : Bridge.outgoing A) (r : OldRaw.RadioBridgeService) :
    exec (RadioFuture A * OldRaw.RadioBridgeService) :=
  match o with
  | Bridge.Call request read =>
      let channel := Z.to_N (OldRaw.next_available_request_id (OldRaw.dispatcher r)) in
      r ← OldRaw.call channel request r; Ok (AwaitAnswer channel read, r)
  | Bridge.Failed e => Ok (FailedCall e, r)
  end.

Definition answer_on (channel : N) (l : list (N * result OldRaw.Error (list Z))) :
    option (result OldRaw.Error (list Z)) :=
  snd <$> head (filter (fun x => x.1 = channel) l).

Definition poll_radio {A} (r : OldRaw.RadioBridgeService) (f : RadioFuture A) :
    exec (Poll (result Bridge.Error A)) :=
  match f with
  | FailedCall e => Ok (Ready (Err e))
  | AwaitAnswer channel read =>
      match answer_on channel (OldRaw.resolved (OldRaw.dispatcher r)) with
      | Some answer => x ← read answer; Ok (Ready x)
      | None => Ok Pending
      end
  end.

(** [try_join] and [try_join5]: the futures are polled in order, and the first error ends it. *)
Fixpoint poll_join (r : OldRaw.RadioBridgeService) (fs : list (RadioFuture unit)) :
    exec (Poll (result Bridge.Error unit)) :=
  match fs with
  | [] => Ok (Ready (Ok tt))
  | f :: fs =>
      p ← poll_radio r f;
      match p with
      | Ready (Err e) => Ok (Ready (Err e))
      | Ready (Ok _) => poll_join r fs
      | Pending =>
          q ← poll_join r fs;
          match q with Ready (Err e) => Ok (Ready (Err e)) | _ => Ok Pending end
      end
  end.

Section service.
Context `{!ParseSerialize, !BitRange, !BytesBuf, !TokioDelayQueue AddressSpecification}.
Context {M : Type} `{!BiMap Z Z M}.

Inductive Error :=
| RadioError (e : Bridge.Error)
| Unimplemented
| SerializationError (e : SerializeError)
| NodeNotAssociated
| QueueError (e : ODQ.DeviceQueueError).

(** The futures of the service's own methods *)
Inductive SendFuture := SendFailed (e : Error) | Sending (f : RadioFuture unit).
Inductive ReplyFuture := ReplyFailed (e : Error) | AwaitReport (channel : N).

Record Service := {
  packet_stream : list OldRaw.IncomingPacket;
  stream_ended : bool;
  radio : OldRaw.RadioBridgeService;
  sequence_number : Z;
  pan_id : Z;
  short_address : Z;
  extended_address : Z;
  associations : M;
  nodeinfo : gmap Z NodeInformation;
  queue : OldQueue.Queue;
  inflight : gmap AddressSpecification SendFuture;
  pending_data_set : Mru.MRUAddressSet;
  channels : N;
}.

(** Field updates *)
Definition set_packet_stream x (s : Service) : Service :=
  {| packet_stream := x; stream_ended := stream_ended s; radio := radio s;
     sequence_number := sequence_number s; pan_id := pan_id s; short_address := short_address s;
     extended_address := extended_address s; associations := associations s; nodeinfo := nodeinfo s;
     queue := queue s; inflight := inflight s; pending_data_set := pending_data_set s; channels := channels s |}.
Definition set_radio x (s : Service) : Service :=
  {| packet_stream := packet_stream s; stream_ended := stream_ended s; radio := x;
     sequence_number := sequence_number s; pan_id := pan_id s; short_address := short_address s;
     extended_address := extended_address s; associations := associations s; nodeinfo := nodeinfo s;
     queue := queue s; inflight := inflight s; pending_data_set := pending_data_set s; channels := channels s |}.
Definition set_sequence_number x (s : Service) : Service :=
  {| packet_stream := packet_stream s; stream_ended := stream_ended s; radio := radio s;
     sequence_number := x; pan_id := pan_id s; short_address := short_address s;
     extended_address := extended_address s; associations := associations s; nodeinfo := nodeinfo s;
     queue := queue s; inflight := inflight s; pending_data_set := pending_data_set s; channels := channels s |}.
Definition set_nodes a n (s : Service) : Service :=
  {| packet_stream := packet_stream s; stream_ended := stream_ended s; radio := radio s;
     sequence_number := sequence_number s; pan_id := pan_id s; short_address := short_address s;
     extended_address := extended_address s; associations := a; nodeinfo := n;
     queue := queue s; inflight := inflight s; pending_data_set := pending_data_set s; channels := channels s |}.
Definition set_queue x (s : Service) : Service :=
  {| packet_stream := packet_stream s; stream_ended := stream_ended s; radio := radio s;
     sequence_number := sequence_number s; pan_id := pan_id s; short_address := short_address s;
     extended_address := extended_address s; associations := associations s; nodeinfo := nodeinfo s;
     queue := x; inflight := inflight s; pending_data_set := pending_data_set s; channels := channels s |}.
Definition set_inflight x (s : Service) : Service :=
  {| packet_stream := packet_stream s; stream_ended := stream_ended s; radio := radio s;
     sequence_number := sequence_number s; pan_id := pan_id s; short_address := short_address s;
     extended_address := extended_address s; associations := associations s; nodeinfo := nodeinfo s;
     queue := queue s; inflight := x; pending_data_set := pending_data_set s; channels := channels s |}.
Definition set_pending x (s : Service) : Service :=
  {| packet_stream := packet_stream s; stream_ended := stream_ended s; radio := radio s;
     sequence_number := sequence_number s; pan_id := pan_id s; short_address := short_address s;
     extended_address := extended_address s; associations := associations s; nodeinfo := nodeinfo s;
     queue := queue s; inflight := inflight s; pending_data_set := x; channels := channels s |}.
Definition next_channel (s : Service) : N * Service :=
  (channels s,
   {| packet_stream := packet_stream s; stream_ended := stream_ended s; radio := radio s;
      sequence_number := sequence_number s; pan_id := pan_id s; short_address := short_address s;
      extended_address := extended_address s; associations := associations s; nodeinfo := nodeinfo s;
      queue := queue s; inflight := inflight s; pending_data_set := pending_data_set s;
      channels := (channels s + 1)%N |}).

(** ** Starting up

    [Service::new] makes its first call when it is called; the future it returns is a state
    machine, and whatever has been answered when it is polled takes it on. *)

Inductive Starting :=
| GettingMaxPower (f : RadioFuture Z)
| SettingProperties (fs : list (RadioFuture unit))
| TurningOn (f : RadioFuture unit)
| GettingAddress (f : RadioFuture Z).

Abbreviation startup := (exec (Poll (result Error Service) * Starting * OldRaw.RadioBridgeService)).

Definition new (r : OldRaw.RadioBridgeService) : exec (Starting * OldRaw.RadioBridgeService) :=
  '(f, r) ← call_radio Bridge.get_tx_power_max r; Ok (GettingMaxPower f, r).

Section starting.
Context (packets : list OldRaw.IncomingPacket) (channel short pan : Z).

Definition started (r : OldRaw.RadioBridgeService) (extended : Z) : exec Service :=
  set ← Mru.address_set_new 8 8;
  Ok {| packet_stream := packets; stream_ended := false; radio := r; sequence_number := 0; pan_id := pan;
        short_address := short; extended_address := extended;
        associations := bm_insert short extended bm_new; nodeinfo := ∅; queue := OldQueue.new;
        inflight := ∅; pending_data_set := set; channels := 0 |}.

Definition poll_address (f : RadioFuture Z) (r : OldRaw.RadioBridgeService) : startup :=
  p ← poll_radio r f;
  match p with
  | Pending => Ok (Pending, GettingAddress f, r)
  | Ready (Err e) => Ok (Ready (Err (RadioError e)), GettingAddress f, r)
  | Ready (Ok extended) => s ← started r extended; Ok (Ready (Ok s), GettingAddress f, r)
  end.
Definition poll_on (f : RadioFuture unit) (r : OldRaw.RadioBridgeService) : startup :=
  p ← poll_radio r f;
  match p with
  | Pending => Ok (Pending, TurningOn f, r)
  | Ready (Err e) => Ok (Ready (Err (RadioError e)), TurningOn f, r)
  | Ready (Ok _) => '(f, r) ← call_radio Bridge.get_long_address r; poll_address f r
  end.
Definition poll_properties (fs : list (RadioFuture unit)) (r : OldRaw.RadioBridgeService) : startup :=
  p ← poll_join r fs;
  match p with
  | Pending => Ok (Pending, SettingProperties fs, r)
  | Ready (Err e) => Ok (Ready (Err (RadioError e)), SettingProperties fs, r)
  | Ready (Ok _) => '(f, r) ← call_radio Bridge.on r; poll_on f r
  end.
Definition poll_max_power (f : RadioFuture Z) (r : OldRaw.RadioBridgeService) : startup :=
  p ← poll_radio r f;
  match p with
  | Pending => Ok (Pending, GettingMaxPower f, r)
  | Ready (Err e) => Ok (Ready (Err (RadioError e)), GettingMaxPower f, r)
  | Ready (Ok max_power) =>
      '(f1, r) ← call_radio (Bridge.set_tx_power max_power) r;
      '(f2, r) ← call_radio (Bridge.set_channel channel) r;
      '(f3, r) ← call_radio (Bridge.set_short_address short) r;
      '(f4, r) ← call_radio (Bridge.set_pan_id pan) r;
      '(f5, r) ← call_radio (Bridge.set_rx_mode {| Bridge.address_filter := true; Bridge.autoack := true;
                                                   Bridge.poll_mode := false |}) r;
      '(f6, r) ← call_radio Bridge.init_pending_data_table r;
      poll_properties [f1; f2; f3; f4; f5; f6] r
  end.
Definition poll_new (st : Starting) (r : OldRaw.RadioBridgeService) : startup :=
  match st with
  | GettingMaxPower f => poll_max_power f r
  | SettingProperties fs => poll_properties fs r
  | TurningOn f => poll_on f r
  | GettingAddress f => poll_address f r
  end.
End starting.

(** ** Pending addresses *)

Definition handle_mru_address_set_action (action : Mru.MRUAddressSetAction) (s : Service) : exec Service :=
  match action with
  | Mru.NoAddressAction => Ok s
  | Mru.SetShortSlot slot address =>
      '(_, r) ← call_radio (Bridge.set_pending_data_short slot address) (radio s); Ok (set_radio r s)
  | Mru.SetExtendedSlot slot address =>
      '(_, r) ← call_radio (Bridge.set_pending_data_ext slot address) (radio s); Ok (set_radio r s)
  end.

Definition set_pending_data (address : AddressSpecification) (pending_frames : bool) (s : Service) :
    exec Service :=
  '(action, set) ←
    match pending_frames with
    | false => Mru.address_set_remove address (pending_data_set s)
    | true => Mru.address_set_insert address (pending_data_set s)
    end;
  handle_mru_address_set_action action (set_pending set s).

(** ** Incoming packets *)

(** [ord] is the order in which the map of queues is walked. *)
Definition handle_frame (ord : IterOrder AddressSpecification) (frame : OldFrame.Frame) (s : Service) :
    exec (option Event * Service) :=
  match OldFrame.frame_type frame with
  | OldFrame.FTCommand OldFrame.BeaconRequest => Ok (Some BeaconRequest, s)
  | OldFrame.FTCommand OldFrame.DataRequest =>
      '(pending_frames, q) ← OldQueue.on_data_request (OldFrame.source frame) (queue s);
      s ← set_pending_data (OldFrame.source frame) pending_frames (set_queue q s);
      Ok (None, s)
  | OldFrame.FTCommand (OldFrame.AssociationRequest _ _ _ receive_on_when_idle _ _) =>
      match OldFrame.source frame with
      | OldFrame.ASExtended _ ext_source =>
          Ok (Some (AssociationRequest ext_source receive_on_when_idle), s)
      | _ => Ok (None, s)
      end
  | OldFrame.Ack =>
      match OldFrame.sequence_number frame with
      | Some sequence_nr => q ← OldQueue.on_ack ord sequence_nr (queue s); Ok (None, set_queue q s)
      | None => Ok (None, s)
      end
  | _ => Ok (None, s)
  end.

Definition handle_packet (ord : IterOrder AddressSpecification) (packet : OldRaw.IncomingPacket)
    (s : Service) : exec (option Event * Service) :=
  match OldFrame.frame_deserialize (OldRaw.packet packet) with
  | Err (OldFrame.Failed _) => Ok (None, s)
  | Err OldFrame.Panicked => Err Panic
  | Ok (_, frame) => handle_frame ord frame s
  end.

(** ** Sending *)

(** [u8 + 1], which overflows *)
Definition fresh_sequence_number (s : Service) : exec (Z * Service) :=
  if decide (sequence_number s + 1 < 256)
  then Ok (sequence_number s + 1, set_sequence_number (sequence_number s + 1) s)
  else Err Panic.

Definition send_frame_noqueue (frame : OldFrame.Frame) (s : Service) : exec (SendFuture * Service) :=
  match OldFrame.frame_serialize frame [] with
  | Err e => Ok (SendFailed (SerializationError e), s)
  | Ok serialized =>
      '(f, r) ← call_radio (Bridge.send serialized) (radio s); Ok (Sending f, set_radio r s)
  end.

Definition send_beacon (payload : list Z) (s : Service) : exec (SendFuture * Service) :=
  '(number, s) ← fresh_sequence_number s;
  send_frame_noqueue
    {| OldFrame.frame_pending := false; OldFrame.acknowledge_request := false;
       OldFrame.sequence_number := Some number; OldFrame.destination := OldFrame.ASNone;
       OldFrame.source := OldFrame.ASShort (pan_id s) (short_address s);
       OldFrame.frame_type := OldFrame.Beacon 15 15 15 false true true;
       OldFrame.payload := payload |} s.

(** The loop over the addresses; it tries at most all of them. *)
Fixpoint find_free_loop (fuel : nat) (retval : Z) (associations : M) : exec Z :=
  match fuel with
  | O => Err OutOfFuel
  | S fuel =>
      if bm_contains_left associations retval then
        retval ← OldRaw.u16_succ retval; find_free_loop fuel retval associations
      else Ok retval
  end.
Definition find_free_short_address (s : Service) : exec Z :=
  find_free_loop (Z.to_nat 65536) 0 (associations s).

Definition associate (address : Z) (receiver_on_when_idle : bool) (s : Service) : exec (Z * Service) :=
  let s := set_nodes (associations s)
             (<[address := {| receiver_on_when_idle := receiver_on_when_idle |}]> (nodeinfo s)) s in
  match bm_get_by_right (associations s) address with
  | Some short => Ok (short, s)
  | None =>
      short_address ← find_free_short_address s;
      Ok (short_address, set_nodes (bm_insert short_address address (associations s)) (nodeinfo s) s)
  end.

Definition get_nodeinfo_for_addrspec (addr : AddressSpecification) (s : Service) : option NodeInformation :=
  match addr with
  | OldFrame.ASNone => None
  | OldFrame.ASShort panid address =>
      if decide (panid = pan_id s) then
        extaddr ← bm_get (associations s) address; nodeinfo s !! extaddr
      else None
  | OldFrame.ASExtended _ address => nodeinfo s !! address
  end.

Definition send_frame_queued (frame : OldFrame.Frame) (s : Service) : exec (ReplyFuture * Service) :=
  let receiver_on_when_idle :=
    default true (receiver_on_when_idle <$> get_nodeinfo_for_addrspec (OldFrame.destination frame) s) in
  s ← (if negb receiver_on_when_idle then set_pending_data (OldFrame.destination frame) true s else Ok s);
  let '(channel, s) := next_channel s in
  q ← OldQueue.enqueue channel frame receiver_on_when_idle (queue s);
  Ok (AwaitReport channel, set_queue q s).

Definition send_association_response (address : Z) (s : Service) : exec (ReplyFuture * Service) :=
  match bm_get_by_right (associations s) address with
  | Some short_address =>
      '(number, s) ← fresh_sequence_number s;
      send_frame_queued
        {| OldFrame.frame_pending := false; OldFrame.acknowledge_request := true;
           OldFrame.sequence_number := Some number;
           OldFrame.destination := OldFrame.ASExtended (pan_id s) address;
           OldFrame.source := OldFrame.ASExtended (pan_id s) (extended_address s);
           OldFrame.frame_type :=
             OldFrame.FTCommand (OldFrame.AssociationResponse short_address OldFrame.AssociationSuccessful);
           OldFrame.payload := [] |} s
  | None => Ok (ReplyFailed NodeNotAssociated, s)
  end.

(** ** Polling *)

(** What the environment gives to a poll: the waker, what the clock says each time the queue is
    polled, and the orders in which the maps are walked *)
Record poll_env := {
  waker : Waker;
  clock : list (list tdq_env);
  walk : IterOrder AddressSpecification;
}.

Definition poll_stream (s : Service) : Poll (option OldRaw.IncomingPacket) * Service :=
  match packet_stream s with
  | packet :: rest => (Ready (Some packet), set_packet_stream rest s)
  | [] => if stream_ended s then (Ready None, s) else (Pending, s)
  end.

(** The loop over the packets, which goes on when the stream has ended *)
Fixpoint poll_packets (fuel : nat) (ord : IterOrder AddressSpecification) (s : Service) :
    exec (option Event * Service) :=
  match fuel with
  | O => Err OutOfFuel
  | S fuel =>
      match poll_stream s with
      | (Ready (Some packet), s) =>
          '(event, s) ← handle_packet ord packet s;
          match event with
          | Some event => Ok (Some event, s)
          | None => poll_packets fuel ord s
          end
      | (Ready None, s) => poll_packets fuel ord s
      | (Pending, s) => Ok (None, s)
      end
  end.

(** The loop over the events of the queue *)
Fixpoint poll_queue (fuel : nat) (w : Waker) (clock : list (list tdq_env)) (s : Service) : exec Service :=
  match fuel with
  | O => Err OutOfFuel
  | S fuel =>
      '(outgoing, q) ← OldQueue.poll_next (default [] (head clock)) w (queue s);
      let s := set_queue q s in
      match outgoing with
      | Ready (Some (OldQueue.OutgoingFrame destination frame)) =>
          '(fut, s) ← send_frame_noqueue frame s;
          poll_queue fuel w (tail clock) (set_inflight (<[destination := fut]> (inflight s)) s)
      | Ready (Some (OldQueue.QueueFlushed destination)) =>
          s ← set_pending_data destination false s; poll_queue fuel w (tail clock) s
      | Ready None => poll_queue fuel w (tail clock) s
      | Pending => Ok s
      end
  end.

(** [SendFuture::poll] *)
Definition poll_send (f : SendFuture) (s : Service) : exec (Poll (result Error unit)) :=
  match f with
  | SendFailed e => Ok (Ready (Err e))
  | Sending f =>
      p ← poll_radio (radio s) f;
      Ok (match p with Ready x => Ready (map_err RadioError x) | Pending => Pending end)
  end.

(** [retain] over the frames in flight: those whose future is ready leave the map. *)
Fixpoint poll_inflight (order : list AddressSpecification)
    (results : list (AddressSpecification * result Error unit)) (s : Service) :
    exec (list (AddressSpecification * result Error unit) * Service) :=
  match order with
  | [] => Ok (results, s)
  | key :: order =>
      match inflight s !! key with
      | None => poll_inflight order results s
      | Some value =>
          p ← poll_send value s;
          match p with
          | Ready res => poll_inflight order (results ++ [(key, res)]) (set_inflight (delete key (inflight s)) s)
          | Pending => poll_inflight order results s
          end
      end
  end.
Fixpoint report_results (results : list (AddressSpecification * result Error unit)) (s : Service) :
    exec Service :=
  match results with
  | [] => Ok s
  | (key, value) :: results =>
      q ← OldQueue.on_send_result key (is_ok value) (queue s); report_results results (set_queue q s)
  end.

Definition poll_next (fuel : nat) (env : poll_env) (s : Service) : exec (Poll (option Event) * Service) :=
  '(event, s) ← poll_packets fuel (walk env) s;
  match event with
  | Some event => Ok (Ready (Some event), s)
  | None =>
      s ← poll_queue fuel (waker env) (clock env) s;
      '(results, s) ← poll_inflight (iter_order _ (walk env) 1 (fst <$> map_to_list (inflight s))) [] s;
      s ← report_results results s;
      Ok (Pending, s)
  end.

(** ** What happens around the service *)

(** A command arrives on the serial line: it answers a call, or carries a packet, which is then
    in the stream. *)
Definition drain (r : OldRaw.RadioBridgeService) : OldRaw.RadioBridgeService :=
  {| OldRaw.dispatcher := OldRaw.dispatcher r; OldRaw.command_sink := OldRaw.command_sink r;
     OldRaw.packet_output := [] |}.
Definition command_arrives (cmd : Serial.Command) (s : Service) : exec Service :=
  r ← OldRaw.handle_incoming_command cmd (radio s);
  Ok (set_packet_stream (packet_stream s ++ OldRaw.packet_output r) (set_radio (drain r) s)).

(** [on_mac_event] of the application; the futures are spawned and only printed. *)
Definition beacon_payload : list Z := [0; 34; 132; 21; 104; 137; 14; 0; 75; 18; 0; 255; 255; 255; 0].
Definition on_mac_event (event : Event) (s : Service) : exec Service :=
  match event with
  | BeaconRequest => '(_, s) ← send_beacon beacon_payload s; Ok s
  | AssociationRequest source receive_on_when_idle =>
      '(_, s) ← associate source receive_on_when_idle s;
      '(_, s) ← send_association_response source s;
      Ok s
  end.

(** One wake-up of [main_loop]: events are handled as long as the service has one ready. *)
Fixpoint main_loop (rounds fuel : nat) (env : poll_env) (s : Service) : exec Service :=
  match rounds with
  | O => Err OutOfFuel
  | S rounds =>
      '(event, s) ← poll_next fuel env s;
      match event with
      | Ready (Some event) => s ← on_mac_event event s; main_loop rounds fuel env s
      | Ready None | Pending => Ok s
      end
  end.
End service.
End OldService.
