(* ===== verification/OldMacServiceTheory.v ===== *)
(** * The first version's MAC service: its calls, its frames and its pending addresses *)

From Stdlib Require Import ZArith Lia.
From S2P Require Import Prelude.
From S2P Require Import Async.
From S2P Require Import BiMap.
From S2P Require Import BitField.
From S2P Require Import Bytes.
From S2P Require Import ParseSerialize.
From S2P Require Import OldFrame.
From S2P Require Import OldFrameTheory.
From S2P Require Import MruSet.
From S2P Require Import MruSetTheory.
From S2P Require Import SerialProtocol.
From S2P Require Import RawService.
From S2P Require RawServiceTheory.
From S2P Require Import BridgeService.
From S2P Require Import BridgeServiceTheory.
From S2P Require Import DelayQueue.
From S2P Require Import OldDeviceQueue.
From S2P Require Import OldDeviceQueueTheory.
From S2P Require Import OldQueue.
From S2P Require Import OldQueueTheory.
From S2P Require Import OldQueueEffects.
From S2P Require Import OldMacService.

Import OldService.

#[local] Open Scope Z_scope.

(** ** Calls of the radio *)

Section radio.
Context `{!BytesBuf, !BytesBufLaws}.
Implicit Types r : OldRaw.RadioBridgeService.

Definition ids r : Z := OldRaw.next_available_request_id (OldRaw.dispatcher r).
Definition answer_ok (x : result OldRaw.Error (list Z)) : Prop :=
  match x with Ok data => bytes_ok data | Err _ => True end.

Record radio_ok r : Prop := {
  rd_ids : 0 <= ids r <= 65535;
  rd_answers : Forall (fun x => answer_ok x.2) (OldRaw.resolved (OldRaw.dispatcher r));
}.

(** The request went out under the next id, and nothing else changed. *)
Definition after_call (request : OldRaw.Request) r r' : Prop :=
  ids r' = ids r + 1 /\ OldRaw.resolved (OldRaw.dispatcher r') = OldRaw.resolved (OldRaw.dispatcher r) /\
  OldRaw.packet_output r' = OldRaw.packet_output r /\
  OldRaw.command_sink r' = OldRaw.command_sink r ++
    [{| Serial.command_id := OldRaw.request_command_as_num (OldRaw.command_id request);
        Serial.request_id := ids r; Serial.data := OldRaw.data request |}].

Lemma call_radio_eq {A} request (read : Bridge.answer_reader A) r :
  match call_radio (Bridge.Call request read) r with
  | Ok (f, r') => f = AwaitAnswer (Z.to_N (ids r)) read /\ after_call request r r' /\ ids r < 65535
  | Err e => e = Panic /\ 65535 <= ids r
  end.
Proof.
  cbn [call_radio]. unfold OldRaw.call, OldRaw.new_request, OldRaw.u16_succ, ids. case_decide; cbn.
  - split_and!; [done|repeat split|lia].
  - split; [done|lia].
Qed.

Lemma call_radio_total {A} request (read : Bridge.answer_reader A) r : ids r < 65535 ->
  exists r', call_radio (Bridge.Call request read) r = Ok (AwaitAnswer (Z.to_N (ids r)) read, r') /\
    after_call request r r'.
Proof.
  intros Hi. pose proof (call_radio_eq request read r) as Hc.
  destruct (call_radio _ r) as [[f r']|e]; [|lia]. destruct Hc as (-> & ? & _). by exists r'.
Qed.

Lemma call_radio_inv {A} request (read : Bridge.answer_reader A) r f r' :
  call_radio (Bridge.Call request read) r = Ok (f, r') ->
  f = AwaitAnswer (Z.to_N (ids r)) read /\ after_call request r r' /\ ids r < 65535.
Proof. intros E. pose proof (call_radio_eq request read r) as Hc. by rewrite E in Hc. Qed.

Lemma after_call_ok request r r' : after_call request r r' -> ids r < 65535 -> radio_ok r -> radio_ok r'.
Proof. intros (Ei & Er & _) Hl [Hi Ha]. split; [rewrite Ei; lia|by rewrite Er]. Qed.

(** A future whose answer can be read *)
Definition readable {A} (read : Bridge.answer_reader A) : Prop :=
  forall x, answer_ok x -> exists y, read x = Ok y.
Definition future_ok {A} (f : RadioFuture A) : Prop :=
  match f with FailedCall _ => True | AwaitAnswer _ read => readable read end.

Lemma accepts_readable {A} (read : Bridge.answer_reader A) P : accepts read P -> readable read.
Proof.
  intros [He Hd] [data|e] Hx; [|by rewrite He; eexists].
  destruct (Hd data Hx) as (y & -> & _). by exists y.
Qed.
Lemma status_readable expected : in_width 16 expected -> readable (Bridge.expect_status expected).
Proof. intros Hx. eapply accepts_readable, accepts_status, Hx. Qed.

Lemma answer_on_ok c r x : radio_ok r -> answer_on c (OldRaw.resolved (OldRaw.dispatcher r)) = Some x -> answer_ok x.
Proof.
  intros [_ Ha]. unfold answer_on. destruct (head _) as [[c' x']|] eqn:E; [|done]. intros [= <-].
  apply head_Some_elem_of, list_elem_of_filter in E as [_ E].
  exact (proj1 (Forall_forall _ _) Ha _ E).
Qed.

Lemma poll_radio_total {A} r (f : RadioFuture A) : radio_ok r -> future_ok f -> exists p, poll_radio r f = Ok p.
Proof.
  intros Hr Hf. destruct f as [e|c read]; cbn [poll_radio]; [by eexists|].
  destruct (answer_on c _) as [x|] eqn:E; [|by eexists].
  apply answer_on_ok in E; [|done]. destruct (Hf x E) as [y ->]. by eexists.
Qed.

Lemma poll_join_total r fs : radio_ok r -> Forall future_ok fs -> exists p, poll_join r fs = Ok p.
Proof.
  intros Hr. induction 1 as [|f fs Hf _ [q IH]]; cbn [poll_join]; [by eexists|].
  destruct (poll_radio_total r f Hr Hf) as [[[x|e]|] ->]; cbn [mbind result_bind]; [|by eexists|].
  - by exists q.
  - rewrite IH. destruct q as [[]|]; by eexists.
Qed.

(** A command that arrives never panics. *)
Definition packet_ok (p : OldRaw.IncomingPacket) : Prop := bytes_ok (OldRaw.packet p).
Lemma incoming_ok cmd r : bytes_ok (Serial.data cmd) -> radio_ok r ->
  exists r' new, OldRaw.handle_incoming_command cmd r = Ok r' /\ radio_ok r' /\ ids r' = ids r /\
    OldRaw.command_sink r' = OldRaw.command_sink r /\
    OldRaw.packet_output r' = OldRaw.packet_output r ++ new /\ Forall packet_ok new.
Proof.
  intros Hb Hr.
  assert (Ha : forall x sink out, answer_ok x ->
    let r' := {| OldRaw.dispatcher := OldRaw.answer (Serial.request_id cmd) x (OldRaw.dispatcher r);
                 OldRaw.command_sink := sink; OldRaw.packet_output := out |} in
    radio_ok r' /\ ids r' = ids r).
  { intros x sink out Hx. destruct Hr as [Hi Ha]. unfold ids, OldRaw.answer in *. cbn.
    destruct (OldRaw.in_flight _ !! _); (split; [|done]; split; [exact Hi|]); [|done].
    apply Forall_app. split; [done|by constructor]. }
  unfold OldRaw.handle_incoming_command. repeat case_decide.
  - destruct (Ha (Ok (Serial.data cmd)) (OldRaw.command_sink r) (OldRaw.packet_output r) Hb).
    eexists _, []. rewrite app_nil_r. by split_and!; [reflexivity|..].
  - destruct (Ha (Err (OldRaw.BridgeError (Serial.data cmd))) (OldRaw.command_sink r) (OldRaw.packet_output r) I).
    eexists _, []. rewrite app_nil_r. by split_and!; [reflexivity|..].
  - rewrite slice_to_spec, decide_True by lia. cbn [mbind result_bind].
    destruct (lookup_lt_is_Some_2 (Serial.data cmd) (length (Serial.data cmd) - 2)) as [a ->]; [lia|].
    destruct (lookup_lt_is_Some_2 (Serial.data cmd) (length (Serial.data cmd) - 1)) as [b ->]; [lia|].
    cbn [unwrap mbind result_bind]. eexists _, [_]. split_and!; [reflexivity|by destruct Hr; split|done..|].
    constructor; [|done]. by apply Forall_take.
  - exists r, []. rewrite app_nil_r. by split_and!.
  - exists r, []. rewrite app_nil_r. by split_and!.
Qed.

(** ** The commands that set the radio's slots *)

Definition call_data {A} (o : Bridge.outgoing A) : list Z :=
  match o with Bridge.Call request _ => OldRaw.data request | Bridge.Failed _ => [] end.
Definition pending_bytes (a : Mru.MRUAddressSetAction) : list (list Z) :=
  match a with
  | Mru.NoAddressAction => []
  | Mru.SetShortSlot i x => [call_data (Bridge.set_pending_data_short i x)]
  | Mru.SetExtendedSlot i x => [call_data (Bridge.set_pending_data_ext i x)]
  end.
(** The data of the commands [RadioSetPending] among those sent *)
Definition pending_commands r : list (list Z) :=
  Serial.data <$> filter (fun c => Serial.command_id c = 11) (OldRaw.command_sink r).

(** The slots of a radio that starts with empty tables and does what it is told *)
Definition short_table (acts : list Mru.MRUAddressSetAction) : list (option (Z * Z)) :=
  fold_left (fun tab a => match a with Mru.SetShortSlot i x => <[i := x]> tab | _ => tab end) acts (replicate 8 None).
Definition extended_table (acts : list Mru.MRUAddressSetAction) : list (option Z) :=
  fold_left (fun tab a => match a with Mru.SetExtendedSlot i x => <[i := x]> tab | _ => tab end) acts (replicate 8 None).

Lemma pending_commands_call request r r' : after_call request r r' ->
  pending_commands r' = pending_commands r ++
    match OldRaw.command_id request with OldRaw.RadioSetPending => [OldRaw.data request] | _ => [] end.
Proof.
  intros (_ & _ & _ & E). unfold pending_commands. rewrite E, filter_app, fmap_app. f_equal.
  by destruct (OldRaw.command_id request).
Qed.
End radio.

(** ** Pending addresses *)

(** The sets are refined by lists, and their slots are those of the tables. *)
Record set_ok (acts : list Mru.MRUAddressSetAction) (m : Mru.MRUAddressSet) : Prop := {
  set_short : exists l, refines 8 l (short_table acts) (Mru.short m);
  set_extended : exists l, refines 8 l (extended_table acts) (Mru.extended m);
}.

Lemma refines_contains {T} `{Countable T} n l tab (m : Mru.MRUSet T) x :
  refines n l tab m -> Mru.contains m x = bool_decide (x ∈ l).
Proof. intros Hr. apply bool_decide_ext, (ref_entries _ _ _ _ Hr). Qed.

(** Inserting ([b]) or removing an element *)
Lemma mru_update {T} `{Countable T} (b : bool) (x : T) l tab (m : Mru.MRUSet T) : refines 8 l tab m ->
  exists a m', (if b then Mru.insert x m else Mru.remove x m) = Ok (a, m') /\
    (exists l', refines 8 l' (apply_action tab a) m') /\
    forall y, Mru.contains m' y = if decide (y = x) then b else Mru.contains m y.
Proof.
  intros Hr. assert (forall y, y ∈ drop_item x l <-> y ∈ l /\ y <> x) as Hd.
  { intros y. unfold drop_item. rewrite list_elem_of_filter. tauto. }
  destruct b.
  - destruct (insert_refines 8 l tab x m) as (a & m' & -> & Hr'); [lia|done|]. exists a, m'.
    split_and!; [done|by eexists|]. intros y.
    rewrite (refines_contains _ _ _ _ y Hr'), (refines_contains _ _ _ _ y Hr).
    case_decide; [subst; apply bool_decide_true; by left|]. apply bool_decide_ext.
    rewrite elem_of_cons, Hd. naive_solver.
  - destruct (remove_refines 8 l tab x m) as (a & m' & -> & Hr'); [lia|done|]. exists a, m'.
    split_and!; [done|by eexists|]. intros y.
    rewrite (refines_contains _ _ _ _ y Hr'), (refines_contains _ _ _ _ y Hr).
    case_decide; [subst; apply bool_decide_false; rewrite Hd; naive_solver|]. apply bool_decide_ext.
    rewrite Hd. naive_solver.
Qed.

Lemma short_table_snoc acts a : short_table (acts ++ [Mru.from_short a]) = apply_action (short_table acts) a /\
  extended_table (acts ++ [Mru.from_short a]) = extended_table acts.
Proof. unfold short_table, extended_table. rewrite !fold_left_app. by destruct a. Qed.
Lemma extended_table_snoc acts a : extended_table (acts ++ [Mru.from_extended a]) = apply_action (extended_table acts) a /\
  short_table (acts ++ [Mru.from_extended a]) = short_table acts.
Proof. unfold short_table, extended_table. rewrite !fold_left_app. by destruct a. Qed.

Definition update_set (b : bool) (d : AddressSpecification) (m : Mru.MRUAddressSet) :=
  match b with false => Mru.address_set_remove d m | true => Mru.address_set_insert d m end.

Lemma update_set_spec b d acts m : set_ok acts m ->
  exists a m', update_set b d m = Ok (a, m') /\ set_ok (acts ++ [a]) m' /\
    (forall p x, Mru.contains (Mru.short m') (p, x) =
      if decide (d = OldFrame.ASShort p x) then b else Mru.contains (Mru.short m) (p, x)) /\
    forall p x, d = OldFrame.ASExtended p x -> Mru.contains (Mru.extended m') x = b.
Proof.
  intros [[ls Hs] [le He]]. destruct d as [|p x|p x].
  - exists Mru.NoAddressAction, m. split_and!; [by destruct b| |done|done].
    unfold short_table, extended_table. split; [exists ls|exists le]; unfold short_table, extended_table; by rewrite fold_left_app.
  - destruct (mru_update b (p, x) _ _ _ Hs) as (a & m' & E & [l' Hr] & Hc).
    exists (Mru.from_short a), {| Mru.short := m'; Mru.extended := Mru.extended m |}. split_and!.
    + destruct b; cbn [update_set Mru.address_set_insert Mru.address_set_remove]; by rewrite E.
    + destruct (short_table_snoc acts a) as [E1 E2]. split; cbn; [exists l'|exists le]; [by rewrite E1|by rewrite E2].
    + intros p' x'. cbn. rewrite Hc. repeat case_decide; naive_solver.
    + done.
  - destruct (mru_update b x _ _ _ He) as (a & m' & E & [l' Hr] & Hc).
    exists (Mru.from_extended a), {| Mru.short := Mru.short m; Mru.extended := m' |}. split_and!; [| |done|].
    + destruct b; cbn [update_set Mru.address_set_insert Mru.address_set_remove]; by rewrite E.
    + destruct (extended_table_snoc acts a) as [E1 E2]. split; cbn; [exists ls|exists l']; [by rewrite E2|by rewrite E1].
    + intros p' x' [= <- <-]. cbn. by rewrite Hc, decide_True.
Qed.

(** ** Starting up *)

Section starting.
Context `{!ParseSerialize, !BitRange, !BytesBuf, !BytesBufLaws, !TokioDelayQueue AddressSpecification}.
Context {M : Type} `{!BiMap Z Z M}.
Context (channel short pan : Z).
Implicit Types r : OldRaw.RadioBridgeService.

(** The states of the future that [Service::new] returns, with what came on the serial line *)
Inductive starting_run : list OldRaw.IncomingPacket -> Starting -> OldRaw.RadioBridgeService -> Prop :=
| starting_new st r : new OldRaw.service_new = Ok (st, r) -> starting_run [] st r
| starting_command cmd packets st r r' : starting_run packets st r -> bytes_ok (Serial.data cmd) ->
    OldRaw.handle_incoming_command cmd r = Ok r' ->
    starting_run (packets ++ OldRaw.packet_output r') st (drain r')
| starting_poll packets st r st' r' : starting_run packets st r ->
    poll_new (M := M) packets channel short pan st r = Ok (Pending, st', r') -> starting_run packets st' r'.

Definition request_of {A} (o : Bridge.outgoing A) : list OldRaw.Request :=
  match o with Bridge.Call request _ => [request] | Bridge.Failed _ => [] end.
(** What is asked of the radio, in order *)
Definition startup_requests (max_power : Z) : list OldRaw.Request :=
  request_of Bridge.get_tx_power_max ++ request_of (Bridge.set_tx_power max_power) ++
  request_of (Bridge.set_channel channel) ++ request_of (Bridge.set_short_address short) ++
  request_of (Bridge.set_pan_id pan) ++
  request_of (Bridge.set_rx_mode {| Bridge.address_filter := true; Bridge.autoack := true; Bridge.poll_mode := false |}) ++
  request_of Bridge.init_pending_data_table ++ request_of Bridge.on ++ request_of Bridge.get_long_address.

(** The first [n] requests were sent, numbered from 0. *)
Record asked (n : nat) (max_power : Z) r : Prop := {
  as_radio : radio_ok r;
  as_sink : OldRaw.command_sink r = imap RawServiceTheory.sent (take n (startup_requests max_power));
  as_ids : ids r = Z.of_nat n;
  as_output : OldRaw.packet_output r = [];
}.

Inductive starting_ok r : Starting -> Prop :=
| so_power f : asked 1 0 r -> future_ok f -> starting_ok r (GettingMaxPower f)
| so_properties max fs : asked 7 max r -> Forall future_ok fs -> starting_ok r (SettingProperties fs)
| so_on max f : asked 8 max r -> future_ok f -> starting_ok r (TurningOn f)
| so_address max f : asked 9 max r -> future_ok f -> starting_ok r (GettingAddress f).

(** The service as it is when it has started *)
Record fresh_service (packets : list OldRaw.IncomingPacket) (s : Service (M := M)) : Prop := {
  fs_asked : exists max, asked 9 max (radio s);
  fs_packets : packet_stream s = packets;
  fs_state : stream_ended s = false /\ sequence_number s = 0 /\ channels s = 0%N;
  fs_addresses : pan_id s = pan /\ short_address s = short /\ nodeinfo s = ∅ /\
    associations s = bm_insert short (extended_address s) bm_new;
  fs_queue : queue s = OldQueue.new /\ inflight s = ∅;
  fs_set : set_ok [] (pending_data_set s);
}.

Lemma asked_call {A} n max request (read : Bridge.answer_reader A) r : asked n max r ->
  startup_requests max !! n = Some request ->
  exists r', call_radio (Bridge.Call request read) r = Ok (AwaitAnswer (Z.to_N (ids r)) read, r') /\ asked (S n) max r'.
Proof.
  intros [Hr Hs Hi Ho] Hn. assert (n < 9)%nat as Hn9 by exact (lookup_lt_Some _ _ _ Hn).
  destruct (call_radio_total request read r) as (r' & -> & Ha); [lia|]. exists r'. split; [done|].
  destruct (after_call_ok request r r' Ha) as []; [lia|done|]. destruct Ha as (Ei & _ & Eo & Es). split.
  - by split.
  - rewrite Es, Hs, (take_S_r _ _ request), imap_app by done. do 2 f_equal. cbn. unfold RawServiceTheory.sent.
    rewrite length_take_le by (change (n <= 9)%nat; lia). by rewrite Hi, Nat.add_0_r.
  - rewrite Ei, Hi. lia.
  - by rewrite Eo.
Qed.

Definition startup_ok (packets : list OldRaw.IncomingPacket)
    (x : exec (Poll (result Error (Service (M := M))) * Starting * OldRaw.RadioBridgeService)) : Prop :=
  exists p st r, x = Ok (p, st, r) /\
    match p with Pending => starting_ok r st | Ready (Ok s) => fresh_service packets s | Ready (Err _) => True end.

Lemma address_set_new_ok : exists m, Mru.address_set_new 8 8 = Ok m /\ set_ok [] m.
Proof.
  destruct (new_refines (T := Z * Z) 8) as (a & Ea & Ha); [lia|]. destruct (new_refines (T := Z) 8) as (b & Eb & Hb); [lia|].
  unfold Mru.address_set_new. rewrite Ea, Eb. eexists. split; [reflexivity|]. split; by eexists.
Qed.

Lemma poll_address_ok packets max f r : asked 9 max r -> future_ok f ->
  startup_ok packets (poll_address packets short pan f r).
Proof.
  intros Ha Hf. unfold poll_address. destruct (poll_radio_total r f (as_radio _ _ _ Ha) Hf) as [[[x|e]|] ->]; cbn [mbind result_bind].
  - unfold started. destruct address_set_new_ok as (m & -> & Hm). cbn [mbind result_bind].
    do 3 eexists. split; [reflexivity|]. split; cbn; eauto.
  - by do 3 eexists.
  - do 3 eexists. split; [reflexivity|]. by apply (so_address r max).
Qed.

Lemma poll_on_ok packets max f r : asked 8 max r -> future_ok f -> startup_ok packets (poll_on packets short pan f r).
Proof.
  intros Ha Hf. unfold poll_on. destruct (poll_radio_total r f (as_radio _ _ _ Ha) Hf) as [[[x|e]|] ->]; cbn [mbind result_bind].
  - pose proof accepts_get_long_address as Hl. unfold Bridge.get_long_address, Bridge.get_object in Hl |- *.
    destruct Hl as [_ Hl]. match goal with |- context [call_radio (Bridge.Call ?q ?rd) r] =>
      destruct (asked_call 8 max q rd r Ha) as (r' & -> & Ha'); [done|] end.
    cbn [mbind result_bind]. apply (poll_address_ok _ max); [done|]. by eapply accepts_readable.
  - by do 3 eexists.
  - do 3 eexists. split; [reflexivity|]. by apply (so_on r max).
Qed.

Lemma poll_properties_ok packets max fs r : asked 7 max r -> Forall future_ok fs ->
  startup_ok packets (poll_properties packets short pan fs r).
Proof.
  intros Ha Hf. unfold poll_properties. destruct (poll_join_total r fs (as_radio _ _ _ Ha) Hf) as [[[x|e]|] ->]; cbn [mbind result_bind].
  - unfold Bridge.on. match goal with |- context [call_radio (Bridge.Call ?q ?rd) r] =>
      destruct (asked_call 7 max q rd r Ha) as (r' & -> & Ha'); [done|] end.
    cbn [mbind result_bind]. apply (poll_on_ok _ max); [done|]. by apply status_readable.
  - by do 3 eexists.
  - do 3 eexists. split; [reflexivity|]. by apply (so_properties r max).
Qed.

Lemma asked_one max max' r : asked 1 max r -> asked 1 max' r.
Proof. intros [? ? ? ?]. by split. Qed.

Lemma poll_max_power_ok packets f r : asked 1 0 r -> future_ok f ->
  startup_ok packets (poll_max_power packets channel short pan f r).
Proof.
  intros Ha Hf. unfold poll_max_power. destruct (poll_radio_total r f (as_radio _ _ _ Ha) Hf) as [[[max|e]|] ->]; cbn [mbind result_bind].
  - apply (asked_one 0 max) in Ha.
    unfold Bridge.set_tx_power, Bridge.set_channel, Bridge.set_short_address, Bridge.set_pan_id, Bridge.set_rx_mode,
      Bridge.set_value, Bridge.init_pending_data_table.
    cbn [Bridge.to_radio_value Bridge.u16_value Bridge.rx_mode_value].
    do 6 (match goal with |- context [call_radio (Bridge.Call ?q ?rd) ?r] =>
      match goal with Ha : asked ?n max r |- _ =>
        destruct (asked_call n max q rd r Ha) as (? & -> & ?); [done|]; cbn [mbind result_bind] end end).
    apply (poll_properties_ok _ max); [done|]. repeat (constructor; [by apply status_readable|]). constructor.
  - by do 3 eexists.
  - do 3 eexists. split; [reflexivity|]. by apply so_power.
Qed.

Lemma poll_new_ok packets st r : starting_ok r st -> startup_ok packets (poll_new packets channel short pan st r).
Proof.
  intros [f Ha Hf|max fs Ha Hf|max f Ha Hf|max f Ha Hf]; cbn [poll_new].
  - by apply poll_max_power_ok.
  - by apply (poll_properties_ok _ max).
  - by apply (poll_on_ok _ max).
  - by apply (poll_address_ok _ max).
Qed.

Lemma asked_drain n max r r' new : asked n max r -> radio_ok r' -> ids r' = ids r ->
  OldRaw.command_sink r' = OldRaw.command_sink r -> OldRaw.packet_output r' = new -> asked n max (drain r').
Proof. intros [Hr Hs Hi Ho] [? ?] Ei Es _. split; [by split| |by rewrite <- Hi, <- Ei|done]. cbn. by rewrite Es. Qed.

Lemma starting_run_ok packets st r : starting_run packets st r -> starting_ok r st /\ Forall packet_ok packets.
Proof.
  induction 1 as [st r E|cmd packets st r r' _ [IH Hp] Hb E|packets st r st' r' _ [IH Hp] E].
  - split; [|done]. unfold new, Bridge.get_tx_power_max, Bridge.get_value in E.
    assert (asked 0 0 OldRaw.service_new) as H0' by (split; [split; cbn; [lia|done]|done..]).
    match type of E with context [call_radio (Bridge.Call ?q ?rd) _] =>
      destruct (asked_call 0 0 q rd _ H0' eq_refl) as (r' & E' & Ha) end.
    rewrite E' in E. injection E as <- <-. apply so_power; [exact Ha|].
    pose proof (accepts_get_value (A := Z) Bridge.TxPowerMax) as Hl. unfold Bridge.get_value in Hl.
    destruct Hl as [_ Hl]. by eapply accepts_readable.
  - assert (radio_ok r) as Hr by (by destruct IH as [? []|? ? []|? ? []|? ? []]).
    destruct (incoming_ok cmd r Hb Hr) as (r1 & new & E1 & Hr1 & Hi & Hs & Ho & Hn).
    rewrite E1 in E. injection E as <-. split.
    + destruct IH as [f Ha Hf|max fs Ha Hf|max f Ha Hf|max f Ha Hf]; econstructor; try done; by eapply asked_drain.
    + rewrite Ho. apply Forall_app. split; [done|].
      assert (OldRaw.packet_output r = []) as -> by (by destruct IH as [? []|? ? []|? ? []|? ? []]). done.
  - destruct (poll_new_ok packets st r IH) as (p & st1 & r1 & E1 & Hp1). rewrite E1 in E. by injection E as -> <- <-.
Qed.

(** Starting up never panics, and a service that starts has asked the radio for exactly the nine
    things that set it up, in order. *)
Theorem old_service_starts packets st r : starting_run packets st r ->
  exists p st' r', poll_new (M := M) packets channel short pan st r = Ok (p, st', r') /\
    forall s, p = Ready (Ok s) -> fresh_service packets s.
Proof.
  intros [Hr _]%starting_run_ok. destruct (poll_new_ok packets st r Hr) as (p & st' & r' & E & Hp).
  exists p, st', r'. split; [done|]. by intros s ->.
Qed.
End starting.
