(* ===== verification/OldMacServiceRun.v ===== *)
(** * The first version's MAC service while it runs: its invariant, and what can stop it *)

From Stdlib Require Import ZArith Lia.
From S2P Require Import Prelude.
From S2P Require Import Async.
From S2P Require Import BiMap.
From S2P Require Import BitField.
From S2P Require Import Bytes.
From S2P Require Import ParseSerialize.
From S2P Require Import OldFrame.
From S2P Require Import OldFrameTheory.
From S2P Require Import MruSet.
From S2P Require Import MruSetTheory.
From S2P Require Import SerialProtocol.
From S2P Require Import RawService.
From S2P Require Import BridgeService.
From S2P Require Import DelayQueue.
From S2P Require Import OldDeviceQueue.
From S2P Require Import OldDeviceQueueTheory.
From S2P Require Import OldQueue.
From S2P Require Import OldQueueTheory.
From S2P Require Import OldQueueEffects.
From S2P Require Import OldMacService.
From S2P Require Import OldMacServiceTheory.

Import OldService.

#[local] Open Scope Z_scope.

Section run.
Context `{!ParseSerialize, !ParseSerializeLaws, !BitRange, !BitRangeLaws, !BytesBuf, !BytesBufLaws}.
Context `{!TokioDelayQueue AddressSpecification, !TokioDelayQueueLaws AddressSpecification}.
Context {M : Type} `{!BiMap Z Z M, !BiMapLaws Z Z M}.
Abbreviation Service := (Service (M := M)).
Implicit Types (s : Service) (d : AddressSpecification) (l : list (AddressSpecification * N)).

(** ** Runs *)

Definition end_stream s : Service :=
  {| packet_stream := packet_stream s; stream_ended := true; radio := radio s;
     sequence_number := sequence_number s; pan_id := pan_id s; short_address := short_address s;
     extended_address := extended_address s; associations := associations s; nodeinfo := nodeinfo s;
     queue := queue s; inflight := inflight s; pending_data_set := pending_data_set s; channels := channels s |}.

(** The states of a service, with the destinations and channels of the frames it has queued. Its
    own frames are association responses; [run_queued] queues any frame as it queues those. *)
Inductive service_run : Service -> list (AddressSpecification * N) -> Prop :=
| run_started packets channel short pan st r s st' r' :
    starting_run (M := M) channel short pan packets st r ->
    poll_new packets channel short pan st r = Ok (Ready (Ok s), st', r') -> service_run s []
| run_command cmd s l s' : service_run s l -> bytes_ok (Serial.data cmd) ->
    command_arrives cmd s = Ok s' -> service_run s' l
| run_stream_ends s l : service_run s l -> service_run (end_stream s) l
| run_beacon payload f s l s' : service_run s l -> send_beacon payload s = Ok (f, s') -> service_run s' l
| run_associate a rx x s l s' : service_run s l -> associate a rx s = Ok (x, s') -> service_run s' l
| run_response a f s l s' : service_run s l -> send_association_response a s = Ok (f, s') ->
    service_run s' (l ++ match f with AwaitReport c => [(OldFrame.ASExtended (pan_id s) a, c)] | ReplyFailed _ => [] end)
| run_queued f r s l s' : service_run s l -> send_frame_queued f s = Ok (r, s') ->
    service_run s' (l ++ [(OldFrame.destination f, channels s)])
| run_poll fuel env x s l s' : service_run s l -> poll_next fuel env s = Ok (x, s') -> service_run s' l.

(** ** The invariant *)

Definition flying s d : nat := if decide (is_Some (inflight s !! d)) then 1 else 0.
Definition send_ok (f : SendFuture) : Prop :=
  match f with SendFailed _ => True | Sending f => future_ok f end.
Definition queue_history (q : OldQueue.Queue) l : Prop :=
  exists given, queue_run q given /\ ((fun x => (x.1, ODQ.callback x.2)) <$> given) = l.

(** [rs] are the destinations whose sendings are over, but not reported to the queue. *)
Record service_inv (rs : list AddressSpecification) s l : Prop := {
  si_queue : queue_history (queue s) l;
  si_channels : NoDup l.*2 /\ Forall (fun c => (c < channels s)%N) l.*2;
  si_flight d : (launched (queue s) d + flying s d + length (filter (fun x => x = d) rs) =
    sending (state_of (queue s) d))%nat;
  si_futures : map_Forall (fun _ => send_ok) (inflight s);
  si_waits p x : waits (state_of (queue s) (OldFrame.ASShort p x)) ->
    Mru.contains (Mru.short (pending_data_set s)) (p, x) = true;
  si_pending : exists acts, pending_commands (radio s) = acts ≫= pending_bytes /\ set_ok acts (pending_data_set s);
  si_radio : radio_ok (radio s) /\ OldRaw.packet_output (radio s) = [];
  si_packets : Forall packet_ok (packet_stream s);
  si_sequence : 0 <= sequence_number s <= 255;
  si_own : bm_get (associations s) (short_address s) = Some (extended_address s);
}.

(** An outcome of an operation that makes at most [n] calls: it succeeds with [Q], or runs out of
    request ids, or out of fuel, of which there was no more than [starved] says. *)
Definition spends {A} (n : nat) (starved : Prop) s (x : exec A) (Q : A -> Service -> Prop) (out : A -> Service) : Prop :=
  match x with
  | Ok y => Q y (out y) /\ ids (radio (out y)) <= ids (radio s) + Z.of_nat n
  | Err Panic => 65535 < ids (radio s) + Z.of_nat n
  | Err OutOfFuel => starved
  end.

Lemma spends_bind {A B} n m (st1 st : Prop) s (x : exec A) Q out (f : A -> exec B) P out' :
  spends n st1 s x Q out -> (st1 -> st) -> (forall y, Q y (out y) -> spends m st (out y) (f y) P out') ->
  spends (n + m) st s (x ≫= f) P out'.
Proof.
  intros Hx Hst Hf. destruct x as [y|[]]; cbn [spends mbind result_bind] in *; [|lia|auto].
  destruct Hx as [Hq Hi]. specialize (Hf y Hq). destruct (f y) as [z|[]]; cbn [spends] in *; [|lia|done].
  split; [apply Hf|lia].
Qed.
Lemma spends_weaken {A} n m (st st' : Prop) s (x : exec A) (Q Q' : A -> Service -> Prop) out :
  spends n st s x Q out -> (n <= m)%nat -> (st -> st') -> (forall y, Q y (out y) -> Q' y (out y)) ->
  spends m st' s x Q' out.
Proof. intros Hx Hn Hs Hq. destruct x as [y|[]]; cbn [spends] in *; [|lia|auto]. split; [apply Hq, Hx|lia]. Qed.
Lemma spends_ret {A} st s (y : A) (Q : A -> Service -> Prop) out :
  radio (out y) = radio s -> Q y (out y) -> spends 0 st s (Ok y) Q out.
Proof. intros Er Hq. split; [done|]. rewrite Er. lia. Qed.

(** Only the radio has changed, or the radio and the set of pending addresses. *)
Definition radio_only s s' : Prop := s' = set_radio (radio s') s.
Definition pending_only s s' : Prop := s' = set_radio (radio s') (set_pending (pending_data_set s') s).

Lemma radio_only_eq s s' : radio_only s s' -> queue s' = queue s /\ packet_stream s' = packet_stream s /\
  stream_ended s' = stream_ended s /\ inflight s' = inflight s /\ pending_data_set s' = pending_data_set s.
Proof. intros E. rewrite E. done. Qed.
Lemma pending_only_eq s s' : pending_only s s' -> queue s' = queue s /\ packet_stream s' = packet_stream s /\
  stream_ended s' = stream_ended s /\ inflight s' = inflight s /\ channels s' = channels s.
Proof. intros E. rewrite E. done. Qed.

Lemma inv_call rs s l request (r' : OldRaw.RadioBridgeService) : service_inv rs s l ->
  OldRaw.command_id request <> OldRaw.RadioSetPending -> after_call request (radio s) r' -> ids (radio s) < 65535 ->
  service_inv rs (set_radio r' s) l.
Proof.
  intros [? ? ? ? ? [acts [Ep Hp]] [Hr Ho] ? ? ?] Hc Ha Hi. split; try done.
  - exists acts. split; [|done]. cbn. rewrite (pending_commands_call _ _ _ Ha), Ep.
    destruct (OldRaw.command_id request); rewrite ?app_nil_r; done.
  - cbn. split; [by eapply after_call_ok|]. destruct Ha as (_ & _ & -> & _). done.
Qed.

(** [d] was put into the set or taken out; of extended addresses the set forgets the PAN. *)
Definition pending_changed d (b : bool) (m m' : Mru.MRUAddressSet) : Prop :=
  (forall p x, Mru.contains (Mru.short m') (p, x) =
    if decide (d = OldFrame.ASShort p x) then b else Mru.contains (Mru.short m) (p, x)) /\
  forall p x, d = OldFrame.ASExtended p x -> Mru.contains (Mru.extended m') x = b.

Lemma set_pending_spec d b rs s l : service_inv rs s l -> (b = false -> ~ waits (state_of (queue s) d)) ->
  spends 1 False s (set_pending_data d b s) (fun _ s' => service_inv rs s' l /\ pending_only s s' /\
    pending_changed d b (pending_data_set s) (pending_data_set s')) id.
Proof.
  intros [? ? ? ? Hw [acts [Ep Hp]] [Hr Ho] ? ? ?] Hb.
  destruct (update_set_spec b d acts _ Hp) as (a & m & E & Hm & Hch).
  unfold set_pending_data. unfold update_set in E. rewrite E. cbn [mbind result_bind].
  assert (Hinv : forall r', radio_ok r' -> OldRaw.packet_output r' = [] ->
    pending_commands r' = pending_commands (radio s) ++ pending_bytes a ->
    service_inv rs (set_radio r' (set_pending m s)) l).
  { intros r' Hr' Ho' Ep'. split; try done.
    - intros p x Hx. cbn. rewrite (proj1 Hch). case_decide; [subst|by apply Hw]. destruct b; [done|]. by destruct (Hb eq_refl).
    - exists (acts ++ [a]). split; [|done]. cbn. rewrite Ep', Ep, bind_app. cbn. by rewrite app_nil_r. }
  assert (Hcall : forall request read, OldRaw.command_id request = OldRaw.RadioSetPending ->
    pending_bytes a = [OldRaw.data request] ->
    spends 1 False s ('(_, r) ← call_radio (A := unit) (Bridge.Call request read) (radio s); Ok (set_radio r (set_pending m s)))
      (fun _ s' => service_inv rs s' l /\ pending_only s s' /\
        pending_changed d b (pending_data_set s) (pending_data_set s')) id).
  { intros request read Hid Hd. pose proof (call_radio_eq request read (radio s)) as He.
    destruct (call_radio _ (radio s)) as [[f r']|e]; cbn.
    - destruct He as (_ & Ha & Hi). split; [|destruct Ha as (-> & _); lia]. split_and!; [|done|done].
      apply Hinv; [by eapply after_call_ok|by destruct Ha as (_ & _ & -> & _)|].
      rewrite (pending_commands_call _ _ _ Ha), Hid, Hd. done.
    - destruct He as [-> He]. cbn. lia. }
  destruct a as [|i x|i x]; cbn [handle_mru_address_set_action].
  - split; [|cbn; lia]. cbn. split_and!; [|done|done]. apply (Hinv (radio s)); [done..|]. by rewrite app_nil_r.
  - by apply Hcall.
  - by apply Hcall.
Qed.

Lemma send_noqueue_spec f rs s l : service_inv rs s l ->
  spends 1 False s (send_frame_noqueue f s)
    (fun y s' => service_inv rs s' l /\ radio_only s s' /\ send_ok y.1) snd.
Proof.
  intros Hs. unfold send_frame_noqueue. destruct (OldFrame.frame_serialize f []) as [bytes|e].
  - pose proof (call_radio_eq {| OldRaw.command_id := OldRaw.RadioSend; OldRaw.data := bytes |} (Bridge.expect_status 0) (radio s)) as He.
    unfold Bridge.send. destruct (call_radio _ (radio s)) as [[g r']|e]; cbn.
    + destruct He as (-> & Ha & Hi). split; [|destruct Ha as (-> & _); lia]. split_and!; [|done|].
      * by apply (inv_call _ _ _ _ _ Hs) in Ha.
      * change (readable (Bridge.expect_status 0)). by apply status_readable.
    + destruct He as [-> He]. cbn. lia.
  - cbn. split; [|lia]. split_and!; [done|by destruct s|done].
Qed.

(** The queue takes a step of its own. *)
Lemma inv_queue n rs s l q' : service_inv rs s l -> quiet n (queue s) q' -> queue_history q' l ->
  service_inv rs (set_queue q' s) l.
Proof.
  intros [? ? Hf ? Hw ? ? ? ? ?] [Hs Hwq _ _] Hq. split; try done.
  - intros d. specialize (Hf d). specialize (Hs d). unfold flying in *. cbn. lia.
  - intros p x Hx. apply Hw. by apply Hwq.
Qed.

Lemma history_inv (q : OldQueue.Queue) l : queue_history q l -> exists given, queue_inv q given.
Proof. intros (given & Hr & _). eexists. by apply queue_run_inv. Qed.

(** ** Packets *)

Definition queue_bounds (n : nat) s s' : Prop :=
  (size (OldQueue.queues (queue s')) <= size (OldQueue.queues (queue s)))%nat /\ (backlog (queue s') <= backlog (queue s) + n)%nat /\
  stream_ended s' = stream_ended s.

Lemma handle_frame_spec ord f s l : service_inv [] s l ->
  spends 1 False s (handle_frame ord f s) (fun _ s' => service_inv [] s' l /\ packet_stream s' = packet_stream s /\
    queue_bounds (S (size (OldQueue.queues (queue s)))) s s') snd.
Proof.
  intros Hs.
  assert (Hsame : forall e : option Event, spends 1 False s (Ok (e, s)) (fun _ s' => service_inv [] s' l /\
    packet_stream s' = packet_stream s /\ queue_bounds (S (size (OldQueue.queues (queue s)))) s s') snd).
  { intros e. split; [|cbn; lia]. split_and!; [done|done|]. unfold queue_bounds. cbn. split_and!; lia || done. }
  unfold handle_frame. destruct (OldFrame.frame_type f) as [| | |[]| | | |]; try done.
  - destruct (OldFrame.sequence_number f) as [z|]; [|done].
    destruct (history_inv _ _ (si_queue _ _ _ Hs)) as [given Hg].
    destruct (on_ack_inv ord z _ _ Hg) as (q' & E & _). rewrite E. cbn [mbind result_bind].
    pose proof (on_ack_quiet _ _ _ _ E) as Hq. split; [|cbn; lia]. cbn [snd]. split_and!; [|done|].
    + eapply inv_queue; [done|exact Hq|]. destruct (si_queue _ _ _ Hs) as (g & Hr & Eg). exists g. split; [|done].
      by eapply run_ack.
    + destruct Hq as [_ _ Hz Hb]. unfold queue_bounds. cbn. split_and!; lia || done.
  - by destruct (OldFrame.source f).
  - destruct (history_inv _ _ (si_queue _ _ _ Hs)) as [given Hg].
    destruct (request_event_inv (OldFrame.source f) _ _ Hg) as (r & q' & E & _). rewrite E. cbn [mbind result_bind].
    destruct (data_request_quiet _ _ _ _ E) as [Hq Hidle].
    assert (service_inv [] (set_queue q' s) l) as Hs1.
    { eapply inv_queue; [done|exact Hq|]. destruct (si_queue _ _ _ Hs) as (g & Hr & Eg). exists g. split; [|done].
      by eapply run_request. }
    pose proof (set_pending_spec (OldFrame.source f) r [] _ l Hs1) as Hp.
    destruct (set_pending_data _ r _) as [s2|[]]; cbn [spends mbind result_bind] in Hp |- *; try by apply Hp.
    + destruct Hp as [(Hs2 & (Eq & Ep & Ee & _)%pending_only_eq & _) Hi].
      { intros ->. cbn. rewrite Hidle by done. by intros ?%Exists_nil. }
      split; [|exact Hi]. unfold id in *. cbn [snd] in *. split_and!; [done|by rewrite Ep|].
      destruct Hq as [_ _ Hz Hb]. unfold queue_bounds. rewrite Eq, Ee. cbn. split_and!; lia || done.
    + apply Hp. intros ->. cbn. rewrite Hidle by done. by intros ?%Exists_nil.
    + apply Hp. intros ->. cbn. rewrite Hidle by done. by intros ?%Exists_nil.
Qed.

Lemma poll_packets_spec fuel ord s l : service_inv [] s l ->
  spends (length (packet_stream s)) (stream_ended s = true \/ (fuel <= length (packet_stream s))%nat) s
    (poll_packets fuel ord s) (fun _ s' => service_inv [] s' l /\
      queue_bounds (length (packet_stream s) * S (size (OldQueue.queues (queue s)))) s s') snd.
Proof.
  revert s. induction fuel as [|fuel IH]; intros s Hs; cbn [poll_packets]; [right; lia|].
  unfold poll_stream. destruct (packet_stream s) as [|p rest] eqn:Es.
  { destruct (stream_ended s) eqn:Ee.
    - specialize (IH s Hs). rewrite Es in IH. destruct (poll_packets fuel ord s) as [[e s']|[]]; [done..|]. by left.
    - split; [|cbn; lia]. split; [done|]. unfold queue_bounds. cbn. split_and!; lia || done. }
  assert (service_inv [] (set_packet_stream rest s) l) as Hs0.
  { destruct Hs as [? ? ? ? ? ? ? Hp ? ?]. split; try done. rewrite Es in Hp. by apply Forall_cons in Hp as [_ ?]. }
  assert (bytes_ok (OldRaw.packet p)) as Hpk.
  { pose proof (si_packets _ _ _ Hs) as Hp. rewrite Es in Hp. by apply Forall_cons in Hp as [? _]. }
  assert (Hh : spends 1 False (set_packet_stream rest s) (handle_packet ord p (set_packet_stream rest s))
    (fun _ s' => service_inv [] s' l /\ packet_stream s' = rest /\
      queue_bounds (S (size (OldQueue.queues (queue s)))) s s') snd).
  { unfold handle_packet. pose proof (old_frame_deserialize_total _ Hpk) as Hn. unfold no_panic in Hn.
    destruct (OldFrame.frame_deserialize (OldRaw.packet p)) as [[i f]|[|e]]; [|done|].
    - exact (handle_frame_spec ord f _ l Hs0).
    - split; [|cbn; lia]. split_and!; [done|done|]. unfold queue_bounds. cbn. split_and!; lia || done. }
  destruct (handle_packet ord p _) as [[e s1]|[]]; cbn [spends mbind result_bind] in Hh |- *; [|cbn in Hh |- *; lia|done].
  destruct Hh as [(Hs1 & Ep & Hz & Hb & He) Hi]. cbn [snd] in *. destruct e as [e|].
  { split; [|cbn in *; lia]. split; [done|]. unfold queue_bounds. cbn in *. split_and!; lia || done. }
  specialize (IH s1 Hs1). rewrite Ep, He in IH.
  destruct (poll_packets fuel ord s1) as [[e' s2]|[]]; cbn [spends] in *; cbn in Hi.
  - destruct IH as [(Hs2 & Hz2 & Hb2 & He2) Hi2]. cbn [snd] in *. split; [|cbn [length]; lia].
    split; [done|]. unfold queue_bounds. split_and!; [lia| |congruence]. cbn [length]. nia.
  - cbn [length]. lia.
  - cbn [length]. destruct IH as [?|?]; [by left|right; lia].
Qed.
(** ** The queue and the frames in flight *)

Lemma flight_split rs d d' : length (filter (fun x => x = d') (d :: rs)) =
  ((if decide (d' = d) then 1 else 0) + length (filter (fun x => x = d') rs))%nat.
Proof. rewrite filter_cons. repeat case_decide; try done; congruence. Qed.

(** A frame that the queue gave out is on its way to be sent. *)
Lemma inv_out n rs s l d f q1 q' : service_inv rs s l -> quiet n (queue s) q1 -> OldQueue.queues q' = OldQueue.queues q1 ->
  OldQueue.outgoing q1 = (d, f) :: OldQueue.outgoing q' -> queue_history q' l -> service_inv (d :: rs) (set_queue q' s) l.
Proof.
  intros [? ? Hf ? Hw ? ? ? ? ?] [Hs Hwq _ _] Eq Eo Hq.
  assert (forall d', state_of q' d' = state_of q1 d') as Est by (intros d'; unfold state_of; by rewrite Eq).
  split; try done.
  - intros d'. specialize (Hf d'). specialize (Hs d'). rewrite flight_split. cbn [queue set_queue]. rewrite Est.
    assert (launched q1 d' = (if decide (d' = d) then 1 else 0) + launched q' d')%nat as El.
    { unfold launched. rewrite Eo, filter_cons. cbn [fst]. repeat case_decide; try done; congruence. }
    unfold flying in *. cbn [inflight set_queue]. lia.
  - intros p x. cbn [queue set_queue]. rewrite Est. intros Hx. by apply Hw, Hwq.
Qed.

Lemma sending_le q : (sending q <= 1)%nat.
Proof. destruct q; cbn; lia. Qed.

(** It is in flight: there was none of its destination. *)
Lemma inv_fly rs s l d f : service_inv (d :: rs) s l -> send_ok f ->
  service_inv rs (set_inflight (<[d := f]> (inflight s)) s) l.
Proof.
  intros [? ? Hf Hfu ? ? ? ? ? ?] Hok. split; try done.
  - intros d'. pose proof (Hf d') as Hd. rewrite flight_split in Hd. unfold flying in *. cbn [inflight queue set_inflight].
    pose proof (sending_le (state_of (queue s) d')). destruct (decide (d' = d)) as [->|Hne].
    + rewrite lookup_insert_eq, decide_True by done. case_decide; lia.
    + rewrite lookup_insert_ne by done. lia.
  - by apply map_Forall_insert_2.
Qed.

(** Its future is ready, and the result is to be reported. *)
Lemma inv_land rs s l d f : service_inv rs s l -> inflight s !! d = Some f ->
  service_inv (rs ++ [d]) (set_inflight (delete d (inflight s)) s) l.
Proof.
  intros [? ? Hf Hfu ? ? ? ? ? ?] Hd. split; try done.
  - intros d'. pose proof (Hf d') as Hd'. unfold flying in *. cbn [inflight queue set_inflight]. rewrite filter_app, length_app, flight_split.
    destruct (decide (d' = d)) as [->|Hne].
    + rewrite lookup_delete_eq, decide_False by (by intros []). rewrite Hd, decide_True in Hd' by done. cbn. lia.
    + rewrite lookup_delete_ne by done. cbn. lia.
  - by apply map_Forall_delete.
Qed.

Lemma poll_queue_spec fuel w clock s l : service_inv [] s l ->
  spends (backlog (queue s) + length (concat clock)) (fuel <= backlog (queue s) + length (concat clock))%nat s
    (poll_queue fuel w clock s) (fun _ s' => service_inv [] s' l) id.
Proof.
  revert clock s. induction fuel as [|fuel IH]; intros clock s Hs; cbn [poll_queue]; [cbn; lia|].
  set (envs := default [] (head clock)).
  assert (length (concat clock) = length envs + length (concat (tail clock)))%nat as Ec.
  { destruct clock; [done|]. cbn. by rewrite length_app. }
  destruct (history_inv _ _ (si_queue _ _ _ Hs)) as [given Hg].
  destruct (poll_next_inv envs w _ _ Hg) as (r & q' & E & _). rewrite E. cbn [mbind result_bind].
  assert (queue_history q' l) as Hq'.
  { destruct (si_queue _ _ _ Hs) as (g & Hr & Eg). exists g. split; [|done]. by eapply OldQueueTheory.run_poll. }
  destruct (poll_quiet _ _ _ _ _ E) as (q1 & Hq & Eq & Hr). pose proof (qt_backlog _ _ _ Hq) as Hb.
  assert (OldQueue.outgoing q' = OldQueue.outgoing q1 -> service_inv [] (set_queue q' s) l) as Hsame.
  { intros Eo. apply (inv_queue (length envs + backlog q') [] s l q'); [done| |done]. destruct Hq as [S W Z B].
    assert (forall d, state_of q' d = state_of q1 d) as Est by (intros d; unfold state_of; by rewrite Eq).
    split; [intros d; rewrite Est; unfold launched; rewrite Eo; apply S|intros d; rewrite Est; apply W|rewrite Eq; exact Z|lia]. }
  destruct r as [[[d f|d]|]|]; [..|done|].
  - destruct Hr as [Eo Ef].
    assert (backlog q1 = S (backlog q')) as Eb by (unfold backlog; rewrite Eo, Ef; done).
    pose proof (inv_out _ _ _ _ _ _ _ _ Hs Hq Eq Eo Hq') as Hs1.
    apply (spends_weaken (1 + (backlog q' + length (concat (tail clock)))) _
      (fuel <= backlog q' + length (concat (tail clock)))%nat _ _ _ (fun _ s' => service_inv [] s' l)); [|lia| |].
    + eapply spends_bind; [exact (send_noqueue_spec f _ _ l Hs1)|done|].
      intros [fut s2] (Hs2 & (Er & _)%radio_only_eq & Hok). cbn [snd fst] in *.
        specialize (IH (tail clock) (set_inflight (<[d := fut]> (inflight s2)) s2)). cbn in Er |- *.
        change (queue (set_inflight _ s2)) with (queue s2) in IH. rewrite Er in IH. apply IH. by apply inv_fly.
    + cbn. lia.
    + done.
  - destruct Hr as (Eo & Hlt & Hidle). specialize (Hsame Eo).
    apply (spends_weaken (1 + (backlog q' + length (concat (tail clock)))) _
      (fuel <= backlog q' + length (concat (tail clock)))%nat _ _ _ (fun _ s' => service_inv [] s' l)); [|lia| |].
    + eapply spends_bind; [apply (set_pending_spec d false _ _ l Hsame)|done|].
      { intros _. cbn. rewrite Hidle. by intros ?%Exists_nil. }
      intros s2 (Hs2 & (Er & _)%pending_only_eq & _). unfold id in *.
        specialize (IH (tail clock) s2 Hs2). rewrite Er in IH. exact IH.
    + cbn. lia.
    + done.
  - destruct Hr as [Eo _]. split; [by apply Hsame|]. cbn. lia.
Qed.

Lemma poll_inflight_spec order results s l : service_inv results.*1 s l ->
  exists results' s', poll_inflight order results s = Ok (results', s') /\ service_inv results'.*1 s' l /\
    radio s' = radio s.
Proof.
  revert results s. induction order as [|d order IH]; intros results s Hs; cbn [poll_inflight]; [by eexists _, _|].
  destruct (inflight s !! d) as [f|] eqn:Ed; [|by apply IH].
  pose proof (si_futures _ _ _ Hs d f Ed) as Hf.
  assert (exists p, poll_send f s = Ok p) as [p ->].
  { destruct f as [e|f]; cbn [poll_send]; [by eexists|].
    destruct (poll_radio_total (radio s) f (proj1 (si_radio _ _ _ Hs)) Hf) as [[x|] ->]; by eexists. }
  cbn [mbind result_bind]. destruct p as [res|]; [|by apply IH].
  destruct (IH (results ++ [(d, res)]) (set_inflight (delete d (inflight s)) s)) as (r' & s' & E & Hs' & Er).
  { rewrite fmap_app. by eapply inv_land. }
  by exists r', s'.
Qed.

Lemma report_results_spec results s l : service_inv results.*1 s l ->
  exists s', report_results results s = Ok s' /\ service_inv [] s' l /\ radio s' = radio s.
Proof.
  revert s. induction results as [|[d r] results IH]; intros s Hs; cbn [report_results]; [by exists s|].
  destruct (history_inv _ _ (si_queue _ _ _ Hs)) as [given Hg].
  destruct (sent_event_inv d (is_ok r) _ _ Hg) as (q' & E & _). rewrite E. cbn [mbind result_bind].
  destruct (send_result_effect _ _ _ _ E) as [Hl Hwq].
  destruct (IH (set_queue q' s)) as (s' & -> & Hs' & Er); [|by exists s'].
  destruct Hs as [(g & Hr & Eg) ? Hf ? Hw ? ? ? ? ?]. split; try done.
  - exists g. split; [|done]. by eapply run_sent.
  - intros d'. pose proof (Hf d') as Hd. pose proof (Hl d') as Hld. cbn [fmap list_fmap fst] in Hd. rewrite flight_split in Hd. unfold flying in *. cbn.
    pose proof (sending_le (state_of (queue s) d')).
    destruct (decide (d' = d)) as [->|]; lia.
  - intros p x Hx. by apply Hw, Hwq.
Qed.

(** What a poll may need: the packets, the frames and flushed queues they and the timers bring *)
Definition poll_bound (env : poll_env) s : nat :=
  (length (packet_stream s) + length (packet_stream s) * S (size (OldQueue.queues (queue s))) +
   backlog (queue s) + length (concat (clock env)))%nat.

Lemma poll_next_spec fuel env s l : service_inv [] s l ->
  spends (poll_bound env s) (stream_ended s = true \/ (fuel <= poll_bound env s)%nat) s (poll_next fuel env s)
    (fun _ s' => service_inv [] s' l) snd.
Proof.
  intros Hs. unfold poll_next. set (P := length (packet_stream s)). set (Z := size (OldQueue.queues (queue s))).
  set (T := length (concat (clock env))).
  apply (spends_weaken (P + (P * S Z + backlog (queue s) + T)) _
    (stream_ended s = true \/ (fuel <= poll_bound env s)%nat) _ _ _ (fun _ s' => service_inv [] s' l));
    [|unfold poll_bound; fold P Z T; lia|done|done].
  eapply (spends_bind P _ (stream_ended s = true \/ (fuel <= P)%nat)); [exact (poll_packets_spec fuel _ s l Hs)| |].
  { intros [?|?]; [by left|right]. unfold poll_bound. fold P Z T. lia. }
  intros [e s1] (Hs1 & _ & Hb & He). cbn [snd] in *. fold P Z in Hb. destruct e as [e|].
  { apply (spends_weaken 0 _ False _ _ _ (fun _ s' => service_inv [] s' l)); [|lia|done|done]. by apply spends_ret. }
  apply (spends_weaken ((backlog (queue s1) + T) + 0) _ (fuel <= backlog (queue s1) + T)%nat _ _ _ (fun _ s' => service_inv [] s' l));
    [|lia| |done].
  2: { intros Hf. right. unfold poll_bound. fold P Z T. lia. }
  eapply spends_bind; [exact (poll_queue_spec fuel (waker env) (clock env) s1 l Hs1)|done|].
  unfold id. intros s2 Hs2.
  destruct (poll_inflight_spec (iter_order _ (walk env) 1 (fst <$> map_to_list (inflight s2))) [] s2 l Hs2)
    as (results & s3 & -> & Hs3 & Er3). cbn [mbind result_bind].
  destruct (report_results_spec results s3 l Hs3) as (s4 & -> & Hs4 & Er4). cbn [mbind result_bind].
  apply spends_ret; [|done]. cbn. congruence.
Qed.

(** ** The other operations *)

Lemma fresh_number_spec s l : service_inv [] s l ->
  match fresh_sequence_number s with
  | Ok (n, s') => service_inv [] s' l /\ n = sequence_number s' /\ sequence_number s' = sequence_number s + 1 /\
      s' = set_sequence_number (sequence_number s') s /\ sequence_number s < 255
  | Err e => e = Panic /\ sequence_number s = 255
  end.
Proof.
  intros Hs. pose proof (si_sequence _ _ _ Hs). unfold fresh_sequence_number. case_decide; [|split; [done|lia]].
  split_and!; [|done|done|done|lia]. destruct Hs. split; try done. cbn. lia.
Qed.

Lemma beacon_spec payload s l : service_inv [] s l -> sequence_number s < 255 ->
  spends 1 False s (send_beacon payload s) (fun _ s' => service_inv [] s' l) snd.
Proof.
  intros Hs Hn. unfold send_beacon. pose proof (fresh_number_spec s l Hs) as Hf.
  destruct (fresh_sequence_number s) as [[n s1]|e]; [|lia]. destruct Hf as (Hs1 & _ & _ & Es & _).
  cbn [mbind result_bind].
  match goal with |- context [send_frame_noqueue ?f s1] => pose proof (send_noqueue_spec f _ _ _ Hs1) as Hsend end.
  assert (radio s1 = radio s) as Er by by rewrite Es.
  unfold spends in *. rewrite Er in Hsend.
  destruct (send_frame_noqueue _ s1) as [y|[]]; [|done..]. by destruct Hsend as [(? & _) ?].
Qed.

(** Short addresses *)
Lemma find_free_spec fuel x (m : M) : 0 <= x -> 65536 <= x + Z.of_nat fuel -> x <= 65535 ->
  match find_free_loop fuel x m with
  | Ok y => x <= y <= 65535 /\ bm_get m y = None /\ forall z, x <= z < y -> is_Some (bm_get m z)
  | Err e => e = Panic /\ forall z, x <= z <= 65535 -> is_Some (bm_get m z)
  end.
Proof.
  revert x. induction fuel as [|fuel IH]; intros x Hx Hf Hx'; cbn [find_free_loop]; [lia|].
  rewrite bm_contains_left_get. case_bool_decide as Hc.
  - unfold OldRaw.u16_succ. case_decide; cbn [mbind result_bind].
    + specialize (IH (x + 1)). destruct (find_free_loop fuel (x + 1) m) as [y|e].
      * destruct IH as (? & ? & Hz); [lia..|]. split_and!; [lia..|done|]. intros z ?.
        destruct (decide (z = x)) as [->|]; [done|]. apply Hz. lia.
      * destruct IH as [? Hz]; [lia..|]. split; [done|]. intros z ?.
        destruct (decide (z = x)) as [->|]; [done|]. apply Hz. lia.
    + split; [done|]. intros z ?. by assert (z = x) as -> by lia.
  - split_and!; [lia..|by apply eq_None_not_Some|]. intros z ?. lia.
Qed.
Lemma find_free_address_spec s :
  match find_free_short_address s with
  | Ok y => 0 <= y <= 65535 /\ bm_get (associations s) y = None /\
      forall z, 0 <= z < y -> is_Some (bm_get (associations s) z)
  | Err e => e = Panic /\ forall z, 0 <= z <= 65535 -> is_Some (bm_get (associations s) z)
  end.
Proof. unfold find_free_short_address. apply find_free_spec; lia. Qed.

Lemma get_by_right_None (m : M) (a : Z) : bm_get_by_right (L := Z) m a = None -> forall x : Z, bm_get m x <> Some a.
Proof. intros E x Hl. apply bm_get_right in Hl. congruence. Qed.

(** Associating adds at most one pair, and changes nothing else of the map. *)
Definition associated (a x : Z) (m m' : M) : Prop :=
  bm_get m' x = Some a /\ forall y, bm_get m' y = if decide (y = x) then Some a else bm_get m y.

Lemma associate_spec a rx s : 
  match associate a rx s with
  | Ok (x, s') => associated a x (associations s) (associations s') /\
      s' = set_nodes (associations s') (<[a := {| receiver_on_when_idle := rx |}]> (nodeinfo s)) s /\
      (bm_get (associations s) x = Some a \/
       bm_get (associations s) x = None /\ 0 <= x <= 65535 /\ (forall y : Z, bm_get (associations s) y <> Some a) /\
       forall z, 0 <= z < x -> is_Some (bm_get (associations s) z))
  | Err e => e = Panic /\ forall z, 0 <= z <= 65535 -> is_Some (bm_get (associations s) z)
  end.
Proof.
  unfold associate. cbn [associations set_nodes].
  destruct (bm_get_by_right (associations s) a) as [x|] eqn:E.
  - apply bm_get_right in E. split_and!; [|done|by left]. split; [done|]. intros y. cbn. case_decide; by subst.
  - pose proof (find_free_address_spec (set_nodes (associations s) (<[a := {| receiver_on_when_idle := rx |}]> (nodeinfo s)) s)) as Hf.
    destruct (find_free_short_address _) as [x|e]; cbn [mbind result_bind]; [|exact Hf]. cbn [associations set_nodes] in Hf.
    destruct Hf as (Hx & Hn & Hl). pose proof (get_by_right_None _ _ E) as Ha. split_and!; [|done|by right].
    cbn. assert (forall y, bm_get (bm_insert x a (associations s)) y = if decide (y = x) then Some a else bm_get (associations s) y) as Hg.
    { intros y. rewrite bm_get_insert. case_decide; [done|]. rewrite decide_False; [done|apply Ha]. }
    split; [|done]. by rewrite Hg, decide_True.
Qed.

Lemma associate_inv a rx s x s' l : service_inv [] s l -> associate a rx s = Ok (x, s') -> service_inv [] s' l.
Proof.
  intros Hs E. pose proof (associate_spec a rx s) as Ha. rewrite E in Ha. destruct Ha as ([Hg Ho] & Es & Hx).
  destruct Hs as [? ? ? ? ? ? ? ? ? Hown]. rewrite Es. split; try done. cbn. rewrite Ho. case_decide as Hd; [|done].
  rewrite Hd in Hown. destruct Hx as [?|(? & _)]; congruence.
Qed.

Lemma command_inv cmd s l : service_inv [] s l -> bytes_ok (Serial.data cmd) ->
  exists s', command_arrives cmd s = Ok s' /\ service_inv [] s' l.
Proof.
  intros [? ? ? ? ? [acts [Ep Hp]] [Hr Ho] Hpk ? ?] Hb. unfold command_arrives.
  destruct (incoming_ok cmd (radio s) Hb Hr) as (r' & new & -> & Hr' & Hi & Hs & Ho' & Hn). cbn [mbind result_bind].
  eexists. split; [reflexivity|]. split; try done.
  - exists acts. split; [|done]. cbn. unfold pending_commands, drain. cbn. rewrite Hs. exact Ep.
  - split; [|done]. destruct Hr'. by split.
  - cbn. rewrite Ho', Ho. by apply Forall_app.
Qed.
Lemma queued_spec f s l : service_inv [] s l ->
  spends 1 False s (send_frame_queued f s) (fun y s' => y.1 = AwaitReport (channels s) /\
    service_inv [] s' (l ++ [(OldFrame.destination f, channels s)])) snd.
Proof.
  intros Hs. unfold send_frame_queued. set (d := OldFrame.destination f). set (rx := default true _).
  apply (spends_weaken (1 + 0) _ False _ _ _ (fun y s' => y.1 = AwaitReport (channels s) /\
    service_inv [] s' (l ++ [(d, channels s)]))); [|lia|done|done].
  apply (spends_bind _ _ False _ _ _ (fun _ s' => service_inv [] s' l /\ channels s' = channels s /\
    (rx = false -> forall p x, d = OldFrame.ASShort p x ->
      Mru.contains (Mru.short (pending_data_set s')) (p, x) = true)) id); [|done|].
  { destruct rx; cbn [negb].
    - apply (spends_weaken 0 _ False _ _ _ (fun _ s' => s' = s)); [by apply spends_ret|lia|done|].
      by intros y ->.
    - apply (spends_weaken 1 _ False _ _ _ _ _ _ (set_pending_spec d true [] s l Hs ltac:(done))); [lia|done|].
      intros y (Hs' & (_ & _ & _ & _ & Ec)%pending_only_eq & [Hc _]). split_and!; [done|done|].
      intros _ p x Hd. rewrite Hc. by rewrite decide_True. }
  unfold id. intros s1 (Hs1 & Ec & Hp). cbn [next_channel]. rewrite Ec.
  destruct (history_inv _ _ (si_queue _ _ _ Hs1)) as [given Hg].
  cbn [queue].
  destruct (enqueue_inv (channels s) f rx _ _ Hg) as (q' & E & _). rewrite E. cbn [mbind result_bind].
  destruct (enqueue_effect _ _ _ _ _ E) as [Hl Hwq]. apply spends_ret; [done|]. split; [done|].
  destruct Hs1 as [(g & Hr & Eg) [Hnd Hlt] Hf ? Hw ? ? ? ? ?]. split; try done; cbn.
  - exists (g ++ [(d, new_item (channels s) f rx)]). split; [by apply run_enqueue with (queue s1)|].
    rewrite fmap_app, Eg. done.
  - rewrite Ec in Hlt. rewrite fmap_app, NoDup_app, Forall_app. split_and!; [done| |apply NoDup_singleton| |].
    + cbn. intros c Hc ->%list_elem_of_singleton. apply (proj1 (Forall_forall _ _) Hlt) in Hc. lia.
    + eapply Forall_impl; [exact Hlt|]. cbn. lia.
    + constructor; [cbn; lia|done].
  - intros d'. pose proof (Hf d'). pose proof (Hl d'). unfold flying in *. cbn in *. lia.
  - intros p x [Hx|[Hd Hrx]]%Hwq; [by apply Hw|]. by apply Hp.
Qed.

Lemma response_spec a s l : service_inv [] s l -> sequence_number s < 255 ->
  spends 1 False s (send_association_response a s) (fun y s' => service_inv [] s'
    (l ++ match y.1 with AwaitReport c => [(OldFrame.ASExtended (pan_id s) a, c)] | ReplyFailed _ => [] end)) snd.
Proof.
  intros Hs Hn. unfold send_association_response. destruct (bm_get_by_right (associations s) a) as [x|].
  - pose proof (fresh_number_spec s l Hs) as Hf.
    destruct (fresh_sequence_number s) as [[n s1]|e]; [|lia]. destruct Hf as (Hs1 & _ & _ & Es & _).
    cbn [mbind result_bind].
    match goal with |- context [send_frame_queued ?f s1] => pose proof (queued_spec f _ _ Hs1) as Hq end.
    assert (radio s1 = radio s) as Er by by rewrite Es. assert (pan_id s1 = pan_id s) as Epan by by rewrite Es.
    unfold spends in *. rewrite Er in Hq. cbn [OldFrame.destination] in Hq.
    destruct (send_frame_queued _ s1) as [[y s2]|[]]; [|done..]. cbn [fst snd] in *.
    destruct Hq as [[-> ?] ?]. by rewrite <- Epan.
  - apply (spends_weaken 0 _ False _ _ _ (fun y s' => s' = s /\ y.1 = ReplyFailed NodeNotAssociated)); [|lia|done|].
    + by apply spends_ret.
    + intros y [-> ->]. by rewrite app_nil_r.
Qed.

(** ** Every run *)

Lemma fresh_inv channel short pan packets s : Forall packet_ok packets ->
  fresh_service channel short pan packets s -> service_inv [] s [].
Proof.
  intros Hpk [[max [Hr Hsink Hids Ho]] Hp (_ & Hseq & _) (_ & Esh & _ & Ha) [Eq Ei] Hset]. split.
  - exists []. rewrite Eq. split; [constructor|done].
  - split; [apply NoDup_nil_2|done].
  - intros d. rewrite Eq. unfold flying. rewrite Ei, lookup_empty, decide_False by by intros []. done.
  - rewrite Ei. apply map_Forall_empty.
  - intros p x. rewrite Eq. cbn. by intros ?%Exists_nil.
  - exists []. split; [|done]. unfold pending_commands. by rewrite Hsink.
  - done.
  - by rewrite Hp.
  - lia.
  - rewrite Ha, Esh, bm_get_insert. by rewrite decide_True.
Qed.

Lemma service_run_inv s l : service_run s l -> service_inv [] s l.
Proof.
  induction 1 as [packets channel short pan st r s st' r' Hst E|cmd s l s' _ IH Hb E|s l _ IH|payload f s l s' _ IH E
    |a rx x s l s' _ IH E|a f s l s' _ IH E|f r s l s' _ IH E|fuel env x s l s' _ IH E].
  - destruct (starting_run_ok channel short pan _ _ _ Hst) as [Hok Hpk].
    destruct (poll_new_ok channel short pan packets st r Hok) as (p & st1 & r1 & E1 & Hp). rewrite E1 in E.
    injection E as -> _ _. by eapply fresh_inv.
  - destruct (command_inv cmd s l IH Hb) as (s1 & E1 & Hs1). rewrite E1 in E. by injection E as <-.
  - destruct IH. by split.
  - assert (sequence_number s < 255) as Hn.
    { pose proof (fresh_number_spec s l IH) as Hf. unfold send_beacon in E.
      destruct (fresh_sequence_number s) as [[]|]; [tauto|done]. }
    pose proof (beacon_spec payload s l IH Hn) as Hb. rewrite E in Hb. apply Hb.
  - by eapply associate_inv.
  - destruct (bm_get_by_right (associations s) a) as [y|] eqn:Ea.
    + assert (sequence_number s < 255) as Hn.
      { pose proof (fresh_number_spec s l IH) as Hf. unfold send_association_response in E. rewrite Ea in E.
        destruct (fresh_sequence_number s) as [[]|]; [tauto|done]. }
      pose proof (response_spec a s l IH Hn) as Hb. rewrite E in Hb. apply Hb.
    + unfold send_association_response in E. rewrite Ea in E. injection E as <- <-. by rewrite app_nil_r.
  - pose proof (queued_spec f s l IH) as Hq. rewrite E in Hq. apply Hq.
  - pose proof (poll_next_spec fuel env s l IH) as Hp. rewrite E in Hp. apply Hp.
Qed.
End run.
