(* ===== verification/OldMacServiceGuarantees.v ===== *)
(** * What the first version's MAC service guarantees *)

From Stdlib Require Import ZArith Lia.
From S2P Require Import Prelude.
From S2P Require Import Async.
From S2P Require Import BiMap.
From S2P Require Import BitField.
From S2P Require Import Bytes.
From S2P Require Import ParseSerialize.
From S2P Require Import OldFrame.
From S2P Require Import MruSet.
From S2P Require Import MruSetTheory.
From S2P Require Import SerialProtocol.
From S2P Require Import RawService.
From S2P Require Import DelayQueue.
From S2P Require Import OldDeviceQueue.
From S2P Require Import OldDeviceQueueTheory.
From S2P Require Import OldQueue.
From S2P Require Import OldQueueTheory.
From S2P Require Import OldQueueEffects.
From S2P Require Import OldMacService.
From S2P Require Import OldMacServiceTheory.
From S2P Require Import OldMacServiceRun.

Import OldService.

#[local] Open Scope Z_scope.

Section guarantees.
Context `{!ParseSerialize, !ParseSerializeLaws, !BitRange, !BitRangeLaws, !BytesBuf, !BytesBufLaws}.
Context `{!TokioDelayQueue AddressSpecification, !TokioDelayQueueLaws AddressSpecification}.
Context {M : Type} `{!BiMap Z Z M, !BiMapLaws Z Z M}.
Implicit Types (s : Service (M := M)) (d : AddressSpecification) (l : list (AddressSpecification * N)).

Definition address_free s : Prop := exists x, 0 <= x <= 65535 /\ bm_get (associations s) x = None.

(** The commands sent to the radio put the eight newest short addresses of the set, and no others,
    into its table. *)
Definition radio_has_newest s : Prop :=
  exists acts recent, pending_commands (radio s) = acts ≫= pending_bytes /\
    (forall a, Mru.contains (Mru.short (pending_data_set s)) a = bool_decide (a ∈ recent)) /\
    (forall a, (exists i, short_table acts !! i = Some (Some a)) <-> a ∈ take 8 recent).

(** C22: In every state a running service can get into: a destination's queue waits for the
    result of a sending exactly when one frame of it was given out, to be sent or in flight, so
    that no future in flight is ever replaced; every short address that will fetch a frame of its
    queue is in the set of pending addresses; a radio that does the commands sent to it
    has the eight most recent of them in its table; and the frames queued for a destination
    were reported, each once and in order, as far as they are not still in its queue. *)
Theorem old_service_invariants s l : service_run s l ->
  (forall d, (launched (queue s) d + flying s d = sending (state_of (queue s) d))%nat) /\
  (forall p x, waits (state_of (queue s) (OldFrame.ASShort p x)) ->
    Mru.contains (Mru.short (pending_data_set s)) (p, x) = true) /\
  radio_has_newest s /\
  (forall d, (filter (fun x => x.1 = d) l).*2 =
    (told_for (queue s) d).*1 ++ (ODQ.callback <$> items (state_of (queue s) d))).
Proof.
  intros Hs%service_run_inv. split_and!.
  - intros d. pose proof (si_flight _ _ _ Hs d) as Hf. cbn in Hf. lia.
  - apply (si_waits _ _ _ Hs).
  - destruct (si_pending _ _ _ Hs) as (acts & Ep & [[recent Hr] _]). exists acts, recent. split_and!; [done| |].
    + intros a. by eapply refines_contains.
    + intros a. destruct Hr as [_ _ Hsl _]. rewrite <- (slots_elem _ _ _ _ _ Hsl). unfold is_Some.
      apply exist_proper. intros i. symmetry. apply Hsl.
  - intros d. destruct (si_queue _ _ _ Hs) as (given & Hr & El). destruct (si_channels _ _ _ Hs) as [Hn _].
    assert (ODQ.callback <$> given.*2 = l.*2) as Ec.
    { rewrite <- El, <- !list_fmap_compose. done. }
    rewrite <- (queue_run_reports _ _ Hr) by by rewrite Ec. rewrite <- El. unfold given_for. clear.
    induction given as [|[d' i] given IH]; [done|]. cbn [fmap list_fmap fst snd]. rewrite !filter_cons. cbn [fst].
    case_decide; cbn; by rewrite IH.
Qed.

(** C23: In every state a running service can get into no command from the serial line makes it
    panic, and each of its operations succeeds while there are sequence numbers (it uses
    255), request ids and short addresses left; a poll ends within a number of rounds that the
    packets, frames and timers at hand give, as long as the packet stream has not ended. *)
Theorem old_service_never_panics_but s l : service_run s l ->
  (forall cmd, bytes_ok (Serial.data cmd) -> exists s', command_arrives cmd s = Ok s') /\
  (sequence_number s < 255 -> ids (radio s) < 65535 ->
    (forall payload, exists f s', send_beacon payload s = Ok (f, s')) /\
    (forall a, exists f s', send_association_response a s = Ok (f, s'))) /\
  (forall a rx, address_free s ->
    exists x s', associate a rx s = Ok (x, s')) /\
  (forall env fuel, stream_ended s = false -> (poll_bound env s < fuel)%nat ->
    ids (radio s) + Z.of_nat (poll_bound env s) <= 65535 -> exists r s', poll_next fuel env s = Ok (r, s')).
Proof.
  intros Hs%service_run_inv. split_and!.
  - intros cmd Hb. destruct (command_inv cmd s l Hs Hb) as (s' & E & _). by exists s'.
  - intros Hn Hi. split.
    + intros payload. pose proof (beacon_spec payload s l Hs Hn) as Hb.
      destruct (send_beacon payload s) as [[f s']|[]]; [by exists f, s'|cbn in Hb; lia|done].
    + intros a. pose proof (response_spec a s l Hs Hn) as Hb.
      destruct (send_association_response a s) as [[f s']|[]]; [by exists f, s'|cbn in Hb; lia|done].
  - intros a rx (x & Hx & Hn). pose proof (associate_spec a rx s) as Ha.
    destruct (associate a rx s) as [[y s']|e]; [by exists y, s'|]. destruct Ha as [_ Ha].
    destruct (Ha x Hx) as [b Hb]. congruence.
  - intros env fuel He Hf Hi. pose proof (poll_next_spec fuel env s l Hs) as Hp.
    destruct (poll_next fuel env s) as [[r s']|[]]; cbn in Hp; [by exists r, s'|lia|].
    destruct Hp as [?|?]; [congruence|lia].
Qed.

(** C25: Associating a device while a short address is free gives it one address for good: the
    one it has, or the least that nobody has, never the service's own; nobody else's changes,
    asking again gives the same, and the device is known by both of its addresses as one that
    listens or sleeps. *)
Theorem old_service_associates s l a rx : service_run s l ->
  address_free s ->
  exists x s', associate a rx s = Ok (x, s') /\ bm_get (associations s') x = Some a /\
    (forall y b, bm_get (associations s) y = Some b -> bm_get (associations s') y = Some b) /\
    (bm_get (associations s) x = None -> forall z, 0 <= z < x -> is_Some (bm_get (associations s) z)) /\
    (a <> extended_address s -> x <> short_address s) /\
    (forall rx', exists s'', associate a rx' s' = Ok (x, s'') /\ associations s'' = associations s') /\
    (forall p, receiver_on_when_idle <$> get_nodeinfo_for_addrspec (OldFrame.ASExtended p a) s' = Some rx) /\
    receiver_on_when_idle <$> get_nodeinfo_for_addrspec (OldFrame.ASShort (pan_id s') x) s' = Some rx.
Proof.
  intros Hs%service_run_inv (z & Hz & Hfree). pose proof (associate_spec a rx s) as Ha.
  destruct (associate a rx s) as [[x s']|e].
  2: { destruct Ha as [_ Ha]. destruct (Ha z Hz) as [b Hb]. congruence. }
  destruct Ha as ([Hg Ho] & Es & Hx). exists x, s'.
  assert (nodeinfo s' !! a = Some {| receiver_on_when_idle := rx |}) as Hn by (rewrite Es; cbn; by rewrite lookup_insert_eq).
  split_and!; [done|done|..].
  - intros y b Hy. rewrite Ho. case_decide; [|done]. subst. destruct Hx as [Hx|(Hx & _)]; congruence.
  - intros Hfx. destruct Hx as [Hx|(_ & _ & _ & Hl)]; [congruence|done].
  - intros Hne ->. pose proof (si_own _ _ _ Hs). destruct Hx as [?|[? _]]; congruence.
  - intros rx'. unfold associate. cbn [associations set_nodes].
    rewrite (proj2 (bm_get_right (associations s') x a) Hg). by eexists.
  - intros p. cbn. by rewrite Hn.
  - cbn. rewrite decide_True by done. rewrite Hg. cbn. by rewrite Hn.
Qed.

(** What stops the service: the 256th sequence number, a full address space, and the end of the
    packet stream, after which the poll goes round for ever. *)
Theorem old_service_stops s :
  (sequence_number s = 255 -> (forall payload, send_beacon payload s = Err Panic) /\
    forall a, is_Some (bm_get_by_right (associations s) a) -> send_association_response a s = Err Panic) /\
  ((forall z, 0 <= z <= 65535 -> is_Some (bm_get (associations s) z)) ->
    forall a rx, bm_get_by_right (associations s) a = None -> associate a rx s = Err Panic) /\
  (stream_ended s = true -> packet_stream s = [] -> forall fuel env, poll_next fuel env s = Err OutOfFuel).
Proof.
  split_and!.
  - intros Hn. assert (fresh_sequence_number s = Err Panic) as E.
    { unfold fresh_sequence_number. rewrite decide_False by lia. done. }
    split; [intros payload|intros a [x Hx]].
    + unfold send_beacon. by rewrite E.
    + unfold send_association_response. by rewrite Hx, E.
  - intros Hfull a rx Ha. pose proof (associate_spec a rx s) as Hs.
    destruct (associate a rx s) as [[x s']|e]; [|by destruct Hs as [-> _]].
    destruct Hs as (_ & _ & [Hx|(Hx & Hr & _)]).
    + apply bm_get_right in Hx. congruence.
    + destruct (Hfull x Hr). congruence.
  - intros He Hp fuel env. unfold poll_next.
    assert (poll_packets fuel (walk env) s = Err OutOfFuel) as ->; [|done].
    induction fuel as [|fuel IH]; [done|]. cbn [poll_packets]. unfold poll_stream. by rewrite Hp, He.
Qed.

(** When the addresses up to 0xFFFD are taken, the next device gets one of the two reserved
    ones: 0xFFFE, which says that a device has none, or the broadcast address. *)
Theorem reserved_address_given s l a rx x s' : service_run s l ->
  (forall z, 0 <= z < 65534 -> is_Some (bm_get (associations s) z)) ->
  (forall y : Z, bm_get (associations s) y <> Some a) -> associate a rx s = Ok (x, s') ->
  x = 65534 \/ x = OldFrame.short_broadcast.
Proof.
  intros _ Hfull Ha E. pose proof (associate_spec a rx s) as Hs. rewrite E in Hs.
  destruct Hs as (_ & _ & [Hx|(Hx & Hr & _)]); [by destruct (Ha x)|].
  destruct (decide (x < 65534)); [|unfold OldFrame.short_broadcast; lia].
  destruct (Hfull x) as [b Hb]; [lia|congruence].
Qed.
(** ** A sleeping device joins *)

Definition association_response (s : Service (M := M)) (a x n : Z) : OldFrame.Frame :=
  {| OldFrame.frame_pending := false; OldFrame.acknowledge_request := true;
     OldFrame.sequence_number := Some n; OldFrame.destination := OldFrame.ASExtended (pan_id s) a;
     OldFrame.source := OldFrame.ASExtended (pan_id s) (extended_address s);
     OldFrame.frame_type := OldFrame.FTCommand (OldFrame.AssociationResponse x OldFrame.AssociationSuccessful);
     OldFrame.payload := [] |}.

(** A frame queued for a sleeping device that has none waits for its data request. *)
Lemma enqueue_sleeping token f s q : OldQueue.enqueue token f false (queue s) = Ok q ->
  state_of (queue s) (OldFrame.destination f) = ODQ.Idle ->
  OldQueue.outgoing q = OldQueue.outgoing (queue s) /\
  state_of q (OldFrame.destination f) = ODQ.WaitingForDataRequest (new_item token f false) [].
Proof.
  intros E Hi. unfold OldQueue.enqueue in E.
  eapply update_effect in E as (Eo & _ & Eq); [|by rewrite Hi]. split; [rewrite Eo; apply app_nil_r|].
  rewrite (state_of_update (queue s) q _ (ODQ.WaitingForDataRequest (new_item token f false) []) Eq).
  by rewrite decide_True.
Qed.

(** Its data request sends the frame out. *)
Lemma data_request_sends d i (s : Service (M := M)) r q : OldQueue.on_data_request d (queue s) = Ok (r, q) ->
  state_of (queue s) d = ODQ.WaitingForDataRequest i [] ->
  r = true /\ OldQueue.outgoing q = OldQueue.outgoing (queue s) ++ [(d, ODQ.frame i)].
Proof.
  intros E Hi. unfold OldQueue.on_data_request in E. apply result_bind_Ok in E as (q1 & E & [= Er <-]).
  eapply update_effect in E as (Eo & _ & Eq); [|by rewrite Hi]. split; [|exact Eo].
  pose proof (state_of_update (queue s) q1 d (ODQ.SendStarted i [] (OldFrame.expect_ack (ODQ.frame i))) Eq d) as Hs. rewrite decide_True in Hs by done. unfold state_of in Hs.
  subst r. cbn in Hs. destruct (OldQueue.queues q1 !! d); cbn in Hs; by subst.
Qed.

(** Queueing a response for a device that is known to sleep *)
Lemma respond_sleeping a x s l : service_inv [] s l -> sequence_number s < 255 -> ids (radio s) < 65535 ->
  bm_get (associations s) x = Some a -> nodeinfo s !! a = Some {| receiver_on_when_idle := false |} ->
  state_of (queue s) (OldFrame.ASExtended (pan_id s) a) = ODQ.Idle ->
  exists s', send_association_response a s = Ok (AwaitReport (channels s), s') /\
    associations s' = associations s /\ ids (radio s') <= ids (radio s) + 1 /\
    Mru.contains (Mru.extended (pending_data_set s')) a = true /\
    OldQueue.outgoing (queue s') = OldQueue.outgoing (queue s) /\
    state_of (queue s') (OldFrame.ASExtended (pan_id s) a) =
      ODQ.WaitingForDataRequest (new_item (channels s) (association_response s a x (sequence_number s + 1)) false) [].
Proof.
  intros Hs Hn Hi Hx Hinfo Hidle. unfold send_association_response.
  rewrite (proj2 (bm_get_right (associations s) x a) Hx).
  pose proof (fresh_number_spec s l Hs) as Hf.
  destruct (fresh_sequence_number s) as [[n s1]|e]; [|lia]. destruct Hf as (Hs1 & En & En' & Es & _).
  cbn [mbind result_bind].
  assert (pan_id s1 = pan_id s /\ extended_address s1 = extended_address s /\ nodeinfo s1 = nodeinfo s /\
    channels s1 = channels s /\ queue s1 = queue s /\ radio s1 = radio s /\ associations s1 = associations s)
    as (Epan & Eext & Einfo & Ech & Eq & Er & Ea) by (rewrite Es; done).
  rewrite Epan, Eext. change {| OldFrame.payload := [] |} with (association_response s a x n).
  unfold send_frame_queued. cbn [OldFrame.destination association_response get_nodeinfo_for_addrspec].
  rewrite Einfo, Hinfo. cbn [fmap option_fmap option_map default receiver_on_when_idle negb].
  pose proof (set_pending_spec (OldFrame.ASExtended (pan_id s) a) true [] s1 l Hs1 ltac:(done)) as Hp.
  destruct (set_pending_data _ true s1) as [s2|[]]; cbn [spends] in Hp; [|rewrite Er in Hp; lia|done].
  destruct Hp as [(Hs2 & Eonly & [_ Hc]) Hids]. unfold id in *. rewrite Er in Hids.
  assert (queue s2 = queue s1 /\ channels s2 = channels s1 /\ associations s2 = associations s1) as (Eq2 & Ech2 & Ea2)
    by (rewrite Eonly; done).
  cbn [mbind result_bind next_channel queue negb].
  destruct (history_inv _ _ (si_queue _ _ _ Hs2)) as [given Hg].
  destruct (enqueue_inv (channels s2) (association_response s a x n) false _ _ Hg) as (q & E & _). rewrite E.
  cbn [mbind result_bind]. rewrite Ech2, Ech in *.
  eexists. split; [reflexivity|]. cbn [associations radio pending_data_set queue set_queue].
  assert (n = sequence_number s + 1) as -> by congruence.
  apply enqueue_sleeping in E as [Eo Est]; [|by rewrite Eq2, Eq]. cbn [OldFrame.destination association_response] in Est.
  split_and!; [congruence|lia| |by rewrite Eo, Eq2, Eq|done].
  by eapply Hc.
Qed.

(** C24: A device that sleeps asks to join while its queue is idle (nothing is queued for it and
    nothing is on its way to it), fewer than 255 frames have been numbered, the radio's
    bridge has request ids left, and a short address is free: the application's answer waits for it under its extended address, which
    becomes pending, and nothing is sent; its data request then sends exactly the association
    response with the short address it was given. *)
Theorem old_sleeping_device_joins s l a ord request : service_run s l ->
  sequence_number s < 255 -> ids (radio s) < 65534 ->
  address_free s ->
  state_of (queue s) (OldFrame.ASExtended (pan_id s) a) = ODQ.Idle ->
  OldFrame.frame_type request = OldFrame.FTCommand OldFrame.DataRequest ->
  OldFrame.source request = OldFrame.ASExtended (pan_id s) a ->
  exists x s1 s2, on_mac_event (AssociationRequest a false) s = Ok s1 /\
    bm_get (associations s1) x = Some a /\ Mru.contains (Mru.extended (pending_data_set s1)) a = true /\
    OldQueue.outgoing (queue s1) = OldQueue.outgoing (queue s) /\
    handle_frame ord request s1 = Ok (None, s2) /\
    OldQueue.outgoing (queue s2) = OldQueue.outgoing (queue s) ++
      [(OldFrame.ASExtended (pan_id s) a, association_response s a x (sequence_number s + 1))].
Proof.
  intros Hs%service_run_inv Hn Hi (z & Hz & Hfree) Hidle Et Esrc. pose proof (associate_spec a false s) as Ha.
  destruct (associate a false s) as [[x s0]|e] eqn:E0.
  2: { destruct Ha as [_ Ha]. destruct (Ha z Hz) as [b Hb]. congruence. }
  pose proof (associate_inv a false s x s0 l Hs E0) as Hs0. destruct Ha as ([Hg _] & Es0 & _).
  assert (sequence_number s0 = sequence_number s /\ radio s0 = radio s /\ queue s0 = queue s /\ pan_id s0 = pan_id s /\
    extended_address s0 = extended_address s) as (En & Er & Eq & Ep & Ee) by (rewrite Es0; done).
  assert (nodeinfo s0 !! a = Some {| receiver_on_when_idle := false |}) as Hinfo by (rewrite Es0; cbn; by rewrite lookup_insert_eq).
  destruct (respond_sleeping a x s0 l Hs0) as (s1 & E1 & Ea1 & Hi1 & Hc1 & Eo1 & Est1);
    [by rewrite En|rewrite Er; lia|done|done|by rewrite Eq, Ep|].
  assert (association_response s0 a x (sequence_number s0 + 1) = association_response s a x (sequence_number s + 1)) as Eresp.
  { unfold association_response. by rewrite En, Ep, Ee. }
  rewrite Eq in Eo1. rewrite Ep, Eresp in Est1. rewrite Er in Hi1.
  pose proof (response_spec a s0 l Hs0 ltac:(by rewrite En)) as Hs1. rewrite E1 in Hs1. destruct Hs1 as [Hs1 _]. cbn [snd fst] in Hs1.
  destruct (history_inv _ _ (si_queue _ _ _ Hs1)) as [given Hgv].
  destruct (request_event_inv (OldFrame.ASExtended (pan_id s) a) _ _ Hgv) as (r & q & Eq1 & _).
  destruct (data_request_sends _ _ _ _ _ Eq1 Est1) as [-> Eo]. cbn [ODQ.frame new_item ODQ.item_new] in Eo.
  exists x, s1. pose proof (handle_frame_spec ord request s1 _ Hs1) as Hh.
  unfold handle_frame in *. rewrite Et, Esrc, Eq1 in *. cbn [mbind result_bind] in *.
  destruct (set_pending_data (OldFrame.ASExtended (pan_id s) a) true (set_queue q s1)) as [s2|e] eqn:E2;
    cbn [mbind result_bind spends] in *.
  - exists s2. split_and!; [|by rewrite Ea1|done|done|done|].
    + unfold on_mac_event. rewrite E0. cbn [mbind result_bind]. by rewrite E1.
    + assert (queue s2 = q) as ->; [|by rewrite Eo, Eo1].
      unfold set_pending_data in E2. apply result_bind_Ok in E2 as ([act m] & _ & E2).
      destruct act; cbn [handle_mru_address_set_action] in E2; bind_inv; done.
  - exfalso. destruct e; [lia|done].
Qed.
End guarantees.

(** ** A service that has started *)

#[local] Existing Instance BitRange_reference.
#[local] Existing Instance BitRange_reference_laws.
#[local] Existing Instance ParseSerialize_reference.
#[local] Existing Instance ParseSerialize_reference_laws.
#[local] Existing Instance BytesBuf_reference.
#[local] Existing Instance BytesBuf_reference_laws.
#[local] Existing Instance TokioDelayQueue_reference.
#[local] Existing Instance TokioDelayQueue_reference_laws.

Abbreviation SampleService := (Service (M := ref_map Z Z)).

(** What a radio answers to the nine requests *)
Definition sample_answers : list Serial.Command :=
  imap (fun i data => {| Serial.command_id := 128; Serial.request_id := Z.of_nat i; Serial.data := data |})
    [[0; 0; 0; 5]; [0; 0]; [0; 0]; [0; 0]; [0; 0]; [0; 0]; [0; 0]; [0; 1]; [0; 0; 0; 0; 0; 0; 0; 0; 0; 77]].
Definition next_start (st : Starting) (r : OldRaw.RadioBridgeService) :=
  poll_new (M := ref_map Z Z) [] 25 0 30360 st r.
Fixpoint boot (answers : list Serial.Command) (st : Starting) (r : OldRaw.RadioBridgeService) : exec SampleService :=
  '(p, st, r) ← next_start st r;
  match p with
  | Ready (Ok s) => Ok s
  | Ready (Err _) => Err Panic
  | Pending =>
      match answers with
      | cmd :: answers => r ← OldRaw.handle_incoming_command cmd r; boot answers st (drain r)
      | [] => Err OutOfFuel
      end
  end.
Definition sample_service : exec SampleService :=
  '(st, r) ← new OldRaw.service_new; boot sample_answers st r.

Lemma boot_run answers packets st r s : starting_run (M := ref_map Z Z) 25 0 30360 packets st r ->
  Forall (fun c => bytes_ok (Serial.data c)) answers -> packets = [] ->
  Forall (fun c => Serial.command_id c = 128) answers -> boot answers st r = Ok s ->
  service_run s [] /\ fresh_service 25 0 30360 [] s.
Proof.
  assert (Hend : forall st r st1 r1, starting_run (M := ref_map Z Z) 25 0 30360 [] st r ->
    next_start st r = Ok (Ready (Ok s), st1, r1) -> service_run s [] /\ fresh_service 25 0 30360 [] s).
  { intros st0 r0 st1 r1 Hr E. split; [by eapply run_started|]. destruct (starting_run_ok 25 0 30360 _ _ _ Hr) as [Hok _].
    destruct (poll_new_ok (M := ref_map Z Z) 25 0 30360 [] _ _ Hok) as (p & st2 & r2 & E' & Hp).
    unfold next_start in E. rewrite E' in E. by injection E as -> _ _. }
  revert packets st r. induction answers as [|cmd answers IH]; intros packets st r Hr Hb -> Hc; cbn [boot];
    intros ([[p st1] r1] & E & Hs)%result_bind_Ok.
  - destruct p as [[s'|]|]; [|done..]. injection Hs as <-. by eapply Hend.
  - apply Forall_cons in Hb as [Hb1 Hb], Hc as [Hc1 Hc].
    destruct p as [[s'|]|]; [injection Hs as <-; by eapply Hend|done|].
    apply result_bind_Ok in Hs as (r2 & E2 & Hs).
    pose proof (starting_poll 25 0 30360 _ _ _ _ _ Hr E) as Hr1.
    pose proof (starting_command 25 0 30360 cmd _ _ _ _ Hr1 Hb1 E2) as Hr2.
    eapply IH; [exact Hr2|done| |done|done].
    destruct (starting_run_ok 25 0 30360 _ _ _ Hr1) as [Hok _].
    unfold OldRaw.handle_incoming_command in E2. rewrite decide_True in E2 by done. injection E2 as <-. cbn.
    by destruct Hok as [? []|? ? []|? ? []|? ? []].
Qed.

Lemma sample_service_run : exists s, sample_service = Ok s /\ service_run s [] /\ sequence_number s = 0 /\
  ids (radio s) = 9 /\ stream_ended s = false /\ packet_stream s = [] /\ pan_id s = 30360 /\
  queue s = OldQueue.new /\ bm_get (associations s) 1 = None.
Proof.
  assert (is_ok sample_service = true) as Hok by (vm_compute; reflexivity).
  destruct sample_service as [s|] eqn:E; [clear Hok|done]. exists s.
  unfold sample_service in E. apply result_bind_Ok in E as ([st r] & E1 & E2).
  destruct (boot_run sample_answers [] st r s) as [Hr [[max Ha] Hp (He & Hs & _) (Epan & _ & _ & Eassoc) [Eq _] _]].
  - by apply starting_new.
  - apply (bool_decide_unpack _). vm_compute. exact I.
  - done.
  - apply (bool_decide_unpack _). vm_compute. exact I.
  - done.
  - split_and!; try done; [apply Ha|]. by rewrite Eassoc, bm_get_insert.
Qed.

Definition sample_env : poll_env :=
  {| waker := MkWaker 0; clock := []; walk := iter_identity _ |}.
Definition sample_request (pan : Z) : OldFrame.Frame :=
  {| OldFrame.frame_pending := false; OldFrame.acknowledge_request := true; OldFrame.sequence_number := Some 3;
     OldFrame.destination := OldFrame.ASShort 30360 0; OldFrame.source := OldFrame.ASExtended pan 5;
     OldFrame.frame_type := OldFrame.FTCommand OldFrame.DataRequest; OldFrame.payload := [] |}.

Lemma old_service_invariants_witness : exists s : SampleService, service_run s [] /\
  (forall d, (launched (queue s) d + flying s d = sending (state_of (queue s) d))%nat).
Proof.
  destruct sample_service_run as (s & _ & Hr & _). exists s. split; [exact Hr|].
  exact (proj1 (old_service_invariants s [] Hr)).
Defined.

Lemma old_service_never_panics_but_witness : exists s : SampleService, service_run s [] /\
  exists r s', poll_next 1 sample_env s = Ok (r, s').
Proof.
  destruct sample_service_run as (s & _ & Hr & _ & Hi & He & Hp & _ & Hq & _). exists s. split; [exact Hr|].
  assert (poll_bound sample_env s = 0%nat) as Hb by (unfold poll_bound, backlog; rewrite Hp, Hq; reflexivity).
  apply (proj2 (proj2 (proj2 (old_service_never_panics_but s [] Hr)))); [exact He|rewrite Hb; lia|rewrite Hb, Hi; lia].
Defined.

Lemma old_service_associates_witness : exists s : SampleService, service_run s [] /\
  address_free s /\
  exists x s', associate 5 true s = Ok (x, s') /\ bm_get (associations s') x = Some 5.
Proof.
  destruct sample_service_run as (s & _ & Hr & _ & _ & _ & _ & _ & _ & Hf). exists s. split; [exact Hr|].
  assert (address_free s) as Hfree by (exists 1; split; [lia|exact Hf]).
  split; [exact Hfree|].
  destruct (old_service_associates s [] 5 true Hr Hfree) as (x & s' & E & Hx & _). exists x, s'. split; [exact E|exact Hx].
Defined.

Lemma old_service_stops_witness : exists s : SampleService, service_run s [] /\
  stream_ended s = true /\ packet_stream s = [] /\ forall fuel, poll_next fuel sample_env s = Err OutOfFuel.
Proof.
  destruct sample_service_run as (s & _ & Hr & _ & _ & _ & Hp & _). exists (end_stream s).
  split; [by apply run_stream_ends|]. split; [reflexivity|]. split; [exact Hp|]. intros fuel.
  apply (proj2 (proj2 (old_service_stops (end_stream s)))); [reflexivity|exact Hp].
Defined.

Lemma old_sleeping_device_joins_witness : exists s : SampleService, service_run s [] /\
  sequence_number s < 255 /\ ids (radio s) < 65534 /\
  exists x s1, on_mac_event (AssociationRequest 5 false) s = Ok s1 /\ bm_get (associations s1) x = Some 5.
Proof.
  destruct sample_service_run as (s & _ & Hr & Hn & Hi & _ & _ & Hpan & Hq & Hf). exists s. split; [exact Hr|].
  split; [rewrite Hn; lia|]. split; [rewrite Hi; lia|].
  destruct (old_sleeping_device_joins s [] 5 (iter_identity _) (sample_request (pan_id s)) Hr) as (x & s1 & s2 & E & Hx & _).
  - rewrite Hn. lia.
  - rewrite Hi. lia.
  - exists 1. split; [lia|exact Hf].
  - rewrite Hq. reflexivity.
  - reflexivity.
  - reflexivity.
  - exists x, s1. split; [exact E|exact Hx].
Defined.

(** The set of pending addresses knows extended addresses without their PAN: a data request from
    the same address in another PAN takes the device's pending bit back, although its response
    still waits to be fetched. *)
Definition foreign_request : option (bool * bool) :=
  match
    s ← sample_service;
    s ← on_mac_event (AssociationRequest 5 false) s;
    '(_, s) ← handle_frame (iter_identity _) (sample_request 999) s;
    Ok s
  with
  | Ok s => Some (Mru.contains (Mru.extended (pending_data_set s)) 5,
                  match state_of (queue s) (OldFrame.ASExtended 30360 5) with
                  | ODQ.WaitingForDataRequest _ _ => true | _ => false end)
  | Err _ => None
  end.
Lemma foreign_request_clears_pending : foreign_request = Some (false, true).
Proof. vm_compute. reflexivity. Qed.

(** A beacon request from the air, and what the application sends to the radio for it *)
Definition beacon_request_packet : Serial.Command :=
  {| Serial.command_id := 192; Serial.request_id := 0;
     Serial.data := [3; 8; 165; 255; 255; 255; 255; 7; 40; 100] |}.
Definition beacon_round : exec (option Serial.Command) :=
  s ← sample_service;
  s ← command_arrives beacon_request_packet s;
  s ← main_loop 2 2 sample_env s;
  Ok (last (OldRaw.command_sink (radio s))).
Example beacon_is_sent : beacon_round = Ok (Some {|
  Serial.command_id := 2; Serial.request_id := 9;
  Serial.data := [0; 128; 1; 152; 118; 0; 0; 255; 207; 0; 0] ++ beacon_payload |}).
Proof. vm_compute. reflexivity. Qed.
